(* ===== verification/_CoqProject ===== *)
-Q . S2P
Prelude.v
Tasks.v
RustStd.v
AsyncIo.v
StoreTypes.v
Crates.v
Backend.v
MemoryBackend.v
LayerStore.v
StoreLogic.v
StoreBlobs.v
StoreMeta.v
StoreGc.v
Instances.v
StoreTheorems.v
Proto.v
Server.v
ServerTheorems.v
Upload.v
FileSys.v
LocalBackend.v
LocalTasks.v
StoreTasks.v
LocalRep.v
LocalOk.v
LocalKeys.v
LocalEffects.v
LocalRG.v
RequestsOk.v
StoreJoin.v
LocalOpen.v
BackendSim.v
LocalTheorems.v
Service.v
ServiceTheorems.v
StoreMain.v
StoreTests.v
VmState.v
Observability.v
Xtask.v
Ipam.v
EbpfNat.v
EbpfTheorems.v
Host.v
HostDemo.v
Storage.v
Cgroup.v
Tap.v
FcApi.v
DeviceTheorems.v
Provision.v
Resources.v
ProvisionLogic.v
ProvisionTheorems.v
IsolationTheorems.v
ControlMain.v
ControlTests.v
BuildTypes.v
BuildHasher.v
BuildParser.v
BuildOrchestrator.v
BuildMocks.v
BuildTrace.v
BuildTheorems.v
BuildImpl.v
Ext4Size.v
BuildGrpc.v
WireTheorems.v
BuildCli.v
