(* ===== verification/Prelude.v ===== *)
(** * Microvisor: a verification development

    Microvisor runs untrusted workloads in Firecracker microVMs.  Its
    repository has three Rust programs:

    - [fs-storage], the content-addressed store of file-system layers.  A
      layer is published with two artifacts (a deploy image and a build
      cache), recorded under the SHA-256 of its deploy artifact and found
      again by the hash of the inputs that produced it.  Manifests list the
      layers of a build; tags name manifests; a garbage collector removes the
      layers no manifest refers to.
    - [control-plane], which starts a VM: an address from the IPAM, a cgroup,
      a device-mapper snapshot, a metadata drive, a TAP interface with two
      eBPF NAT classifiers, a jail, the VMM process and its API.  Failure at
      any point runs a cleanup.
    - [build-system], which turns a Dockerfile into layers through BuildKit
      and publishes them to [fs-storage] over gRPC.

    ** The files

    Foundations
    - [Prelude]: results, the state-and-error monad [SM S E A] with its
      notation (the state reached when an error is raised is kept: Rust does
      not roll back), tactics, hints, lemmas on lists and integers.
    - [RustStd]: Rust strings as lists of scalar values, UTF-8, [trim], prefix
      and suffix tests, stable sorting.
    - [AsyncIo]: tokio's [AsyncRead] as an interface, reading to the end as a
      sequence of polls with arbitrary buffer sizes, [tokio::io::copy].
    - [Tasks]: asynchronous functions as trees of calls, run alone ([run]) or
      among others ([tstep]), and a rely-guarantee logic for them: [ok] and the
      class [RelyGuarantee].

    fs-storage
    - [StoreTypes] (types.rs): hashes and their text form, records, errors.
    - [Crates]: the functions of [hex], [sha2], [serde_json], [regex] in use,
      as class [Crates], with their documented behaviour as [CratesOk].
    - [Backend] (traits.rs): the trait as a class [StorageBackend]; the
      contract [BackendOk]: a backend represents a pair of finite maps.
    - [MemoryBackend] (backends/memory.rs): the operations, and the contract
      proved for them.
    - [LayerStore] (layer_store.rs): every function of the store, statement by
      statement, over any backend.
    - [StoreLogic], [StoreBlobs], [StoreMeta], [StoreGc]: a weakest-precondition
      calculus derived from the contract, and the lemmas of each group of
      operations.  [Instances]: concrete crates.  [StoreTheorems]: the
      properties.
    - [Proto]: the messages of the protocol.  [Server] (server.rs): every
      handler over the layer store, the channel adapter, the demultiplexer of
      an upload, the chunks of a download; a panic is a result of its own.
      [ServerTheorems]: the properties.
    - [Upload] (server.rs, layer_store.rs): the tasks of one upload, the
      demultiplexer, two channels of capacity 32 and two writers, as a step
      relation over every interleaving.
    - [FileSys]: the calls of [tokio::fs] and [std::path] the local backend
      makes, on a tree of directories and files; an oracle of faults decides
      which calls fail.  [LocalBackend] (backends/local_json.rs): every
      operation and the constructor.  [LocalRep]: where each blob and key lives
      and the layout as an invariant.  [LocalOk]: the contract proved for the
      backend, faults included.  [LocalOpen]: the constructor.  [BackendSim]:
      any backend that meets the contract answers as the abstract store.
      [LocalTheorems]: the properties.
    - [LocalTasks], [StoreTasks]: the operations of the backend and the
      requests of the layer store once more, as trees of file-system calls;
      [run_*] lemmas show that alone they do what [LocalBackend] and
      [LayerStore] say.  [LocalKeys], [LocalEffects]: the files of the store's
      keys, and what each call does to the tree.  [LocalRG]: what requests
      assume and grant each other; [RequestsOk]: every request keeps to it.
      [StoreJoin]: the two joined writes of a publication, in every order.
      [Service]: the server as a process that serves interleaved requests,
      meets faults, is killed and started again.  [ServiceTheorems]: its runs.
    - [StoreMain] (main.rs): the program.  [StoreTests]: the integration tests
      of the repository, run on both backends.

    control-plane
    - [VmState] (vmm/state.rs): states, guarded transitions, runs.
    - [Ipam] (vmm/network.rs): the atomic bitmap.  Each atomic access is a step,
      the calls of any number of threads interleave.
    - [EbpfNat], [EbpfTheorems] (microvisor-ebpf/src/main.rs,
      microvisor-common): the egress and ingress classifiers on packets as byte
      lists; the kernel's packet and checksum helpers are the class [TcContext].
    - [Host], [HostDemo]: the operating system.  A system call is a value of
      [Sys]; a [HostEnv] answers each call given all earlier calls with their
      answers, so what is proved for every [HostEnv] holds for every behaviour
      of the host.
    - [Storage] (vmm/storage.rs), [Cgroup] (vmm/cgroup.rs), [Tap]
      (vmm/network.rs), [FcApi] (vmm/firecracker_api.rs): the device functions
      as programs over the host.  [DeviceTheorems]: their properties.
    - [Provision] (vmm/mod.rs): the constructor, [setup_jail], [provision_vm], [cleanup],
      [launch_vm], with the destructors where Rust runs them.
    - [Resources], [ProvisionLogic]: what each call acquires and releases, and a
      triple calculus for resources in scope.  [ProvisionTheorems],
      [IsolationTheorems]: the properties.
    - [Observability] (vmm/observability.rs): the syscall auditor and the metric
      stubs.  [Xtask] (xtask/src/main.rs): the build of the eBPF object.
    - [ControlMain] (main.rs): the program, from the orchestrator to Ctrl-C.
      [ControlTests]: the tests of main.rs and firecracker_api.rs on the model.

    build-system
    - [BuildTypes] (types.rs, traits.rs): the records, the five traits as
      classes over a state of the outside world, and [BuildOs], the calls to
      the operating system.
    - [BuildHasher] (hasher.rs), [BuildParser] (parser.rs): the input hash and
      that its preimage can be read back; the parser, its validation and what
      an accepted graph satisfies.
    - [BuildOrchestrator] (orchestrator.rs): the build loop over the interfaces.
    - [BuildTrace]: a [BuildEnv] answers each call given all earlier ones; the
      loop as a relation on the calls that matter.  [BuildTheorems]: the
      properties, for every environment.
    - [BuildImpl] (converter.rs, buildkit.rs, store.rs): packing, the engine
      and the gRPC client behind the interfaces.  [Ext4Size]: the rounding
      errors of the size of an image.  [BuildGrpc]: the loop with the gRPC
      client.
    - [WireTheorems]: the client of the build system connected to the server
      of the layer store.
    - [BuildMocks] (mocks.rs, lib.rs): the mocks as instances of the interfaces,
      and the orchestrator's tests.  [BuildCli] (main.rs): the command line.

    ** What the theorems show

    - Store: whatever sequence of operations ran on a backend without faults
      (the uploads may fail at any byte), an input hash resolves only to a
      layer both of whose artifacts can be pulled ([cache_hit_sound]);
      publication stores what it was given, under its hash
      ([publish_layer_stores]), and with its two writes interleaved in any way
      it stores the same ([publish_layer_concurrent_agrees]); manifests, tags and the catalogue behave as maps with the documented
      errors; the collector reports exactly the unreferenced layers and removes
      nothing a manifest needs ([gc_candidates_exact], [gc_keeps_referenced]),
      as long as no call fails: it ignores failed deletions and skips manifests
      it cannot read ([gc_ignores_failed_delete], [gc_reports_referenced]).
      Runs show where the store does less than its design document says: a
      retried publication, a stale report, an index entry of a live layer, the
      integrity scan.
    - Backends: the local backend refines the in-memory one on sequences of
      operations with keys it has files for ([local_refines_memory]), and opening its directory
      recovers the store after interrupted writes ([local_open_recovers]); so
      every store theorem holds of it.  Names that are paths leave the tag
      directory ([get_tag_discloses]).
    - Service: requests interleave at every file-system call, calls fail, the
      process is killed and started again; an input hash that resolved once
      resolves ever after, to a layer that can be pulled ([hits_persist]),
      while nothing is collected.  With garbage collection there are runs that
      lose an artifact for good ([gc_race_loses_cache]) or leave an index entry
      without artifacts ([gc_kill_leaves_index]); a publisher may be told a
      layer is stored that is not ([second_publisher_early]).
    - Server: what is uploaded is what is resolved and downloaded
      ([upload_roundtrip], [wire_layer_roundtrip]), manifests survive the wire;
      an upload ends in every interleaving while its writers read
      ([upload_completes]) and hangs when one gives up ([upload_hangs]); a broken
      stream is stored ([broken_upload_published]).
    - Builds: the input hash identifies the chain of canonical instructions
      ([input_hash_identifies]); an accepted graph is well formed and builds
      unless the outside fails ([parse_graph_ok], [build_completes]); a release
      lists only layers the store confirmed and only missing stages are built
      ([build_publishes_confirmed], [build_incremental]); with the gRPC client
      no cached stage is usable ([grpc_hit_fails_build]).  The image that
      is packed is large enough for its directory, for every size a [u64]
      holds ([ext4_size_mb_bounds]).
    - IPAM: no address has two holders under any interleaving; the bitmap is
      exact; an undisturbed call returns the least free address and ends.
    - NAT: [tc_egress] passes only IPv4 packets from the guest's own address,
      never to the metadata address, and passes all of those that are complete;
      the IP, TCP and UDP checksums stay valid; nothing outside the translated
      fields changes; [tc_ingress] passes the replies on to the guest.  The ICMP
      checksum of a translated error message does not stay valid.  These are
      theorems on the two programs; which packets each is given depends on the
      hook it is attached to, and the repository reads the TAP's egress hook as
      the packets that leave the guest, which is not the kernel's reading.
    - Lifecycle: [Running] is reached only through all provisioning states,
      every run ends, teardown is always possible once provisioning began.
    - Provisioning: for every host, a failed launch has given back what it
      took, except what the host refused to take back and what
      [failed_snapshot_leaks], [failed_tap_leaks] and
      [failed_launch_leaves_directory] exhibit ([launch_vm_no_leak]); the VMM is
      started only as the jailer, with this VM's limits among its arguments and
      after its address translation, filters, cgroup limits and jail were set
      up, none of them undone ([vmm_starts_isolated]); a VM with a long id is
      never launched ([long_vm_id_rejected]).
    - Programs: the store serves the directory it is given ([main_serves]); the
      control plane stopped with Ctrl-C leaves its VM ([shutdown_leaves_vm]) and
      cannot be started again ([restart_fails]); the build task puts the eBPF
      object where the loader includes it ([build_ebpf_installs]); of the
      commands of the build tool only [build] does anything
      ([cli_stubs_do_nothing]); over the mocks a second build is all hits
      ([mock_rebuild_is_cached]).
    - Devices: the wait for the API socket ends, only 2xx answers are success,
      the SMT sibling allocator returns whole cores.

    ** Parameters

    Code outside the repository is a class argument: [Hex], [Crates] and
    [SerdeJson] (SHA-256, hexadecimal, JSON, the regular expression), [IoCopy],
    [TcContext], [HostEnv], [ApiJson], [Sha256], [IoText], [UuidGen], [BuildOs],
    [BuildEnv], [XtaskOs] and [LayerStoreRpc], the generated client stub; the
    clock and uuids of the store, the transport of the programs and their
    signals are arguments.  What
    a theorem needs of them is a second class ([HexOk], [CratesOk],
    [IoCopyOk], [UuidOk], [UuidFresh], [TcContextOk], [TcReliable],
    [KernelNames], [ThinPool], [Connected]) that states documented behaviour; [Instances], [AsyncIo], [EbpfNat],
    [HostDemo] and the [Demo] sections have concrete instances, used by the witnesses.

    ** Bounds and fuel

    - [wait_loop] (FcApi) has [wait_fuel] = 502 rounds: the deadline is five
      seconds and every round sleeps ten milliseconds, so 501 rounds reach it
      if the clock advances; [wait_for_socket_ends] proves that it then never
      runs out.  The code's loop has no bound but the clock.
    - [copy_loop] (AsyncIo), an instance of [IoCopy], runs for the measure of its
      reader plus one; [copy_loop_drains] proves that enough.
    - [pull_chunks] (Server) runs for the measure of its reader plus one;
      [pull_stream_bytes] proves that it then has the whole stream.
    - [allocate] (Ipam) retries while other threads interfere, which no bound
      covers; [allocate_obstruction_free] proves that a call that runs alone
      ends after at most three accesses.
    - [hits_persist] and [publish_layer_concurrent_agrees] are about runs that draw at most [limit] uuids, the first
      [limit] of which differ ([UuidFresh]): a text of 36 characters cannot be
      fresh for ever.
    - Machine integers are [Z] or [N] with their wrap-around written out.

    ** Not modelled, and what comes next

    - In the local backend: symbolic links, permissions, other processes on
      the directory, and loss of power: a call that was made stays made.
      [io::copy] is one call, its writes go to a file no other task knows.
    - The transport of the gRPC server and client ([Connected] is one that
      delivers everything once), argument parsing, logging.
    - A launch runs with the address manager to itself; concurrent launches
      share it in [Ipam] only.  [serve_publish_layer] gives each writer its
      whole stream; the bounded channels between them are in [Upload].
    - Module lists and the two build scripts, which call the code generator.
    - Next: requests that interleave with [gc_candidates] in one invariant,
      for the runs in which garbage collection is safe.
*)

From Stdlib Require Export Strings.Byte Ascii ZArith Lia ZifyBool.
From stdpp Require Export base decidable option list list_numbers countable gmap strings sorting.

(** ** Results and the state-and-error monad

    [result E A] is Rust's [Result<A, E>]; [SM S E A] is a computation that
    threads a state [S] (a backend, a host) and may stop with an error.  The
    state reached when the error was raised is kept: Rust does not roll back. *)

Inductive result (E A : Type) : Type :=
| Ok (a : A)
| Err (e : E).
Arguments Ok {E A} a.
Arguments Err {E A} e.

Definition SM (S E A : Type) : Type := S → result E A * S.

#[export] Instance result_ret {E} : MRet (result E) := λ A a, Ok a.
#[export] Instance result_bind {E} : MBind (result E) := λ A B f m,
  match m with Ok a => f a | Err e => Err e end.

#[export] Instance SM_ret {S E} : MRet (SM S E) := λ A a s, (Ok a, s).
#[export] Instance SM_bind {S E} : MBind (SM S E) := λ A B f m s,
  match m s with
  | (Ok a, s') => f a s'
  | (Err e, s') => (Err e, s')
  end.

(** [?] on a plain [Result] inside a stateful function. *)
Definition lift {S E A} (r : result E A) : SM S E A := λ s, (r, s).
(** Early return with an error. *)
Definition throw {S E A} (e : E) : SM S E A := λ s, (Err e, s).
(** [Result::map_err]. *)
Definition map_err {E F A} (f : E → F) (r : result E A) : result F A :=
  match r with Ok a => Ok a | Err e => Err (f e) end.
(** [Option::ok_or]. *)
Definition ok_or {E A} (o : option A) (e : E) : result E A :=
  match o with Some a => Ok a | None => Err e end.
(** [Result::ok]. *)
Definition res_ok {E A} (r : result E A) : option A :=
  match r with Ok a => Some a | Err _ => None end.
(** Run [m] and hand its [Result] to the caller as a value, as an expression
    [m.await] without [?] does (also [let _ = m.await]). *)
Definition attempt {S E F A} (m : SM S E A) : SM S F (result E A) :=
  λ s, let '(r, s') := m s in (Ok r, s').
Definition SM_map_err {S E F A} (f : E → F) (m : SM S E A) : SM S F A :=
  λ s, let '(r, s') := m s in (map_err f r, s').

(** [for x in xs { body }], the accumulator threaded through the loop. *)
Fixpoint for_each {S E A Acc} (xs : list A) (acc : Acc) (body : A → Acc → SM S E Acc)
  : SM S E Acc :=
  match xs with
  | [] => mret acc
  | x :: xs' => λ s,
      match body x acc s with
      | (Ok acc', s') => for_each xs' acc' body s'
      | (Err e, s') => (Err e, s')
      end
  end.

Lemma bind_ok {S E A B} (m : SM S E A) (f : A → SM S E B) s b s2 :
  (m ≫= f) s = (Ok b, s2) →
  ∃ a s1, m s = (Ok a, s1) ∧ f a s1 = (Ok b, s2).
Proof. unfold mbind, SM_bind. destruct (m s) as [[a|e] s1]; intros; naive_solver. Qed.

Lemma bind_run {S E A B} (m : SM S E A) (f : A → SM S E B) s r s' :
  m s = (r, s') → (m ≫= f) s = match r with Ok a => f a s' | Err e => (Err e, s') end.
Proof. unfold mbind, SM_bind. by intros ->. Qed.

Lemma ret_ok {S E A} (a b : A) (s s' : S) :
  (mret a : SM S E A) s = (Ok b, s') → b = a ∧ s' = s.
Proof. by intros [= <- <-]. Qed.

(** The run of a computation whose result is known. *)
Lemma run_eq {S E A} (m : SM S E A) (s : S) (r : result E A) :
  fst (m s) = r → m s = (r, snd (m s)).
Proof. intros <-. apply surjective_pairing. Qed.

Lemma for_each_app {S E A Acc} (xs ys : list A) (acc : Acc) (body : A → Acc → SM S E Acc) s :
  for_each (xs ++ ys) acc body s =
  match for_each xs acc body s with
  | (Ok acc', s') => for_each ys acc' body s'
  | (Err e, s') => (Err e, s')
  end.
Proof.
  revert acc s. induction xs as [|x xs IH]; intros acc s; [done|].
  simpl. destruct (body x acc s) as [[acc'|e] s']; [apply IH | done].
Qed.

(** Loop rule: an invariant of the accumulator and the state that every
    successful iteration keeps holds after a loop that ran to the end. *)
Lemma for_each_inv {S E A Acc} (I : list A → Acc → S → Prop)
    (body : A → Acc → SM S E Acc) xs acc s acc' s' :
  (∀ done x acc s acc1 s1, I done acc s → x ∈ xs →
     body x acc s = (Ok acc1, s1) → I (done ++ [x]) acc1 s1) →
  I [] acc s → for_each xs acc body s = (Ok acc', s') → I xs acc' s'.
Proof.
  intros Hstep. enough (∀ done, I done acc s → for_each xs acc body s = (Ok acc', s') →
    I (done ++ xs) acc' s') as H by (intros; by apply (H [])).
  revert acc s. induction xs as [|x xs IH]; intros acc s done HI Hrun.
  - simpl in Hrun. inversion Hrun; subst. by rewrite app_nil_r.
  - simpl in Hrun. destruct (body x acc s) as [[a1|e] s1] eqn:Hb; [|done].
    replace (done ++ x :: xs) with ((done ++ [x]) ++ xs) by by rewrite <- app_assoc.
    apply (IH (λ d y a t a2 t2 Hi Hy, Hstep d y a t a2 t2 Hi (list_elem_of_further _ _ _ Hy)) a1 s1);
      [|done].
    eapply Hstep; [done| |done]. left.
Qed.

(** ** Traces

    What a computation over a log of events adds to it. *)

Section Traces.
Context {Ev E : Type}.

Definition traces {A} (m : SM (list Ev) E A) (Q : result E A → list Ev → Prop) : Prop :=
  ∀ log r log', m log = (r, log') → ∃ new, log' = log ++ new ∧ Q r new.

Lemma traces_mono {A} (m : SM (list Ev) E A) (Q Q' : result E A → list Ev → Prop) :
  (∀ r new, Q r new → Q' r new) → traces m Q → traces m Q'.
Proof. intros HQ Hm log r log' Hrun. destruct (Hm _ _ _ Hrun) as (new & ? & ?). eauto. Qed.

Lemma traces_ret {A} (a : A) (Q : result E A → list Ev → Prop) : Q (Ok a) [] → traces (mret a) Q.
Proof. intros HQ log r log' [= <- <-]. exists []. by rewrite app_nil_r. Qed.

Lemma traces_throw {A} e (Q : result E A → list Ev → Prop) : Q (Err e) [] → traces (throw e) Q.
Proof. intros HQ log r log' [= <- <-]. exists []. by rewrite app_nil_r. Qed.

Lemma traces_lift {A} (x : result E A) (Q : result E A → list Ev → Prop) : Q x [] → traces (lift x) Q.
Proof. intros HQ log r log' [= <- <-]. exists []. by rewrite app_nil_r. Qed.

Lemma traces_bind {A B} (m : SM (list Ev) E A) (f : A → SM (list Ev) E B) Q :
  traces m (λ r new, match r with
                     | Ok a => traces (f a) (λ r' new', Q r' (new ++ new'))
                     | Err e => Q (Err e) new
                     end) → traces (m ≫= f) Q.
Proof.
  intros Hm log r log' Hrun. unfold mbind, SM_bind in Hrun.
  destruct (m log) as [[a|e] log1] eqn:Hm1; destruct (Hm _ _ _ Hm1) as (new & -> & HQ).
  - destruct (HQ _ _ _ Hrun) as (new' & -> & HQ'). exists (new ++ new'). by rewrite app_assoc.
  - simplify_eq. eauto.
Qed.

Lemma traces_attempt {A F} (m : SM (list Ev) E A) (Q : result F (result E A) → list Ev → Prop) log r log' :
  traces m (λ r new, Q (Ok r) new) → attempt m log = (r, log') →
  ∃ new, log' = log ++ new ∧ Q r new.
Proof.
  intros Hm Hrun. unfold attempt in Hrun. destruct (m log) as [r1 log1] eqn:Hm1.
  simplify_eq. eauto.
Qed.
End Traces.

(** ** Machine integers

    A [uN] is a [Z]; what the source computes modulo [2^N] is written out. *)
Definition u8_max : Z := 2 ^ 8.
Definition u16_max : Z := 2 ^ 16.
Definition u32_max : Z := 2 ^ 32.
Definition u64_max : Z := 2 ^ 64.
Definition wrap_u32 (z : Z) : Z := (z `mod` 2 ^ 32)%Z.
Definition wrap_u64 (z : Z) : Z := (z `mod` 2 ^ 64)%Z.

(** ** Bytes *)

#[export] Instance byte_eq_dec : EqDecision byte.
Proof. intros a b. destruct (Byte.byte_eq_dec a b); [by left | by right]. Defined.

#[export] Instance byte_countable : Countable byte.
Proof. refine (inj_countable Byte.to_N Byte.of_N _). intros b. apply Byte.of_to_N. Defined.

Definition byte_to_Z (b : byte) : Z := Z.of_N (Byte.to_N b).
Definition byte_of_Z (z : Z) : byte :=
  match Byte.of_N (Z.to_N (z `mod` 256)%Z) with Some b => b | None => x00 end.

Lemma byte_to_Z_range b : (0 ≤ byte_to_Z b < 256)%Z.
Proof. unfold byte_to_Z. pose proof (Byte.to_N_bounded b). lia. Qed.

Lemma byte_to_of_Z z : byte_to_Z (byte_of_Z z) = (z `mod` 256)%Z.
Proof.
  unfold byte_to_Z, byte_of_Z. pose proof (Z.mod_pos_bound z 256 eq_refl) as Hr.
  destruct (Byte.of_N (Z.to_N (z `mod` 256))) as [b|] eqn:Hb.
  - apply Byte.to_of_N in Hb. rewrite Hb. lia.
  - apply Byte.of_N_None_iff in Hb. lia.
Qed.

Lemma byte_of_to_Z b : byte_of_Z (byte_to_Z b) = b.
Proof.
  unfold byte_of_Z. rewrite Z.mod_small by apply byte_to_Z_range.
  unfold byte_to_Z. by rewrite N2Z.id, Byte.of_to_N.
Qed.

#[export] Instance byte_to_Z_inj : Inj (=) (=) byte_to_Z.
Proof. intros a b H. by rewrite <- (byte_of_to_Z a), H, byte_of_to_Z. Qed.

(** ** Lists *)

Lemma NoDup_omap {A B} (f : A → option B) (l : list A) :
  (∀ x1 x2 y, f x1 = Some y → f x2 = Some y → x1 = x2) → NoDup l → NoDup (omap f l).
Proof.
  intros Hf. induction 1 as [|x l Hx _ IH]; cbn; [constructor|].
  destruct (f x) as [y|] eqn:Hy; [|done]. constructor; [|done].
  rewrite list_elem_of_omap. intros (x' & Hin & Hy'). by rewrite (Hf x x' y) in Hx.
Qed.

(** ** Shared automation *)

Create HintDb microvisor.
Create Rewrite HintDb microvisor.
#[export] Hint Resolve byte_to_Z_range : microvisor.
#[export] Hint Rewrite byte_to_of_Z byte_of_to_Z : microvisor.

(** Split the scrutinee of the first stateful call in a hypothesis, keeping
    the equation, and drop the branches that cannot produce the result. *)
Ltac run_step H :=
  match type of H with
  | context [match ?m with _ => _ end] =>
      match m with
      | context [match _ with _ => _ end] => fail 1
      | _ => let E := fresh "E" in destruct m eqn:E
      end
  end; simplify_eq/=.
Ltac run H := repeat (run_step H; try done).
