(* ===== verification/Tasks.v ===== *)
(** * Tasks: asynchronous functions as trees of calls

    An [async fn] runs without interruption from one [await] to the next.  A
    [Task] is such a function over a shared state: it is done, or makes one
    call on the state and goes on with the answer, or waits for two tasks at
    once ([tokio::join!]).  [run] executes a task alone; [tstep] is one step of
    a task among others.

    Tasks are verified by a rely-guarantee logic: [ok t O s Q] says that from
    a state [s], whatever the other tasks do between the calls of [t] within
    the bounds of [rely], every call of [t] keeps the invariant and stays
    within [guar], and the result is in [Q].  [O] are the resources the task
    owns; the others leave those alone. *)

From S2P Require Import Prelude.

Inductive Task (S E : Type) : Type → Type :=
| Done {A} (r : result E A) : Task S E A
| Await {T A} (m : S → T * S) (k : T → Task S E A) : Task S E A
| Join {A1 A2 A} (p : Task S E A1) (q : Task S E A2)
    (k : result E A1 → result E A2 → Task S E A) : Task S E A.
Arguments Done {S E A} r.
Arguments Await {S E T A} m k.
Arguments Join {S E A1 A2 A} p q k.

Section Tasks.
Context {S E : Type}.

Definition task_ret {A} (a : A) : Task S E A := Done (Ok a).

Fixpoint task_bind {A B} (t : Task S E A) : (A → Task S E B) → Task S E B :=
  match t with
  | Done (Ok a) => λ f, f a
  | Done (Err e) => λ _, Done (Err e)
  | Await m k => λ f, Await m (λ x, task_bind (k x) f)
  | Join p q k => λ f, Join p q (λ r1 r2, task_bind (k r1 r2) f)
  end.

(** One call. *)
Definition await {A} (m : SM S E A) : Task S E A := Await m Done.
(** [?] on a value at hand. *)
Definition task_lift {A} (r : result E A) : Task S E A := Done r.
(** The result of a task as a value. *)
Fixpoint task_attempt {A} (t : Task S E A) : Task S E (result E A) :=
  match t with
  | Done r => Done (Ok r)
  | Await m k => Await m (λ x, task_attempt (k x))
  | Join p q k => Join p q (λ r1 r2, task_attempt (k r1 r2))
  end.
(** [tokio::join!(p, q)]. *)
Definition task_join {A B} (p : Task S E A) (q : Task S E B) : Task S E (result E A * result E B) :=
  Join p q (λ r1 r2, Done (Ok (r1, r2))).

(** [for x in xs { body }]. *)
Fixpoint task_for_each {A Acc} (xs : list A) (acc : Acc) (body : A → Acc → Task S E Acc) : Task S E Acc :=
  match xs with
  | [] => task_ret acc
  | x :: xs' => task_bind (body x acc) (λ acc', task_for_each xs' acc' body)
  end.

(** ** A task alone *)

Fixpoint run {A} (t : Task S E A) : SM S E A :=
  match t with
  | Done r => λ s, (r, s)
  | Await m k => λ s, let '(x, s') := m s in run (k x) s'
  | Join p q k => λ s,
      let '(r1, s1) := run p s in
      let '(r2, s2) := run q s1 in
      run (k r1 r2) s2
  end.

Lemma run_bind {A B} (t : Task S E A) (f : A → Task S E B) s :
  run (task_bind t f) s = (run t ≫= λ a, run (f a)) s.
Proof.
  unfold mbind, SM_bind. revert s.
  induction t as [A r|T A m k IH|A1 A2 A p _ q _ k IH]; intros s; cbn.
  - by destruct r.
  - destruct (m s) as [x s']. apply IH.
  - destruct (run p s) as [r1 s1]. destruct (run q s1) as [r2 s2]. apply IH.
Qed.

(** Statement by statement. *)
Lemma run_bind_eq {A B} (t : Task S E A) (f : A → Task S E B) (m : SM S E A) (g : A → SM S E B) s :
  run t s = m s → (∀ a s', m s = (Ok a, s') → run (f a) s' = g a s') → run (task_bind t f) s = (m ≫= g) s.
Proof.
  intros Hm Hg. rewrite run_bind. unfold mbind, SM_bind. rewrite Hm.
  destruct (m s) as [[a|e] s'] eqn:Hs; [by apply Hg|done].
Qed.

Lemma run_await {A} (m : SM S E A) s : run (await m) s = m s.
Proof. cbn. by destruct (m s). Qed.

Lemma run_attempt {A} (t : Task S E A) s : run (task_attempt t) s = attempt (run t) s.
Proof.
  unfold attempt. revert s. induction t as [A r|T A m k IH|A1 A2 A p _ q _ k IH]; intros s; cbn; [done| |].
  - destruct (m s) as [x s']. apply IH.
  - destruct (run p s) as [r1 s1]. destruct (run q s1) as [r2 s2]. apply IH.
Qed.

Lemma run_for_each {A Acc} (xs : list A) (acc : Acc) body (body' : A → Acc → SM S E Acc) s :
  (∀ x acc s, run (body x acc) s = body' x acc s) →
  run (task_for_each xs acc body) s = for_each xs acc body' s.
Proof.
  intros Hb. revert acc s. induction xs as [|x xs IH]; intros acc s; [done|].
  change (run (task_bind (body x acc) (λ acc', task_for_each xs acc' body)) s = for_each (x :: xs) acc body' s).
  rewrite run_bind. unfold mbind, SM_bind. cbn. rewrite Hb. by destruct (body' x acc s) as [[] ?].
Qed.

(** ** A task among others *)

Fixpoint tstep {A} (t : Task S E A) (s : S) : Task S E A → S → Prop :=
  match t with
  | Done _ => λ _ _, False
  | Await m k => λ t' s', t' = k (fst (m s)) ∧ s' = snd (m s)
  | Join p q k => λ t' s',
      (∃ p', tstep p s p' s' ∧ t' = Join p' q k) ∨
      (∃ q', tstep q s q' s' ∧ t' = Join p q' k) ∨
      (∃ r1 r2, p = Done r1 ∧ q = Done r2 ∧ t' = k r1 r2 ∧ s' = s)
  end.

(** A task alone takes steps to its result. *)
Lemma run_steps {A} (t : Task S E A) s :
  rtc (λ x y, tstep (fst x) (snd x) (fst y) (snd y)) (t, s) (Done (fst (run t s)), snd (run t s)).
Proof.
  revert s. induction t as [A r|T A m k IH|A1 A2 A p IHp q IHq k IH]; intros s; cbn [run].
  - apply rtc_refl.
  - destruct (m s) as [x s'] eqn:Hm. eapply rtc_l; [|apply IH]. cbn. by rewrite Hm.
  - destruct (run p s) as [r1 s1] eqn:Hp. destruct (run q s1) as [r2 s2] eqn:Hq.
    specialize (IHp s). specialize (IHq s1). rewrite Hp in IHp. rewrite Hq in IHq. cbn in IHp, IHq.
    eapply (rtc_trans _ (Join (Done r1) q k, s1)).
    { refine (rtc_congruence (λ x, (Join (fst x) q k, snd x)) _ _ _ _ IHp).
      intros [x sx] [y sy] Hxy. cbn in *. eauto. }
    eapply (rtc_trans _ (Join (Done r1) (Done r2) k, s2)).
    { refine (rtc_congruence (λ x, (Join (Done r1) (fst x) k, snd x)) _ _ _ _ IHq).
      intros [x sx] [y sy] Hxy. cbn in *. eauto. }
    eapply rtc_l; [|apply IH]. cbn. eauto 8.
Qed.
End Tasks.

Declare Scope task_scope.
Delimit Scope task_scope with task.
(** [let x = t.await?; k]. *)
Notation "x ⇐ t ; k" := (task_bind t (λ x, k))
  (at level 20, t at level 100, k at level 200, only parsing) : task_scope.

(** ** Rely and guarantee *)

(** What the tasks assume of each other and grant each other.  Owned
    resources are numbered; [fits O s] says that those of [O] exist.  What is
    proved of a task is proved of the runs whose states are all admissible. *)
Class RelyGuarantee (S : Type) := {
  rg_inv : S → Prop;
  rg_adm : S → Prop;
  rg_fits : gset nat → S → Prop;
  rely : gset nat → S → S → Prop;
  guar : gset nat → gset nat → S → S → Prop;
  rely_refl : ∀ O s, rely O s s;
  rely_trans : ∀ O s1 s2 s3, rely O s1 s2 → rely O s2 s3 → rely O s1 s3;
  rely_mono : ∀ O O' s s', O' ⊆ O → rely O s s' → rely O' s s';
  fits_mono : ∀ O O' s, O' ⊆ O → rg_fits O s → rg_fits O' s;
  fits_union : ∀ O O' s, rg_fits O s → rg_fits O' s → rg_fits (O ∪ O') s;
  (** what one task may do is within what another one relies on *)
  guar_rely : ∀ O O' O2 s s', guar O O' s s' → O2 ## O → rg_fits O2 s → rely O2 s s' ∧ O2 ## O';
  guar_fits : ∀ O O' s s', guar O O' s s' → rg_fits O s → rg_fits O' s';
  rely_fits : ∀ O O' s s', rely O s s' → rg_fits O' s → rg_fits O' s';
  guar_frame : ∀ O O' O2 s s', guar O O' s s' → O ## O2 → guar (O ∪ O2) (O' ∪ O2) s s';
}.

Section Logic.
Context {S E : Type} `{RelyGuarantee S}.

(** A postcondition other tasks cannot invalidate. *)
Definition stable {A} (Q : result E A → gset nat → S → Prop) : Prop :=
  ∀ r O s s', Q r O s → rely O s s' → Q r O s'.

Fixpoint ok {A} (t : Task S E A) (O : gset nat) (s0 : S)
  : (result E A → gset nat → S → Prop) → Prop :=
  match t with
  | Done r => λ Q, Q r O s0
  | Await m k => λ Q, ∀ s, rg_inv s → rely O s0 s → rg_adm (snd (m s)) →
      ∃ O', rg_inv (snd (m s)) ∧ guar O O' s (snd (m s)) ∧ ok (k (fst (m s))) O' (snd (m s)) Q
  | Join p q k => λ Q, ∃ O1 O2 Q1 Q2,
      O = O1 ∪ O2 ∧ O1 ## O2 ∧ stable Q1 ∧ stable Q2 ∧ ok p O1 s0 Q1 ∧ ok q O2 s0 Q2 ∧
      ∀ r1 r2 O1 O2 s, O1 ## O2 → Q1 r1 O1 s → Q2 r2 O2 s → ok (k r1 r2) (O1 ∪ O2) s Q
  end.

Lemma ok_rely {A} (t : Task S E A) O s s' Q :
  stable Q → ok t O s Q → rely O s s' → ok t O s' Q.
Proof.
  revert O Q. induction t as [A r|T A m k IH|A1 A2 A p IHp q IHq k IH]; intros O Q HQ Ht Hr; cbn in *.
  - by eapply HQ.
  - intros s1 Hi Hr1 Ha. apply Ht; [done| |done]. by eapply rely_trans.
  - destruct Ht as (O1 & O2 & Q1 & Q2 & -> & Hd & HQ1 & HQ2 & Hp & Hq & Hk).
    exists O1, O2, Q1, Q2. split_and!; [done..| | |done].
    + apply IHp; [done|done|]. eapply rely_mono, Hr. set_solver.
    + apply IHq; [done|done|]. eapply rely_mono, Hr. set_solver.
Qed.

Lemma ok_mono {A} (t : Task S E A) O s (Q Q' : result E A → gset nat → S → Prop) :
  (∀ r O s, Q r O s → Q' r O s) → ok t O s Q → ok t O s Q'.
Proof.
  intros HQ. revert O s. induction t as [A r|T A m k IH|A1 A2 A p _ q _ k IH]; intros O s Ht; cbn in *.
  - by apply HQ.
  - intros s1 Hi Hr Ha. destruct (Ht s1 Hi Hr Ha) as (O' & ? & ? & ?). exists O'. split_and!; [done..|]. by eapply IH.
  - destruct Ht as (O1 & O2 & Q1 & Q2 & -> & Hd & HQ1 & HQ2 & Hp & Hq & Hk).
    exists O1, O2, Q1, Q2. split_and!; [done..|]. intros. eapply IH; eauto.
Qed.

Lemma ok_bind {A B} (t : Task S E A) (f : A → Task S E B) O s Q :
  ok t O s (λ r O s, match r with Ok a => ok (f a) O s Q | Err e => Q (Err e) O s end) →
  ok (task_bind t f) O s Q.
Proof.
  revert O s.
  induction t as [A r|T A m k IH|A1 A2 A p _ q _ k IH]; intros O s Ht; cbn in *.
  - by destruct r.
  - intros s1 Hi Hr Ha. destruct (Ht s1 Hi Hr Ha) as (O' & ? & ? & ?). exists O'. split_and!; [done..|]. by apply IH.
  - destruct Ht as (O1 & O2 & Q1 & Q2 & -> & Hd & HQ1 & HQ2 & Hp & Hq & Hk).
    exists O1, O2, Q1, Q2. split_and!; [done..|]. intros. eapply IH; eauto.
Qed.

Lemma ok_attempt {A} (t : Task S E A) O s (Q : result E (result E A) → gset nat → S → Prop) :
  ok t O s (λ r, Q (Ok r)) → ok (task_attempt t) O s Q.
Proof.
  revert O s. induction t as [A r|T A m k IH|A1 A2 A p _ q _ k IH]; intros O s Ht; cbn in *; [done| |].
  - intros s1 Hi Hr Ha. destruct (Ht s1 Hi Hr Ha) as (O' & ? & ? & ?). exists O'. split_and!; [done..|]. by apply IH.
  - destruct Ht as (O1 & O2 & Q1 & Q2 & -> & Hd & HQ1 & HQ2 & Hp & Hq & Hk).
    exists O1, O2, Q1, Q2. split_and!; [done..|]. intros. eapply IH; eauto.
Qed.

Lemma ok_await {A} (m : SM S E A) O s0 Q :
  (∀ s r s', rg_inv s → rely O s0 s → rg_adm s' → m s = (r, s') →
     ∃ O', rg_inv s' ∧ guar O O' s s' ∧ Q r O' s') → ok (await m) O s0 Q.
Proof. intros Hm s Hi Hr Ha. cbn. apply (Hm s); [done..|]. apply surjective_pairing. Qed.

Lemma ok_for_each {A Acc} (xs : list A) (acc : Acc) (body : A → Acc → Task S E Acc) O s
    (I : gset nat → S → Prop) Q :
  I O s → (∀ acc O s, I O s → Q (Ok acc) O s) →
  (∀ x acc O s, I O s → ok (body x acc) O s (λ r O s, match r with Ok _ => I O s | Err e => Q (Err e) O s end)) →
  ok (task_for_each xs acc body) O s Q.
Proof.
  intros HI HQ Hb. revert acc O s HI. induction xs as [|x xs IH]; intros acc O s HI; [by apply HQ|].
  change (ok (task_bind (body x acc) (λ acc', task_for_each xs acc' body)) O s Q).
  apply ok_bind. eapply ok_mono; [|by apply Hb]. intros [a|e] O' s' Hr; [by apply IH|done].
Qed.

(** A fact no step of any task invalidates survives the task. *)
Lemma ok_keeps {A} (t : Task S E A) O s Q (P : S → Prop) :
  (∀ O s s', P s → rely O s s' → P s') → (∀ O O' s s', P s → guar O O' s s' → P s') →
  P s → ok t O s Q → ok t O s (λ r O s, Q r O s ∧ P s).
Proof.
  intros Hr Hg. revert O s. induction t as [A r|T A m k IH|A1 A2 A p IHp q _ k IH]; intros O s HP Ht; cbn in *.
  - done.
  - intros s1 Hi Hr1 Ha. destruct (Ht s1 Hi Hr1 Ha) as (O' & ? & ? & ?). exists O'. split_and!; [done..|]. apply IH; [|done].
    eapply Hg; [by eapply Hr|done].
  - destruct Ht as (O1 & O2 & Q1 & Q2 & -> & Hd & HQ1 & HQ2 & Hp & Hq & Hk).
    exists O1, O2, (λ r O s, Q1 r O s ∧ P s), Q2. split_and!; [done|done| |done|by apply IHp|done|].
    + intros r O s1 s2 [? ?] Hr12. split; [by eapply HQ1|by eapply Hr].
    + intros r1 r2 O1' O2' s1 Hd' [? ?] ?. by apply IH; [|apply Hk].
Qed.

(** One step of a task keeps the invariant and the task's own proof. *)
Lemma ok_step {A} (t t' : Task S E A) O s s' Q :
  ok t O s Q → rg_inv s → rg_fits O s → rg_adm s' → tstep t s t' s' →
  ∃ O', rg_inv s' ∧ (guar O O' s s' ∨ O' = O ∧ s' = s) ∧ ok t' O' s' Q.
Proof.
  revert O Q t'. induction t as [A r|T A m k IH|A1 A2 A p IHp q IHq k IH]; intros O Q t' Ht Hi Hf Ha Hs; cbn in *.
  - done.
  - destruct Hs as [-> ->]. destruct (Ht s Hi (rely_refl O s) Ha) as (O' & ? & ? & ?). exists O'. auto.
  - destruct Ht as (O1 & O2 & Q1 & Q2 & -> & Hd & HQ1 & HQ2 & Hp & Hq & Hk).
    assert (rg_fits O1 s) as Hf1 by (eapply fits_mono, Hf; set_solver).
    assert (rg_fits O2 s) as Hf2 by (eapply fits_mono, Hf; set_solver).
    destruct Hs as [(p' & Hs & ->)|[(q' & Hs & ->)|(r1 & r2 & -> & -> & -> & ->)]].
    + destruct (IHp O1 Q1 p' Hp Hi Hf1 Ha Hs) as (O1' & Hi' & Hg & Hp'). exists (O1' ∪ O2). split; [done|].
      destruct Hg as [Hg|[-> ->]]; [|split; [by right|]; by exists O1, O2, Q1, Q2].
      split; [left; by apply guar_frame|].
      destruct (guar_rely _ _ O2 _ _ Hg ltac:(done) Hf2) as [Hr Hd'].
      exists O1', O2, Q1, Q2. split_and!; [done..| |done]. by eapply ok_rely.
    + destruct (IHq O2 Q2 q' Hq Hi Hf2 Ha Hs) as (O2' & Hi' & Hg & Hq'). exists (O1 ∪ O2'). split; [done|].
      destruct Hg as [Hg|[-> ->]]; [|split; [by right|]; by exists O1, O2, Q1, Q2].
      split; [left; rewrite !(union_comm_L O1); by apply guar_frame|].
      destruct (guar_rely _ _ O1 _ _ Hg ltac:(done) Hf1) as [Hr Hd'].
      exists O1, O2', Q1, Q2. split_and!; [done..| |done|done]. by eapply ok_rely.
    + exists (O1 ∪ O2). split; [done|]. split; [by right|]. by apply Hk.
Qed.
End Logic.
