(* ===== verification/RustStd.v ===== *)
(** * Rust's standard strings

    [str]/[String] as sequences of Unicode scalar values, with the operations
    of the standard library the repository calls: UTF-8 encoding
    ([as_bytes], [String::from_utf8]), [char::is_whitespace] and [trim],
    [starts_with]/[strip_prefix]/[strip_suffix], stable [sort_by], path
    joining, splitting, and printing and parsing of numbers.
    None of these is code of the repository; they are what its code means. *)

From S2P Require Import Prelude.

Abbreviation char := N (only parsing).
Abbreviation rstr := (list N) (only parsing).
Abbreviation bytes := (list byte) (only parsing).

(** A string literal of the source. *)
Definition lit (s : string) : rstr := map N_of_ascii (String.list_ascii_of_string s).

Arguments lit _ : simpl never.

(** ** UTF-8 *)

Definition byte_of_N (n : N) : byte := default x00 (Byte.of_N n).

Lemma to_N_byte_of_N n : (n < 256)%N → Byte.to_N (byte_of_N n) = n.
Proof.
  intros Hn. unfold byte_of_N. destruct (Byte.of_N n) as [b|] eqn:Hb; simpl.
  - by apply Byte.to_of_N.
  - apply Byte.of_N_None_iff in Hb. lia.
Qed.

(** A Rust [char]: a code point that is not a surrogate. *)
Definition is_scalar (c : N) : bool :=
  ((c <? 0xD800) || ((0xE000 <=? c) && (c <? 0x110000)))%N.

Definition utf8_encode_char (c : N) : bytes :=
  (if c <? 0x80 then [byte_of_N c]
   else if c <? 0x800 then [byte_of_N (0xC0 + c / 64); byte_of_N (0x80 + c mod 64)]
   else if c <? 0x10000 then
     [byte_of_N (0xE0 + c / 4096); byte_of_N (0x80 + (c / 64) mod 64);
      byte_of_N (0x80 + c mod 64)]
   else
     [byte_of_N (0xF0 + c / 262144); byte_of_N (0x80 + (c / 4096) mod 64);
      byte_of_N (0x80 + (c / 64) mod 64); byte_of_N (0x80 + c mod 64)])%N.

(** [str::as_bytes]. *)
Definition as_bytes (s : rstr) : bytes := mjoin (map utf8_encode_char s).

Definition utf8_cont (n : N) : bool := ((0x80 <=? n) && (n <? 0xC0))%N.

(** [String::from_utf8]: rejects truncated sequences, overlong forms,
    surrogates and code points above U+10FFFF. *)
Fixpoint from_utf8 (bs : bytes) : option rstr :=
  match bs with
  | [] => Some []
  | b0 :: r0 =>
      let n0 := Byte.to_N b0 in
      if (n0 <? 0x80)%N then cons n0 <$> from_utf8 r0
      else if (n0 <? 0xC2)%N then None
      else if (n0 <? 0xE0)%N then
        match r0 with
        | b1 :: r1 =>
            let n1 := Byte.to_N b1 in
            if utf8_cont n1
            then cons ((n0 - 0xC0) * 64 + (n1 - 0x80))%N <$> from_utf8 r1
            else None
        | _ => None
        end
      else if (n0 <? 0xF0)%N then
        match r0 with
        | b1 :: b2 :: r2 =>
            let n1 := Byte.to_N b1 in
            let n2 := Byte.to_N b2 in
            let c := ((n0 - 0xE0) * 4096 + (n1 - 0x80) * 64 + (n2 - 0x80))%N in
            if utf8_cont n1 && utf8_cont n2 && (0x800 <=? c)%N && is_scalar c
            then cons c <$> from_utf8 r2
            else None
        | _ => None
        end
      else if (n0 <? 0xF5)%N then
        match r0 with
        | b1 :: b2 :: b3 :: r3 =>
            let n1 := Byte.to_N b1 in
            let n2 := Byte.to_N b2 in
            let n3 := Byte.to_N b3 in
            let c := ((n0 - 0xF0) * 262144 + (n1 - 0x80) * 4096
                      + (n2 - 0x80) * 64 + (n3 - 0x80))%N in
            if utf8_cont n1 && utf8_cont n2 && utf8_cont n3 && (0x10000 <=? c)%N && is_scalar c
            then cons c <$> from_utf8 r3
            else None
        | _ => None
        end
      else None
  end.

Ltac Zify.zify_post_hook ::= Z.to_euclidean_division_equations.

Ltac utf8_digit := rewrite to_N_byte_of_N by lia.
Ltac utf8_branch :=
  match goal with
  | |- context [if ?b then _ else _] =>
      first [ replace b with false by (symmetry; apply N.ltb_ge; lia)
            | replace b with true by (symmetry; apply N.ltb_lt; lia) ]
  end; cbv beta iota.

Lemma utf8_split3 c :
  (c / 4096 * 4096 + (c / 64) mod 64 * 64 + c mod 64 = c)%N.
Proof. change 4096%N with (64 * 64)%N. rewrite <- N.Div0.div_div. lia. Qed.

Lemma utf8_split4 c :
  (c / 262144 * 262144 + (c / 4096) mod 64 * 4096 + (c / 64) mod 64 * 64 + c mod 64 = c)%N.
Proof.
  change 262144%N with (64 * (64 * 64))%N. change 4096%N with (64 * 64)%N.
  rewrite <- !N.Div0.div_div. lia.
Qed.

Lemma from_utf8_encode_char c bs :
  is_scalar c = true →
  from_utf8 (utf8_encode_char c ++ bs) = cons c <$> from_utf8 bs.
Proof.
  intros Hs. assert (c < 0x110000)%N as Hc by (unfold is_scalar in Hs; lia).
  unfold utf8_encode_char.
  destruct (N.ltb_spec c 0x80); [|destruct (N.ltb_spec c 0x800); [|destruct (N.ltb_spec c 0x10000)]];
    cbn [app from_utf8]; cbv zeta; repeat utf8_digit; repeat utf8_branch;
    rewrite ?N.add_comm with (n := 0xC0%N), ?(N.add_comm 0xE0), ?(N.add_comm 0xF0),
      ?(N.add_comm 0x80), ?N.add_sub.
  - done.
  - replace (utf8_cont _) with true by (unfold utf8_cont; lia). do 2 f_equal. lia.
  - rewrite utf8_split3, Hs.
    replace (0x800 <=? c)%N with true by lia.
    unfold utf8_cont.
    repeat match goal with |- context [(?x <=? ?y)%N] => replace (x <=? y)%N with true by lia end.
    repeat match goal with |- context [(?x <? ?y)%N] => replace (x <? y)%N with true by lia end.
    done.
  - rewrite utf8_split4, Hs.
    replace (0x10000 <=? c)%N with true by lia.
    unfold utf8_cont.
    repeat match goal with |- context [(?x <=? ?y)%N] => replace (x <=? y)%N with true by lia end.
    repeat match goal with |- context [(?x <? ?y)%N] => replace (x <? y)%N with true by lia end.
    done.
Qed.

(** A string survives [as_bytes] followed by [from_utf8]. *)
Lemma from_utf8_as_bytes s : Forall (λ c, is_scalar c = true) s → from_utf8 (as_bytes s) = Some s.
Proof.
  induction 1 as [|c s Hc _ IH]; [done|].
  change (as_bytes (c :: s)) with (utf8_encode_char c ++ as_bytes s).
  rewrite from_utf8_encode_char by done. by rewrite IH.
Qed.

Lemma as_bytes_app s t : as_bytes (s ++ t) = as_bytes s ++ as_bytes t.
Proof. unfold as_bytes. by rewrite map_app, join_app. Qed.

(** ** Whitespace and trimming *)

(** [char::is_whitespace]: the Unicode property White_Space. *)
Definition is_whitespace (c : N) : bool :=
  (((9 <=? c) && (c <=? 13)) || (c =? 32) || (c =? 0x85) || (c =? 0xA0) || (c =? 0x1680)
   || ((0x2000 <=? c) && (c <=? 0x200A)) || (c =? 0x2028) || (c =? 0x2029) || (c =? 0x202F)
   || (c =? 0x205F) || (c =? 0x3000))%N.

Fixpoint trim_start (s : rstr) : rstr :=
  match s with
  | c :: s' => if is_whitespace c then trim_start s' else s
  | [] => []
  end.
Definition trim_end (s : rstr) : rstr := reverse (trim_start (reverse s)).
(** [str::trim]. *)
Definition trim (s : rstr) : rstr := trim_end (trim_start s).

Lemma trim_start_id s : Forall (λ c, is_whitespace c = false) s → trim_start s = s.
Proof. intros [|c t Hc _]; simpl; [done|]. by rewrite Hc. Qed.

Lemma trim_id s : Forall (λ c, is_whitespace c = false) s → trim s = s.
Proof.
  intros Hs. unfold trim, trim_end. rewrite (trim_start_id s) by done.
  rewrite (trim_start_id (reverse s)) by (apply Forall_reverse; exact Hs). apply reverse_involutive.
Qed.

(** ** Prefixes and suffixes *)

(** [str::strip_prefix]. *)
Fixpoint strip_prefix (p s : rstr) : option rstr :=
  match p, s with
  | [], _ => Some s
  | c :: p', d :: s' => if decide (c = d) then strip_prefix p' s' else None
  | _ :: _, [] => None
  end.
(** [str::starts_with]. *)
Definition starts_with (s p : rstr) : bool := bool_decide (is_Some (strip_prefix p s)).
(** [str::strip_suffix] and [str::ends_with]. *)
Definition strip_suffix (q s : rstr) : option rstr := reverse <$> strip_prefix (reverse q) (reverse s).
Definition ends_with (s q : rstr) : bool := bool_decide (is_Some (strip_suffix q s)).

Lemma strip_prefix_Some p s t : strip_prefix p s = Some t ↔ s = p ++ t.
Proof.
  revert s. induction p as [|c p IH]; intros [|d s]; simpl; try naive_solver.
  case_decide; [subst; rewrite IH|]; naive_solver.
Qed.

Lemma strip_prefix_app p t : strip_prefix p (p ++ t) = Some t.
Proof. by apply strip_prefix_Some. Qed.

Lemma strip_suffix_Some q s t : strip_suffix q s = Some t ↔ s = t ++ q.
Proof.
  unfold strip_suffix. rewrite fmap_Some. setoid_rewrite strip_prefix_Some. split.
  - intros (u & Hs & ->). rewrite <- (reverse_involutive s), Hs, reverse_app.
    by rewrite reverse_involutive.
  - intros ->. exists (reverse t). by rewrite reverse_app, reverse_involutive.
Qed.

Lemma starts_with_true s p : starts_with s p = true ↔ ∃ t, s = p ++ t.
Proof.
  unfold starts_with. rewrite bool_decide_eq_true.
  split; intros [t Ht]; exists t; by apply strip_prefix_Some.
Qed.

Lemma ends_with_true s q : ends_with s q = true ↔ ∃ t, s = t ++ q.
Proof.
  unfold ends_with. rewrite bool_decide_eq_true.
  split; intros [t Ht]; exists t; by apply strip_suffix_Some.
Qed.

(** ** Stable sorting: [slice::sort_by] *)

Section SortBy.
Context {A : Type} (cmp : A → A → comparison).

Fixpoint insert_by (x : A) (l : list A) : list A :=
  match l with
  | [] => [x]
  | y :: l' => if cmp y x is Lt then y :: insert_by x l' else x :: l
  end.
Definition sort_by (l : list A) : list A := foldr insert_by [] l.

Lemma insert_by_perm x l : insert_by x l ≡ₚ x :: l.
Proof.
  induction l as [|y l IH]; [done|]. simpl. destruct (cmp y x); [done| |done].
  rewrite IH. apply Permutation_swap.
Qed.

Lemma sort_by_perm l : sort_by l ≡ₚ l.
Proof. induction l as [|x l IH]; [done|]. simpl. by rewrite insert_by_perm, IH. Qed.

(** [cmp] comes from a total key order: [a] not after [b], or the converse. *)
Context (le : A → A → Prop) `{!Transitive le}.
Hypothesis cmp_lt : ∀ a b, cmp a b = Lt → le a b.
Hypothesis cmp_ge : ∀ a b, cmp a b ≠ Lt → le b a.

Lemma insert_by_sorted x l : StronglySorted le l → StronglySorted le (insert_by x l).
Proof.
  induction 1 as [|y l Hl IH Hy]; simpl; [repeat constructor|].
  destruct (cmp y x) eqn:Hc.
  2: { constructor; [done|]. rewrite insert_by_perm. constructor; auto. }
  all: assert (le x y) by (apply cmp_ge; congruence);
    constructor; [by constructor|]; constructor; [done|];
    eapply Forall_impl; [exact Hy|]; intros z; by transitivity y.
Qed.

Lemma sort_by_sorted l : StronglySorted le (sort_by l).
Proof. induction l; simpl; [constructor | by apply insert_by_sorted]. Qed.
End SortBy.

(** ** Paths *)

(** [Path::join]: an absolute argument replaces the path. *)
Definition join (a b : rstr) : rstr :=
  if starts_with b (lit "/") then b
  else if bool_decide (a = []) || ends_with a (lit "/") then a ++ b
  else a ++ lit "/" ++ b.

(** A path, reversed, without trailing separators and [.] components. *)
Fixpoint rtrim_path (r : rstr) : rstr :=
  match r with
  | 47%N :: r' => if bool_decide (r' = []) then r else rtrim_path r'
  | 46%N :: (47%N :: _) as r' => rtrim_path r'
  | _ => r
  end.
(** The last component and what precedes it, both reversed. *)
Fixpoint last_component (r : rstr) : rstr * rstr :=
  match r with
  | [] => ([], [])
  | 47%N :: _ => ([], r)
  | c :: r' => prod_map (cons c) id (last_component r')
  end.
(** [Path::parent] and [Path::file_name]. *)
Definition path_parent (p : rstr) : option rstr :=
  let t := rtrim_path (reverse p) in
  if bool_decide (t = []) || bool_decide (t = lit "/") then None
  else Some (reverse (rtrim_path (snd (last_component t)))).
Definition file_name (p : rstr) : option rstr :=
  let name := reverse (fst (last_component (rtrim_path (reverse p)))) in
  if bool_decide (name = []) || bool_decide (name = lit ".") || bool_decide (name = lit "..")
  then None else Some name.

(** [format!("{}", n)]. *)
Definition dec (n : N) : rstr := lit (pretty.pretty n).

Definition is_digit (c : N) : Prop := (48 ≤ c ≤ 57)%N.

Lemma dec_digits n : Forall is_digit (dec n).
Proof.
  assert (∀ x s, Forall is_digit (lit s) → Forall is_digit (lit (pretty.pretty_N_go x s))) as Hgo.
  { intros x. induction (N.lt_wf_0 x) as [x _ IH]; intros s Hs.
    destruct (decide (0 < x)%N) as [Hx|Hx].
    - rewrite pretty.pretty_N_go_step by done. apply IH; [by apply N.div_lt|].
      unfold lit. cbn. constructor; [|exact Hs].
      assert (x `mod` 10 < 10)%N as Hm by (apply N.mod_lt; lia).
      unfold is_digit, pretty.pretty_N_char. repeat case_match; cbn; lia.
    - replace x with 0%N by lia. by rewrite pretty.pretty_N_go_0. }
  unfold dec, pretty.pretty, pretty.pretty_N. case_decide.
  - unfold lit. cbn. repeat constructor; unfold is_digit; lia.
  - apply Hgo. constructor.
Qed.

Lemma lit_inj s t : lit s = lit t → s = t.
Proof.
  assert (Inj (=) (=) N_of_ascii) as Hinj.
  { intros a b Hab. by rewrite <- (ascii_N_embedding a), Hab, ascii_N_embedding. }
  unfold lit. intros Heq. apply (inj (fmap N_of_ascii)) in Heq.
  rewrite <- (String.string_of_list_ascii_of_string s), Heq.
  apply String.string_of_list_ascii_of_string.
Qed.

#[export] Instance dec_inj : Inj (=) (=) dec.
Proof. intros m n Heq. by apply lit_inj, (inj pretty.pretty) in Heq. Qed.

(** Two digit strings, each followed by a separator. *)
Lemma digits_sep_inj a b u v c :
  ¬ is_digit c → Forall is_digit a → Forall is_digit b → a ++ c :: u = b ++ c :: v → a = b ∧ u = v.
Proof.
  intros Hc Ha. revert b. induction Ha as [|x a Hx Ha IH]; intros b Hb Heq;
    destruct Hb as [|y b Hy Hb]; cbn in Heq.
  - by injection Heq as ->.
  - by injection Heq as ->.
  - by injection Heq as ->.
  - injection Heq as -> Heq. by apply IH in Heq as [-> ->].
Qed.

(** ** Splitting and parsing *)

(** [str::split(c)]: at least one piece. *)
Fixpoint split_on (sep : N) (s : rstr) : list rstr :=
  match s with
  | [] => [[]]
  | c :: s' =>
      if (c =? sep)%N then [] :: split_on sep s'
      else match split_on sep s' with
           | p :: ps => (c :: p) :: ps
           | [] => [[c]]
           end
  end.

Definition digit (c : N) : option N :=
  if ((48 <=? c) && (c <=? 57))%N then Some (c - 48)%N else None.

Fixpoint parse_digits (max acc : N) (s : rstr) : result rstr N :=
  match s with
  | [] => Ok acc
  | c :: s' =>
      match digit c with
      | None => Err (lit "invalid digit found in string")
      | Some d =>
          let acc' := (acc * 10 + d)%N in
          if (max <? acc')%N then Err (lit "number too large to fit in target type")
          else parse_digits max acc' s'
      end
  end.

(** [str::parse] for an unsigned type with this maximum. *)
Definition parse_uint (max : N) (s : rstr) : result rstr N :=
  match s with
  | [] => Err (lit "cannot parse integer from empty string")
  | 43%N :: [] => Err (lit "invalid digit found in string")
  | 43%N :: s' => parse_digits max 0 s'
  | _ => parse_digits max 0 s
  end.
Definition parse_u32 : rstr → result rstr N := parse_uint (2 ^ 32 - 1).
Definition parse_u16 : rstr → result rstr N := parse_uint (2 ^ 16 - 1).

(** [Vec<String>::join(",")]. *)
Fixpoint join_with (sep : rstr) (l : list rstr) : rstr :=
  match l with
  | [] => []
  | [s] => s
  | s :: l' => s ++ sep ++ join_with sep l'
  end.

Definition comma : N := 44.

(** The characters before the first [c]. *)
Fixpoint up_to (c : N) (s : rstr) : rstr :=
  match s with
  | [] => []
  | d :: s' => if (d =? c)%N then [] else d :: up_to c s'
  end.

(** [str::lines]: the pieces that end in a newline, less a carriage return
    before it, and a last piece that is not empty. *)
Definition strip_cr (s : rstr) : rstr := default s (strip_suffix [13%N] s).
Fixpoint line_pieces (pieces : list rstr) : list rstr :=
  match pieces with
  | [] => []
  | [last] => if bool_decide (last = []) then [] else [last]
  | piece :: rest => strip_cr piece :: line_pieces rest
  end.
Definition lines (s : rstr) : list rstr := line_pieces (split_on 10 s).

(** [str::split_whitespace]: the pieces between white space, none empty. *)
Fixpoint split_whitespace (s : rstr) : list rstr :=
  match s with
  | [] => []
  | c :: s' =>
      if is_whitespace c then split_whitespace s'
      else match s' with
           | [] => [[c]]
           | d :: _ => if is_whitespace d then [c] :: split_whitespace s'
                       else match split_whitespace s' with
                            | p :: ps => (c :: p) :: ps
                            | [] => [[c]]
                            end
           end
  end.

(** ** Letter case

    [str::to_uppercase] and [str::to_lowercase] for comparison with ASCII
    text: exact on ASCII and on every character whose image contains an ASCII
    letter; the other characters, whose images contain none, are left. *)
Definition upper_char (c : N) : rstr :=
  if ((97 <=? c) && (c <=? 122))%N then [(c - 32)%N] else
  match c with
  | 0xDF => lit "SS" | 0x131 => lit "I" | 0x149 => [0x2BC; 78] | 0x17F => lit "S"
  | 0x1F0 => [74; 0x30C] | 0x1E96 => [72; 0x331] | 0x1E97 => [84; 0x308] | 0x1E98 => [87; 0x30A]
  | 0x1E99 => [89; 0x30A] | 0x1E9A => [65; 0x2BE]
  | 0xFB00 => lit "FF" | 0xFB01 => lit "FI" | 0xFB02 => lit "FL" | 0xFB03 => lit "FFI"
  | 0xFB04 => lit "FFL" | 0xFB05 => lit "ST" | 0xFB06 => lit "ST"
  | _ => [c]
  end%N.
Definition to_uppercase (s : rstr) : rstr := mjoin (map upper_char s).

Definition lower_char (c : N) : rstr :=
  if ((65 <=? c) && (c <=? 90))%N then [(c + 32)%N] else
  match c with 0x130 => [105; 0x307] | 0x212A => lit "k" | _ => [c] end%N.
Definition to_lowercase (s : rstr) : rstr := mjoin (map lower_char s).

(** [str::trim_start_matches] with a string: the prefix is removed as often as
    it occurs; [str::trim_matches] with a character. *)
Fixpoint trim_start_matches_go (n : nat) (p s : rstr) : rstr :=
  match n with
  | O => s
  | S n => match strip_prefix p s with Some s' => trim_start_matches_go n p s' | None => s end
  end.
Definition trim_start_matches (p s : rstr) : rstr := trim_start_matches_go (length s) p s.

Fixpoint trim_start_char (c : N) (s : rstr) : rstr :=
  match s with
  | d :: s' => if (d =? c)%N then trim_start_char c s' else s
  | [] => []
  end.
Definition trim_matches (c : N) (s : rstr) : rstr :=
  reverse (trim_start_char c (reverse (trim_start_char c s))).

(** [s.find(c)], as the text before and after the first [c]. *)
Fixpoint split_at_char (c : N) (s : rstr) : option (rstr * rstr) :=
  match s with
  | [] => None
  | d :: s' => if (d =? c)%N then Some ([], s') else prod_map (cons d) id <$> split_at_char c s'
  end.

Section TextLemmas.
Local Open Scope N_scope.

(** *** Printing and parsing numbers *)

Lemma digit_char x : x < 10 → digit (N_of_ascii (pretty.pretty_N_char x)) = Some x.
Proof.
  intros Hx. destruct (decide (x = 0)) as [->|]; [done|].
  assert (x = 1 ∨ x = 2 ∨ x = 3 ∨ x = 4 ∨ x = 5 ∨ x = 6 ∨ x = 7 ∨ x = 8 ∨ x = 9) by lia.
  naive_solver.
Qed.

Lemma parse_digits_go max x s :
  x ≤ max → parse_digits max 0 (lit (pretty.pretty_N_go x s)) = parse_digits max x (lit s).
Proof.
  revert s. induction (N.lt_wf_0 x) as [x _ IH]; intros s Hx.
  destruct (decide (0 < x)) as [Hpos|Hz]; [|by replace x with 0 by lia].
  rewrite pretty.pretty_N_go_step, IH by (done || (apply N.div_lt; lia) || lia).
  assert (x `mod` 10 < 10) as Hm by (apply N.mod_lt; lia).
  change (lit (String ?c ?s)) with (N_of_ascii c :: lit s). cbn [parse_digits].
  rewrite digit_char by done.
  replace (x `div` 10 * 10 + x `mod` 10) with x by (rewrite (N.div_mod x 10) at 1; lia).
  by rewrite (proj2 (N.ltb_ge _ _) Hx).
Qed.

Lemma parse_digits_dec max n : n ≤ max → parse_digits max 0 (dec n) = Ok n.
Proof.
  intros Hn. unfold dec, pretty.pretty, pretty.pretty_N. case_decide as Hz; [subst; cbn|].
  - by destruct max.
  - by rewrite parse_digits_go.
Qed.

Lemma dec_cons n : ∃ c cs, dec n = c :: cs ∧ is_digit c.
Proof.
  pose proof (dec_digits n) as Hd. destruct (dec n) as [|c cs] eqn:Hn.
  - exfalso. assert (parse_digits n 0 (dec n) = Ok n) as Hp by by apply parse_digits_dec.
    rewrite Hn in Hp. injection Hp as <-. done.
  - inversion Hd. eauto.
Qed.

Lemma parse_uint_dec max n : n ≤ max → parse_uint max (dec n) = Ok n.
Proof.
  intros Hn. destruct (dec_cons n) as (c & cs & Hd & Hc).
  pose proof (parse_digits_dec max n Hn) as Hp. rewrite Hd in *. unfold parse_uint.
  unfold is_digit in Hc. destruct (decide (c = 43)) as [->|Hne]; [lia|].
  repeat case_match; first [done|lia|congruence].
Qed.

Lemma up_to_app c s t : Forall (λ d, d ≠ c) s → up_to c (s ++ c :: t) = s.
Proof.
  induction 1 as [|d s Hd _ IH]; cbn; [by rewrite N.eqb_refl|].
  rewrite (proj2 (N.eqb_neq _ _) Hd). by rewrite IH.
Qed.

Lemma split_on_cons_inv c s : ∃ p ps, split_on c s = p :: ps.
Proof. destruct s as [|d s]; cbn; [by eexists _, _|]. repeat case_match; by eexists _, _. Qed.

Lemma split_on_app c s t : Forall (λ d, d ≠ c) s → split_on c (s ++ c :: t) = s :: split_on c t.
Proof.
  induction 1 as [|d s Hd _ IH]; cbn; [by rewrite N.eqb_refl|].
  by rewrite (proj2 (N.eqb_neq _ _) Hd), IH.
Qed.

Lemma strip_cr_app s : strip_cr (s ++ [13]) = s.
Proof. unfold strip_cr. by rewrite (proj2 (strip_suffix_Some [13] _ s)). Qed.

(** The first line of a text whose lines end in CR LF. *)
Lemma lines_head s t : Forall (λ d, d ≠ 10) s → head (lines ((s ++ [13]) ++ 10 :: t)) = Some s.
Proof.
  intros Hs. unfold lines. rewrite split_on_app by (apply Forall_app; split; [done|by repeat constructor]).
  destruct (split_on_cons_inv 10 t) as (p & ps & ->). cbn [line_pieces head]. by rewrite strip_cr_app.
Qed.

Lemma split_word w s :
  w ≠ [] → Forall (λ c, is_whitespace c = false) w →
  split_whitespace (w ++ 32 :: s) = w :: split_whitespace s.
Proof.
  intros Hne. induction w as [|c w IH]; intros Hw; [done|]. inversion Hw as [|? ? Hc Hw']; subst.
  cbn [app split_whitespace]. rewrite Hc. destruct w as [|d w]; [done|].
  cbn [app]. inversion Hw' as [|? ? Hd _]; subst. rewrite Hd.
  change (d :: w ++ 32 :: s) with ((d :: w) ++ 32 :: s). by rewrite IH.
Qed.
End TextLemmas.
