(* ===== verification/AsyncIo.v ===== *)
(** * Asynchronous readers

    tokio's [AsyncRead] as an interface: one [poll_read] call with a buffer of
    [cap] free bytes is pending, delivers bytes (none at end of file), or
    fails.  [drains] is a whole read-to-end as a sequence of such calls, the
    caller choosing every buffer size; [tokio::io::copy] is a parameter
    ([IoCopy]) whose documented behaviour is that it drains its reader. *)

From S2P Require Import Prelude RustStd.

(** [io::ErrorKind], as far as the source looks at it: [NotFound] is the only
    kind a storage function tests for. *)
Inductive IoError := IoNotFound | IoOther (code : N).

Inductive Poll (A : Type) := Ready (a : A) | Pending.
Arguments Ready {A} a.
Arguments Pending {A}.

Class AsyncRead (R : Type) := {
  poll_read : R → nat → Poll (result IoError bytes) * R;
  (** a bound on the number of calls a drain can take *)
  rd_measure : R → nat;
}.

(** The contract of [AsyncRead::poll_read]: never more bytes than the buffer
    has room for; and, for a reader over finite input, progress on every
    call that is neither end of file nor an error. *)
Class AsyncReadOk (R : Type) `{AsyncRead R} : Prop := {
  poll_read_fits : ∀ (r r' : R) cap bs,
    poll_read r cap = (Ready (Ok bs), r') → length bs ≤ cap;
  poll_read_progress : ∀ (r r' : R) cap p,
    0 < cap → poll_read r cap = (p, r') →
    p = Ready (Ok []) ∨ (∃ e, p = Ready (Err e)) ∨ rd_measure r' < rd_measure r;
}.

Section Drains.
Context {R : Type} `{AsyncRead R}.

Inductive drains : R → bytes → result IoError unit → R → Prop :=
| drains_eof r r' cap :
    0 < cap → poll_read r cap = (Ready (Ok []), r') → drains r [] (Ok tt) r'
| drains_err r r' cap e :
    0 < cap → poll_read r cap = (Ready (Err e), r') → drains r [] (Err e) r'
| drains_pending r r1 r' cap out res :
    0 < cap → poll_read r cap = (Pending, r1) → drains r1 out res r' → drains r out res r'
| drains_data r r1 r' cap bs out res :
    0 < cap → bs ≠ [] → poll_read r cap = (Ready (Ok bs), r1) →
    drains r1 out res r' → drains r (bs ++ out) res r'.
End Drains.

(** [tokio::io::copy]: the bytes it copied, whether it failed, and the reader
    it leaves behind. *)
Class IoCopy := io_copy : ∀ {R : Type} `{AsyncRead R}, R → bytes * result IoError unit * R.

Class IoCopyOk `{IoCopy} : Prop :=
  io_copy_drains : ∀ {R : Type} `{AsyncReadOk R} (r : R) bs res r',
    io_copy r = (bs, res, r') → drains r bs res r'.

(** A copy loop over an 8 KiB buffer: a model of the interface. *)
Definition copy_buf : nat := Pos.to_nat 8192.

Section CopyLoop.
Context {R : Type} `{AsyncRead R}.

Fixpoint copy_loop (fuel : nat) (r : R) : bytes * result IoError unit * R :=
  match fuel with
  | 0 => ([], Err (IoOther 0), r)
  | S fuel =>
      match poll_read r copy_buf with
      | (Pending, r1) => copy_loop fuel r1
      | (Ready (Err e), r1) => ([], Err e, r1)
      | (Ready (Ok []), r1) => ([], Ok tt, r1)
      | (Ready (Ok bs), r1) =>
          let '(out, res, r2) := copy_loop fuel r1 in (bs ++ out, res, r2)
      end
  end.

Lemma copy_loop_drains `{!AsyncReadOk R} fuel (r : R) bs res r' :
  rd_measure r < fuel → copy_loop fuel r = (bs, res, r') → drains r bs res r'.
Proof.
  assert (0 < copy_buf) as Hcap by apply Pos2Nat.is_pos.
  revert r bs. induction fuel as [|fuel IH]; intros r bs Hm Hrun; [lia|].
  cbn [copy_loop] in Hrun.
  destruct (poll_read r copy_buf) as [p r1] eqn:Hp.
  pose proof (poll_read_progress _ _ _ _ Hcap Hp) as Hprog.
  destruct p as [[[|b bs0]|e]|]; simplify_eq.
  - by eapply drains_eof.
  - destruct (copy_loop fuel r1) as [[out res1] r2] eqn:Hl. simplify_eq.
    eapply drains_data; [done|done|done|]. apply IH; [|done]. naive_solver lia.
  - by eapply drains_err.
  - eapply drains_pending; [done|done|]. apply IH; [|done]. naive_solver lia.
Qed.
End CopyLoop.

Definition loop_copy : IoCopy := λ R _ r, copy_loop (S (rd_measure r)) r.

Lemma loop_copy_ok : IoCopyOk (H := loop_copy).
Proof. intros R ?? r bs res r' Hrun. eapply copy_loop_drains; [|exact Hrun]. lia. Qed.

(** [std::io::Cursor<Vec<u8>>] as a reader: the bytes not yet read. *)
Record Cursor := { cur_rest : bytes }.

#[export] Instance Cursor_read : AsyncRead Cursor := {|
  poll_read r cap := (Ready (Ok (take cap (cur_rest r))), {| cur_rest := drop cap (cur_rest r) |});
  rd_measure r := length (cur_rest r);
|}.

#[export] Instance Cursor_read_ok : AsyncReadOk Cursor.
Proof.
  split.
  - intros r r' cap bs Hp. cbn in Hp. simplify_eq. rewrite length_take. lia.
  - intros r r' cap p Hcap Hp. cbn in Hp. simplify_eq. cbn.
    destruct (cur_rest r) as [|b l]; [left; by rewrite take_nil|].
    right; right. rewrite length_drop. cbn. lia.
Qed.

Lemma Cursor_drains r bs res r' :
  drains (R := Cursor) r bs res r' → bs = cur_rest r ∧ res = Ok tt ∧ cur_rest r' = [].
Proof.
  induction 1 as [r r' cap Hc Hp|r r' cap e Hc Hp|r r1 r' cap out res Hc Hp _ IH
                 |r r1 r' cap bs out res Hc Hb Hp _ IH]; cbn in Hp; simplify_eq.
  - destruct (cur_rest r) as [|b l]; [by rewrite drop_nil|]. destruct cap; [lia|done].
  - destruct IH as (-> & -> & ->). cbn. by rewrite take_drop.
Qed.
