(* ===== verification/StoreTypes.v ===== *)
(** * fs-storage: core types (src/fs-storage/src/types.rs)

    The two 32-byte hash newtypes with their hexadecimal [Display] and
    [FromStr], the artifact formats, the metadata records and the error type.
    The [hex] crate is a parameter: [Hex] are its two functions, [HexOk] what
    its documentation says of them. *)

From S2P Require Import Prelude RustStd AsyncIo.

(** ** The hex crate *)

Class Hex := {
  hex_encode : bytes → rstr;
  hex_decode : rstr → option bytes;
}.

(** The digits [hex::encode] writes: [0-9a-f]. *)
Definition hex_digit (c : N) : bool :=
  (((48 <=? c) && (c <=? 57)) || ((97 <=? c) && (c <=? 102)))%N.

Class HexOk `{Hex} : Prop := {
  hex_decode_encode : ∀ b, hex_decode (hex_encode b) = Some b;
  hex_encode_length : ∀ b, length (hex_encode b) = 2 * length b;
  hex_encode_digits : ∀ b, Forall (λ c, hex_digit c = true) (hex_encode b);
  (** two digits [0] are a zero byte *)
  hex_decode_zeros : ∀ n, hex_decode (repeat 48%N (2 * n)) = Some (repeat x00 n);
}.

(** ** [[u8; 32]] *)

Record arr32 := mk_arr32 { arr_bytes : bytes; arr_len : length arr_bytes = 32 }.

Lemma arr32_eq (a b : arr32) : arr_bytes a = arr_bytes b → a = b.
Proof.
  destruct a as [x Hx], b as [y Hy]; simpl. intros ->. f_equal. apply proof_irrel.
Qed.

#[export] Instance arr32_eq_dec : EqDecision arr32.
Proof.
  intros a b. destruct (decide (arr_bytes a = arr_bytes b)) as [H|H].
  - left. by apply arr32_eq.
  - right. by intros ->.
Defined.

(** [let mut arr = [0u8; 32]; arr.copy_from_slice(&bytes)], for a slice whose
    length has been checked. *)
Definition arr32_of (bs : bytes) : option arr32 :=
  match decide (length bs = 32) with left H => Some (mk_arr32 bs H) | right _ => None end.

Lemma arr32_of_bytes a : arr32_of (arr_bytes a) = Some a.
Proof.
  unfold arr32_of. destruct (decide _) as [H|H].
  - f_equal. by apply arr32_eq.
  - destruct a; done.
Qed.

Lemma arr32_of_Some bs a : arr32_of bs = Some a → bs = arr_bytes a.
Proof. unfold arr32_of. destruct (decide _); [|done]. by intros [= <-]. Qed.
Lemma arr32_of_None bs : arr32_of bs = None → length bs ≠ 32.
Proof. unfold arr32_of. by destruct (decide _). Qed.

#[export] Instance arr32_countable : Countable arr32.
Proof. refine (inj_countable arr_bytes arr32_of _). intros a. apply arr32_of_bytes. Defined.

(** ** Hashes *)

Inductive ContentHash := mk_ContentHash (h : arr32).
Inductive InputHash := mk_InputHash (h : arr32).

Definition ContentHash_as_bytes (h : ContentHash) : arr32 := let 'mk_ContentHash a := h in a.
Definition InputHash_as_bytes (h : InputHash) : arr32 := let 'mk_InputHash a := h in a.

#[export] Instance ContentHash_eq_dec : EqDecision ContentHash.
Proof. solve_decision. Defined.
#[export] Instance InputHash_eq_dec : EqDecision InputHash.
Proof. solve_decision. Defined.
#[export] Instance ContentHash_countable : Countable ContentHash.
Proof. refine (inj_countable' ContentHash_as_bytes mk_ContentHash _). by intros []. Defined.
#[export] Instance InputHash_countable : Countable InputHash.
Proof. refine (inj_countable' InputHash_as_bytes mk_InputHash _). by intros []. Defined.

(** ** Errors *)

Inductive StoreError :=
| NotFound
| HashCollision (hash : ContentHash)
| InvalidTagName (name : rstr)
| InvalidHash (s : rstr)
| Io (e : IoError)
| Serialization (msg : rstr).

Section Hashes.
Context `{Hex}.

(** [impl Display]: lower-case hexadecimal. *)
Definition ContentHash_to_string (h : ContentHash) : rstr :=
  hex_encode (arr_bytes (ContentHash_as_bytes h)).
Definition InputHash_to_string (h : InputHash) : rstr :=
  hex_encode (arr_bytes (InputHash_as_bytes h)).

(** [impl FromStr]. *)
Definition ContentHash_from_str (s : rstr) : result StoreError ContentHash :=
  match hex_decode s with
  | None => Err (InvalidHash s)
  | Some bs =>
      match arr32_of bs with
      | None => Err (InvalidHash s)
      | Some arr => Ok (mk_ContentHash arr)
      end
  end.
Definition InputHash_from_str (s : rstr) : result StoreError InputHash :=
  match hex_decode s with
  | None => Err (InvalidHash s)
  | Some bs =>
      match arr32_of bs with
      | None => Err (InvalidHash s)
      | Some arr => Ok (mk_InputHash arr)
      end
  end.

Context `{!HexOk}.

Lemma ContentHash_from_to_string h : ContentHash_from_str (ContentHash_to_string h) = Ok h.
Proof.
  unfold ContentHash_from_str, ContentHash_to_string.
  rewrite hex_decode_encode, arr32_of_bytes. by destruct h.
Qed.

Lemma InputHash_from_to_string h : InputHash_from_str (InputHash_to_string h) = Ok h.
Proof.
  unfold InputHash_from_str, InputHash_to_string.
  rewrite hex_decode_encode, arr32_of_bytes. by destruct h.
Qed.

#[export] Instance ContentHash_to_string_inj : Inj (=) (=) ContentHash_to_string.
Proof.
  intros a b Hab. pose proof (ContentHash_from_to_string a) as Ha.
  rewrite Hab, ContentHash_from_to_string in Ha. by simplify_eq.
Qed.

#[export] Instance InputHash_to_string_inj : Inj (=) (=) InputHash_to_string.
Proof.
  intros a b Hab. pose proof (InputHash_from_to_string a) as Ha.
  rewrite Hab, InputHash_from_to_string in Ha. by simplify_eq.
Qed.

Lemma ContentHash_to_string_length h : length (ContentHash_to_string h) = 64.
Proof.
  unfold ContentHash_to_string. rewrite hex_encode_length. by rewrite arr_len.
Qed.

Lemma ContentHash_to_string_digits h :
  Forall (λ c, hex_digit c = true) (ContentHash_to_string h).
Proof. apply hex_encode_digits. Qed.
End Hashes.

Lemma hex_digit_plain c :
  hex_digit c = true → is_scalar c = true ∧ is_whitespace c = false ∧ (c < 128)%N.
Proof. unfold hex_digit, is_scalar, is_whitespace. lia. Qed.

(** A hash written as text ([to_string().as_bytes()]) and read back
    ([String::from_utf8], [trim], [from_str]) is the same hash. *)
Lemma hash_text_roundtrip `{HexOk} h :
  (s ← from_utf8 (as_bytes (ContentHash_to_string h)); Some (trim s)) =
  Some (ContentHash_to_string h).
Proof.
  pose proof (ContentHash_to_string_digits h) as Hd.
  rewrite from_utf8_as_bytes; cbn.
  - rewrite trim_id; [done|]. eapply Forall_impl; [exact Hd|]. intros c Hc. by apply hex_digit_plain in Hc as (?&?&?).
  - eapply Forall_impl; [exact Hd|]. intros c Hc. by apply hex_digit_plain in Hc as (?&?&?).
Qed.

(** ** Formats and records *)

Inductive ArtifactFormat := Deploy | BuildCache.

#[export] Instance ArtifactFormat_eq_dec : EqDecision ArtifactFormat.
Proof. solve_decision. Defined.
#[export] Instance ArtifactFormat_countable : Countable ArtifactFormat.
Proof. refine (inj_countable' (λ f, if f is Deploy then true else false) (λ b : bool, if b then Deploy else BuildCache) _). by intros []. Defined.

Definition ArtifactFormat_extension (f : ArtifactFormat) : rstr :=
  match f with Deploy => lit "ext4.zst" | BuildCache => lit "oci.tar.zst" end.

Inductive BuildId := mk_BuildId (id : rstr).
Definition BuildId_to_string (b : BuildId) : rstr := let 'mk_BuildId s := b in s.

Record LayerMeta := {
  lm_input_hash : InputHash;
  lm_content_hash : ContentHash;
  lm_parent_input_hash : option InputHash;
  lm_uncompressed_size : N;
  lm_compressed_size_deploy : N;
  lm_compressed_size_cache : N;
  lm_file_checksum_deploy : ContentHash;
  lm_file_checksum_cache : ContentHash;
  lm_builder_version : rstr;
  lm_build_timestamp : N;
  lm_build_host : rstr;
  lm_stage_definition_hash : ContentHash;
  lm_dockerfile_hash : ContentHash;
}.

Record ManifestLayer := {
  ml_name : rstr;
  ml_order : N;
  ml_input_hash : InputHash;
  ml_content_hash : ContentHash;
  ml_size_bytes : N;
  ml_size_compressed_bytes : N;
  ml_parent_input_hash : option InputHash;
}.

Record BuildMetadata := {
  bm_dockerfile_hash : ContentHash;
  bm_build_timestamp : N;
  bm_builder_version : rstr;
  bm_build_host : rstr;
}.

Record ReleaseManifest := {
  rm_schema_version : rstr;
  rm_manifest_id : rstr;
  rm_build_metadata : BuildMetadata;
  rm_layers : list ManifestLayer;
  rm_workload_metadata : gmap rstr rstr;
}.

Record BuildCatalogEntry := {
  bc_build_id : BuildId;
  bc_release_name : rstr;
  bc_manifest_hash : ContentHash;
  bc_build_timestamp : N;
  bc_spec_hash : ContentHash;
  bc_layers : list ContentHash;
}.

Record BuildFilter := {
  bf_tag : option rstr;
  bf_release_name_prefix : option rstr;
  bf_layer_hash : option ContentHash;
  bf_from_timestamp : option N;
  bf_to_timestamp : option N;
}.

(** [#[derive(Default)]]. *)
Definition BuildFilter_default : BuildFilter :=
  {| bf_tag := None; bf_release_name_prefix := None; bf_layer_hash := None;
     bf_from_timestamp := None; bf_to_timestamp := None |}.

Record CorruptEntry := {
  ce_path : rstr;
  ce_expected_hash : ContentHash;
  ce_actual_hash : ContentHash;
}.
Record VerificationReport := {
  vr_valid : list ContentHash;
  vr_corrupt : list CorruptEntry;
}.
Record GcCandidate := {
  gc_content_hash : ContentHash;
  gc_size_deploy_bytes : N;
  gc_size_cache_bytes : N;
}.
Record GcReport := {
  gr_candidates : list GcCandidate;
  gr_total_reclaimable_bytes : N;
}.
Record GcSummary := {
  gs_deleted_blobs : N;
  gs_deleted_bytes : N;
}.
