(* ===== verification/Crates.v ===== *)
(** * Third-party crates of fs-storage

    The functions of [hex], [sha2], [serde_json] and [regex] the layer store
    calls, as one class of parameters, and what their documentation promises
    as a second class ([CratesOk]).  [Instances.v] gives concrete functions
    with these properties. *)

From S2P Require Import Prelude RustStd AsyncIo StoreTypes.

(** [serde_json::to_vec] and [serde_json::from_slice] at one type; an error
    is its message. *)
Class SerdeJson (A : Type) := {
  json_to_vec : A → result rstr bytes;
  json_from_slice : bytes → result rstr A;
}.

(** The pattern of [LayerStore::validate_tag_name]. *)
Definition TAG_PATTERN : rstr := lit "^[a-z0-9][a-z0-9._-]*$".

Class Crates := {
  cr_hex :: Hex;
  (** [Sha256::digest]; a hasher fed in several [update] calls computes the
      digest of the concatenation. *)
  sha256 : bytes → arr32;
  cr_json_meta :: SerdeJson LayerMeta;
  cr_json_manifest :: SerdeJson ReleaseManifest;
  cr_json_entry :: SerdeJson BuildCatalogEntry;
  (** [serde_json::Value], [to_value] and the serialiser run on a [Value] *)
  JsonValue : Type;
  to_value : ReleaseManifest → result rstr JsonValue;
  value_to_vec : JsonValue → result rstr bytes;
  (** [Regex::new(pattern).unwrap().is_match(text)], for a pattern that compiles *)
  regex_is_match : rstr → rstr → bool;
}.

Definition tag_first (c : N) : bool :=
  (((97 <=? c) && (c <=? 122)) || ((48 <=? c) && (c <=? 57)))%N.
Definition tag_char (c : N) : bool :=
  (tag_first c || (c =? 46) || (c =? 95) || (c =? 45))%N.

Class CratesOk `{Crates} : Prop := {
  cr_hex_ok :: HexOk;
  json_meta_roundtrip : ∀ m : LayerMeta,
    ∃ bs, json_to_vec m = Ok bs ∧ json_from_slice bs = Ok m;
  json_entry_roundtrip : ∀ e : BuildCatalogEntry,
    ∃ bs, json_to_vec e = Ok bs ∧ json_from_slice bs = Ok e;
  (** a manifest written through [Value] parses back *)
  json_manifest_roundtrip : ∀ m : ReleaseManifest,
    ∃ v bs, to_value m = Ok v ∧ value_to_vec v = Ok bs ∧ json_from_slice bs = Ok m;
  (** the language of [TAG_PATTERN] *)
  tag_pattern_spec : ∀ s, regex_is_match TAG_PATTERN s = true ↔
    ∃ c cs, s = c :: cs ∧ tag_first c = true ∧ Forall (λ d, tag_char d = true) cs;
}.
