(* ===== verification/Backend.v ===== *)
(** * fs-storage: the [StorageBackend] trait (src/fs-storage/src/traits.rs)

    The trait as a class of operations, and the contract the layer store
    relies on: every backend represents a pair of finite maps, one of blobs
    addressed by content hash and format, one of opaque metadata values
    addressed by string keys.  A write that succeeds updates one entry, a
    write that fails leaves both maps as they were, a read changes nothing.
    Only an I/O fault can make an operation fail, and a backend with no
    faults pending ([calm]) does not fail. *)

From S2P Require Import Prelude RustStd AsyncIo StoreTypes.

Class StorageBackend (B : Type) := {
  has_blob : ContentHash → ArtifactFormat → SM B StoreError bool;
  put_blob : ∀ {R : Type} `{AsyncRead R},
    ContentHash → ArtifactFormat → R → B → result StoreError unit * R * B;
  get_blob : ContentHash → ArtifactFormat → SM B StoreError Cursor;
  delete_blob : ContentHash → ArtifactFormat → SM B StoreError unit;
  put_meta : rstr → bytes → SM B StoreError unit;
  get_meta : rstr → SM B StoreError (option bytes);
  list_meta : rstr → SM B StoreError (list rstr);
  delete_meta : rstr → SM B StoreError unit;
}.

(** ** The abstract store *)

Record StoreView := mk_view {
  sv_blobs : gmap (ContentHash * ArtifactFormat) bytes;
  sv_metas : gmap rstr bytes;
}.

Definition view_put_blob (h : ContentHash) (f : ArtifactFormat) (bs : bytes) (v : StoreView) :=
  mk_view (<[(h, f) := bs]> (sv_blobs v)) (sv_metas v).
Definition view_delete_blob (h : ContentHash) (f : ArtifactFormat) (v : StoreView) :=
  mk_view (delete (h, f) (sv_blobs v)) (sv_metas v).
Definition view_put_meta (k : rstr) (x : bytes) (v : StoreView) :=
  mk_view (sv_blobs v) (<[k := x]> (sv_metas v)).
Definition view_delete_meta (k : rstr) (v : StoreView) :=
  mk_view (sv_blobs v) (delete k (sv_metas v)).

(** The directories the layer store lists. *)
Definition list_prefixes : list rstr :=
  [lit "builds/"; lit "tags/"; lit "manifests/"; lit "layers/"].

Definition is_ok {E A} (r : result E A) : Prop := ∃ a, r = Ok a.
Definition io_only {A} (r : result StoreError A) : Prop :=
  match r with Ok _ => True | Err (Io _) => True | Err _ => False end.

(** ** The contract *)

Class BackendOk (B : Type) `{StorageBackend B} := {
  (** [rep b v]: the backend state [b] stores the maps [v] *)
  rep : B → StoreView → Prop;
  (** no I/O fault is pending *)
  calm : B → Prop;
  (** the metadata keys this backend stores faithfully *)
  key_ok : rstr → Prop;

  rep_keys : ∀ b v k, rep b v → is_Some (sv_metas v !! k) → key_ok k;

  has_blob_ok : ∀ h f b v r b', rep b v → has_blob h f b = (r, b') →
    rep b' v ∧ io_only r ∧ (calm b → calm b' ∧ is_ok r) ∧
    (∀ x, r = Ok x → x = bool_decide (is_Some (sv_blobs v !! (h, f))));
  get_blob_ok : ∀ h f b v r b', rep b v → get_blob h f b = (r, b') →
    rep b' v ∧ (calm b → calm b') ∧
    match sv_blobs v !! (h, f) with
    | Some bs => io_only r ∧ (calm b → is_ok r) ∧ (∀ c, r = Ok c → cur_rest c = bs)
    | None => r = Err NotFound ∨ (¬ calm b ∧ ∃ e, r = Err (Io e))
    end;
  put_blob_ok : ∀ R `{AsyncReadOk R} h f (rd : R) b v r rd' b', rep b v →
    put_blob h f rd b = (r, rd', b') →
    (calm b → calm b' ∧ (is_ok r ∨ ∃ bs e, drains rd bs (Err e) rd')) ∧ io_only r ∧
    match r with
    | Ok _ => ∃ bs, rep b' (view_put_blob h f bs v) ∧
                (sv_blobs v !! (h, f) = Some bs ∨ drains rd bs (Ok tt) rd')
    | Err _ => rep b' v
    end;
  delete_blob_ok : ∀ h f b v r b', rep b v → delete_blob h f b = (r, b') →
    (calm b → calm b' ∧ is_ok r) ∧ io_only r ∧
    match r with Ok _ => rep b' (view_delete_blob h f v) | Err _ => rep b' v end;

  put_meta_ok : ∀ k x b v r b', rep b v → key_ok k → put_meta k x b = (r, b') →
    (calm b → calm b' ∧ is_ok r) ∧ io_only r ∧
    match r with Ok _ => rep b' (view_put_meta k x v) | Err _ => rep b' v end;
  get_meta_ok : ∀ k b v r b', rep b v → key_ok k → get_meta k b = (r, b') →
    rep b' v ∧ (calm b → calm b' ∧ is_ok r) ∧ io_only r ∧
    (∀ o, r = Ok o → o = sv_metas v !! k);
  list_meta_ok : ∀ p b v r b', rep b v → p ∈ list_prefixes → list_meta p b = (r, b') →
    rep b' v ∧ (calm b → calm b' ∧ is_ok r) ∧ io_only r ∧
    (∀ ks, r = Ok ks →
      NoDup ks ∧ ∀ k, k ∈ ks ↔ is_Some (sv_metas v !! k) ∧ starts_with k p = true);
  delete_meta_ok : ∀ k b v r b', rep b v → key_ok k → delete_meta k b = (r, b') →
    (calm b → calm b' ∧ is_ok r) ∧ io_only r ∧
    match r with Ok _ => rep b' (view_delete_meta k v) | Err _ => rep b' v end;
}.
