(* ===== verification/MemoryBackend.v ===== *)
(** * fs-storage: the in-memory backend (src/fs-storage/src/backends/memory.rs)

    Two hash maps.  Each operation holds its [RwLock] for its whole effect, so
    one operation is one step. *)

From S2P Require Import Prelude RustStd AsyncIo StoreTypes Backend.

Record InMemoryBackend := mk_mem {
  mem_blobs : gmap (ContentHash * ArtifactFormat) bytes;
  mem_meta : gmap rstr bytes;
}.

Definition InMemoryBackend_new : InMemoryBackend := mk_mem ∅ ∅.

Section Memory.
Context `{IoCopy}.

Definition mem_has_blob (hash : ContentHash) (format : ArtifactFormat)
  : SM InMemoryBackend StoreError bool :=
  λ b, (Ok (bool_decide (is_Some (mem_blobs b !! (hash, format)))), b).

Definition mem_put_blob {R : Type} `{AsyncRead R} (hash : ContentHash) (format : ArtifactFormat)
    (reader : R) (b : InMemoryBackend) : result StoreError unit * R * InMemoryBackend :=
  match io_copy reader with
  | (data, Ok _, reader') =>
      (Ok tt, reader', mk_mem (<[(hash, format) := data]> (mem_blobs b)) (mem_meta b))
  | (_, Err e, reader') => (Err (Io e), reader', b)
  end.

Definition mem_get_blob (hash : ContentHash) (format : ArtifactFormat)
  : SM InMemoryBackend StoreError Cursor :=
  λ b, (match mem_blobs b !! (hash, format) with
        | Some data => Ok {| cur_rest := data |}
        | None => Err NotFound
        end, b).

Definition mem_delete_blob (hash : ContentHash) (format : ArtifactFormat)
  : SM InMemoryBackend StoreError unit :=
  λ b, (Ok tt, mk_mem (delete (hash, format) (mem_blobs b)) (mem_meta b)).

Definition mem_put_meta (key : rstr) (value : bytes) : SM InMemoryBackend StoreError unit :=
  λ b, (Ok tt, mk_mem (mem_blobs b) (<[key := value]> (mem_meta b))).

Definition mem_get_meta (key : rstr) : SM InMemoryBackend StoreError (option bytes) :=
  λ b, (Ok (mem_meta b !! key), b).

(** [HashMap] iteration order is unspecified; the keys come in some order. *)
Definition mem_list_meta (prefix : rstr) : SM InMemoryBackend StoreError (list rstr) :=
  λ b, (Ok (filter (λ k, starts_with k prefix = true) (map fst (map_to_list (mem_meta b)))), b).

Definition mem_delete_meta (key : rstr) : SM InMemoryBackend StoreError unit :=
  λ b, (Ok tt, mk_mem (mem_blobs b) (delete key (mem_meta b))).

#[export] Instance InMemoryBackend_storage : StorageBackend InMemoryBackend := {|
  has_blob := mem_has_blob;
  put_blob := @mem_put_blob;
  get_blob := mem_get_blob;
  delete_blob := mem_delete_blob;
  put_meta := mem_put_meta;
  get_meta := mem_get_meta;
  list_meta := mem_list_meta;
  delete_meta := mem_delete_meta;
|}.

Definition mem_rep (b : InMemoryBackend) (v : StoreView) : Prop :=
  v = mk_view (mem_blobs b) (mem_meta b).

Lemma mem_list_meta_spec p b k :
  k ∈ filter (λ k, starts_with k p = true) (map fst (map_to_list (mem_meta b))) ↔
  is_Some (mem_meta b !! k) ∧ starts_with k p = true.
Proof.
  rewrite list_elem_of_filter.
  setoid_rewrite (list_elem_of_fmap fst (map_to_list (mem_meta b)) k).
  split.
  - intros (Hp & [k' x] & -> & Hin). apply elem_of_map_to_list in Hin. simpl. eauto.
  - intros ([x Hx] & Hp). split; [done|]. exists (k, x). by rewrite elem_of_map_to_list.
Qed.

Context `{!IoCopyOk}.

(** The in-memory backend meets the contract, for every key. *)
#[export] Instance InMemoryBackend_ok : BackendOk InMemoryBackend.
Proof.
  refine {| rep := mem_rep; calm _ := True; key_ok _ := True |}; unfold mem_rep, is_ok, io_only.
  - done.
  - intros h f b v r b' -> [= <- <-]. naive_solver.
  - intros h f b v r b' -> [= <- <-]. cbn. destruct (mem_blobs b !! (h, f)); naive_solver.
  - intros R AR AOk h f rd b v r rd' b' -> Hrun. cbn in Hrun. unfold mem_put_blob in Hrun.
    destruct (io_copy rd) as [[data [[]|e]] rd1] eqn:Hc; apply io_copy_drains in Hc;
      injection Hrun as <- <- <-; naive_solver.
  - intros h f b v r b' -> [= <- <-]. naive_solver.
  - intros k x b v r b' -> _ [= <- <-]. naive_solver.
  - intros k b v r b' -> _ [= <- <-]. naive_solver.
  - intros p b v r b' -> Hp [= <- <-]. split_and!; [done|naive_solver|done|].
    intros ks [= <-]. split; [|apply mem_list_meta_spec].
    apply NoDup_filter, NoDup_fst_map_to_list.
  - intros k b v r b' -> _ [= <- <-]. naive_solver.
Defined.
End Memory.
