(* ===== verification/LayerStore.v ===== *)
(** * fs-storage: the layer store (src/fs-storage/src/layer_store.rs)

    The typed store over a [StorageBackend]: blobs with their input-hash
    index, manifests and the build catalogue, tags, integrity scan and
    garbage collection.  Every function is the Rust function statement by
    statement in the state-and-error monad over the backend's state. *)

From S2P Require Import Prelude RustStd AsyncIo StoreTypes Crates Backend.

(** ** The hashing reader (lines 18-61)

    Wraps a reader and feeds every byte it delivers to SHA-256. *)

Record HashingReader (R : Type) := mk_HashingReader { hr_inner : R; hr_hasher : bytes }.
Arguments mk_HashingReader {R}.
Arguments hr_inner {R}.
Arguments hr_hasher {R}.

Definition HashingReader_new {R} (inner : R) : HashingReader R := mk_HashingReader inner [].

Definition HashingReader_finalize `{Crates} {R} (r : HashingReader R) : ContentHash :=
  mk_ContentHash (sha256 (hr_hasher r)).

#[export] Instance HashingReader_read {R} `{AsyncRead R} : AsyncRead (HashingReader R) := {|
  poll_read r cap :=
    match poll_read (hr_inner r) cap with
    | (Ready (Ok bs), inner') =>
        (Ready (Ok bs),
         mk_HashingReader inner' (if decide (0 < length bs) then hr_hasher r ++ bs else hr_hasher r))
    | (other, inner') => (other, mk_HashingReader inner' (hr_hasher r))
    end;
  rd_measure r := rd_measure (hr_inner r);
|}.

(** ** Keys *)

Definition index_key `{Crates} (h : InputHash) : rstr := lit "index/" ++ InputHash_to_string h.
Definition layer_key `{Crates} (h : ContentHash) : rstr := lit "layers/" ++ ContentHash_to_string h.
Definition manifest_key `{Crates} (h : ContentHash) : rstr :=
  lit "manifests/" ++ ContentHash_to_string h.
Definition build_key (id : BuildId) : rstr := lit "builds/" ++ BuildId_to_string id.
Definition tag_key (name : rstr) : rstr := lit "tags/" ++ name.

(** [u64] addition as the release profile compiles it. *)
Definition u64_add (a b : N) : N := ((a + b) mod 2 ^ 64)%N.

Section LayerStore.
Context `{Crates} {B : Type} `{StorageBackend B}.
Local Abbreviation M := (SM B StoreError).

(** ** Input-hash index *)

Definition resolve_input_hash (input_hash : InputHash) : M (option ContentHash) :=
  data ← get_meta (index_key input_hash);
  match data with
  | Some data =>
      hash_str ← lift (ok_or (from_utf8 data) (InvalidHash (lit "Invalid UTF-8 in index")));
      hash ← lift (ContentHash_from_str (trim hash_str));
      mret (Some hash)
  | None => mret None
  end.

Definition register_input_hash (input_hash : InputHash) (content_hash : ContentHash) : M unit :=
  put_meta (index_key input_hash) (as_bytes (ContentHash_to_string content_hash)).

(** ** Blobs *)

Definition has_layer (content_hash : ContentHash) : M bool := has_blob content_hash Deploy.

Definition pull_layer (content_hash : ContentHash) (format : ArtifactFormat) : M Cursor :=
  get_blob content_hash format.

(** [put_blob(..., &mut reader).await?], keeping the reader. *)
Definition put_blob_with {R} `{AsyncRead R} (h : ContentHash) (f : ArtifactFormat) (rd : R) : M R :=
  λ b, let '(r, rd', b') := put_blob h f rd b in
       (match r with Ok _ => Ok rd' | Err e => Err e end, b').

Definition set_file_checksums (meta : LayerMeta) (deploy cache : ContentHash) : LayerMeta :=
  {| lm_input_hash := lm_input_hash meta;
     lm_content_hash := lm_content_hash meta;
     lm_parent_input_hash := lm_parent_input_hash meta;
     lm_uncompressed_size := lm_uncompressed_size meta;
     lm_compressed_size_deploy := lm_compressed_size_deploy meta;
     lm_compressed_size_cache := lm_compressed_size_cache meta;
     lm_file_checksum_deploy := deploy;
     lm_file_checksum_cache := cache;
     lm_builder_version := lm_builder_version meta;
     lm_build_timestamp := lm_build_timestamp meta;
     lm_build_host := lm_build_host meta;
     lm_stage_definition_hash := lm_stage_definition_hash meta;
     lm_dockerfile_hash := lm_dockerfile_hash meta |}.

(** The common tail of both publish functions: write the metadata, then the
    index entry. *)
Definition publish_meta (meta : LayerMeta) : M ContentHash :=
  meta_json ← lift (map_err Serialization (json_to_vec meta));
  _ ← put_meta (layer_key (lm_content_hash meta)) meta_json;
  _ ← register_input_hash (lm_input_hash meta) (lm_content_hash meta);
  mret (lm_content_hash meta).

Definition publish_layer {RD RC} `{AsyncRead RD, AsyncRead RC}
    (deploy_reader : RD) (cache_reader : RC) (meta : LayerMeta) : M ContentHash :=
  present ← has_layer (lm_content_hash meta);
  if (present : bool) then mret (lm_content_hash meta) else
  hashing_deploy ← put_blob_with (lm_content_hash meta) Deploy (HashingReader_new deploy_reader);
  hashing_cache ← put_blob_with (lm_content_hash meta) BuildCache (HashingReader_new cache_reader);
  publish_meta (set_file_checksums meta (HashingReader_finalize hashing_deploy)
                                        (HashingReader_finalize hashing_cache)).

(** [tokio::join!] runs both writes to completion before either result is
    looked at.  Here the deploy write is run first, as one of the orders the
    scheduler may choose; [publish_layer_concurrent_task] has the two writes
    interleave at every file-system call, and every one of its interleavings
    leaves what this order leaves ([StoreJoin]). *)
Definition publish_layer_concurrent {RD RC} `{AsyncRead RD, AsyncRead RC}
    (deploy_reader : RD) (cache_reader : RC) (meta : LayerMeta) : M ContentHash :=
  present ← has_layer (lm_content_hash meta);
  if (present : bool) then mret (lm_content_hash meta) else
  deploy_res ← attempt (put_blob_with (lm_content_hash meta) Deploy (HashingReader_new deploy_reader));
  cache_res ← attempt (put_blob_with (lm_content_hash meta) BuildCache (HashingReader_new cache_reader));
  hashing_deploy ← lift deploy_res;
  hashing_cache ← lift cache_res;
  publish_meta (set_file_checksums meta (HashingReader_finalize hashing_deploy)
                                        (HashingReader_finalize hashing_cache)).

(** ** Manifests

    [now] is the clock in seconds and [uuid] the fresh identifier the
    function draws. *)

Definition catalog_entry_of (build_id : BuildId) (hash : ContentHash) (manifest : ReleaseManifest)
  : BuildCatalogEntry :=
  {| bc_build_id := build_id;
     bc_release_name := rm_manifest_id manifest;
     bc_manifest_hash := hash;
     bc_build_timestamp := bm_build_timestamp (rm_build_metadata manifest);
     bc_spec_hash := bm_dockerfile_hash (rm_build_metadata manifest);
     bc_layers := map ml_content_hash (rm_layers manifest) |}.

Definition build_id_of (now : N) (uuid : rstr) : BuildId :=
  mk_BuildId (lit (pretty.pretty now) ++ lit "T" ++ uuid).

Definition publish_manifest (now : N) (uuid : rstr) (manifest : ReleaseManifest) : M ContentHash :=
  json_value ← lift (map_err Serialization (to_value manifest));
  buf ← lift (map_err Serialization (value_to_vec json_value));
  let hash := mk_ContentHash (sha256 buf) in
  _ ← put_meta (manifest_key hash) buf;
  let build_id := build_id_of now uuid in
  catalog_json ← lift (map_err Serialization (json_to_vec (catalog_entry_of build_id hash manifest)));
  _ ← put_meta (build_key build_id) catalog_json;
  mret hash.

Definition get_manifest (hash : ContentHash) : M ReleaseManifest :=
  found ← get_meta (manifest_key hash);
  data ← lift (ok_or found NotFound);
  lift (map_err Serialization (json_from_slice data)).

(** ** Tags *)

Definition validate_tag_name (name : rstr) : result StoreError unit :=
  if negb (regex_is_match TAG_PATTERN name) then Err (InvalidTagName name) else Ok tt.

Definition create_tag (name : rstr) (manifest_hash : ContentHash) : M unit :=
  _ ← lift (validate_tag_name name);
  _ ← get_manifest manifest_hash;
  put_meta (tag_key name) (as_bytes (ContentHash_to_string manifest_hash)).

Definition update_tag (name : rstr) (manifest_hash : ContentHash) : M unit :=
  create_tag name manifest_hash.

Definition get_tag (name : rstr) : M ContentHash :=
  found ← get_meta (tag_key name);
  data ← lift (ok_or found NotFound);
  hash_str ← lift (ok_or (from_utf8 data) (InvalidHash (lit "Invalid UTF-8 in tag")));
  lift (ContentHash_from_str (trim hash_str)).

Definition list_tags : M (list (rstr * ContentHash)) :=
  keys ← list_meta (lit "tags/");
  for_each keys [] (λ key tags,
    match strip_prefix (lit "tags/") key with
    | Some name =>
        r ← attempt (get_tag name);
        match r with
        | Ok hash => mret (tags ++ [(name, hash)])
        | Err _ => mret tags
        end
    | None => mret tags
    end).

Definition delete_tag (name : rstr) : M unit := delete_meta (tag_key name).

(** ** Build catalogue *)

(** The conditions of [list_builds] on the entry alone. *)
Definition entry_matches (filter : BuildFilter) (entry : BuildCatalogEntry) : bool :=
  match bf_release_name_prefix filter with
  | Some prefix => starts_with (bc_release_name entry) prefix
  | None => true
  end &&
  match bf_layer_hash filter with
  | Some layer_hash => bool_decide (layer_hash ∈ bc_layers entry)
  | None => true
  end &&
  match bf_from_timestamp filter with
  | Some from_ts => negb (bc_build_timestamp entry <? from_ts)%N
  | None => true
  end &&
  match bf_to_timestamp filter with
  | Some to_ts => negb (to_ts <? bc_build_timestamp entry)%N
  | None => true
  end.

(** The tag condition; the tag is resolved again for every entry. *)
Definition tag_matches (filter : BuildFilter) (entry : BuildCatalogEntry) : M bool :=
  match bf_tag filter with
  | Some tag =>
      r ← attempt (get_tag tag);
      mret (match r with
            | Ok tag_hash => bool_decide (bc_manifest_hash entry = tag_hash)
            | Err _ => false
            end)
  | None => mret true
  end.

(** [|a, b| b.build_timestamp.cmp(&a.build_timestamp)]. *)
Definition newest_first (a b : BuildCatalogEntry) : comparison :=
  (bc_build_timestamp b ?= bc_build_timestamp a)%N.

Definition list_builds (filter : BuildFilter) : M (list BuildCatalogEntry) :=
  keys ← list_meta (lit "builds/");
  builds ← for_each keys [] (λ key builds,
    found ← get_meta key;
    match found with
    | Some data =>
        match json_from_slice data with
        | Ok entry =>
            tag_ok ← tag_matches filter entry;
            mret (if (tag_ok : bool) && entry_matches filter entry
                  then builds ++ [entry] else builds)
        | Err _ => mret builds
        end
    | None => mret builds
    end);
  mret (sort_by newest_first builds).

Definition get_build (build_id : BuildId) : M BuildCatalogEntry :=
  found ← get_meta (build_key build_id);
  data ← lift (ok_or found NotFound);
  lift (map_err Serialization (json_from_slice data)).

(** ** Integrity scan *)

Definition verify_store : M VerificationReport :=
  keys ← list_meta (lit "layers/");
  for_each keys {| vr_valid := []; vr_corrupt := [] |} (λ key report,
    match strip_prefix (lit "layers/") key with
    | Some hash_str =>
        match ContentHash_from_str hash_str with
        | Ok hash =>
            present ← has_layer hash;
            mret (if (present : bool)
                  then {| vr_valid := vr_valid report ++ [hash]; vr_corrupt := vr_corrupt report |}
                  else report)
        | Err _ => mret report
        end
    | None => mret report
    end).

(** ** Garbage collection *)

(** Steps 1 and 2: the manifests that are live, tagged or listed. *)
Definition live_manifests : M (gset ContentHash) :=
  tags ← list_tags;
  manifest_keys ← list_meta (lit "manifests/");
  for_each manifest_keys (list_to_set (map snd tags)) (λ key hashes,
    match strip_prefix (lit "manifests/") key with
    | Some hash_str =>
        match ContentHash_from_str hash_str with
        | Ok hash => mret ({[hash]} ∪ hashes)
        | Err _ => mret hashes
        end
    | None => mret hashes
    end).

(** Step 3: the layers some live manifest refers to. *)
Definition live_layers (manifest_hashes : gset ContentHash) : M (gset ContentHash) :=
  for_each (elements manifest_hashes) ∅ (λ manifest_hash live_set,
    r ← attempt (get_manifest manifest_hash);
    mret (match r with
          | Ok manifest => list_to_set (map ml_content_hash (rm_layers manifest)) ∪ live_set
          | Err _ => live_set
          end)).

(** One iteration of the sweep of step 4. *)
Definition gc_sweep_key (live_set : gset ContentHash) (key : rstr) (report : GcReport) : M GcReport :=
  match strip_prefix (lit "layers/") key with
  | Some hash_str =>
      match ContentHash_from_str hash_str with
      | Ok hash =>
          if bool_decide (hash ∈ live_set) then mret report else
          r ← attempt (get_meta key);
          mret (match r with
                | Ok (Some data) =>
                    match json_from_slice data with
                    | Ok meta =>
                        {| gr_candidates := gr_candidates report ++
                             [{| gc_content_hash := hash;
                                 gc_size_deploy_bytes := lm_compressed_size_deploy meta;
                                 gc_size_cache_bytes := lm_compressed_size_cache meta |}];
                           gr_total_reclaimable_bytes :=
                             u64_add (gr_total_reclaimable_bytes report)
                               (u64_add (lm_compressed_size_deploy meta)
                                        (lm_compressed_size_cache meta)) |}
                    | Err _ => report
                    end
                | _ => report
                end)
      | Err _ => mret report
      end
  | None => mret report
  end.

Definition gc_candidates : M GcReport :=
  manifest_hashes ← live_manifests;
  live_set ← live_layers manifest_hashes;
  layer_keys ← list_meta (lit "layers/");
  for_each layer_keys {| gr_candidates := []; gr_total_reclaimable_bytes := 0 |}
    (gc_sweep_key live_set).

(** One iteration of [gc_execute]; every backend error is ignored. *)
Definition gc_delete (candidate : GcCandidate) (summary : GcSummary) : M GcSummary :=
  let hash := gc_content_hash candidate in
  _ ← attempt (delete_blob hash Deploy);
  _ ← attempt (delete_blob hash BuildCache);
  r ← attempt (get_meta (layer_key hash));
  _ ← match r with
      | Ok (Some data) =>
          match json_from_slice data with
          | Ok meta =>
              _ ← attempt (delete_meta (index_key (lm_input_hash meta)));
              mret tt
          | Err _ => mret tt
          end
      | _ => mret tt
      end;
  _ ← attempt (delete_meta (layer_key hash));
  mret {| gs_deleted_blobs := u64_add (gs_deleted_blobs summary) 2;
          gs_deleted_bytes := u64_add (gs_deleted_bytes summary)
            (u64_add (gc_size_deploy_bytes candidate) (gc_size_cache_bytes candidate)) |}.

Definition gc_execute (report : GcReport) : M GcSummary :=
  for_each (gr_candidates report) {| gs_deleted_blobs := 0; gs_deleted_bytes := 0 |} gc_delete.
End LayerStore.
