(* ===== verification/StoreLogic.v ===== *)
(** * A program logic for code over a storage backend

    [wp c m v Q]: run [m] on any backend that represents [v] (and, when [c]
    holds, has no fault pending); the backend it leaves represents some [v']
    (and is still calm when [c]) with [Q result v'].  The rules are derived
    once from the contract [BackendOk]; the layer store is then verified
    against the rules, for every backend at once. *)

From S2P Require Import Prelude RustStd AsyncIo StoreTypes Crates Backend LayerStore.

Section Logic.
Context {B : Type} `{BackendOk B}.
Implicit Types (v : StoreView) (c : bool).

Definition wp {A} (c : bool) (m : SM B StoreError A) (v : StoreView)
    (Q : result StoreError A → StoreView → Prop) : Prop :=
  ∀ b r b', rep b v → (c → calm b) → m b = (r, b') →
    ∃ v', rep b' v' ∧ (c → calm b') ∧ Q r v'.

Lemma wp_mono {A} c (m : SM B StoreError A) v (Q Q' : result StoreError A → StoreView → Prop) :
  (∀ r v', Q r v' → Q' r v') → wp c m v Q → wp c m v Q'.
Proof. intros HQ Hm b r b' Hr Hc Hrun. destruct (Hm b r b') as (v' & ? & ? & ?); eauto. Qed.

Lemma wp_ret {A} c (a : A) v (Q : result StoreError A → StoreView → Prop) :
  Q (Ok a) v → wp c (mret a) v Q.
Proof. intros HQ b r b' Hr Hc [= <- <-]. eauto. Qed.

Lemma wp_lift {A} c (x : result StoreError A) v (Q : result StoreError A → StoreView → Prop) :
  Q x v → wp c (lift x) v Q.
Proof. intros HQ b r b' Hr Hc [= <- <-]. eauto. Qed.

Lemma wp_bind {A A'} c (m : SM B StoreError A) (f : A → SM B StoreError A') v Q :
  wp c m v (λ r v', match r with Ok a => wp c (f a) v' Q | Err e => Q (Err e) v' end) →
  wp c (m ≫= f) v Q.
Proof.
  intros Hm b r b' Hr Hc Hrun. unfold mbind, SM_bind in Hrun.
  destruct (m b) as [r1 b1] eqn:H1. destruct (Hm b r1 b1 Hr Hc H1) as (v1 & Hr1 & Hc1 & HQ).
  destruct r1 as [a|e].
  - exact (HQ b1 r b' Hr1 Hc1 Hrun).
  - injection Hrun as <- <-. eauto.
Qed.

Lemma wp_attempt {A} c (m : SM B StoreError A) v
    (Q : result StoreError (result StoreError A) → StoreView → Prop) :
  wp c m v (λ r v', Q (Ok r) v') → wp c (attempt m) v Q.
Proof.
  intros Hm b r b' Hr Hc Hrun. unfold attempt in Hrun.
  destruct (m b) as [r1 b1] eqn:H1. injection Hrun as <- <-.
  exact (Hm b r1 b1 Hr Hc H1).
Qed.

(** The loop rule: [I done acc v] after the iterations over [done]. *)
Lemma wp_for_each {A Acc} c (xs : list A) (acc : Acc) (body : A → Acc → SM B StoreError Acc) v
    (I : list A → Acc → StoreView → Prop) (Q : result StoreError Acc → StoreView → Prop) :
  I [] acc v →
  (∀ done x acc v, x ∈ xs → I done acc v →
     wp c (body x acc) v (λ r v', match r with
                                  | Ok acc' => I (done ++ [x]) acc' v'
                                  | Err e => Q (Err e) v'
                                  end)) →
  (∀ acc' v', I xs acc' v' → Q (Ok acc') v') →
  wp c (for_each xs acc body) v Q.
Proof.
  intros HI Hbody HQ.
  enough (∀ l done acc v, (∀ x, x ∈ l → x ∈ xs) → done ++ l = xs → I done acc v →
            wp c (for_each l acc body) v Q) as Hall by (apply (Hall xs []); auto).
  induction l as [|x l IH]; intros dn a w Hin Heq HIa.
  - apply wp_ret, HQ. by rewrite app_nil_r in Heq; subst.
  - change (wp c (body x a ≫= λ a', for_each l a' body) w Q). apply wp_bind.
    eapply wp_mono; [|apply (Hbody dn x a w); [apply Hin; left|done]].
    intros [a'|e] w' HI'; [|done].
    apply (IH (dn ++ [x])); [intros y Hy; apply Hin; by right| |done].
    by rewrite <- app_assoc.
Qed.

(** Every stored key is one the backend is faithful on. *)
Lemma wp_keys {A} c (m : SM B StoreError A) v Q :
  ((∀ k, is_Some (sv_metas v !! k) → key_ok k) → wp c m v Q) → wp c m v Q.
Proof.
  intros Hm b r b' Hr Hc Hrun. apply (Hm (λ k Hk, rep_keys b v k Hr Hk) b r b' Hr Hc Hrun).
Qed.

(** Reading a triple off: a run from a backend that represents [v]. *)
Lemma wp_run {A} c (m : SM B StoreError A) v Q b :
  wp c m v Q → rep b v → (c → calm b) →
  ∃ r b' v', m b = (r, b') ∧ rep b' v' ∧ (c → calm b') ∧ Q r v'.
Proof.
  intros Hm Hr Hc. destruct (m b) as [r b'] eqn:Hrun.
  destruct (Hm b r b' Hr Hc Hrun) as (v' & ? & ? & ?). eauto 8.
Qed.

(** ** The operations *)

(** A read: the value the maps give, or an I/O error when faults are allowed. *)
Definition read_post {A} (c : bool) (a : A) (r : result StoreError A) : Prop :=
  r = Ok a ∨ (¬ c ∧ ∃ e, r = Err (Io e)).

Lemma read_post_intro {A} c b (a : A) (r : result StoreError A) :
  (c → calm b) → (calm b → is_ok r) → io_only r → (∀ x, r = Ok x → x = a) → read_post c a r.
Proof.
  intros Hc Hcalm Hio Hv. destruct r as [x|e].
  - left. by rewrite (Hv x).
  - right. split.
    + intros ?. destruct (Hcalm (Hc H1)) as [? [=]].
    + destruct e; try done. eauto.
Qed.

Lemma wp_get_meta c k v (Q : result StoreError (option bytes) → StoreView → Prop) :
  key_ok k → (∀ r, read_post c (sv_metas v !! k) r → Q r v) → wp c (get_meta k) v Q.
Proof.
  intros Hk HQ b r b' Hr Hc Hrun.
  destruct (get_meta_ok _ _ _ _ _ Hr Hk Hrun) as (Hr' & Hcalm & Hio & Hv).
  exists v. split_and!; [done|naive_solver|]. apply HQ.
  eapply read_post_intro; naive_solver.
Qed.

Lemma wp_has_blob c h f v (Q : result StoreError bool → StoreView → Prop) :
  (∀ r, read_post c (bool_decide (is_Some (sv_blobs v !! (h, f)))) r → Q r v) →
  wp c (has_blob h f) v Q.
Proof.
  intros HQ b r b' Hr Hc Hrun.
  destruct (has_blob_ok _ _ _ _ _ _ Hr Hrun) as (Hr' & Hio & Hcalm & Hv).
  exists v. split_and!; [done|naive_solver|]. apply HQ.
  eapply read_post_intro; naive_solver.
Qed.

Lemma wp_list_meta c p v (Q : result StoreError (list rstr) → StoreView → Prop) :
  p ∈ list_prefixes →
  (∀ r, (∃ ks, r = Ok ks ∧ NoDup ks ∧
           ∀ k, k ∈ ks ↔ is_Some (sv_metas v !! k) ∧ starts_with k p = true) ∨
        (¬ c ∧ ∃ e, r = Err (Io e)) → Q r v) →
  wp c (list_meta p) v Q.
Proof.
  intros Hp HQ b r b' Hr Hc Hrun.
  destruct (list_meta_ok _ _ _ _ _ Hr Hp Hrun) as (Hr' & Hcalm & Hio & Hv).
  exists v. split_and!; [done|naive_solver|]. apply HQ. destruct r as [ks|e].
  - left. exists ks. destruct (Hv ks eq_refl). done.
  - right. split; [|destruct e; naive_solver].
    intros ?. destruct Hcalm as [_ [? [=]]]; auto.
Qed.

(** A write: done, or failed with nothing changed (when faults are allowed). *)
Lemma wp_write c (m : SM B StoreError unit) v v' (Q : result StoreError unit → StoreView → Prop) :
  (∀ b r b', rep b v → m b = (r, b') →
     (calm b → calm b' ∧ is_ok r) ∧ io_only r ∧
     match r with Ok _ => rep b' v' | Err _ => rep b' v end) →
  Q (Ok tt) v' → (¬ c → ∀ e, Q (Err (Io e)) v) → wp c m v Q.
Proof.
  intros Hm HQ HQe b r b' Hr Hc Hrun. destruct (Hm b r b' Hr Hrun) as (Hcalm & Hio & Hrep).
  destruct r as [[]|e].
  - exists v'. naive_solver.
  - exists v. split_and!; [done|naive_solver|]. destruct e; try done. apply HQe.
    intros ?. destruct Hcalm as [_ [? [=]]]; auto.
Qed.

Lemma wp_put_meta c k x v (Q : result StoreError unit → StoreView → Prop) :
  key_ok k → Q (Ok tt) (view_put_meta k x v) → (¬ c → ∀ e, Q (Err (Io e)) v) →
  wp c (put_meta k x) v Q.
Proof. intros Hk. apply wp_write. intros. by eapply put_meta_ok. Qed.

Lemma wp_delete_meta c k v (Q : result StoreError unit → StoreView → Prop) :
  key_ok k → Q (Ok tt) (view_delete_meta k v) → (¬ c → ∀ e, Q (Err (Io e)) v) →
  wp c (delete_meta k) v Q.
Proof. intros Hk. apply wp_write. intros. by eapply delete_meta_ok. Qed.

Lemma wp_delete_blob c h f v (Q : result StoreError unit → StoreView → Prop) :
  Q (Ok tt) (view_delete_blob h f v) → (¬ c → ∀ e, Q (Err (Io e)) v) →
  wp c (delete_blob h f) v Q.
Proof. apply wp_write. intros. by eapply delete_blob_ok. Qed.

Lemma wp_get_blob c h f v (Q : result StoreError Cursor → StoreView → Prop) :
  (∀ r, match sv_blobs v !! (h, f) with
        | Some bs => (∃ cur, r = Ok cur ∧ cur_rest cur = bs)
        | None => r = Err NotFound
        end ∨ (¬ c ∧ ∃ e, r = Err (Io e)) → Q r v) →
  wp c (get_blob h f) v Q.
Proof.
  intros HQ b r b' Hr Hc Hrun.
  destruct (get_blob_ok _ _ _ _ _ _ Hr Hrun) as (Hr' & Hcalm & Hv).
  exists v. split_and!; [done|naive_solver|]. apply HQ.
  destruct (sv_blobs v !! (h, f)) as [bs|].
  - destruct Hv as (Hio & Hok & Hval). destruct r as [cur|e]; [left; naive_solver|].
    right. split; [|destruct e; naive_solver]. intros ?. destruct Hok as [? [=]]; auto.
  - destruct Hv as [->|[Hn He]]; [by left|right]. split; [|done]. tauto.
Qed.

Lemma wp_put_blob_with {R} `{AsyncReadOk R} c h f (rd : R) v
    (Q : result StoreError R → StoreView → Prop) :
  (∀ bs rd', (sv_blobs v !! (h, f) = None → drains rd bs (Ok tt) rd') →
     Q (Ok rd') (view_put_blob h f bs v)) →
  (∀ e, (¬ c ∨ ∃ bs e' rd', drains rd bs (Err e') rd') → Q (Err (Io e)) v) →
  wp c (put_blob_with h f rd) v Q.
Proof.
  intros HQ HQe b r b' Hr Hc Hrun. unfold put_blob_with in Hrun.
  destruct (put_blob h f rd b) as [[r1 rd1] b1] eqn:Hput.
  destruct (put_blob_ok R h f rd b v r1 rd1 b1 Hr Hput) as (Hcalm & Hio & Hrep).
  destruct r1 as [[]|e]; injection Hrun as <- <-.
  - destruct Hrep as (bs & Hrep & Hd). exists (view_put_blob h f bs v). naive_solver.
  - exists v. split_and!; [done|naive_solver|]. destruct e as [ | | | |e| ]; try done.
    apply HQe. destruct c; [|left; tauto].
    right. destruct (Hcalm (Hc I)) as [_ [[? [=]]|(bs & e' & Hd)]]. eauto.
Qed.
End Logic.
