(* ===== verification/StoreBlobs.v ===== *)
(** * fs-storage: correctness of blobs, index and publication

    The hashing reader is transparent and hashes what it delivers; publishing
    stores both artifacts, the metadata and the index entry; and the index is
    sound: whatever sequence of store operations ran, an input hash resolves
    only to a layer both of whose artifacts can be pulled. *)

From S2P Require Import Prelude RustStd AsyncIo StoreTypes Crates Backend LayerStore StoreLogic.

(** ** The hashing reader *)

#[export] Instance HashingReader_read_ok {R} `{AsyncReadOk R} : AsyncReadOk (HashingReader R).
Proof.
  split.
  - intros r r' cap bs Hp. cbn in Hp.
    destruct (poll_read (hr_inner r) cap) as [[[bs'|e]|] i] eqn:Hi; simplify_eq.
    by eapply poll_read_fits.
  - intros r r' cap p Hcap Hp. cbn in Hp. cbn.
    destruct (poll_read (hr_inner r) cap) as [p' i] eqn:Hi.
    pose proof (poll_read_progress _ _ _ _ Hcap Hi).
    destruct p' as [[bs'|e]|]; simplify_eq; naive_solver.
Qed.

Lemma HashingReader_drains_inv {R} `{AsyncRead R} (r r' : HashingReader R) bs res :
  drains r bs res r' →
  hr_hasher r' = hr_hasher r ++ bs ∧ drains (hr_inner r) bs res (hr_inner r').
Proof.
  induction 1 as [r r' cap Hc Hp|r r' cap e Hc Hp|r r1 r' cap out res Hc Hp _ [IH1 IH2]
                 |r r1 r' cap bs out res Hc Hb Hp _ [IH1 IH2]]; cbn in Hp;
    destruct (poll_read (hr_inner r) cap) as [[[bs'|e']|] i] eqn:Hi; simplify_eq; cbn in *.
  - rewrite app_nil_r. split; [done|]. by eapply drains_eof.
  - rewrite app_nil_r. split; [done|]. by eapply drains_err.
  - split; [done|]. by eapply drains_pending.
  - destruct (decide _) as [_|Hn]; [|destruct bs; cbn in Hn; [done|lia]].
    rewrite IH1, <- app_assoc. split; [done|]. by eapply drains_data.
Qed.

(** A reader that always delivers exactly [bs], whatever buffers it is given. *)
Definition delivers {R} `{AsyncRead R} (r : R) (bs : bytes) : Prop :=
  ∀ out res r', drains r out res r' → out = bs ∧ res = Ok tt.

Lemma delivers_hashing {R} `{AsyncRead R} (r : R) bs :
  delivers r bs → delivers (HashingReader_new r) bs.
Proof. intros Hd out res r' Hdr. apply HashingReader_drains_inv in Hdr as [_ Hdr]. eauto. Qed.

Lemma Cursor_delivers bs : delivers {| cur_rest := bs |} bs.
Proof. intros out res r' Hd. by apply Cursor_drains in Hd as (-> & -> & _). Qed.

(** ** Keys *)

(** The fixed key families of the store are faithful on this backend. *)
Class StoreKeys `{Crates} (B : Type) `{BackendOk B} : Prop := {
  index_key_ok : ∀ h, key_ok (index_key h);
  layer_key_ok : ∀ h, key_ok (layer_key h);
  manifest_key_ok : ∀ h, key_ok (manifest_key h);
}.

#[export] Instance index_key_inj `{CratesOk} : Inj (=) (=) index_key.
Proof. intros a b Hab. unfold index_key in Hab. apply (inj (lit "index/" ++.)) in Hab. by apply (inj _) in Hab. Qed.
#[export] Instance layer_key_inj `{CratesOk} : Inj (=) (=) layer_key.
Proof. intros a b Hab. unfold layer_key in Hab. apply (inj (lit "layers/" ++.)) in Hab. by apply (inj _) in Hab. Qed.
#[export] Instance manifest_key_inj `{CratesOk} : Inj (=) (=) manifest_key.
Proof. intros a b Hab. unfold manifest_key in Hab. apply (inj (lit "manifests/" ++.)) in Hab. by apply (inj _) in Hab. Qed.

(** Keys of different families differ: their prefixes already do. *)
Ltac key_neq := unfold not; intros; discriminate.

Lemma index_layer_neq `{Crates} a b : index_key a ≠ layer_key b.
Proof. key_neq. Qed.

#[export] Instance hash_bytes_inj `{CratesOk} : Inj (=) (=) (λ h, as_bytes (ContentHash_to_string h)).
Proof.
  intros a b Hab. pose proof (hash_text_roundtrip a) as Ha. cbv beta in Hab.
  rewrite Hab, hash_text_roundtrip in Ha. injection Ha as Ha. by apply (inj _) in Ha.
Qed.

(** ** Publication *)

Section Publish.
Context `{CratesOk} {B : Type} `{!StorageBackend B, !BackendOk B, !StoreKeys B}.
Implicit Types (v : StoreView) (c : bool).

(** The entry [register_input_hash] writes. *)
Definition hash_text (h : ContentHash) : bytes := as_bytes (ContentHash_to_string h).

Lemma from_utf8_hash_text h :
  ∃ s, from_utf8 (hash_text h) = Some s ∧ ContentHash_from_str (trim s) = Ok h.
Proof.
  pose proof (hash_text_roundtrip h) as Hrt. unfold hash_text.
  destruct (from_utf8 _) as [s|]; [|done]. cbn in Hrt. injection Hrt as Hrt.
  exists s. split; [done|]. rewrite Hrt. apply ContentHash_from_to_string.
Qed.

(** Both artifacts are stored and the layer's metadata names the input. *)
Definition layer_complete v (ih : InputHash) (h : ContentHash) : Prop :=
  (∃ mj meta, sv_metas v !! layer_key h = Some mj ∧ json_from_slice mj = Ok meta ∧
              lm_input_hash meta = ih) ∧
  ∀ f, is_Some (sv_blobs v !! (h, f)).

(** The invariant of the index: every entry is the text of a hash whose
    layer is complete. *)
Definition index_wf v : Prop :=
  ∀ ih data, sv_metas v !! index_key ih = Some data →
    ∃ h, data = hash_text h ∧ layer_complete v ih h.

Lemma wp_resolve c ih v (Q : result StoreError (option ContentHash) → StoreView → Prop) (o : option ContentHash) :
  sv_metas v !! index_key ih = hash_text <$> o →
  (∀ r, read_post c o r → Q r v) →
  wp c (resolve_input_hash ih) v Q.
Proof.
  intros Ho HQ. unfold resolve_input_hash. apply wp_bind, wp_get_meta; [apply index_key_ok|].
  intros r [->|[Hc [e ->]]]; [|by apply HQ; right; eauto].
  rewrite Ho. destruct o as [h|]; cbn.
  - destruct (from_utf8_hash_text h) as (s & Hs & Hh).
    apply wp_bind, wp_lift. rewrite Hs. cbn. apply wp_bind, wp_lift. rewrite Hh.
    apply wp_ret, HQ. by left.
  - apply wp_ret, HQ. by left.
Qed.

(** The store after a first publication of a layer. *)
Definition published (meta : LayerMeta) (deploy cache meta_json : bytes) v : StoreView :=
  let h := lm_content_hash meta in
  view_put_meta (index_key (lm_input_hash meta)) (hash_text h)
    (view_put_meta (layer_key h) meta_json
      (view_put_blob h BuildCache cache (view_put_blob h Deploy deploy v))).

Lemma wp_publish_meta c meta v (Q : result StoreError ContentHash → StoreView → Prop) :
  (∀ mj, json_to_vec meta = Ok mj → json_from_slice mj = Ok meta →
     Q (Ok (lm_content_hash meta))
       (view_put_meta (index_key (lm_input_hash meta)) (hash_text (lm_content_hash meta))
          (view_put_meta (layer_key (lm_content_hash meta)) mj v)) ∧
     (¬ c → ∀ e, Q (Err (Io e)) v ∧
                 Q (Err (Io e)) (view_put_meta (layer_key (lm_content_hash meta)) mj v))) →
  wp c (publish_meta meta) v Q.
Proof.
  intros HQ. destruct (json_meta_roundtrip meta) as (mj & Hmj & Hback).
  destruct (HQ mj Hmj Hback) as [HQok HQerr].
  unfold publish_meta. apply wp_bind, wp_lift. rewrite Hmj. cbn.
  apply wp_bind, wp_put_meta; [apply layer_key_ok| |intros Hc e; by apply HQerr].
  apply wp_bind, wp_put_meta; [apply index_key_ok|by apply wp_ret|].
  intros Hc e. by apply HQerr.
Qed.

(** ** Invariance of the index *)

Lemma index_wf_blob v h f bs : index_wf v → index_wf (view_put_blob h f bs v).
Proof.
  intros Hwf ih data Hd. destruct (Hwf ih data Hd) as (h' & -> & Hm & Hb).
  exists h'. split; [done|]. split; [done|]. intros f'. cbn.
  destruct (decide ((h, f) = (h', f'))) as [->|Hne];
    [rewrite lookup_insert_eq|rewrite lookup_insert_ne]; naive_solver.
Qed.

(** Keys outside the index and layer families do not matter. *)
Definition foreign_key (k : rstr) : Prop :=
  (∀ ih, k ≠ index_key ih) ∧ (∀ h, k ≠ layer_key h).

Lemma index_wf_foreign v m' :
  (∀ k, ¬ foreign_key k → m' !! k = sv_metas v !! k) →
  index_wf v → index_wf (mk_view (sv_blobs v) m').
Proof.
  intros Heq Hwf ih data Hd. cbn in Hd.
  rewrite Heq in Hd by (unfold foreign_key; naive_solver).
  destruct (Hwf ih data Hd) as (h & -> & (mj & meta & Hmj & ?) & Hb).
  exists h. split; [done|]. split; [|done]. exists mj, meta. cbn.
  rewrite Heq by (unfold foreign_key; naive_solver). done.
Qed.

Lemma index_wf_put_foreign v k x :
  foreign_key k → index_wf v → index_wf (view_put_meta k x v).
Proof.
  intros Hk. apply index_wf_foreign. intros k' Hk'.
  apply lookup_insert_ne. by intros ->.
Qed.

Lemma index_wf_delete_foreign v k :
  foreign_key k → index_wf v → index_wf (view_delete_meta k v).
Proof.
  intros Hk. apply index_wf_foreign. intros k' Hk'.
  apply lookup_delete_ne. by intros ->.
Qed.

Definition unindexed v (h : ContentHash) : Prop :=
  ∀ ih, sv_metas v !! index_key ih ≠ Some (hash_text h).

Lemma absent_unindexed v h f : index_wf v → sv_blobs v !! (h, f) = None → unindexed v h.
Proof.
  intros Hwf Hno ih Hd. destruct (Hwf ih _ Hd) as (h' & Heq & _ & Hb).
  apply (inj (λ h, as_bytes (ContentHash_to_string h))) in Heq as <-.
  destruct (Hb f) as [? ?]. congruence.
Qed.

Lemma index_wf_put_layer v h mj :
  unindexed v h → index_wf v → index_wf (view_put_meta (layer_key h) mj v).
Proof.
  intros Hun Hwf ih data Hd. cbn in Hd.
  rewrite lookup_insert_ne in Hd by (apply not_eq_sym, index_layer_neq).
  destruct (Hwf ih data Hd) as (h' & -> & (mj' & meta & Hmj & ?) & Hb).
  exists h'. split; [done|]. split; [|done]. exists mj', meta. cbn.
  rewrite lookup_insert_ne; [done|]. intros Hk. apply (inj layer_key) in Hk as ->.
  by apply (Hun ih).
Qed.

Lemma index_wf_register v ih h :
  layer_complete v ih h → index_wf v → index_wf (view_put_meta (index_key ih) (hash_text h) v).
Proof.
  intros Hc Hwf ih' data Hd. cbn in Hd.
  assert (∀ ih' h', layer_complete v ih' h' →
    layer_complete (view_put_meta (index_key ih) (hash_text h) v) ih' h') as Hkeep.
  { intros i h' ((mj & meta & Hmj & ?) & Hb). split; [|done]. exists mj, meta. cbn.
    by rewrite lookup_insert_ne by apply index_layer_neq. }
  destruct (decide (index_key ih = index_key ih')) as [Hi|Hi].
  - apply (inj index_key) in Hi as <-. rewrite lookup_insert_eq in Hd. injection Hd as <-.
    exists h. auto.
  - rewrite lookup_insert_ne in Hd by done. destruct (Hwf ih' data Hd) as (h' & -> & ?).
    exists h'. auto.
Qed.

(** Both blobs in place and no entry yet: metadata, then index entry. *)
Lemma wp_publish_meta_wf c meta v :
  index_wf v → unindexed v (lm_content_hash meta) →
  (∀ f, is_Some (sv_blobs v !! (lm_content_hash meta, f))) →
  wp c (publish_meta meta) v (λ _, index_wf).
Proof.
  intros Hwf Hun Hb. apply wp_publish_meta. intros mj _ Hback. split.
  - apply index_wf_register; [|by apply index_wf_put_layer]. split; [|done].
    exists mj, meta. cbn. by rewrite lookup_insert_eq.
  - intros _ e. split; [done|]. by apply index_wf_put_layer.
Qed.

Lemma both_blobs v h d ca f :
  is_Some (sv_blobs (view_put_blob h BuildCache ca (view_put_blob h Deploy d v)) !! (h, f)).
Proof.
  cbn. destruct f; [rewrite lookup_insert_ne by done|]; rewrite lookup_insert_eq; eauto.
Qed.

Lemma wp_publish_layer_wf {RD RC} `{AsyncReadOk RD, AsyncReadOk RC} c (dr : RD) (cr : RC) meta v :
  index_wf v → wp c (publish_layer dr cr meta) v (λ _, index_wf).
Proof.
  intros Hwf. unfold publish_layer, has_layer. apply wp_bind, wp_has_blob.
  intros r [->|[_ [e ->]]]; [|done].
  case_bool_decide as Hpres; [by apply wp_ret|]. apply eq_None_not_Some in Hpres.
  pose proof (absent_unindexed _ _ _ Hwf Hpres) as Hun.
  apply wp_bind, wp_put_blob_with; [|done]. intros d hd _.
  apply wp_bind, wp_put_blob_with; [|by intros; apply index_wf_blob]. intros ca hc _.
  apply wp_publish_meta_wf; [by do 2 apply index_wf_blob|exact Hun|].
  intros f. apply both_blobs.
Qed.

Lemma wp_publish_layer_concurrent_wf {RD RC} `{AsyncReadOk RD, AsyncReadOk RC}
    c (dr : RD) (cr : RC) meta v :
  index_wf v → wp c (publish_layer_concurrent dr cr meta) v (λ _, index_wf).
Proof.
  intros Hwf. unfold publish_layer_concurrent, has_layer. apply wp_bind, wp_has_blob.
  intros r [->|[_ [e ->]]]; [|done].
  case_bool_decide as Hpres; [by apply wp_ret|]. apply eq_None_not_Some in Hpres.
  pose proof (absent_unindexed _ _ _ Hwf Hpres) as Hun.
  apply wp_bind, wp_attempt, wp_put_blob_with.
  - intros d hd _. apply wp_bind, wp_attempt, wp_put_blob_with.
    + intros ca hc _. apply wp_bind, wp_lift, wp_bind, wp_lift.
      apply wp_publish_meta_wf; [by do 2 apply index_wf_blob|exact Hun|].
      intros f. apply both_blobs.
    + intros e _. apply wp_bind, wp_lift, wp_bind, wp_lift. by apply index_wf_blob.
  - intros e _. apply wp_bind, wp_attempt, wp_put_blob_with.
    + intros ca hc _. apply wp_bind, wp_lift. by apply index_wf_blob.
    + intros e' _. by apply wp_bind, wp_lift.
Qed.

(** ** Functional behaviour of publication *)

Lemma delivers_hashed {R} `{AsyncReadOk R} (rd : R) bs out hd :
  delivers rd bs → drains (HashingReader_new rd) out (Ok tt) hd →
  out = bs ∧ HashingReader_finalize hd = mk_ContentHash (sha256 bs).
Proof.
  intros Hd Hdr. destruct (delivers_hashing _ _ Hd _ _ _ Hdr) as [-> _].
  apply HashingReader_drains_inv in Hdr as [Hh _].
  unfold HashingReader_finalize. by rewrite Hh.
Qed.

Lemma delivers_no_error {R} `{AsyncReadOk R} (rd : R) bs out e hd :
  delivers rd bs → ¬ drains (HashingReader_new rd) out (Err e) hd.
Proof. intros Hd Hdr. by destruct (delivers_hashing _ _ Hd _ _ _ Hdr). Qed.

(** The metadata a publication stores: the caller's, with the checksums of
    the two artifacts. *)
Definition final_meta (meta : LayerMeta) (deploy cache : bytes) : LayerMeta :=
  set_file_checksums meta (mk_ContentHash (sha256 deploy)) (mk_ContentHash (sha256 cache)).

Lemma wp_publish_layer_new {RD RC} `{AsyncReadOk RD, AsyncReadOk RC}
    (dr : RD) (cr : RC) meta deploy cache v :
  delivers dr deploy → delivers cr cache →
  (∀ f, sv_blobs v !! (lm_content_hash meta, f) = None) →
  wp true (publish_layer dr cr meta) v (λ r v', r = Ok (lm_content_hash meta) ∧
    ∃ mj, json_to_vec (final_meta meta deploy cache) = Ok mj ∧
          json_from_slice mj = Ok (final_meta meta deploy cache) ∧
          v' = published meta deploy cache mj v).
Proof.
  intros Hdd Hdc Habs. unfold publish_layer, has_layer. apply wp_bind, wp_has_blob.
  intros r [->|[[] _]]; [|done]. rewrite Habs.
  rewrite bool_decide_false by (intros [? [=]]).
  apply wp_bind, wp_put_blob_with.
  2: { intros e [[]|(? & ? & ? & Hdr)]; [done|]. by apply delivers_no_error with (bs := deploy) in Hdr. }
  intros d hd Hdr. destruct (delivers_hashed _ _ _ _ Hdd (Hdr (Habs _))) as [-> Hfd].
  apply wp_bind, wp_put_blob_with.
  2: { intros e [[]|(? & ? & ? & Hdr')]; [done|]. by apply delivers_no_error with (bs := cache) in Hdr'. }
  intros ca hc Hdr'. cbn in Hdr'. rewrite lookup_insert_ne in Hdr' by done.
  destruct (delivers_hashed _ _ _ _ Hdc (Hdr' (Habs _))) as [-> Hfc].
  rewrite Hfd, Hfc. apply wp_publish_meta. intros mj Hmj Hback. split; [|by intros []].
  split; [done|]. exists mj. done.
Qed.
End Publish.

(** Reading the two artifacts concurrently gives what reading one after the
    other gives. *)
Lemma publish_concurrent_of_seq `{Crates} {B : Type} `{StorageBackend B} {RD RC} `{AsyncRead RD, AsyncRead RC}
    (dr : RD) (cr : RC) meta (b b' : B) h :
  publish_layer dr cr meta b = (Ok h, b') →
  publish_layer_concurrent dr cr meta b = (Ok h, b').
Proof.
  unfold publish_layer, publish_layer_concurrent. intros Hrun.
  apply bind_ok in Hrun as ([] & b1 & Hp & Hrun);
    unfold mbind at 1, SM_bind at 1; rewrite Hp; [done|].
  apply bind_ok in Hrun as (hd & b2 & Hd & Hrun).
  apply bind_ok in Hrun as (hc & b3 & Hc & Hrun).
  unfold mbind, SM_bind, attempt, lift. rewrite Hd. cbn. by rewrite Hc.
Qed.
