(* ===== verification/StoreMeta.v ===== *)
(** * fs-storage: manifests, catalogue and tags

    What the maps hold after each metadata operation, on every branch. *)

From S2P Require Import Prelude RustStd AsyncIo StoreTypes Crates Backend LayerStore StoreLogic StoreBlobs.

Section Meta.
Context `{CratesOk} {B : Type} `{!StorageBackend B, !BackendOk B, !StoreKeys B}.
Implicit Types (v : StoreView) (c : bool).

(** ** Manifests *)

Definition manifest_value v (h : ContentHash) : result StoreError ReleaseManifest :=
  match sv_metas v !! manifest_key h with
  | Some data => map_err Serialization (json_from_slice data)
  | None => Err NotFound
  end.

Lemma wp_get_manifest c h v (Q : result StoreError ReleaseManifest → StoreView → Prop) :
  (∀ r, r = manifest_value v h ∨ (¬ c ∧ ∃ e, r = Err (Io e)) → Q r v) →
  wp c (get_manifest h) v Q.
Proof.
  intros HQ. unfold get_manifest. apply wp_bind, wp_get_meta; [apply manifest_key_ok|].
  intros r [->|[Hc [e ->]]]; [|apply HQ; eauto].
  apply wp_bind, wp_lift. unfold manifest_value in HQ.
  destruct (sv_metas v !! manifest_key h); cbn; [apply wp_lift|]; apply HQ; auto.
Qed.

Lemma wp_publish_manifest now uuid manifest v
    (Q : result StoreError ContentHash → StoreView → Prop) :
  key_ok (build_key (build_id_of now uuid)) →
  (∀ buf ej, let h := mk_ContentHash (sha256 buf) in
     let id := build_id_of now uuid in
     json_from_slice buf = Ok manifest →
     json_from_slice ej = Ok (catalog_entry_of id h manifest) →
     Q (Ok h) (view_put_meta (build_key id) ej (view_put_meta (manifest_key h) buf v))) →
  wp true (publish_manifest now uuid manifest) v Q.
Proof.
  intros Hk HQ. destruct (json_manifest_roundtrip manifest) as (jv & buf & Hjv & Hbuf & Hback).
  set (h := mk_ContentHash (sha256 buf)).
  destruct (json_entry_roundtrip (catalog_entry_of (build_id_of now uuid) h manifest))
    as (ej & Hej & Heback).
  unfold publish_manifest. apply wp_bind, wp_lift. rewrite Hjv. cbn.
  apply wp_bind, wp_lift. rewrite Hbuf. cbn.
  apply wp_bind, wp_put_meta; [apply manifest_key_ok| |by intros []].
  apply wp_bind, wp_lift. fold h. rewrite Hej. cbn.
  apply wp_bind, wp_put_meta; [done| |by intros []].
  apply wp_ret. by apply HQ.
Qed.

(** ** Tags *)

(** What [get_tag] makes of the stored value. *)
Definition tag_value v (name : rstr) : option ContentHash :=
  data ← sv_metas v !! tag_key name;
  s ← from_utf8 data;
  res_ok (ContentHash_from_str (trim s)).

Lemma wp_get_tag c name v (Q : result StoreError ContentHash → StoreView → Prop) :
  key_ok (tag_key name) →
  (∀ r, (res_ok r = tag_value v name ∧ (sv_metas v !! tag_key name = None → r = Err NotFound)) ∨
        (¬ c ∧ ∃ e, r = Err (Io e)) → Q r v) →
  wp c (get_tag name) v Q.
Proof.
  intros Hk HQ. unfold get_tag. apply wp_bind, wp_get_meta; [done|].
  intros r [->|[Hc [e ->]]]; [|apply HQ; eauto].
  unfold tag_value in HQ. apply wp_bind, wp_lift.
  destruct (sv_metas v !! tag_key name) as [data|]; cbn in *; [|apply HQ; by left].
  apply wp_bind, wp_lift. destruct (from_utf8 data) as [s|]; cbn in *; [|apply HQ; by left].
  apply wp_lift, HQ. by left.
Qed.

Lemma tag_value_written v name h :
  tag_value (view_put_meta (tag_key name) (hash_text h) v) name = Some h.
Proof.
  unfold tag_value. cbn. rewrite lookup_insert_eq. cbn.
  destruct (from_utf8_hash_text h) as (s & -> & Hs). cbn. by rewrite Hs.
Qed.

Lemma wp_create_tag c name h v (Q : result StoreError unit → StoreView → Prop) :
  key_ok (tag_key name) →
  (if regex_is_match TAG_PATTERN name then
     match manifest_value v h with
     | Ok _ => Q (Ok tt) (view_put_meta (tag_key name) (hash_text h) v)
     | Err e => Q (Err e) v
     end
   else Q (Err (InvalidTagName name)) v) →
  (¬ c → ∀ e, Q (Err (Io e)) v) →
  wp c (create_tag name h) v Q.
Proof.
  intros Hk HQ HQe. unfold create_tag, validate_tag_name. apply wp_bind, wp_lift.
  destruct (regex_is_match TAG_PATTERN name); cbn; [|done].
  apply wp_bind, wp_get_manifest. intros r [->|[Hc [e ->]]]; [|by apply HQe].
  destruct (manifest_value v h) as [m|e]; [|done].
  by apply wp_put_meta.
Qed.

(** The loop of [list_tags] keeps exactly the keys whose value is a hash. *)
Definition tag_of v (key : rstr) : option (rstr * ContentHash) :=
  name ← strip_prefix (lit "tags/") key; h ← tag_value v name; Some (name, h).

Lemma wp_list_tags v (Q : result StoreError (list (rstr * ContentHash)) → StoreView → Prop) :
  (∀ tags, NoDup tags → (∀ name h, (name, h) ∈ tags ↔ tag_value v name = Some h) →
     Q (Ok tags) v) →
  wp true list_tags v Q.
Proof.
  intros HQ. apply wp_keys. intros Hkeys. unfold list_tags.
  apply wp_bind, wp_list_meta; [unfold list_prefixes; set_solver|].
  intros r [(ks & -> & Hnd & Hks)|[[] _]]; [|done].
  apply wp_for_each with (I := λ dn tags w, w = v ∧ tags = omap (tag_of v) dn).
  - done.
  - intros dn k tags w Hk [-> ->]. rewrite omap_app. cbn.
    apply Hks in Hk as [Hsome Hpre].
    destruct (strip_prefix (lit "tags/") k) as [name|] eqn:Hs.
    2: { apply wp_ret. unfold tag_of at 3. rewrite Hs. cbn. by rewrite app_nil_r. }
    assert (tag_of v k = h ← tag_value v name; Some (name, h)) as ->
      by (unfold tag_of; by rewrite Hs).
    apply strip_prefix_Some in Hs as ->.
    apply wp_bind, wp_attempt, wp_get_tag; [by apply Hkeys|].
    intros r [[Hr _]|[[] _]]; [|done]. rewrite <- Hr.
    destruct r; cbn; apply wp_ret; cbn; by rewrite ?app_nil_r.
  - intros tags w [-> ->]. apply HQ.
    + apply NoDup_omap; [|done]. intros k1 k2 y. unfold tag_of.
      destruct (strip_prefix (lit "tags/") k1) as [n1|] eqn:H1; [|done].
      destruct (strip_prefix (lit "tags/") k2) as [n2|] eqn:H2; [|done].
      apply strip_prefix_Some in H1 as ->. apply strip_prefix_Some in H2 as ->. cbn.
      destruct (tag_value v n1), (tag_value v n2); cbn; naive_solver.
    + intros name h. rewrite list_elem_of_omap. unfold tag_of. split.
      * intros (k & Hk & Hof). destruct (strip_prefix (lit "tags/") k) as [n|]; [|done].
        cbn in Hof. destruct (tag_value v n) eqn:?; cbn in Hof; naive_solver.
      * intros Hv. exists (tag_key name). split.
        -- apply Hks. split; [|apply starts_with_true; by eexists].
           unfold tag_value in Hv. destruct (sv_metas v !! tag_key name); [eauto|done].
        -- unfold tag_key. rewrite strip_prefix_app. cbn. by rewrite Hv.
Qed.
End Meta.
