(* ===== verification/StoreGc.v ===== *)
(** * fs-storage: catalogue queries, integrity scan and garbage collection

    [list_builds] returns the matching entries, newest first; [gc_candidates]
    reports exactly the recorded layers no stored manifest refers to; running
    [gc_execute] on that report removes those and nothing a manifest needs. *)

From S2P Require Import Prelude RustStd AsyncIo StoreTypes Crates Backend LayerStore StoreLogic StoreBlobs StoreMeta.

Section Gc.
Context `{CratesOk} {B : Type} `{!StorageBackend B, !BackendOk B, !StoreKeys B}.
Implicit Types (v : StoreView) (c : bool).

(** ** Catalogue *)

Definition tag_cond v (filter : BuildFilter) (e : BuildCatalogEntry) : bool :=
  match bf_tag filter with
  | Some t => bool_decide (tag_value v t = Some (bc_manifest_hash e))
  | None => true
  end.

(** The entry stored under a key, when it parses and passes the filter. *)
Definition build_of v (filter : BuildFilter) (k : rstr) : option BuildCatalogEntry :=
  data ← sv_metas v !! k;
  e ← res_ok (json_from_slice data);
  if tag_cond v filter e && entry_matches filter e then Some e else None.

(** A filter, condition by condition. *)
Definition admits v (filter : BuildFilter) (e : BuildCatalogEntry) : Prop :=
  (∀ t, bf_tag filter = Some t → tag_value v t = Some (bc_manifest_hash e)) ∧
  (∀ p, bf_release_name_prefix filter = Some p → ∃ rest, bc_release_name e = p ++ rest) ∧
  (∀ h, bf_layer_hash filter = Some h → h ∈ bc_layers e) ∧
  (∀ t, bf_from_timestamp filter = Some t → (t ≤ bc_build_timestamp e)%N) ∧
  (∀ t, bf_to_timestamp filter = Some t → (bc_build_timestamp e ≤ t)%N).

(** An entry is stored under a key and passes the filter. *)
Definition catalogued v (filter : BuildFilter) (k : rstr) (e : BuildCatalogEntry) : Prop :=
  ∃ data, sv_metas v !! k = Some data ∧ json_from_slice data = Ok e ∧ admits v filter e.

(** A condition that is only tested when it is given. *)
Lemma opt_cond {A} (o : option A) (test : A → bool) (P : A → Prop) :
  (∀ a, test a = true ↔ P a) → match o with Some a => test a | None => true end = true ↔ ∀ a, o = Some a → P a.
Proof. intros HP. destruct o as [a|]; [rewrite HP|]; naive_solver. Qed.

Lemma admits_spec v filter e : tag_cond v filter e && entry_matches filter e = true ↔ admits v filter e.
Proof.
  unfold tag_cond, entry_matches, admits. rewrite !andb_true_iff.
  rewrite (opt_cond (bf_tag filter) _ (λ t, tag_value v t = Some (bc_manifest_hash e)))
    by (intros t; apply bool_decide_eq_true).
  rewrite (opt_cond (bf_release_name_prefix filter) _ (λ p, ∃ rest, bc_release_name e = p ++ rest))
    by (intros p; apply starts_with_true).
  rewrite (opt_cond (bf_layer_hash filter) _ (λ h, h ∈ bc_layers e)) by (intros h; apply bool_decide_eq_true).
  rewrite (opt_cond (bf_from_timestamp filter) _ (λ t, (t ≤ bc_build_timestamp e)%N))
    by (intros t; rewrite negb_true_iff, N.ltb_ge; done).
  rewrite (opt_cond (bf_to_timestamp filter) _ (λ t, (bc_build_timestamp e ≤ t)%N))
    by (intros t; rewrite negb_true_iff, N.ltb_ge; done).
  tauto.
Qed.

Lemma build_of_Some v filter k e : build_of v filter k = Some e ↔ catalogued v filter k e.
Proof.
  unfold build_of, catalogued. destruct (sv_metas v !! k) as [data|]; cbn;
    [|split; [done|by intros (? & [=] & _)]].
  destruct (json_from_slice data) as [e'|] eqn:Hj; cbn;
    [|split; [done|intros (? & [= <-] & ? & _); congruence]].
  destruct (tag_cond v filter e' && entry_matches filter e') eqn:Hc; split.
  - intros [= ->]. exists data. by rewrite <- admits_spec.
  - intros (? & [= <-] & Hj' & _). congruence.
  - done.
  - intros (? & [= <-] & Hj' & Ha%admits_spec). rewrite Hj in Hj'. injection Hj' as ->. congruence.
Qed.

Definition not_older (a b : BuildCatalogEntry) : Prop :=
  (bc_build_timestamp b ≤ bc_build_timestamp a)%N.

Lemma sort_newest_sorted l : StronglySorted not_older (sort_by newest_first l).
Proof.
  apply sort_by_sorted; unfold not_older, newest_first.
  - intros a b d. cbv beta. lia.
  - intros a b Hc. apply (proj1 (N.compare_lt_iff _ _)), N.lt_le_incl in Hc. exact Hc.
  - intros a b Hc. rewrite N.compare_lt_iff in Hc. lia.
Qed.

Lemma wp_tag_matches filter e v (Q : result StoreError bool → StoreView → Prop) :
  (∀ t, bf_tag filter = Some t → key_ok (tag_key t)) →
  Q (Ok (tag_cond v filter e)) v → wp true (tag_matches filter e) v Q.
Proof.
  intros Hk HQ. unfold tag_matches, tag_cond in *. destruct (bf_tag filter) as [t|];
    [|by apply wp_ret].
  apply wp_bind, wp_attempt, wp_get_tag; [by apply Hk|].
  intros r [[Hr _]|[[] _]]; [|done]. apply wp_ret. rewrite <- Hr in HQ.
  destruct r as [h|]; cbn in HQ.
  - erewrite bool_decide_ext; [exact HQ|]. naive_solver.
  - by rewrite bool_decide_false in HQ.
Qed.

Lemma wp_list_builds filter v (Q : result StoreError (list BuildCatalogEntry) → StoreView → Prop) :
  (∀ t, bf_tag filter = Some t → key_ok (tag_key t)) →
  (∀ ks, NoDup ks →
     (∀ k, k ∈ ks ↔ is_Some (sv_metas v !! k) ∧ starts_with k (lit "builds/") = true) →
     Q (Ok (sort_by newest_first (omap (build_of v filter) ks))) v) →
  wp true (list_builds filter) v Q.
Proof.
  intros Ht HQ. apply wp_keys. intros Hkeys. unfold list_builds.
  apply wp_bind, wp_list_meta; [unfold list_prefixes; set_solver|].
  intros r [(ks & -> & Hnd & Hks)|[[] _]]; [|done].
  apply wp_bind.
  apply wp_for_each with (I := λ dn bs w, w = v ∧ bs = omap (build_of v filter) dn).
  - done.
  - intros dn k bs w Hk [-> ->]. rewrite omap_app. cbn. apply Hks in Hk as [Hsome _].
    apply wp_bind, wp_get_meta; [by apply Hkeys|]. intros r [->|[[] _]]; [|done].
    destruct (build_of v filter k) as [x|] eqn:Hx; unfold build_of in Hx;
      (destruct (sv_metas v !! k) as [data|]; [|destruct Hsome as [? [=]]]); cbn in Hx;
      (destruct (json_from_slice data) as [e|]; cbn in Hx; [|by apply wp_ret; rewrite ?app_nil_r]);
      apply wp_bind, wp_tag_matches; try done; apply wp_ret;
      destruct (tag_cond v filter e && entry_matches filter e); simplify_eq; by rewrite ?app_nil_r.
  - intros bs w [-> ->]. apply wp_ret. by apply HQ.
Qed.

(** ** Integrity scan *)

(** The recorded layer a key stands for, when its deploy artifact exists. *)
Definition valid_of v (k : rstr) : option ContentHash :=
  s ← strip_prefix (lit "layers/") k;
  h ← res_ok (ContentHash_from_str s);
  if bool_decide (is_Some (sv_blobs v !! (h, Deploy))) then Some h else None.

Lemma wp_verify_store v (Q : result StoreError VerificationReport → StoreView → Prop) :
  (∀ ks, NoDup ks →
     (∀ k, k ∈ ks ↔ is_Some (sv_metas v !! k) ∧ starts_with k (lit "layers/") = true) →
     Q (Ok {| vr_valid := omap (valid_of v) ks; vr_corrupt := [] |}) v) →
  wp true verify_store v Q.
Proof.
  intros HQ. unfold verify_store.
  apply wp_bind, wp_list_meta; [unfold list_prefixes; set_solver|].
  intros r [(ks & -> & Hnd & Hks)|[[] _]]; [|done].
  apply wp_for_each with
    (I := λ dn rp w, w = v ∧ rp = {| vr_valid := omap (valid_of v) dn; vr_corrupt := [] |}).
  - done.
  - intros dn k rp w Hk [-> ->]. rewrite omap_app. cbn.
    set (valid := omap (valid_of v) dn). unfold valid_of.
    destruct (strip_prefix (lit "layers/") k) as [s|]; cbn; [|apply wp_ret; by rewrite app_nil_r].
    destruct (ContentHash_from_str s) as [h|]; cbn; [|apply wp_ret; by rewrite app_nil_r].
    apply wp_bind, wp_has_blob. intros r [->|[[] _]]; [|done]. apply wp_ret.
    case_bool_decide; cbn; by rewrite ?app_nil_r.
  - intros rp w [-> ->]. by apply HQ.
Qed.

(** ** Liveness of layers *)

(** Some stored manifest lists the layer. *)
Definition referenced v (h : ContentHash) : Prop :=
  ∃ mh m, manifest_value v mh = Ok m ∧ h ∈ map ml_content_hash (rm_layers m).

Lemma wp_live_manifests v (Q : result StoreError (gset ContentHash) → StoreView → Prop) :
  (∀ hs, (∀ mh, is_Some (sv_metas v !! manifest_key mh) → mh ∈ hs) → Q (Ok hs) v) →
  wp true live_manifests v Q.
Proof.
  intros HQ. unfold live_manifests. apply wp_bind, wp_list_tags. intros tags _ _.
  apply wp_bind, wp_list_meta; [unfold list_prefixes; set_solver|].
  intros r [(ks & -> & Hnd & Hks)|[[] _]]; [|done].
  apply wp_for_each with
    (I := λ dn hs w, w = v ∧ ∀ mh, manifest_key mh ∈ dn → mh ∈ (hs : gset ContentHash)).
  - split; [done|]. intros mh []%not_elem_of_nil.
  - intros dn k hs w Hk [-> Hhs].
    assert (∀ hs', hs ⊆ hs' → (∀ mh, k = manifest_key mh → mh ∈ hs') →
      v = v ∧ ∀ mh, manifest_key mh ∈ dn ++ [k] → mh ∈ hs') as Hnext.
    { intros hs' Hsub Hnew. split; [done|]. intros mh. rewrite elem_of_app.
      rewrite list_elem_of_singleton. naive_solver. }
    destruct (strip_prefix (lit "manifests/") k) as [s|] eqn:Hs.
    2: { apply wp_ret, Hnext; [done|]. intros mh ->. unfold manifest_key in Hs.
         by rewrite strip_prefix_app in Hs. }
    apply strip_prefix_Some in Hs as ->.
    assert (∀ mh, lit "manifests/" ++ s = manifest_key mh → s = ContentHash_to_string mh) as Hinv.
    { intros mh Hmh. unfold manifest_key in Hmh. by apply (inj (lit "manifests/" ++.)) in Hmh. }
    destruct (ContentHash_from_str s) as [h|] eqn:Hh; apply wp_ret, Hnext.
    + apply union_subseteq_r.
    + intros mh Hmh%Hinv. subst s. rewrite ContentHash_from_to_string in Hh.
      injection Hh as ->. apply elem_of_union_l, elem_of_singleton_2. done.
    + done.
    + intros mh Hmh%Hinv. subst s. by rewrite ContentHash_from_to_string in Hh.
  - intros hs w [-> Hhs]. apply HQ. intros mh Hmh. apply Hhs, Hks. split; [done|].
    apply starts_with_true. by eexists.
Qed.

Lemma wp_live_layers hs v (Q : result StoreError (gset ContentHash) → StoreView → Prop) :
  (∀ mh, is_Some (sv_metas v !! manifest_key mh) → mh ∈ hs) →
  (∀ live, (∀ h, h ∈ live ↔ referenced v h) → Q (Ok live) v) →
  wp true (live_layers hs) v Q.
Proof.
  intros Hhs HQ. unfold live_layers.
  apply wp_for_each with (I := λ dn live w, w = v ∧ ∀ h, h ∈ (live : gset ContentHash) ↔
    ∃ mh m, mh ∈ dn ∧ manifest_value v mh = Ok m ∧ h ∈ map ml_content_hash (rm_layers m)).
  - split; [done|]. intros h. rewrite elem_of_empty. split; [done|].
    intros (mh & m & []%not_elem_of_nil & _).
  - intros dn mh live w Hmh [-> Hlive].
    apply wp_bind, wp_attempt, wp_get_manifest. intros r [->|[[] _]]; [|done].
    apply wp_ret. split; [done|]. intros h. setoid_rewrite elem_of_app.
    setoid_rewrite list_elem_of_singleton.
    destruct (manifest_value v mh) as [m|] eqn:Hm; rewrite ?elem_of_union, ?elem_of_list_to_set, Hlive;
      clear Hlive Hhs Hmh HQ; naive_solver congruence.
  - intros live w [-> Hlive]. apply HQ. intros h. rewrite Hlive. unfold referenced.
    split; [naive_solver|]. intros (mh & m & Hm & Hin). exists mh, m. split_and!; try done.
    apply elem_of_elements, Hhs. unfold manifest_value in Hm.
    destruct (sv_metas v !! manifest_key mh); [eauto|done].
Qed.

(** ** The report *)

(** The candidate the sweep makes of a key, given the live layers. *)
Definition cand_of (live : gset ContentHash) v (k : rstr) : option GcCandidate :=
  s ← strip_prefix (lit "layers/") k;
  h ← res_ok (ContentHash_from_str s);
  if bool_decide (h ∈ live) then None else
  data ← sv_metas v !! k;
  meta ← res_ok (json_from_slice data);
  Some {| gc_content_hash := h;
          gc_size_deploy_bytes := lm_compressed_size_deploy meta;
          gc_size_cache_bytes := lm_compressed_size_cache meta |}.

Definition cand_bytes (cand : GcCandidate) : N :=
  (gc_size_deploy_bytes cand + gc_size_cache_bytes cand)%N.
Definition sum_bytes (cands : list GcCandidate) : N := foldr N.add 0%N (map cand_bytes cands).

Lemma sum_bytes_snoc cands cand :
  sum_bytes (cands ++ [cand]) = (sum_bytes cands + cand_bytes cand)%N.
Proof.
  unfold sum_bytes. rewrite map_app. cbn.
  induction (map cand_bytes cands) as [|x l IH]; cbn; lia.
Qed.

Definition report_of (cands : list GcCandidate) : GcReport :=
  {| gr_candidates := cands; gr_total_reclaimable_bytes := (sum_bytes cands mod 2 ^ 64)%N |}.

Lemma u64_add_sum cands cand :
  u64_add (sum_bytes cands mod 2 ^ 64)%N
    (u64_add (gc_size_deploy_bytes cand) (gc_size_cache_bytes cand)) =
  (sum_bytes (cands ++ [cand]) mod 2 ^ 64)%N.
Proof.
  rewrite sum_bytes_snoc. unfold u64_add, cand_bytes.
  by rewrite N.Div0.add_mod_idemp_r, N.Div0.add_mod_idemp_l.
Qed.

Lemma wp_gc_sweep_key live k dn v :
  key_ok k → is_Some (sv_metas v !! k) →
  wp true (gc_sweep_key live k (report_of (omap (cand_of live v) dn))) v
    (λ r v', r = Ok (report_of (omap (cand_of live v) (dn ++ [k]))) ∧ v' = v).
Proof.
  intros Hk [data Hd]. rewrite omap_app. cbn. unfold gc_sweep_key.
  set (cands := omap (cand_of live v) dn). unfold cand_of.
  destruct (strip_prefix (lit "layers/") k) as [s|]; cbn;
    [|apply wp_ret; by rewrite app_nil_r].
  destruct (ContentHash_from_str s) as [h|]; cbn; [|apply wp_ret; by rewrite app_nil_r].
  case_bool_decide; [apply wp_ret; by rewrite app_nil_r|].
  apply wp_bind, wp_attempt, wp_get_meta; [done|]. intros r [->|[[] _]]; [|done].
  apply wp_ret. rewrite Hd. cbn.
  destruct (json_from_slice data) as [meta|]; cbn; [|by rewrite app_nil_r].
  split; [|done]. unfold report_of. rewrite <- u64_add_sum. done.
Qed.

Lemma wp_gc_candidates v (Q : result StoreError GcReport → StoreView → Prop) :
  (∀ live ks, (∀ h, h ∈ live ↔ referenced v h) → NoDup ks →
     (∀ k, k ∈ ks ↔ is_Some (sv_metas v !! k) ∧ starts_with k (lit "layers/") = true) →
     Q (Ok (report_of (omap (cand_of live v) ks))) v) →
  wp true gc_candidates v Q.
Proof.
  intros HQ. apply wp_keys. intros Hkeys. unfold gc_candidates.
  apply wp_bind, wp_live_manifests. intros hs Hhs.
  apply wp_bind, wp_live_layers; [done|]. intros live Hlive.
  apply wp_bind, wp_list_meta; [unfold list_prefixes; set_solver|].
  intros r [(ks & -> & Hnd & Hks)|[[] _]]; [|done].
  apply wp_for_each with (I := λ dn rp w, w = v ∧ rp = report_of (omap (cand_of live v) dn)).
  - done.
  - intros dn k rp w [Hsome _]%Hks [-> ->]. eapply wp_mono; [|apply wp_gc_sweep_key; auto].
    by intros r v' [-> ->].
  - intros rp w [-> ->]. by apply HQ.
Qed.

(** ** Execution *)

(** The effect of deleting one candidate on the maps. *)
Definition gc_view v (cand : GcCandidate) : StoreView :=
  let h := gc_content_hash cand in
  let v1 := view_delete_blob h BuildCache (view_delete_blob h Deploy v) in
  let v2 := match sv_metas v !! layer_key h with
            | Some data =>
                match json_from_slice data with
                | Ok meta => view_delete_meta (index_key (lm_input_hash meta)) v1
                | Err _ => v1
                end
            | None => v1
            end in
  view_delete_meta (layer_key h) v2.

Definition summary_of (cands : list GcCandidate) : GcSummary :=
  {| gs_deleted_blobs := ((2 * N.of_nat (length cands)) mod 2 ^ 64)%N;
     gs_deleted_bytes := (sum_bytes cands mod 2 ^ 64)%N |}.

Lemma wp_gc_delete cand dn v :
  wp true (gc_delete cand (summary_of dn)) v
    (λ r v', r = Ok (summary_of (dn ++ [cand])) ∧ v' = gc_view v cand).
Proof.
  assert (u64_add (gs_deleted_blobs (summary_of dn)) 2 =
    gs_deleted_blobs (summary_of (dn ++ [cand]))) as Hb.
  { cbn. rewrite length_app. cbn. unfold u64_add. rewrite N.Div0.add_mod_idemp_l. f_equal. lia. }
  unfold gc_delete, gc_view. set (h := gc_content_hash cand).
  apply wp_bind, wp_attempt, wp_delete_blob; [|by intros []].
  apply wp_bind, wp_attempt, wp_delete_blob; [|by intros []].
  apply wp_bind, wp_attempt, wp_get_meta; [apply layer_key_ok|]. intros r [->|[[] _]]; [|done].
  cbn [sv_metas view_delete_blob].
  set (v1 := view_delete_blob h BuildCache (view_delete_blob h Deploy v)).
  apply wp_bind.
  assert (∀ w, wp true
    (_ ← attempt (delete_meta (layer_key h));
     mret {| gs_deleted_blobs := u64_add (gs_deleted_blobs (summary_of dn)) 2;
             gs_deleted_bytes := u64_add (gs_deleted_bytes (summary_of dn))
               (u64_add (gc_size_deploy_bytes cand) (gc_size_cache_bytes cand)) |}) w
    (λ r v', r = Ok (summary_of (dn ++ [cand])) ∧ v' = view_delete_meta (layer_key h) w)) as Htail.
  { intros w. apply wp_bind, wp_attempt, wp_delete_meta; [apply layer_key_ok| |by intros []].
    apply wp_ret. split; [|done]. rewrite Hb. cbn. by rewrite u64_add_sum. }
  destruct (sv_metas v !! layer_key h) as [data|]; [|apply wp_ret, Htail].
  destruct (json_from_slice data) as [meta|]; [|apply wp_ret, Htail].
  apply wp_bind, wp_attempt, wp_delete_meta; [apply index_key_ok| |by intros []].
  apply wp_ret, Htail.
Qed.

Lemma wp_gc_execute report v :
  wp true (gc_execute report) v
    (λ r v', r = Ok (summary_of (gr_candidates report)) ∧
             v' = foldl gc_view v (gr_candidates report)).
Proof.
  unfold gc_execute. change {| gs_deleted_blobs := 0; gs_deleted_bytes := 0 |} with (summary_of []).
  apply wp_for_each with (I := λ dn sm w, sm = summary_of dn ∧ w = foldl gc_view v dn).
  - done.
  - intros dn cand sm w _ [-> ->]. eapply wp_mono; [|apply wp_gc_delete].
    intros r v' [-> ->]. by rewrite foldl_app.
  - intros sm w [-> ->]. done.
Qed.

(** ** What execution removes and keeps *)

Definition collects (cands : list GcCandidate) (h : ContentHash) : Prop :=
  h ∈ map gc_content_hash cands.

Lemma gc_view_blobs v cand h f :
  sv_blobs (gc_view v cand) !! (h, f) =
  if decide (h = gc_content_hash cand) then None else sv_blobs v !! (h, f).
Proof.
  unfold gc_view. set (h0 := gc_content_hash cand).
  assert (delete (h0, BuildCache) (delete (h0, Deploy) (sv_blobs v)) !! (h, f) =
    if decide (h = h0) then None else sv_blobs v !! (h, f)) as Hb.
  { case_decide; subst; [|by rewrite !lookup_delete_ne by congruence].
    destruct f; [rewrite lookup_delete_ne by done|]; apply lookup_delete_eq. }
  destruct (sv_metas v !! layer_key h0) as [data|]; [|done].
  by destruct (json_from_slice data).
Qed.

Lemma gc_view_metas v cand k :
  k ≠ layer_key (gc_content_hash cand) → (∀ ih, k ≠ index_key ih) →
  sv_metas (gc_view v cand) !! k = sv_metas v !! k.
Proof.
  intros Hl Hi. unfold gc_view.
  destruct (sv_metas v !! layer_key (gc_content_hash cand)) as [data|];
    [destruct (json_from_slice data) as [meta|]|]; cbn; by rewrite !lookup_delete_ne.
Qed.

Lemma gc_views_blobs cands v h f :
  sv_blobs (foldl gc_view v cands) !! (h, f) =
  if decide (h ∈ map gc_content_hash cands) then None else sv_blobs v !! (h, f).
Proof.
  revert v. induction cands as [|cand cands IH]; intros v; cbn [foldl map].
  { rewrite decide_False; [done|]. apply not_elem_of_nil. }
  rewrite IH, gc_view_blobs. repeat case_decide; set_solver.
Qed.

Lemma gc_views_metas cands v k :
  (∀ h, collects cands h → k ≠ layer_key h) → (∀ ih, k ≠ index_key ih) →
  sv_metas (foldl gc_view v cands) !! k = sv_metas v !! k.
Proof.
  unfold collects. revert v. induction cands as [|cand cands IH]; intros v Hl Hi; [done|].
  cbn. rewrite IH; [|set_solver|done]. apply gc_view_metas; [|done]. apply Hl. cbn. left.
Qed.

(** What is gone stays gone. *)
Lemma gc_view_gone v cand k : sv_metas v !! k = None → sv_metas (gc_view v cand) !! k = None.
Proof.
  intros Hk. unfold gc_view.
  destruct (sv_metas v !! layer_key (gc_content_hash cand)) as [data|];
    [destruct (json_from_slice data) as [meta|]|]; cbn; apply lookup_delete_None; right; try done.
  apply lookup_delete_None. by right.
Qed.

Lemma gc_views_gone cands v k : sv_metas v !! k = None → sv_metas (foldl gc_view v cands) !! k = None.
Proof. revert v. induction cands as [|cand cands IH]; intros v Hk; [done|]. cbn. by apply IH, gc_view_gone. Qed.

(** The record of a collected layer, and the index entry it names. *)
Lemma gc_views_layer cands v h : collects cands h → sv_metas (foldl gc_view v cands) !! layer_key h = None.
Proof.
  unfold collects. revert v. induction cands as [|cand cands IH]; intros v Hin; cbn in *; [by apply elem_of_nil in Hin|].
  apply elem_of_cons in Hin as [->|Hin]; [|by apply IH]. apply gc_views_gone. apply lookup_delete_eq.
Qed.

Lemma gc_views_index cands v h data meta :
  collects cands h → sv_metas v !! layer_key h = Some data → json_from_slice data = Ok meta →
  sv_metas (foldl gc_view v cands) !! index_key (lm_input_hash meta) = None.
Proof.
  unfold collects. revert v. induction cands as [|cand cands IH]; intros v Hin Hd Hj; cbn in *; [by apply elem_of_nil in Hin|].
  destruct (decide (h = gc_content_hash cand)) as [->|Hne].
  - apply gc_views_gone. unfold gc_view. rewrite Hd, Hj. cbn. apply lookup_delete_None. right. apply lookup_delete_eq.
  - apply elem_of_cons in Hin as [?|Hin]; [done|]. apply IH; [done| |done]. rewrite gc_view_metas; [done| |].
    + intros Heq. by apply (inj layer_key) in Heq.
    + intros ih Heq. by apply (index_layer_neq ih h).
Qed.

Lemma index_wf_gc_view v cand : index_wf v → index_wf (gc_view v cand).
Proof.
  intros Hwf ih data Hd. set (h0 := gc_content_hash cand) in *.
  assert (sv_metas v !! index_key ih = Some data ∧
    ∀ mj meta, sv_metas v !! layer_key h0 = Some mj → json_from_slice mj = Ok meta →
      lm_input_hash meta ≠ ih) as [Hold Hne].
  { unfold gc_view in Hd. fold h0 in Hd.
    destruct (sv_metas v !! layer_key h0) as [mj|]; [destruct (json_from_slice mj) as [meta|] eqn:Hj|];
      cbn in Hd; rewrite (lookup_delete_ne _ (layer_key h0)) in Hd
        by (apply not_eq_sym, index_layer_neq);
        [|split; [done|]; intros mj' meta' [= <-] Hj'; by rewrite Hj in Hj'|done].
    rewrite lookup_delete in Hd. case_decide as Hi; [done|]. split; [done|].
    intros mj' meta' [= <-] Hj' <-. rewrite Hj in Hj'. injection Hj' as ->. done. }
  destruct (Hwf ih data Hold) as (h & -> & (mj & meta & Hmj & Hback & Hih) & Hb).
  exists h. split; [done|].
  assert (h ≠ h0) as Hh by (intros ->; by apply (Hne mj meta)).
  split.
  - exists mj, meta. rewrite gc_view_metas; [done| |].
    + fold h0. intros Hk. by apply (inj layer_key) in Hk.
    + intros i Hi. by apply (index_layer_neq i h).
  - intros f. rewrite gc_view_blobs. rewrite decide_False by done. apply Hb.
Qed.

Lemma index_wf_gc_views v cands : index_wf v → index_wf (foldl gc_view v cands).
Proof.
  revert v. induction cands as [|cand cands IH]; intros v Hwf; cbn; [done|].
  by apply IH, index_wf_gc_view.
Qed.
End Gc.
