(* ===== verification/Instances.v ===== *)
(** * Concrete crates

    Functions that satisfy [CratesOk]: a hexadecimal codec, a 32-byte digest
    (a checksum, not SHA-256: nothing proved depends on which digest it is),
    a self-delimiting binary encoding in place of JSON, and a matcher for the
    tag pattern.  They show the hypotheses on the crates can hold and let
    concrete runs be evaluated. *)

From S2P Require Import Prelude RustStd AsyncIo StoreTypes Crates.

(** ** Hexadecimal *)

Definition nibble_char (n : N) : N := (if n <? 10 then 48 + n else 87 + n)%N.
Definition char_nibble (c : N) : option N :=
  (if (48 <=? c) && (c <=? 57) then Some (c - 48)
   else if (97 <=? c) && (c <=? 102) then Some (c - 87)
   else if (65 <=? c) && (c <=? 70) then Some (c - 55)
   else None)%N.

Definition ref_hex_encode (bs : bytes) : rstr :=
  mjoin (map (λ b, [nibble_char (Byte.to_N b / 16); nibble_char (Byte.to_N b mod 16)]) bs).

Fixpoint ref_hex_decode (s : rstr) : option bytes :=
  match s with
  | [] => Some []
  | c1 :: c2 :: s' =>
      n1 ← char_nibble c1; n2 ← char_nibble c2; bs ← ref_hex_decode s';
      Some (byte_of_N (n1 * 16 + n2) :: bs)
  | [_] => None
  end.

#[local] Instance ref_hex : Hex := {| hex_encode := ref_hex_encode; hex_decode := ref_hex_decode |}.

Lemma char_nibble_char n : (n < 16)%N → char_nibble (nibble_char n) = Some n.
Proof.
  intros Hn. unfold nibble_char, char_nibble. destruct (N.ltb_spec n 10).
  - replace ((48 <=? 48 + n) && (48 + n <=? 57))%N with true by lia. f_equal. lia.
  - replace ((48 <=? 87 + n) && (87 + n <=? 57))%N with false by lia.
    replace ((97 <=? 87 + n) && (87 + n <=? 102))%N with true by lia. f_equal. lia.
Qed.

Lemma byte_nibbles b :
  ((Byte.to_N b / 16 < 16) ∧ (Byte.to_N b mod 16 < 16) ∧
   Byte.to_N b / 16 * 16 + Byte.to_N b mod 16 = Byte.to_N b)%N.
Proof.
  pose proof (Byte.to_N_bounded b) as Hb.
  assert (256 = 16 * 16)%N as H256 by done.
  split_and!; [apply N.Div0.div_lt_upper_bound; lia|by apply N.mod_lt|].
  pose proof (N.div_mod' (Byte.to_N b) 16). lia.
Qed.

Lemma ref_hex_encode_cons b bs :
  ref_hex_encode (b :: bs) =
  nibble_char (Byte.to_N b / 16) :: nibble_char (Byte.to_N b mod 16) :: ref_hex_encode bs.
Proof. done. Qed.

Lemma nibble_char_digit n : (n < 16)%N → hex_digit (nibble_char n) = true.
Proof. intros Hn. unfold nibble_char, hex_digit. destruct (N.ltb_spec n 10); lia. Qed.

#[local] Instance ref_hex_ok : HexOk.
Proof.
  split; cbn [hex_encode hex_decode ref_hex].
  - induction b as [|b bs IH]; [done|]. rewrite ref_hex_encode_cons. cbn [ref_hex_decode].
    destruct (byte_nibbles b) as (H1 & H2 & H3).
    rewrite !char_nibble_char by done. cbn. rewrite IH. cbn. rewrite H3.
    unfold byte_of_N. by rewrite Byte.of_to_N.
  - induction b as [|b bs IH]; [done|]. rewrite ref_hex_encode_cons. cbn [length]. lia.
  - induction b as [|b bs IH]; [constructor|]. rewrite ref_hex_encode_cons.
    destruct (byte_nibbles b) as (H1 & H2 & _). auto using nibble_char_digit.
  - induction n as [|n IH]; [done|]. replace (2 * S n) with (S (S (2 * n))) by lia.
    cbn [repeat ref_hex_decode]. by rewrite IH.
Qed.

(** ** A digest *)

Definition ref_digest (bs : bytes) : bytes :=
  let d := foldr (λ b acc, (acc * 31 + byte_to_Z b + 1) mod 65521)%Z 7%Z bs in
  map (λ i, byte_of_Z (d * (Z.of_nat i + 1) / 16)%Z) (seq 0 32).

Definition ref_sha256 (bs : bytes) : arr32 := mk_arr32 (ref_digest bs) eq_refl.

(** ** An encoding of records *)

#[export] Instance LayerMeta_eq_dec : EqDecision LayerMeta.
Proof. solve_decision. Defined.
#[export] Instance ManifestLayer_eq_dec : EqDecision ManifestLayer.
Proof. solve_decision. Defined.
#[export] Instance BuildMetadata_eq_dec : EqDecision BuildMetadata.
Proof. solve_decision. Defined.
#[export] Instance ReleaseManifest_eq_dec : EqDecision ReleaseManifest.
Proof. solve_decision. Defined.
#[export] Instance BuildId_eq_dec : EqDecision BuildId.
Proof. solve_decision. Defined.
#[export] Instance BuildCatalogEntry_eq_dec : EqDecision BuildCatalogEntry.
Proof. solve_decision. Defined.

#[export] Instance LayerMeta_countable : Countable LayerMeta.
Proof.
  refine (inj_countable'
    (λ m, (lm_input_hash m, lm_content_hash m, lm_parent_input_hash m, lm_uncompressed_size m,
           lm_compressed_size_deploy m, lm_compressed_size_cache m,
           (lm_file_checksum_deploy m, lm_file_checksum_cache m, lm_builder_version m,
            lm_build_timestamp m, lm_build_host m, lm_stage_definition_hash m,
            lm_dockerfile_hash m)))
    (λ '(a, b, c, d, e, f, (g, h, i, j, k, l, m)), Build_LayerMeta a b c d e f g h i j k l m) _).
  by intros [].
Defined.
#[export] Instance ManifestLayer_countable : Countable ManifestLayer.
Proof.
  refine (inj_countable'
    (λ m, (ml_name m, ml_order m, ml_input_hash m, ml_content_hash m, ml_size_bytes m,
           ml_size_compressed_bytes m, ml_parent_input_hash m))
    (λ '(a, b, c, d, e, f, g), Build_ManifestLayer a b c d e f g) _).
  by intros [].
Defined.
#[export] Instance BuildMetadata_countable : Countable BuildMetadata.
Proof.
  refine (inj_countable'
    (λ m, (bm_dockerfile_hash m, bm_build_timestamp m, bm_builder_version m, bm_build_host m))
    (λ '(a, b, c, d), Build_BuildMetadata a b c d) _).
  by intros [].
Defined.
#[export] Instance ReleaseManifest_countable : Countable ReleaseManifest.
Proof.
  refine (inj_countable'
    (λ m, (rm_schema_version m, rm_manifest_id m, rm_build_metadata m, rm_layers m,
           rm_workload_metadata m))
    (λ '(a, b, c, d, e), Build_ReleaseManifest a b c d e) _).
  by intros [].
Defined.
#[export] Instance BuildCatalogEntry_countable : Countable BuildCatalogEntry.
Proof.
  refine (inj_countable'
    (λ m, (BuildId_to_string (bc_build_id m), bc_release_name m, bc_manifest_hash m,
           bc_build_timestamp m, bc_spec_hash m, bc_layers m))
    (λ '(a, b, c, d, e, f), Build_BuildCatalogEntry (mk_BuildId a) b c d e f) _).
  by intros [[] ? ? ? ? ?].
Defined.

Fixpoint pos_bytes (p : positive) : bytes :=
  match p with
  | xH => []
  | xO p => x00 :: pos_bytes p
  | xI p => x01 :: pos_bytes p
  end.
Fixpoint bytes_pos (bs : bytes) : positive :=
  match bs with
  | [] => xH
  | x00 :: bs => xO (bytes_pos bs)
  | _ :: bs => xI (bytes_pos bs)
  end.

Lemma bytes_pos_bytes p : bytes_pos (pos_bytes p) = p.
Proof. induction p; cbn; congruence. Qed.

Definition ref_to_vec `{Countable A} (a : A) : result rstr bytes := Ok (pos_bytes (encode a)).
Definition ref_from_slice `{Countable A} (bs : bytes) : result rstr A :=
  ok_or (decode (bytes_pos bs)) [].

Lemma ref_json_roundtrip `{Countable A} (a : A) :
  ∃ bs, ref_to_vec a = Ok bs ∧ ref_from_slice bs = Ok a.
Proof.
  exists (pos_bytes (encode a)). split; [done|]. unfold ref_from_slice.
  by rewrite bytes_pos_bytes, decode_encode.
Qed.

Definition ref_json `{Countable A} : SerdeJson A :=
  {| json_to_vec := ref_to_vec; json_from_slice := ref_from_slice |}.

Definition ref_tag_match (s : rstr) : bool :=
  match s with c :: cs => tag_first c && forallb tag_char cs | [] => false end.

#[local] Instance ref_crates : Crates := {|
  cr_hex := ref_hex;
  sha256 := ref_sha256;
  cr_json_meta := ref_json;
  cr_json_manifest := ref_json;
  cr_json_entry := ref_json;
  JsonValue := ReleaseManifest;
  to_value := Ok;
  value_to_vec := ref_to_vec;
  regex_is_match pattern s := bool_decide (pattern = TAG_PATTERN) && ref_tag_match s;
|}.

#[local] Instance ref_crates_ok : CratesOk.
Proof.
  split.
  - exact ref_hex_ok.
  - intros m. apply (ref_json_roundtrip m).
  - intros e. apply (ref_json_roundtrip e).
  - intros m. exists m. destruct (ref_json_roundtrip m) as (bs & ? & ?). eauto.
  - intros s. cbn. rewrite bool_decide_true by done. cbn.
    destruct s as [|c cs]; cbn; [naive_solver|].
    rewrite andb_true_iff, forallb_forall. setoid_rewrite <- list_elem_of_In.
    rewrite <- Forall_forall. naive_solver.
Qed.
