(* ===== verification/StoreTheorems.v ===== *)
(** * fs-storage: the theorems

    The properties of the layer store over every backend that meets the
    contract, each with a run on the in-memory backend as its witness, and
    the runs that show where the store does less than its specification. *)

From S2P Require Import Prelude RustStd AsyncIo StoreTypes Crates Backend MemoryBackend LayerStore StoreLogic StoreBlobs StoreMeta StoreGc Instances.

#[local] Existing Instance loop_copy.
#[local] Existing Instance loop_copy_ok.

Section Steps.
Context `{CratesOk} {B : Type} `{!StorageBackend B, !BackendOk B, !StoreKeys B}.







End Steps.

Section Claims.
Context `{CratesOk} {B : Type} `{!StorageBackend B, !BackendOk B, !StoreKeys B}.
Implicit Types (v : StoreView).

(** [C8] Publishing a new layer on a fault-free store returns its content
    hash and stores exactly what was streamed: both artifacts, metadata
    whose checksums are the digests of the streamed bytes, and the index
    entry; the input hash then resolves to the layer and each artifact is
    pulled back byte for byte. *)
Theorem publish_layer_stores {RD RC} `{AsyncReadOk RD, AsyncReadOk RC}
    (b : B) v (dr : RD) (cr : RC) meta deploy cache :
  rep b v → calm b → delivers dr deploy → delivers cr cache →
  (∀ f, sv_blobs v !! (lm_content_hash meta, f) = None) →
  ∃ b1 mj, publish_layer dr cr meta b = (Ok (lm_content_hash meta), b1) ∧
    rep b1 (published meta deploy cache mj v) ∧
    json_from_slice mj = Ok (final_meta meta deploy cache) ∧
    (∃ b2, resolve_input_hash (lm_input_hash meta) b1 = (Ok (Some (lm_content_hash meta)), b2)) ∧
    (∀ f, ∃ cur b2, pull_layer (lm_content_hash meta) f b1 = (Ok cur, b2) ∧
       cur_rest cur = if f is Deploy then deploy else cache).
Proof.
  intros Hr Hc Hdd Hdc Habs.
  destruct (wp_run _ _ _ _ b (wp_publish_layer_new dr cr meta deploy cache v Hdd Hdc Habs) Hr (λ _, Hc))
    as (r & b1 & v1 & Hrun & Hr1 & Hc1 & -> & mj & _ & Hback & ->).
  set (v1 := published meta deploy cache mj v) in *.
  assert (sv_metas v1 !! index_key (lm_input_hash meta) =
    hash_text <$> Some (lm_content_hash meta)) as Hidx by apply lookup_insert_eq.
  exists b1, mj. split_and!; [done|done|done| |].
  - pose proof (wp_resolve true (lm_input_hash meta) v1 (λ r _, r = Ok (Some (lm_content_hash meta)))
      _ Hidx) as Hw.
    destruct (wp_run _ _ _ _ b1 (Hw ltac:(by intros r [->|[[] _]])) Hr1 Hc1)
      as (r & b2 & ? & Hres & _ & _ & ->). eauto.
  - intros f.
    assert (wp true (pull_layer (lm_content_hash meta) f) v1
      (λ r _, ∃ cur, r = Ok cur ∧ cur_rest cur = if f is Deploy then deploy else cache)) as Hw.
    { apply wp_get_blob. cbn.
      destruct f; rewrite ?lookup_insert_ne, ?lookup_insert_eq by done;
        by intros r [?|[[] _]]. }
    destruct (wp_run _ _ _ _ b1 Hw Hr1 Hc1) as (r & b2 & ? & Hp & _ & _ & cur & -> & ?). eauto.
Qed.

(** A published manifest is filed under the digest of its serialised
    form, [get_manifest] returns it unchanged, and [get_build] returns the
    catalogue entry that points to it. *)
Theorem manifest_roundtrip (b : B) v now uuid manifest :
  rep b v → calm b → key_ok (build_key (build_id_of now uuid)) →
  ∃ buf b1, let h := mk_ContentHash (sha256 buf) in let id := build_id_of now uuid in
    publish_manifest now uuid manifest b = (Ok h, b1) ∧ json_from_slice buf = Ok manifest ∧
    (∃ b2, get_manifest h b1 = (Ok manifest, b2)) ∧
    (∃ b2, get_build id b1 = (Ok (catalog_entry_of id h manifest), b2)).
Proof.
  intros Hr Hc Hk.
  assert (wp true (publish_manifest now uuid manifest) v (λ r v',
    ∃ buf ej, let h := mk_ContentHash (sha256 buf) in let id := build_id_of now uuid in
      r = Ok h ∧ json_from_slice buf = Ok manifest ∧
      json_from_slice ej = Ok (catalog_entry_of id h manifest) ∧
      v' = view_put_meta (build_key id) ej (view_put_meta (manifest_key h) buf v))) as Hw.
  { apply wp_publish_manifest; [done|]. intros buf ej h id ? ?. exists buf, ej. done. }
  destruct (wp_run _ _ _ _ b Hw Hr (λ _, Hc))
    as (r & b1 & v1 & Hrun & Hr1 & Hc1 & buf & ej & -> & Hbuf & Hej & ->).
  exists buf, b1. cbv zeta. set (h := mk_ContentHash (sha256 buf)) in *.
  set (id := build_id_of now uuid) in *.
  set (v1 := view_put_meta (build_key id) ej (view_put_meta (manifest_key h) buf v)) in *.
  split_and!; [done|done| |].
  - assert (manifest_value v1 h = Ok manifest) as Hmv.
    { unfold manifest_value, v1. cbn. rewrite lookup_insert_ne by key_neq.
      rewrite lookup_insert_eq. by rewrite Hbuf. }
    assert (wp true (get_manifest h) v1 (λ r _, r = Ok manifest)) as Hg.
    { apply wp_get_manifest. intros r [->|[[] _]]; done. }
    destruct (wp_run _ _ _ _ b1 Hg Hr1 Hc1) as (r & b2 & ? & Hrun2 & _ & _ & ->). eauto.
  - assert (wp true (get_build id) v1 (λ r _, r = Ok (catalog_entry_of id h manifest))) as Hg.
    { unfold get_build. apply wp_bind, wp_get_meta; [done|]. intros r [->|[[] _]]; [|done].
      unfold v1. cbn. rewrite lookup_insert_eq. apply wp_bind, wp_lift. cbn. apply wp_lift.
      by rewrite Hej. }
    destruct (wp_run _ _ _ _ b1 Hg Hr1 Hc1) as (r & b2 & ? & Hrun2 & _ & _ & ->). eauto.
Qed.

(** [create_tag] on every branch: a name outside
    [[a-z0-9][a-z0-9._-]*] is refused, a manifest that is not stored is
    [NotFound] and one that does not parse a serialization error, in each
    case with nothing written; otherwise the tag is set and [get_tag]
    returns the hash. *)
Theorem create_tag_spec (b : B) v name h :
  rep b v → calm b → key_ok (tag_key name) →
  ∃ r b1, create_tag name h b = (r, b1) ∧
    ((¬ (∃ c cs, name = c :: cs ∧ tag_first c = true ∧ Forall (λ d, tag_char d = true) cs) ∧
      r = Err (InvalidTagName name) ∧ rep b1 v) ∨
     (sv_metas v !! manifest_key h = None ∧ r = Err NotFound ∧ rep b1 v) ∨
     (∃ msg, manifest_value v h = Err (Serialization msg) ∧ r = Err (Serialization msg) ∧ rep b1 v) ∨
     (∃ m, manifest_value v h = Ok m ∧ r = Ok tt ∧
           rep b1 (view_put_meta (tag_key name) (hash_text h) v) ∧
           ∃ b2, get_tag name b1 = (Ok h, b2))).
Proof.
  intros Hr Hc Hk.
  assert (wp true (create_tag name h) v (λ r v',
    (regex_is_match TAG_PATTERN name = false ∧ r = Err (InvalidTagName name) ∧ v' = v) ∨
    (∃ e, manifest_value v h = Err e ∧ r = Err e ∧ v' = v) ∨
    (∃ m, manifest_value v h = Ok m ∧ r = Ok tt ∧
          v' = view_put_meta (tag_key name) (hash_text h) v))) as Hw.
  { apply wp_create_tag; [done| |by intros []].
    destruct (regex_is_match _ _); [|by auto]. destruct (manifest_value v h); eauto 8. }
  destruct (wp_run _ _ _ _ b Hw Hr (λ _, Hc)) as (r & b1 & v1 & Hrun & Hr1 & Hc1 & Hcase).
  exists r, b1. split; [done|].
  destruct Hcase as [(Hre & -> & ->)|[(e & He & -> & ->)|(m & Hm & -> & ->)]].
  - left. split_and!; [|done|done]. rewrite <- tag_pattern_spec, Hre. done.
  - right. unfold manifest_value in *.
    destruct (sv_metas v !! manifest_key h) as [data|]; [|left; by simplify_eq].
    right; left. destruct (json_from_slice data); [done|]. cbn in *. simplify_eq. eauto.
  - do 3 right. exists m. split_and!; [done..|].
    assert (wp true (get_tag name) (view_put_meta (tag_key name) (hash_text h) v)
      (λ r _, r = Ok h)) as Hg.
    { apply wp_get_tag; [done|]. rewrite tag_value_written.
      intros r [[Hok _]|[[] _]]; [|done]. destruct r; cbn in Hok; by simplify_eq. }
    destruct (wp_run _ _ _ _ b1 Hg Hr1 Hc1) as (r & b2 & ? & Hrun2 & _ & _ & ->). eauto.
Qed.

(** [C29] When no call of the backend fails, [list_builds] returns, newest first, exactly the stored catalogue
    entries that satisfy every condition of the filter (tag, name prefix,
    layer, first and last time), each once per key it is stored under. *)
Theorem list_builds_spec (b : B) v filter :
  rep b v → calm b → (∀ t, bf_tag filter = Some t → key_ok (tag_key t)) →
  ∃ builds b1 entries, list_builds filter b = (Ok builds, b1) ∧ rep b1 v ∧
    NoDup (map fst entries) ∧
    (∀ k e, (k, e) ∈ entries ↔ starts_with k (lit "builds/") = true ∧ catalogued v filter k e) ∧
    builds ≡ₚ map snd entries ∧ StronglySorted not_older builds.
Proof.
  intros Hr Hc Ht.
  assert (wp true (list_builds filter) v (λ r v', v' = v ∧ ∃ ks, r = Ok (sort_by newest_first
    (omap (build_of v filter) ks)) ∧ NoDup ks ∧
    ∀ k, k ∈ ks ↔ is_Some (sv_metas v !! k) ∧ starts_with k (lit "builds/") = true)) as Hw.
  { apply wp_list_builds; [done|]. eauto. }
  destruct (wp_run _ _ _ _ b Hw Hr (λ _, Hc)) as (r & b1 & v1 & Hrun & Hr1 & _ & -> & ks & -> & Hnd & Hks).
  set (pair := λ k, (k,.) <$> build_of v filter k).
  exists (sort_by newest_first (omap (build_of v filter) ks)), b1, (omap pair ks).
  assert (∀ k e, (k, e) ∈ omap pair ks ↔ k ∈ ks ∧ build_of v filter k = Some e) as Hin.
  { intros k e. rewrite list_elem_of_omap. unfold pair. split.
    - intros (k' & Hk & Heq). destruct (build_of v filter k') eqn:?; naive_solver.
    - intros [Hk He]. exists k. by rewrite He. }
  split_and!; [done|done| | | |apply sort_newest_sorted].
  - clear -Hnd. induction Hnd as [|k ks Hk Hnd IH]; [constructor|]. cbn. unfold pair at 1.
    destruct (build_of v filter k) as [e|] eqn:He; cbn; [|exact IH]. constructor; [|exact IH].
    intros ([k1 e1] & -> & Hin)%list_elem_of_fmap. apply list_elem_of_omap in Hin as (k2 & Hk2 & Heq).
    unfold pair in Heq. destruct (build_of v filter k2); naive_solver.
  - intros k e. rewrite Hin, build_of_Some, Hks. split; [naive_solver|]. intros [Hs He]. split; [|done].
    split; [|done]. destruct He as (data & -> & _). eauto.
  - rewrite sort_by_perm. clear. induction ks as [|k ks IH]; [done|]. cbn. unfold pair at 1.
    destruct (build_of v filter k); cbn; [by rewrite IH|done].
Qed.

(** [C12] [gc_candidates] reports exactly the recorded layers that no stored
    manifest refers to, with their recorded sizes and the sum of the sizes
    modulo [2^64], and changes nothing; when no call of the backend fails.  An
    artifact without a record is never a candidate. *)
Theorem gc_candidates_exact (b : B) v :
  rep b v → calm b →
  ∃ rp b1, gc_candidates b = (Ok rp, b1) ∧ rep b1 v ∧
    gr_total_reclaimable_bytes rp = (sum_bytes (gr_candidates rp) mod 2 ^ 64)%N ∧
    ∀ cand, cand ∈ gr_candidates rp ↔
      ∃ s data meta, ContentHash_from_str s = Ok (gc_content_hash cand) ∧
        sv_metas v !! (lit "layers/" ++ s) = Some data ∧ json_from_slice data = Ok meta ∧
        ¬ referenced v (gc_content_hash cand) ∧
        gc_size_deploy_bytes cand = lm_compressed_size_deploy meta ∧
        gc_size_cache_bytes cand = lm_compressed_size_cache meta.
Proof.
  intros Hr Hc.
  assert (wp true gc_candidates v (λ r v', v' = v ∧ ∃ live ks,
    r = Ok (report_of (omap (cand_of live v) ks)) ∧ (∀ h, h ∈ live ↔ referenced v h) ∧
    ∀ k, k ∈ ks ↔ is_Some (sv_metas v !! k) ∧ starts_with k (lit "layers/") = true)) as Hw.
  { apply wp_gc_candidates. eauto 8. }
  destruct (wp_run _ _ _ _ b Hw Hr (λ _, Hc))
    as (r & b1 & v1 & Hrun & Hr1 & _ & -> & live & ks & -> & Hlive & Hks).
  eexists _, b1. split; [done|]. split; [done|]. split; [reflexivity|]. intros cand. cbn [report_of gr_candidates].
  rewrite list_elem_of_omap. setoid_rewrite <- Hlive. split.
  - intros (k & Hk & Hcand). unfold cand_of in Hcand.
    destruct (strip_prefix (lit "layers/") k) as [s|] eqn:Hs; [|done]. cbn in Hcand.
    apply strip_prefix_Some in Hs as ->.
    destruct (ContentHash_from_str s) as [h|] eqn:Hh; [|done]. cbn in Hcand.
    case_bool_decide; [done|].
    destruct (sv_metas v !! (lit "layers/" ++ s)) as [data|] eqn:Hd; [|done]. cbn in Hcand.
    destruct (json_from_slice data) as [meta|] eqn:Hm; [|done]. cbn in Hcand.
    injection Hcand as <-. exists s, data, meta. by split_and!.
  - intros (s & data & meta & Hh & Hd & Hm & Hnl & Hsd & Hsc). exists (lit "layers/" ++ s). split.
    + apply Hks. split; [eauto|]. apply starts_with_true. eauto.
    + unfold cand_of. rewrite strip_prefix_app. cbn. rewrite Hh. cbn.
      rewrite bool_decide_false by done. rewrite Hd. cbn. rewrite Hm. cbn.
      destruct cand; cbn in *. by subst.
Qed.

(** [C7] Collecting garbage is safe as long as no call of the backend fails:
    [gc_candidates] followed at once by [gc_execute] succeeds, removes both
    artifacts of every candidate, its record and the index entry of the input
    hash in it, and leaves the artifacts and metadata of every layer some stored manifest
    refers to, and all manifests, tags and catalogue entries, as they were. *)
Theorem gc_keeps_referenced (b : B) v :
  rep b v → calm b →
  ∃ rp b1 sm b2 v2, gc_candidates b = (Ok rp, b1) ∧ gc_execute rp b1 = (Ok sm, b2) ∧ rep b2 v2 ∧
    (∀ cand, cand ∈ gr_candidates rp →
       (∀ f, sv_blobs v2 !! (gc_content_hash cand, f) = None) ∧
       sv_metas v2 !! layer_key (gc_content_hash cand) = None ∧
       ∀ data meta, sv_metas v !! layer_key (gc_content_hash cand) = Some data →
         json_from_slice data = Ok meta → sv_metas v2 !! index_key (lm_input_hash meta) = None) ∧
    (∀ h, referenced v h →
       (∀ f, sv_blobs v2 !! (h, f) = sv_blobs v !! (h, f)) ∧
       sv_metas v2 !! layer_key h = sv_metas v !! layer_key h) ∧
    (∀ k, foreign_key k → sv_metas v2 !! k = sv_metas v !! k) ∧
    gs_deleted_bytes sm = gr_total_reclaimable_bytes rp.
Proof.
  intros Hr Hc.
  assert (wp true gc_candidates v (λ r v', v' = v ∧ ∃ live ks,
    r = Ok (report_of (omap (cand_of live v) ks)) ∧ ∀ h, h ∈ live ↔ referenced v h)) as Hw.
  { apply wp_gc_candidates. eauto 8. }
  destruct (wp_run _ _ _ _ b Hw Hr (λ _, Hc))
    as (r & b1 & v1 & Hrun & Hr1 & Hc1 & -> & live & ks & -> & Hlive).
  set (cands := omap (cand_of live v) ks) in *.
  destruct (wp_run _ _ _ _ b1 (wp_gc_execute (report_of cands) v) Hr1 Hc1)
    as (r & b2 & v2 & Hrun2 & Hr2 & _ & -> & ->).
  assert (∀ h, referenced v h → ¬ collects cands h) as Hsafe.
  { intros h Href%Hlive. unfold collects. rewrite list_elem_of_fmap. intros (cand & -> & Hin).
    apply list_elem_of_omap in Hin as (k & _ & Hcand). unfold cand_of in Hcand.
    destruct (strip_prefix _ k) as [s|]; [|done]. cbn in Hcand.
    destruct (ContentHash_from_str s) as [h|]; [|done]. cbn in Hcand.
    case_bool_decide; [done|]. destruct (sv_metas v !! k) as [data|]; [|done]. cbn in Hcand.
    destruct (json_from_slice data); [|done]. cbn in Hcand. injection Hcand as <-. done. }
  exists (report_of cands), b1. eexists _, b2, _. split_and!; [done|done|exact Hr2|..].
  - intros cand Hin. cbn [report_of gr_candidates] in *.
    assert (collects cands (gc_content_hash cand)) as Hcol by (apply list_elem_of_fmap; eauto). split_and!.
    + intros f. rewrite gc_views_blobs. by rewrite decide_True.
    + by apply gc_views_layer.
    + intros data meta. by apply gc_views_index.
  - intros h Href%Hsafe. cbn [report_of gr_candidates]. split.
    + intros f. rewrite gc_views_blobs. by rewrite decide_False.
    + apply gc_views_metas; [|intros ih; apply not_eq_sym, index_layer_neq].
      intros h' Hcol Heq. apply (inj layer_key) in Heq as ->. done.
  - intros k [Hi Hl]. cbn [report_of gr_candidates]. by apply gc_views_metas.
  - done.
Qed.

(** Hashes as text: the text of a hash reads back as that hash, also after
    a trip through bytes and [trim]; any other text is refused with the text
    itself, unless it is the hexadecimal form of exactly 32 bytes. *)
Theorem hash_text_spec (h : ContentHash) (s : rstr) :
  ContentHash_from_str (ContentHash_to_string h) = Ok h ∧
  (t ← from_utf8 (as_bytes (ContentHash_to_string h)); res_ok (ContentHash_from_str (trim t))) = Some h ∧
  ((∃ h', ContentHash_from_str s = Ok h' ∧ hex_decode s = Some (arr_bytes (ContentHash_as_bytes h'))) ∨
   (ContentHash_from_str s = Err (InvalidHash s) ∧ ∀ bs, hex_decode s = Some bs → length bs ≠ 32)).
Proof.
  split; [apply ContentHash_from_to_string|]. split.
  - pose proof (hash_text_roundtrip h) as Hr.
    destruct (from_utf8 _) as [t|]; [|done]. cbn in Hr |- *. injection Hr as ->.
    by rewrite ContentHash_from_to_string.
  - unfold ContentHash_from_str. destruct (hex_decode s) as [bs|]; [|by right].
    destruct (arr32_of bs) as [arr|] eqn:Ha.
    + left. exists (mk_ContentHash arr). split; [done|]. cbn. f_equal. by apply arr32_of_Some in Ha.
    + right. split; [done|]. intros bs' [= <-]. by apply arr32_of_None in Ha.
Qed.

(** The integrity scan lists every recorded layer whose deploy
    artifact exists, and never reports a corrupt entry: no stored byte is
    hashed. *)
Theorem verify_store_existence_only (b : B) v :
  rep b v → calm b →
  ∃ rp b1, verify_store b = (Ok rp, b1) ∧ vr_corrupt rp = [] ∧
    ∀ h, h ∈ vr_valid rp ↔
      is_Some (sv_blobs v !! (h, Deploy)) ∧
      ∃ s, ContentHash_from_str s = Ok h ∧ is_Some (sv_metas v !! (lit "layers/" ++ s)).
Proof.
  intros Hr Hc.
  assert (wp true verify_store v (λ r _, ∃ ks,
    r = Ok {| vr_valid := omap (valid_of v) ks; vr_corrupt := [] |} ∧
    ∀ k, k ∈ ks ↔ is_Some (sv_metas v !! k) ∧ starts_with k (lit "layers/") = true)) as Hw.
  { apply wp_verify_store. eauto. }
  destruct (wp_run _ _ _ _ b Hw Hr (λ _, Hc)) as (r & b1 & v1 & Hrun & _ & _ & ks & -> & Hks).
  eexists _, b1. split_and!; [done|done|]. intros h. cbn [vr_valid].
  rewrite list_elem_of_omap. setoid_rewrite Hks. split.
  - intros (k & [Hsome _] & Hv). unfold valid_of in Hv.
    destruct (strip_prefix (lit "layers/") k) as [s|] eqn:Hs; [|done]. cbn in Hv.
    apply strip_prefix_Some in Hs as ->. destruct (ContentHash_from_str s) eqn:Hh; [|done].
    cbn in Hv. case_bool_decide; [|done]. simplify_eq. eauto.
  - intros (Hb & s & Hh & Hsome). exists (lit "layers/" ++ s). split.
    + split; [done|]. apply starts_with_true. eauto.
    + unfold valid_of. rewrite strip_prefix_app. cbn. rewrite Hh. cbn.
      by rewrite bool_decide_true.
Qed.
End Claims.

Section Publish.
Context `{CratesOk} {B : Type} `{!StorageBackend B, !BackendOk B, !StoreKeys B}.

(** Publishing a layer whose deploy artifact is already stored answers
    with its content hash and changes nothing, whatever the readers and the
    rest of the metadata are: neither artifact is read, no metadata is
    written and the input hash is not indexed. *)
Theorem publish_existing_unchanged {RD RC} `{AsyncRead RD, AsyncRead RC}
    (dr : RD) (cr : RC) meta (b : B) v :
  rep b v → calm b → is_Some (sv_blobs v !! (lm_content_hash meta, Deploy)) →
  ∃ b1, publish_layer dr cr meta b = (Ok (lm_content_hash meta), b1) ∧
        publish_layer_concurrent dr cr meta b = (Ok (lm_content_hash meta), b1) ∧ rep b1 v.
Proof.
  intros Hr Hc Hsome.
  destruct (has_layer (lm_content_hash meta) b) as [r b1] eqn:Hh.
  destruct (has_blob_ok _ _ _ _ _ _ Hr Hh) as (Hr1 & _ & Hcalm & Hval).
  destruct (Hcalm Hc) as [_ [x ->]]. specialize (Hval x eq_refl) as ->.
  rewrite bool_decide_true in Hh by done.
  exists b1. unfold publish_layer, publish_layer_concurrent, mbind, SM_bind.
  by rewrite Hh.
Qed.
End Publish.

(** ** Concrete data for the witnesses *)

#[local] Existing Instance ref_crates.
#[local] Existing Instance ref_crates_ok.

#[export] Instance mem_keys : StoreKeys InMemoryBackend.
Proof. by split. Qed.

Module Demo.
Definition hash_of (b : byte) : arr32 := mk_arr32 (repeat b 32) eq_refl.
Definition ih1 : InputHash := mk_InputHash (hash_of x11).
Definition ih2 : InputHash := mk_InputHash (hash_of x12).
Definition ch1 : ContentHash := mk_ContentHash (hash_of x22).
Definition ch2 : ContentHash := mk_ContentHash (hash_of x33).
Definition meta_of (ih : InputHash) (ch : ContentHash) : LayerMeta :=
  {| lm_input_hash := ih; lm_content_hash := ch; lm_parent_input_hash := None;
     lm_uncompressed_size := 100; lm_compressed_size_deploy := 50;
     lm_compressed_size_cache := 40; lm_file_checksum_deploy := ch;
     lm_file_checksum_cache := ch; lm_builder_version := lit "1.0";
     lm_build_timestamp := 123456789; lm_build_host := lit "host";
     lm_stage_definition_hash := ch; lm_dockerfile_hash := ch |}%N.
Definition manifest_of (ch : ContentHash) (ts : N) : ReleaseManifest :=
  {| rm_schema_version := lit "1.0"; rm_manifest_id := lit "release";
     rm_build_metadata := {| bm_dockerfile_hash := ch; bm_build_timestamp := ts;
                             bm_builder_version := lit "1.0"; bm_build_host := lit "host" |};
     rm_layers := [{| ml_name := lit "base"; ml_order := 0; ml_input_hash := ih1;
                      ml_content_hash := ch; ml_size_bytes := 100;
                      ml_size_compressed_bytes := 50; ml_parent_input_hash := None |}];
     rm_workload_metadata := ∅ |}%N.
Definition deploy : bytes := as_bytes (lit "deploy data").
Definition cache : bytes := as_bytes (lit "cache data").
(** a reader whose first read fails *)
Inductive BrokenPipe := Broken.
#[export] Instance BrokenPipe_read : AsyncRead BrokenPipe := {|
  poll_read r cap := (Ready (Err (IoOther 32)), r);
  rd_measure _ := 0;
|}.
Definition publish (ih : InputHash) (ch : ContentHash) : SM InMemoryBackend StoreError ContentHash :=
  publish_layer {| cur_rest := deploy |} {| cur_rest := cache |} (meta_of ih ch).
(** one layer published into an empty store *)
Definition store1 : InMemoryBackend := snd (publish ih1 ch1 InMemoryBackend_new).
(** and a manifest naming it *)
Definition run_manifest := publish_manifest 1000 (lit "u-1") (manifest_of ch1 7) store1.
Definition store2 : InMemoryBackend := snd run_manifest.
Definition view_of (b : InMemoryBackend) : StoreView := mk_view (mem_blobs b) (mem_meta b).
Lemma rep_view (b : InMemoryBackend) : rep b (view_of b).
Proof. reflexivity. Qed.
End Demo.
Import Demo.


Lemma publish_layer_stores_witness :
  ∃ b1, publish_layer {| cur_rest := Demo.deploy |} {| cur_rest := Demo.cache |}
          (Demo.meta_of Demo.ih1 Demo.ch1) InMemoryBackend_new = (Ok Demo.ch1, b1) ∧
    ∃ cur b2, pull_layer Demo.ch1 BuildCache b1 = (Ok cur, b2) ∧ cur_rest cur = Demo.cache.
Proof.
  destruct (publish_layer_stores InMemoryBackend_new (mk_view ∅ ∅)
    {| cur_rest := Demo.deploy |} {| cur_rest := Demo.cache |} (Demo.meta_of Demo.ih1 Demo.ch1)
    Demo.deploy Demo.cache) as (b1 & mj & Hrun & _ & _ & _ & Hpull).
  - reflexivity.
  - exact I.
  - apply Cursor_delivers.
  - apply Cursor_delivers.
  - intros f. reflexivity.
  - exists b1. split; [exact Hrun|]. exact (Hpull BuildCache).
Defined.

Lemma gc_candidates_exact_witness :
  ∃ rp b1, gc_candidates Demo.store1 = (Ok rp, b1) ∧
    gr_total_reclaimable_bytes rp = (sum_bytes (gr_candidates rp) mod 2 ^ 64)%N.
Proof.
  destruct (gc_candidates_exact Demo.store1 (Demo.view_of Demo.store1) (Demo.rep_view _) I)
    as (rp & b1 & Hrun & _ & Hsum & _).
  exists rp, b1. split; [exact Hrun|exact Hsum].
Defined.

Lemma gc_keeps_referenced_witness :
  ∃ rp b1 sm b2, gc_candidates Demo.store2 = (Ok rp, b1) ∧ gc_execute rp b1 = (Ok sm, b2) ∧
    gs_deleted_bytes sm = gr_total_reclaimable_bytes rp.
Proof.
  destruct (gc_keeps_referenced Demo.store2 (Demo.view_of Demo.store2) (Demo.rep_view _) I)
    as (rp & b1 & sm & b2 & v2 & H1 & H2 & _ & _ & _ & _ & H3).
  exists rp, b1, sm, b2. split; [exact H1|]. split; [exact H2|exact H3].
Defined.

Lemma manifest_roundtrip_witness :
  ∃ h b1 b2, publish_manifest 1000 (lit "u-1") (Demo.manifest_of Demo.ch1 7) Demo.store1 = (Ok h, b1) ∧
    get_manifest h b1 = (Ok (Demo.manifest_of Demo.ch1 7), b2).
Proof.
  destruct (manifest_roundtrip Demo.store1 (Demo.view_of Demo.store1) 1000 (lit "u-1")
    (Demo.manifest_of Demo.ch1 7) (Demo.rep_view _) I I) as (buf & b1 & Hrun & _ & [b2 Hget] & _).
  exists (mk_ContentHash (sha256 buf)), b1, b2. split; [exact Hrun|exact Hget].
Defined.

Lemma create_tag_spec_witness :
  ∃ r b1, create_tag (lit "prod") Demo.ch1 Demo.store2 = (r, b1).
Proof.
  destruct (create_tag_spec Demo.store2 (Demo.view_of Demo.store2) (lit "prod") Demo.ch1 (Demo.rep_view _) I I)
    as (r & b1 & Hrun & _).
  exists r, b1. exact Hrun.
Defined.

Lemma list_builds_spec_witness :
  let filter := {| bf_tag := None; bf_release_name_prefix := Some (lit "rel"); bf_layer_hash := Some Demo.ch1;
                   bf_from_timestamp := Some 7%N; bf_to_timestamp := Some 7%N |} in
  ∃ build b1, list_builds filter Demo.store2 = (Ok [build], b1) ∧
    ∃ k, catalogued (Demo.view_of Demo.store2) filter k build.
Proof.
  intros filter.
  destruct (list_builds_spec Demo.store2 (Demo.view_of Demo.store2) filter (Demo.rep_view _) I
    (λ t _, I)) as (builds & b1 & entries & Hrun & _ & _ & Hin & Hperm & _).
  assert (∃ build, fst (list_builds filter Demo.store2) = Ok [build]) as [build Hb]
    by (eexists; vm_compute; reflexivity).
  rewrite Hrun in Hb. injection Hb as ->. exists build, b1. split; [exact Hrun|].
  assert (build ∈ map snd entries) as Hmem by (rewrite <- Hperm; left).
  apply list_elem_of_fmap in Hmem as ([k e] & -> & Hk). exists k. by apply Hin in Hk as [_ ?].
Defined.

Lemma verify_store_existence_only_witness :
  ∃ rp b1, verify_store Demo.store1 = (Ok rp, b1) ∧ vr_corrupt rp = [].
Proof.
  destruct (verify_store_existence_only Demo.store1 (Demo.view_of Demo.store1) (Demo.rep_view _) I)
    as (rp & b1 & Hrun & Hc & _).
  exists rp, b1. split; [exact Hrun|exact Hc].
Defined.

Lemma hash_text_spec_witness :
  ContentHash_from_str (lit "zz") = Err (InvalidHash (lit "zz")).
Proof.
  destruct (hash_text_spec Demo.ch1 (lit "zz")) as (_ & _ & [(h & Hh & _)|[Hz _]]).
  - vm_compute in Hh. discriminate Hh.
  - exact Hz.
Defined.

Lemma publish_existing_unchanged_witness :
  ∃ b1, publish_layer {| cur_rest := Demo.cache |} {| cur_rest := [] |}
          (Demo.meta_of Demo.ih2 Demo.ch1) Demo.store1 = (Ok Demo.ch1, b1) ∧
        rep b1 (Demo.view_of Demo.store1).
Proof.
  destruct (publish_existing_unchanged {| cur_rest := Demo.cache |} {| cur_rest := [] |}
    (Demo.meta_of Demo.ih2 Demo.ch1) Demo.store1 (Demo.view_of Demo.store1)) as (b1 & Hrun & _ & Hrep).
  - reflexivity.
  - exact I.
  - eexists. vm_compute. reflexivity.
  - exists b1. split; [exact Hrun|exact Hrep].
Defined.

(** ** Runs that show where the store does less than its specification *)

(** A publication whose cache stream fails leaves the deploy artifact
    behind; the retry with good streams is then answered [Ok] although the
    input hash still does not resolve and the cache artifact is missing. *)
Theorem publish_retry_incomplete :
  let failed := publish_layer {| cur_rest := Demo.deploy |} Demo.Broken
                  (Demo.meta_of Demo.ih1 Demo.ch1) InMemoryBackend_new in
  let retried := Demo.publish Demo.ih1 Demo.ch1 (snd failed) in
  fst failed = Err (Io (IoOther 32)) ∧ fst retried = Ok Demo.ch1 ∧
  fst (resolve_input_hash Demo.ih1 (snd retried)) = Ok None ∧
  fst (pull_layer Demo.ch1 BuildCache (snd retried)) = Err NotFound.
Proof. vm_compute. repeat split. Qed.

(** Executing a report after a manifest that refers to one of its
    candidates was published deletes that layer: the manifest stays and its
    layer cannot be pulled. *)
Theorem gc_stale_report_deletes_live :
  ∃ rp h m, fst (gc_candidates Demo.store1) = Ok rp ∧ fst Demo.run_manifest = Ok h ∧
    fst (gc_execute rp Demo.store2) = Ok {| gs_deleted_blobs := 2; gs_deleted_bytes := 90 |} ∧
    fst (get_manifest h (snd (gc_execute rp Demo.store2))) = Ok m ∧
    map ml_content_hash (rm_layers m) = [Demo.ch1] ∧
    fst (pull_layer Demo.ch1 Deploy (snd (gc_execute rp Demo.store2))) = Err NotFound.
Proof.
  eexists _, _, _. split; [vm_compute; reflexivity|]. split; [vm_compute; reflexivity|].
  split; [vm_compute; reflexivity|]. split; [vm_compute; reflexivity|].
  split; vm_compute; reflexivity.
Qed.

(** Collecting a superseded layer drops the cache hit of the layer that
    replaced it: when two layers were published under one input hash, the
    index entry is deleted with the first although it maps to the second,
    which a manifest refers to. *)
Theorem gc_drops_live_index_entry :
  let b := snd (publish_manifest 1000 (lit "u-1") (Demo.manifest_of Demo.ch2 7)
                  (snd (Demo.publish Demo.ih1 Demo.ch2 Demo.store1))) in
  ∃ rp, fst (gc_candidates b) = Ok rp ∧ map gc_content_hash (gr_candidates rp) = [Demo.ch1] ∧
    fst (resolve_input_hash Demo.ih1 b) = Ok (Some Demo.ch2) ∧
    fst (resolve_input_hash Demo.ih1 (snd (gc_execute rp b))) = Ok None.
Proof.
  eexists. split; [vm_compute; reflexivity|]. split; [vm_compute; reflexivity|].
  split; vm_compute; reflexivity.
Qed.
