(* ===== verification/Proto.v ===== *)
(** * The messages between build-system and fs-storage
      (src/fs-storage/proto/fs_storage.proto, src/proto/fs_storage.proto)

    The message types the generated code has for the [.proto] files, with the
    fields as Rust sees them: strings, unsigned integers, optional fields,
    maps.  The two files agree on every message below. *)

From S2P Require Import Prelude RustStd.

Record PLayerMeta := {
  pl_input_hash : rstr; pl_content_hash : rstr; pl_parent_input_hash : option rstr;
  pl_uncompressed_size : N; pl_compressed_size_deploy : N; pl_compressed_size_cache : N;
  pl_builder_version : rstr; pl_build_timestamp : N; pl_build_host : rstr;
  pl_stage_definition_hash : rstr; pl_dockerfile_hash : rstr;
}.

Record PManifestLayer := {
  pml_name : rstr; pml_order : N; pml_input_hash : rstr; pml_content_hash : rstr;
  pml_size_bytes : N; pml_size_compressed_bytes : N; pml_parent_input_hash : option rstr;
}.

Record PBuildMetadata := {
  pbm_dockerfile_hash : rstr; pbm_build_timestamp : N; pbm_builder_version : rstr;
  pbm_build_host : rstr;
}.

Record PReleaseManifest := {
  prm_schema_version : rstr; prm_manifest_id : rstr; prm_build_metadata : option PBuildMetadata;
  prm_layers : list PManifestLayer; prm_workload_metadata : gmap rstr rstr;
}.

(** [PublishLayerRequest.payload]. *)
Inductive Payload :=
| PMeta (m : PLayerMeta)
| PDeployChunk (bs : bytes)
| PCacheChunk (bs : bytes).

(** [ArtifactFormat] on the wire. *)
Definition FORMAT_DEPLOY : N := 1.
Definition FORMAT_BUILD_CACHE : N := 2.
