(* ===== verification/Server.v ===== *)
(** * fs-storage: the gRPC server (src/fs-storage/src/server.rs)

    Every handler over the layer store: conversion of the messages, the
    channel adapter and the demultiplexer of an upload, the chunks of a
    download, the mapping of errors.  An [unwrap] on client data is a panic
    and a result of its own. *)

From S2P Require Import Prelude RustStd AsyncIo StoreTypes Crates Backend LayerStore Proto.

(** ** StreamAdapter (lines 37-90)

    The receiving end of a channel, as the results its [poll_recv] will give:
    a chunk, or nothing yet; the sender is gone after the last one. *)

Inductive Recv := RPending | RData (data : bytes).

Record StreamAdapter := mk_adapter {
  sa_receiver : list Recv; sa_buffer : option bytes; sa_pos : nat;
}.

Definition StreamAdapter_new (receiver : list Recv) : StreamAdapter := mk_adapter receiver None 0.

(** The loop of [poll_read]; it goes round once per chunk received. *)
Fixpoint adapter_loop (receiver : list Recv) (buffer : option bytes) (pos cap : nat)
  : Poll (result IoError bytes) * StreamAdapter :=
  let out := match buffer with Some data => take (Nat.min (length data - pos) cap) (drop pos data) | None => [] end in
  let to_copy := length out in
  let buffer_done := match buffer with Some data => length data <=? pos + to_copy | None => false end in
  if 0 <? to_copy then
    (Ready (Ok out),
     if buffer_done then mk_adapter receiver None 0 else mk_adapter receiver buffer (pos + to_copy))
  else
    match receiver with
    | RData data :: receiver' => adapter_loop receiver' (Some data) 0 cap
    | RPending :: receiver' => (Pending, mk_adapter receiver' buffer pos)
    | [] => (Ready (Ok []), mk_adapter [] buffer pos)
    end.

(** What is left to deliver. *)
Definition recv_data (r : Recv) : bytes := match r with RData d => d | RPending => [] end.
Definition buffered (buffer : option bytes) (pos : nat) : bytes :=
  match buffer with Some data => drop pos data | None => [] end.
Definition adapter_rest (a : StreamAdapter) : bytes :=
  buffered (sa_buffer a) (sa_pos a) ++ mjoin (map recv_data (sa_receiver a)).

#[export] Instance StreamAdapter_read : AsyncRead StreamAdapter := {|
  poll_read a cap := adapter_loop (sa_receiver a) (sa_buffer a) (sa_pos a) cap;
  rd_measure a := length (adapter_rest a) + length (sa_receiver a);
|}.

(** ** Status codes *)

Inductive Code := InvalidArgument | CodeNotFound | AlreadyExists | Internal | OtherCode (n : N).
Record Status := { sta_code : Code; sta_message : rstr }.

(** A handler that does not answer: a status, or a panic of its task. *)
Inductive RpcError := RStatus (s : Status) | RPanic (msg : rstr).

(** [Display] of [io::Error]. *)
Class IoText := io_text : IoError → rstr.

Section Server.
Context `{Crates, IoText} {B : Type} `{StorageBackend B}.
Local Abbreviation M := (SM B RpcError).

(** [#[error(...)]] of [StoreError] (src/fs-storage/src/types.rs, 194-208). *)
Definition StoreError_to_string (e : StoreError) : rstr :=
  match e with
  | NotFound => lit "Not found"
  | HashCollision hash => lit "Hash collision detected: " ++ ContentHash_to_string hash
  | InvalidTagName name => lit "Invalid tag name: " ++ name
  | InvalidHash s => lit "Invalid hash: " ++ s
  | Io e => lit "I/O error: " ++ io_text e
  | Serialization msg => lit "Serialization error: " ++ msg
  end.

Definition map_error (e : StoreError) : Status :=
  {| sta_code := match e with
                 | NotFound => CodeNotFound
                 | HashCollision _ => AlreadyExists
                 | InvalidHash _ | InvalidTagName _ => InvalidArgument
                 | Io _ | Serialization _ => Internal
                 end;
     sta_message := StoreError_to_string e |}.

(** [.map_err(map_error)?] on a call to the store. *)
Definition call {A} (m : SM B StoreError A) : M A := SM_map_err (λ e, RStatus (map_error e)) m.
(** [Status::invalid_argument(msg)]. *)
Definition invalid_argument (msg : rstr) : RpcError :=
  RStatus {| sta_code := InvalidArgument; sta_message := msg |}.
(** [.map_err(|e| Status::invalid_argument(e.to_string()))]. *)
Definition argument {A} (r : result StoreError A) : result RpcError A :=
  map_err (λ e, invalid_argument (StoreError_to_string e)) r.
(** [.unwrap()]. *)
Definition unwrap {A} (r : result StoreError A) : result RpcError A :=
  map_err (λ e, RPanic (StoreError_to_string e)) r.
(** [option.map(f).transpose()]. *)
Definition transpose {A} {E} (o : option (result E A)) : result E (option A) :=
  match o with
  | Some (Ok a) => Ok (Some a)
  | Some (Err e) => Err e
  | None => Ok None
  end.

(** ** Look-ups *)

Definition serve_resolve_input_hash (input_hash : rstr) : M (option rstr) :=
  input_hash ← lift (argument (InputHash_from_str input_hash));
  content_hash ← call (resolve_input_hash input_hash);
  mret (ContentHash_to_string <$> content_hash).

Definition serve_has_layer (content_hash : rstr) : M bool :=
  content_hash ← lift (argument (ContentHash_from_str content_hash));
  call (has_layer content_hash).

(** ** Downloads *)

(** The spawned task: reads into a 64 KiB buffer until the end of the file or
    an error, one response per read. *)
Definition pull_buf : nat := Pos.to_nat 65536.
Fixpoint pull_chunks {R} `{AsyncRead R} (fuel : nat) (reader : R) : list bytes :=
  match fuel with
  | O => []
  | S fuel =>
      match poll_read reader pull_buf with
      | (Pending, reader') => pull_chunks fuel reader'
      | (Ready (Ok bs), reader') =>
          if bool_decide (bs = []) then [] else bs :: pull_chunks fuel reader'
      | (Ready (Err _), _) => []
      end
  end.

Definition serve_pull_layer (content_hash : rstr) (format : N) : M (list bytes) :=
  content_hash ← lift (argument (ContentHash_from_str content_hash));
  format ← (if (format =? FORMAT_DEPLOY)%N then mret Deploy
            else if (format =? FORMAT_BUILD_CACHE)%N then mret BuildCache
            else throw (invalid_argument (lit "Invalid format")));
  reader ← call (pull_layer content_hash format);
  mret (pull_chunks (S (rd_measure reader)) reader).

(** ** Uploads *)

Definition ZERO_HASH : rstr := lit "0000000000000000000000000000000000000000000000000000000000000000".

Definition layer_meta_of (m : PLayerMeta) : result RpcError LayerMeta :=
  input_hash ← argument (InputHash_from_str (pl_input_hash m));
  content_hash ← argument (ContentHash_from_str (pl_content_hash m));
  parent_input_hash ← argument (transpose (InputHash_from_str <$> pl_parent_input_hash m));
  file_checksum_deploy ← unwrap (ContentHash_from_str ZERO_HASH);
  file_checksum_cache ← unwrap (ContentHash_from_str ZERO_HASH);
  stage_definition_hash ← argument (ContentHash_from_str (pl_stage_definition_hash m));
  dockerfile_hash ← argument (ContentHash_from_str (pl_dockerfile_hash m));
  mret {| lm_input_hash := input_hash; lm_content_hash := content_hash;
          lm_parent_input_hash := parent_input_hash; lm_uncompressed_size := pl_uncompressed_size m;
          lm_compressed_size_deploy := pl_compressed_size_deploy m;
          lm_compressed_size_cache := pl_compressed_size_cache m;
          lm_file_checksum_deploy := file_checksum_deploy; lm_file_checksum_cache := file_checksum_cache;
          lm_builder_version := pl_builder_version m; lm_build_timestamp := pl_build_timestamp m;
          lm_build_host := pl_build_host m; lm_stage_definition_hash := stage_definition_hash;
          lm_dockerfile_hash := dockerfile_hash |}.

(** One message of the stream: a transport error, or a request whose payload
    may be missing. *)
Definition Msg : Type := result Status (option Payload).

(** The demultiplexing task (lines 199-211): the chunks each channel receives
    before the stream ends or fails. *)
Fixpoint demux (msgs : list Msg) : list bytes * list bytes :=
  match msgs with
  | Ok payload :: rest =>
      let '(deploy, cache) := demux rest in
      match payload with
      | Some (PDeployChunk chunk) => (chunk :: deploy, cache)
      | Some (PCacheChunk chunk) => (deploy, chunk :: cache)
      | _ => (deploy, cache)
      end
  | _ => ([], [])
  end.

(** Each writer's reader, here and in [publish_layer_concurrent], is given all
    its chunks at once; the bounded channels between the demultiplexer and
    the writers, and the order in which all of them run, are in [Upload],
    which shows that the writers receive exactly these chunks. *)
Definition serve_publish_layer (stream : list Msg) : M rstr :=
  match stream with
  | [] => throw (invalid_argument (lit "Empty stream"))
  | Err status :: _ => throw (RStatus status)
  | Ok (Some (PMeta proto_meta)) :: rest =>
      rust_meta ← lift (layer_meta_of proto_meta);
      let '(deploy, cache) := demux rest in
      let deploy_reader := StreamAdapter_new (map RData deploy) in
      let cache_reader := StreamAdapter_new (map RData cache) in
      content_hash ← call (publish_layer_concurrent deploy_reader cache_reader rust_meta);
      mret (ContentHash_to_string content_hash)
  | _ => throw (invalid_argument (lit "First message must be LayerMeta"))
  end.

(** ** Manifests *)

Definition manifest_layer_of (l : PManifestLayer) : result RpcError ManifestLayer :=
  input_hash ← unwrap (InputHash_from_str (pml_input_hash l));
  content_hash ← unwrap (ContentHash_from_str (pml_content_hash l));
  parent ← unwrap (transpose (InputHash_from_str <$> pml_parent_input_hash l));
  mret {| ml_name := pml_name l; ml_order := pml_order l; ml_input_hash := input_hash;
          ml_content_hash := content_hash; ml_size_bytes := pml_size_bytes l;
          ml_size_compressed_bytes := pml_size_compressed_bytes l; ml_parent_input_hash := parent |}.

Definition manifest_of_message (m : PReleaseManifest) : result RpcError ReleaseManifest :=
  bm ← ok_or (prm_build_metadata m) (RPanic (lit "called `Option::unwrap()` on a `None` value"));
  dockerfile_hash ← argument (ContentHash_from_str (pbm_dockerfile_hash bm));
  layers ← mapM manifest_layer_of (prm_layers m);
  mret {| rm_schema_version := prm_schema_version m; rm_manifest_id := prm_manifest_id m;
          rm_build_metadata := {| bm_dockerfile_hash := dockerfile_hash;
                                  bm_build_timestamp := pbm_build_timestamp bm;
                                  bm_builder_version := pbm_builder_version bm;
                                  bm_build_host := pbm_build_host bm |};
          rm_layers := layers; rm_workload_metadata := prm_workload_metadata m |}.

Definition serve_publish_manifest (now : N) (uuid : rstr) (manifest : option PReleaseManifest) : M rstr :=
  proto_manifest ← lift (ok_or manifest (invalid_argument (lit "Missing manifest")));
  rust_manifest ← lift (manifest_of_message proto_manifest);
  hash ← call (publish_manifest now uuid rust_manifest);
  mret (ContentHash_to_string hash).

Definition manifest_layer_message (l : ManifestLayer) : PManifestLayer :=
  {| pml_name := ml_name l; pml_order := ml_order l;
     pml_input_hash := InputHash_to_string (ml_input_hash l);
     pml_content_hash := ContentHash_to_string (ml_content_hash l);
     pml_size_bytes := ml_size_bytes l; pml_size_compressed_bytes := ml_size_compressed_bytes l;
     pml_parent_input_hash := InputHash_to_string <$> ml_parent_input_hash l |}.

Definition message_of_manifest (m : ReleaseManifest) : PReleaseManifest :=
  let bm := rm_build_metadata m in
  {| prm_schema_version := rm_schema_version m; prm_manifest_id := rm_manifest_id m;
     prm_build_metadata := Some {| pbm_dockerfile_hash := ContentHash_to_string (bm_dockerfile_hash bm);
                                   pbm_build_timestamp := bm_build_timestamp bm;
                                   pbm_builder_version := bm_builder_version bm;
                                   pbm_build_host := bm_build_host bm |};
     prm_layers := map manifest_layer_message (rm_layers m);
     prm_workload_metadata := rm_workload_metadata m |}.

Definition serve_get_manifest (content_hash : rstr) : M (option PReleaseManifest) :=
  hash ← lift (argument (ContentHash_from_str content_hash));
  manifest ← call (get_manifest hash);
  mret (Some (message_of_manifest manifest)).

(** ** Catalogue and tags *)

Record PBuildFilter := {
  pbf_tag : option rstr; pbf_release_name_prefix : option rstr; pbf_layer_hash : option rstr;
  pbf_from_timestamp : option N; pbf_to_timestamp : option N;
}.
Record PBuildCatalogEntry := {
  pbe_build_id : rstr; pbe_release_name : rstr; pbe_manifest_hash : rstr; pbe_build_timestamp : N;
  pbe_spec_hash : rstr; pbe_layers : list rstr;
}.

Definition filter_of (filter : option PBuildFilter) : result RpcError BuildFilter :=
  match filter with
  | Some f =>
      layer_hash ← unwrap (transpose (ContentHash_from_str <$> pbf_layer_hash f));
      mret {| bf_tag := pbf_tag f; bf_release_name_prefix := pbf_release_name_prefix f;
              bf_layer_hash := layer_hash; bf_from_timestamp := pbf_from_timestamp f;
              bf_to_timestamp := pbf_to_timestamp f |}
  | None => mret BuildFilter_default
  end.

Definition entry_message (b : BuildCatalogEntry) : PBuildCatalogEntry :=
  {| pbe_build_id := BuildId_to_string (bc_build_id b); pbe_release_name := bc_release_name b;
     pbe_manifest_hash := ContentHash_to_string (bc_manifest_hash b);
     pbe_build_timestamp := bc_build_timestamp b;
     pbe_spec_hash := ContentHash_to_string (bc_spec_hash b);
     pbe_layers := map ContentHash_to_string (bc_layers b) |}.

Definition serve_list_builds (filter : option PBuildFilter) : M (list PBuildCatalogEntry) :=
  filter ← lift (filter_of filter);
  builds ← call (list_builds filter);
  mret (map entry_message builds).

Definition serve_create_tag (name manifest_hash : rstr) : M unit :=
  hash ← lift (argument (ContentHash_from_str manifest_hash));
  call (create_tag name hash).

Definition serve_get_tag (name : rstr) : M rstr :=
  hash ← call (get_tag name);
  mret (ContentHash_to_string hash).
End Server.

(** ** What a stream carries *)

(** The messages before the stream ends or fails, and the chunks of an
    artifact among them. *)
Fixpoint received (msgs : list Msg) : list (option Payload) :=
  match msgs with Ok payload :: rest => payload :: received rest | _ => [] end.
Definition chunk_of (f : ArtifactFormat) (payload : option Payload) : option bytes :=
  match f, payload with
  | Deploy, Some (PDeployChunk chunk) | BuildCache, Some (PCacheChunk chunk) => Some chunk
  | _, _ => None
  end.
Definition sent (f : ArtifactFormat) (msgs : list Msg) : list bytes := omap (chunk_of f) (received msgs).

Lemma demux_sent msgs : demux msgs = (sent Deploy msgs, sent BuildCache msgs).
Proof.
  induction msgs as [|[payload|e] msgs IH]; [done| |done]. cbn. rewrite IH.
  by destruct payload as [[]|].
Qed.
