(* ===== verification/ServerTheorems.v ===== *)
(** * fs-storage: theorems on the server

    The channel adapter is a reader that delivers the chunks in order; what is
    uploaded through the server is what is downloaded; manifests survive the
    wire; and where a failing stream or a malformed message is not rejected. *)

From S2P Require Import Prelude RustStd AsyncIo StoreTypes Crates Backend MemoryBackend LayerStore StoreLogic StoreBlobs StoreMeta StoreGc Instances StoreTheorems Proto Server.

#[local] Existing Instance loop_copy.
#[local] Existing Instance loop_copy_ok.

(** ** The adapter *)

Definition copied (buffer : option bytes) (pos cap : nat) : bytes :=
  match buffer with
  | Some data => take (Nat.min (length data - pos) cap) (drop pos data)
  | None => []
  end.

Lemma copied_spec buffer pos cap :
  let out := copied buffer pos cap in
  buffered buffer pos = out ++ drop (length out) (buffered buffer pos) ∧ length out ≤ cap ∧
  (0 < cap → out = [] → buffered buffer pos = []).
Proof.
  cbn. destruct buffer as [data|]; cbn; [|by split_and!; cbn; [|lia|]].
  rewrite <- length_drop. set (l := drop pos data). set (n := Nat.min (length l) cap).
  assert (n ≤ length l ∧ n ≤ cap) as [Hl Hc] by (unfold n; lia).
  assert (length (take n l) = n) as Hlen by (rewrite length_take; lia). rewrite Hlen. split_and!.
  - by rewrite take_drop.
  - done.
  - intros Hcap Hout. rewrite Hout in Hlen. cbn in Hlen. apply length_zero_iff_nil. unfold n in *. lia.
Qed.

Lemma buffered_advance buffer pos n :
  drop n (buffered buffer pos) = buffered buffer (pos + n).
Proof. destruct buffer; cbn; [by rewrite drop_drop|by rewrite drop_nil]. Qed.

(** The adapter after [n] buffered bytes were copied. *)
Definition advanced (receiver : list Recv) (buffer : option bytes) (pos n : nat) : StreamAdapter :=
  if match buffer with Some data => length data <=? pos + n | None => false end
  then mk_adapter receiver None 0 else mk_adapter receiver buffer (pos + n).

Lemma advanced_rest receiver buffer pos n :
  adapter_rest (advanced receiver buffer pos n) =
  drop n (buffered buffer pos) ++ mjoin (map recv_data receiver).
Proof.
  rewrite buffered_advance. unfold advanced, adapter_rest. destruct buffer as [data|]; cbn; [|done].
  destruct (Nat.leb_spec (length data) (pos + n)); cbn; [|done]. by rewrite drop_ge.
Qed.

Lemma adapter_loop_eq receiver buffer pos cap :
  adapter_loop receiver buffer pos cap =
  let out := copied buffer pos cap in
  if 0 <? length out then (Ready (Ok out), advanced receiver buffer pos (length out))
  else match receiver with
       | RData data :: receiver' => adapter_loop receiver' (Some data) 0 cap
       | RPending :: receiver' => (Pending, mk_adapter receiver' buffer pos)
       | [] => (Ready (Ok []), mk_adapter [] buffer pos)
       end.
Proof. by destruct receiver. Qed.

(** One call with room in the buffer. *)
Lemma adapter_loop_spec receiver buffer pos cap p a' :
  0 < cap → adapter_loop receiver buffer pos cap = (p, a') →
  let rest := buffered buffer pos ++ mjoin (map recv_data receiver) in
  match p with
  | Ready (Ok bs) => rest = bs ++ adapter_rest a' ∧ length bs ≤ cap ∧ (bs = [] → rest = []) ∧
      length (sa_receiver a') ≤ length receiver
  | Ready (Err _) => False
  | Pending => rest = adapter_rest a' ∧ length (sa_receiver a') < length receiver
  end.
Proof.
  intros Hcap. revert buffer pos. induction receiver as [|r receiver IH]; intros buffer pos;
    rewrite adapter_loop_eq; cbv zeta;
    destruct (copied_spec buffer pos cap) as (Hsplit & Hle & Hnil); cbv zeta in *;
    set (out := copied buffer pos cap) in *;
    destruct (Nat.ltb_spec 0 (length out)) as [Hlt|Hge].
  1,3: intros [= <- <-]; rewrite advanced_rest, app_assoc, <- Hsplit; split_and!; [done|done| |];
    [intros Hout; rewrite Hout in Hlt; cbn in Hlt; lia|unfold advanced; case_match; done].
  all: rewrite Hnil by (done || (apply length_zero_iff_nil; lia)); cbn [app].
  - intros [= <- <-]. unfold adapter_rest. cbn [sa_buffer sa_pos sa_receiver map]. rewrite app_nil_r.
    rewrite Hnil by (done || (apply length_zero_iff_nil; lia)). split_and!; cbn; done || lia.
  - destruct r as [|data].
    + intros [= <- <-]. unfold adapter_rest. cbn [sa_buffer sa_pos sa_receiver].
      rewrite Hnil by (done || (apply length_zero_iff_nil; lia)). split; [done|cbn; lia].
    + intros Hrun. specialize (IH _ _ Hrun). cbv zeta in IH. cbn [buffered] in IH. rewrite drop_0 in IH.
      cbn [map]. change (mjoin (recv_data (RData data) :: map recv_data receiver))
        with (data ++ mjoin (map recv_data receiver)).
      destruct p as [[bs|e]|]; cbn [length] in *; naive_solver lia.
Qed.

#[export] Instance StreamAdapter_ok : AsyncReadOk StreamAdapter.
Proof.
  split.
  - intros [rcv buf pos] a' cap bs Hrun. cbn in Hrun. destruct (decide (0 < cap)) as [Hcap|Hcap].
    + by apply adapter_loop_spec in Hrun as (_ & ? & _).
    + assert (cap = 0) as -> by lia. clear Hcap. revert buf pos Hrun.
      induction rcv as [|[|d] rcv IH]; intros buf pos; rewrite adapter_loop_eq; cbv zeta;
        destruct (copied_spec buf pos 0) as (_ & Hle & _); cbv zeta in Hle;
        replace (0 <? length (copied buf pos 0)) with false by (symmetry; apply Nat.ltb_ge; lia).
      * by intros [= <- _].
      * done.
      * apply IH.
  - intros [rcv buf pos] a' cap p Hcap Hrun. cbn in Hrun. apply adapter_loop_spec in Hrun; [|done].
    cbn [rd_measure StreamAdapter_read]. unfold adapter_rest at 2. cbn [sa_buffer sa_pos sa_receiver].
    cbv zeta in Hrun. destruct p as [[[|b bs]|e]|]; [by left| | |].
    + do 2 right. destruct Hrun as (-> & _ & _ & ?). rewrite length_app. cbn. lia.
    + done.
    + do 2 right. destruct Hrun as [-> ?]. lia.
Qed.

(** Reading to the end yields the chunks in order, and no error. *)
Lemma adapter_delivers a : delivers a (adapter_rest a).
Proof.
  intros out res a' Hd. induction Hd as [a a' cap Hc Hp|a a' cap e Hc Hp
    |a a1 a' cap out res Hc Hp _ [IH ->]|a a1 a' cap bs out res Hc Hb Hp _ [IH ->]];
    destruct a as [rcv buf pos]; cbn in Hp; apply adapter_loop_spec in Hp; try done; cbv zeta in Hp;
    unfold adapter_rest at 1; cbn [sa_buffer sa_pos sa_receiver].
  - destruct Hp as (_ & _ & Hnil & _). by rewrite Hnil.
  - destruct Hp as [-> _]. by rewrite IH.
  - destruct Hp as (-> & _). by rewrite IH.
Qed.

(** ** Downloads *)

Lemma pull_chunks_drains {R} `{AsyncReadOk R} fuel (r : R) :
  rd_measure r < fuel →
  (∃ res r', drains r (mjoin (pull_chunks fuel r)) res r') ∧
  Forall (λ c, 0 < length c ≤ pull_buf) (pull_chunks fuel r).
Proof.
  assert (0 < pull_buf) as Hbuf by (unfold pull_buf; lia).
  revert r. induction fuel as [|fuel IH]; intros r Hm; [lia|]. cbn [pull_chunks].
  destruct (poll_read r pull_buf) as [p r1] eqn:Hp.
  destruct (poll_read_progress _ _ _ _ Hbuf Hp) as [->|[[e ->]|Hlt]].
  - rewrite bool_decide_true by done. split; [|done]. do 2 eexists. by eapply drains_eof.
  - split; [|done]. do 2 eexists. by eapply drains_err.
  - destruct (IH r1) as [(res & r' & Hd) Hf]; [lia|]. destruct p as [[bs|e]|].
    + case_bool_decide as Hb; [subst; split; [|done]; do 2 eexists; by eapply drains_eof|].
      split; [do 2 eexists; by eapply drains_data|]. constructor; [|done].
      apply poll_read_fits in Hp. destruct bs; [done|cbn in *; lia].
    + split; [|done]. do 2 eexists. by eapply drains_err.
    + split; [do 2 eexists; by eapply drains_pending|done].
Qed.

(** A download carries what was read.  Over any reader, the responses are
    non-empty chunks of at most 64 KiB whose concatenation is what the reader
    delivered until its end or its first failure; a failure only ends the
    stream, none of its items reports it. *)
Theorem pull_stream_bytes {R} `{AsyncReadOk R} (r : R) :
  let chunks := pull_chunks (S (rd_measure r)) r in
  (∃ res r', drains r (mjoin chunks) res r') ∧ Forall (λ c, 0 < length c ≤ pull_buf) chunks.
Proof. apply pull_chunks_drains. lia. Qed.

(** ** Uploads *)

Section Uploads.
Context `{CratesOk, IoText} {B : Type} `{!StorageBackend B, !BackendOk B, !StoreKeys B}.

Lemma recv_chunks chunks : mjoin (map recv_data (map RData chunks)) = mjoin chunks.
Proof. f_equal. rewrite map_map. by apply map_id. Qed.

Lemma new_adapter_delivers chunks : delivers (StreamAdapter_new (map RData chunks)) (mjoin chunks).
Proof. rewrite <- recv_chunks. apply (adapter_delivers (StreamAdapter_new (map RData chunks))). Qed.

(** The server's answer to a download of a stored blob. *)
Lemma serve_pull_stored (b : B) v h f code bs :
  rep b v → calm b → sv_blobs v !! (h, f) = Some bs →
  code = (match f with Deploy => FORMAT_DEPLOY | BuildCache => FORMAT_BUILD_CACHE end) →
  ∃ chunks b', serve_pull_layer (ContentHash_to_string h) code b = (Ok chunks, b') ∧ mjoin chunks = bs.
Proof.
  intros Hr Hc Hb ->.
  assert (wp true (pull_layer h f) v (λ r _, ∃ cur, r = Ok cur ∧ cur_rest cur = bs)) as Hw.
  { apply wp_get_blob. rewrite Hb. by intros r [?|[[] _]]. }
  destruct (wp_run _ _ _ _ b Hw Hr (λ _, Hc)) as (r & b1 & v1 & Hrun & _ & _ & cur & -> & Hcur).
  exists (pull_chunks (S (rd_measure cur)) cur), b1. split.
  - unfold serve_pull_layer, mbind, SM_bind, lift. rewrite ContentHash_from_to_string. cbn [argument map_err].
    destruct f; cbn; unfold call, SM_map_err; by rewrite Hrun.
  - destruct (pull_chunks_drains (S (rd_measure cur)) cur) as [(res & r' & Hd) _]; [lia|].
    by apply Cursor_drains in Hd as (-> & _).
Qed.

(** An upload of a new layer, and the store after it. *)
Lemma serve_upload (b : B) v m meta rest :
  rep b v → calm b → layer_meta_of m = Ok meta →
  (∀ f, sv_blobs v !! (lm_content_hash meta, f) = None) →
  ∃ b1, let h := ContentHash_to_string (lm_content_hash meta) in
    serve_publish_layer (Ok (Some (PMeta m)) :: rest) b = (Ok h, b1) ∧
    (∃ b2, serve_resolve_input_hash (InputHash_to_string (lm_input_hash meta)) b1 = (Ok (Some h), b2)) ∧
    (∃ chunks b2, serve_pull_layer h FORMAT_DEPLOY b1 = (Ok chunks, b2) ∧
       mjoin chunks = mjoin (fst (demux rest))) ∧
    (∃ chunks b2, serve_pull_layer h FORMAT_BUILD_CACHE b1 = (Ok chunks, b2) ∧
       mjoin chunks = mjoin (snd (demux rest))).
Proof.
  intros Hr Hc Hm Habs. destruct (demux rest) as [deploy cache] eqn:Hd. cbn [fst snd].
  pose proof (wp_publish_layer_new (StreamAdapter_new (map RData deploy))
    (StreamAdapter_new (map RData cache)) meta (mjoin deploy) (mjoin cache) v
    (new_adapter_delivers _) (new_adapter_delivers _) Habs) as Hw.
  destruct (wp_run _ _ _ _ b Hw Hr (λ _, Hc)) as (r & b1 & v1 & Hrun & Hr1 & Hc1 & -> & mj & _ & _ & ->).
  apply publish_concurrent_of_seq in Hrun. specialize (Hc1 I).
  set (v1 := published meta (mjoin deploy) (mjoin cache) mj v) in *.
  exists b1. cbv zeta. split_and!.
  - unfold serve_publish_layer, mbind, SM_bind, lift. rewrite Hm. cbn. rewrite Hd.
    unfold call, SM_map_err. by rewrite Hrun.
  - assert (sv_metas v1 !! index_key (lm_input_hash meta) =
      hash_text <$> Some (lm_content_hash meta)) as Hidx by apply lookup_insert_eq.
    pose proof (wp_resolve true (lm_input_hash meta) v1 (λ r _, r = Ok (Some (lm_content_hash meta)))
      _ Hidx ltac:(by intros r [->|[[] _]])) as Hres.
    destruct (wp_run _ _ _ _ b1 Hres Hr1 (λ _, Hc1)) as (r & b2 & ? & Hrun2 & _ & _ & ->).
    exists b2. unfold serve_resolve_input_hash, mbind, SM_bind, lift.
    rewrite InputHash_from_to_string. cbn. unfold call, SM_map_err. by rewrite Hrun2.
  - eapply (serve_pull_stored b1 v1 _ Deploy); [done|done| |done]. unfold v1. cbn.
    rewrite lookup_insert_ne by done. apply lookup_insert_eq.
  - eapply (serve_pull_stored b1 v1 _ BuildCache); [done|done| |done]. apply lookup_insert_eq.
Qed.

(** [C26] What is uploaded is what is downloaded.  For a stream that starts with
    valid metadata of a layer not yet stored, on a backend whose calls do not
    fail, and whatever the order in which deploy and cache chunks are mixed,
    the server answers with the content hash; the input hash then resolves to
    it, and each artifact downloads as the concatenation of the chunks of its
    kind among the messages received. *)
Theorem upload_roundtrip (b : B) v m meta rest :
  rep b v → calm b → layer_meta_of m = Ok meta →
  (∀ f, sv_blobs v !! (lm_content_hash meta, f) = None) →
  ∃ b1, let h := ContentHash_to_string (lm_content_hash meta) in
    serve_publish_layer (Ok (Some (PMeta m)) :: rest) b = (Ok h, b1) ∧
    (∃ b2, serve_resolve_input_hash (InputHash_to_string (lm_input_hash meta)) b1 = (Ok (Some h), b2)) ∧
    (∃ chunks b2, serve_pull_layer h FORMAT_DEPLOY b1 = (Ok chunks, b2) ∧
       mjoin chunks = mjoin (sent Deploy rest)) ∧
    (∃ chunks b2, serve_pull_layer h FORMAT_BUILD_CACHE b1 = (Ok chunks, b2) ∧
       mjoin chunks = mjoin (sent BuildCache rest)).
Proof.
  intros Hr Hc Hm Habs. destruct (serve_upload b v m meta rest Hr Hc Hm Habs) as (b1 & Hup).
  exists b1. by rewrite demux_sent in Hup.
Qed.
End Uploads.

Lemma demux_broken msgs s rest : demux (msgs ++ Err s :: rest) = demux msgs.
Proof.
  induction msgs as [|[payload|e] msgs IH]; [done| |done]. cbn. by rewrite IH.
Qed.

(** [C35] A broken upload is stored as a complete one.  A stream that fails
    after its first message is handled exactly like the stream that ends
    there: the chunks received so far are published under the announced
    content hash, and the failure is not reported. *)
Theorem broken_upload_published `{Crates, IoText} {B} `{!StorageBackend B} first msgs s rest (b : B) :
  serve_publish_layer (first :: msgs ++ Err s :: rest) b = serve_publish_layer (first :: msgs) b.
Proof.
  destruct first as [[[m| |]|]|e]; [|done..]. unfold serve_publish_layer. by rewrite demux_broken.
Qed.

(** ** Manifests on the wire *)

Section Manifests.
Context `{CratesOk, IoText} {B : Type} `{!StorageBackend B, !BackendOk B, !StoreKeys B}.

Lemma manifest_layer_message_of l : manifest_layer_of (manifest_layer_message l) = Ok l.
Proof.
  destruct l as [n o ih ch s cs p]. unfold manifest_layer_of. cbn.
  rewrite InputHash_from_to_string. cbn. rewrite ContentHash_from_to_string. cbn.
  destruct p as [h|]; cbn; [|done]. by rewrite InputHash_from_to_string.
Qed.

Lemma manifest_message_of m : manifest_of_message (message_of_manifest m) = Ok m.
Proof.
  destruct m as [sv id [dh ts bv bh] layers wm]. unfold manifest_of_message. cbn.
  rewrite ContentHash_from_to_string. cbn.
  assert (mapM manifest_layer_of (map manifest_layer_message layers) = Ok layers) as ->; [|done].
  induction layers as [|l layers IH]; [done|]. cbn [map mapM].
  rewrite manifest_layer_message_of. cbn. by rewrite IH.
Qed.

(** A message as a client writes it: with build metadata, and every hash as
    64 lower-case hexadecimal digits. *)
Definition canonical_layer (l : PManifestLayer) : Prop :=
  (∃ h, pml_input_hash l = InputHash_to_string h) ∧ (∃ h, pml_content_hash l = ContentHash_to_string h) ∧
  (∀ p, pml_parent_input_hash l = Some p → ∃ h, p = InputHash_to_string h).
Definition canonical (m : PReleaseManifest) : Prop :=
  (∃ bm h, prm_build_metadata m = Some bm ∧ pbm_dockerfile_hash bm = ContentHash_to_string h) ∧
  Forall canonical_layer (prm_layers m).

Lemma canonical_layer_message l :
  canonical_layer l → ∃ x, manifest_layer_of l = Ok x ∧ manifest_layer_message x = l.
Proof.
  destruct l as [n o ih ch sz cs p]. unfold canonical_layer. cbn. intros ([h1 ->] & [h2 ->] & Hp).
  assert (∃ parent, p = InputHash_to_string <$> parent) as [parent ->].
  { destruct p as [p|]; [|by exists None]. destruct (Hp p eq_refl) as [h ->]. by exists (Some h). }
  set (x := {| ml_name := n; ml_order := o; ml_input_hash := h1; ml_content_hash := h2; ml_size_bytes := sz;
               ml_size_compressed_bytes := cs; ml_parent_input_hash := parent |}).
  exists x. split; [|done]. exact (manifest_layer_message_of x).
Qed.

Lemma canonical_message m :
  canonical m → ∃ x, manifest_of_message m = Ok x ∧ message_of_manifest x = m.
Proof.
  destruct m as [sv id bm layers wm]. unfold canonical. cbn. intros ((b0 & h & -> & Hh) & Hl).
  assert (∃ ls, layers = map manifest_layer_message ls) as [ls ->].
  { induction Hl as [|l layers Hl1 _ [ls ->]]; [by exists []|].
    destruct (canonical_layer_message l Hl1) as (x & _ & <-). by exists (x :: ls). }
  destruct b0 as [dh ts bv bh]. cbn in Hh. subst dh.
  set (x := {| rm_schema_version := sv; rm_manifest_id := id;
               rm_build_metadata := {| bm_dockerfile_hash := h; bm_build_timestamp := ts;
                                       bm_builder_version := bv; bm_build_host := bh |};
               rm_layers := ls; rm_workload_metadata := wm |}).
  exists x. split; [|done]. exact (manifest_message_of x).
Qed.

(** [C27] A manifest survives the wire: on a backend whose calls do not fail,
    publishing any message with its build metadata and hashes in lower-case
    hexadecimal, and asking for the hash in the answer, gives the same message
    back, every field of it. *)
Theorem manifest_wire_roundtrip (b : B) v now uuid m :
  rep b v → calm b → key_ok (build_key (build_id_of now uuid)) → canonical m →
  ∃ hash b1 b2,
    serve_publish_manifest now uuid (Some m) b = (Ok hash, b1) ∧
    serve_get_manifest hash b1 = (Ok (Some m), b2).
Proof.
  intros Hr Hc Hk (manifest & Hmsg & Hback)%canonical_message.
  assert (wp true (publish_manifest now uuid manifest) v (λ r v', ∃ buf ej,
    let h := mk_ContentHash (sha256 buf) in r = Ok h ∧ json_from_slice buf = Ok manifest ∧
    v' = view_put_meta (build_key (build_id_of now uuid)) ej (view_put_meta (manifest_key h) buf v))) as Hw.
  { apply wp_publish_manifest; [done|]. intros buf ej h id ? ?. by exists buf, ej. }
  destruct (wp_run _ _ _ _ b Hw Hr (λ _, Hc)) as (r & b1 & v1 & Hrun & Hr1 & Hc1 & buf & ej & -> & Hbuf & ->).
  set (h := mk_ContentHash (sha256 buf)) in *.
  assert (wp true (get_manifest h) (view_put_meta (build_key (build_id_of now uuid)) ej
    (view_put_meta (manifest_key h) buf v)) (λ r _, r = Ok manifest)) as Hg.
  { apply wp_get_manifest. intros r [->|[[] _]]; [|done]. unfold manifest_value. cbn.
    rewrite lookup_insert_ne by key_neq. rewrite lookup_insert_eq. by rewrite Hbuf. }
  destruct (wp_run _ _ _ _ b1 Hg Hr1 Hc1) as (r & b2 & ? & Hrun2 & _ & _ & ->).
  exists (ContentHash_to_string h), b1, b2. split.
  - unfold serve_publish_manifest, mbind, SM_bind, lift. cbn [ok_or]. rewrite Hmsg.
    unfold call, SM_map_err. by rewrite Hrun.
  - unfold serve_get_manifest, mbind, SM_bind, lift. rewrite ContentHash_from_to_string. cbn.
    unfold call, SM_map_err. by rewrite Hrun2, <- Hback.
Qed.

(** ** Panics *)

Definition is_panic {A} (r : result RpcError A) : Prop := ∃ msg, r = Err (RPanic msg).

Lemma unwrap_panics {A} (r : result StoreError A) : is_panic (unwrap r) ↔ ∃ e, r = Err e.
Proof. destruct r as [a|e]; cbn; split; intros [x Hx]; [done..| |]; eexists; naive_solver. Qed.

Lemma argument_no_panic {A} (r : result StoreError A) : ¬ is_panic (argument r).
Proof. destruct r; by intros [? [=]]. Qed.

(** A hash of the layer does not parse. *)
Definition bad_layer (l : PManifestLayer) : Prop :=
  (∃ e, InputHash_from_str (pml_input_hash l) = Err e) ∨
  (∃ e, ContentHash_from_str (pml_content_hash l) = Err e) ∨
  (∃ p e, pml_parent_input_hash l = Some p ∧ InputHash_from_str p = Err e).

Lemma manifest_layer_of_cases l :
  (∃ x, manifest_layer_of l = Ok x ∧ ¬ bad_layer l) ∨ (is_panic (manifest_layer_of l) ∧ bad_layer l).
Proof.
  unfold manifest_layer_of, bad_layer. destruct (InputHash_from_str (pml_input_hash l)); cbn.
  2: { right. split; [by eexists|]. left. eauto. }
  destruct (ContentHash_from_str (pml_content_hash l)); cbn.
  2: { right. split; [by eexists|]. right; left. eauto. }
  destruct (pml_parent_input_hash l) as [p|]; cbn.
  - destruct (InputHash_from_str p) eqn:Hp; cbn.
    + left. eexists. split; [done|]. intros [[? [=]]|[[? [=]]|(p' & e & [= <-] & He)]]. congruence.
    + right. split; [by eexists|]. right; right. eauto.
  - left. eexists. split; [done|]. by intros [[? [=]]|[[? [=]]|(p' & e & [=] & _)]].
Qed.

Lemma layers_panic layers : is_panic (mapM manifest_layer_of layers) ↔ Exists bad_layer layers.
Proof.
  induction layers as [|l layers IH]; cbn.
  - rewrite Exists_nil. split; [by intros [? [=]]|done].
  - rewrite Exists_cons, <- IH. destruct (manifest_layer_of_cases l) as [(x & -> & Hn)|[[msg ->] Hb]]; cbn.
    + destruct (mapM manifest_layer_of layers) as [xs|e]; cbn.
      * split; [by intros [? [=]]|]. intros [?|[? [=]]]. done.
      * naive_solver.
    + split; [by left|]. intros _. by exists msg.
Qed.

(** Which manifests crash the server.  The handler panics exactly on a
    manifest without build metadata, or with a readable Dockerfile hash and a layer one of
    whose hashes does not parse; the error is then not a status. *)
Theorem publish_manifest_panics now uuid m (b : B) :
  is_panic (fst (serve_publish_manifest now uuid (Some m) b)) ↔
  match prm_build_metadata m with
  | None => True
  | Some bm => (∃ h, ContentHash_from_str (pbm_dockerfile_hash bm) = Ok h) ∧ Exists bad_layer (prm_layers m)
  end.
Proof.
  unfold serve_publish_manifest, mbind, SM_bind, lift. cbn. unfold manifest_of_message.
  destruct (prm_build_metadata m) as [bm|]; cbn; [|by split; [|eexists]].
  rewrite <- layers_panic. destruct (ContentHash_from_str (pbm_dockerfile_hash bm)) as [h|e]; cbn.
  2: { split; [by intros [? [=]]|]. by intros [[? [=]] _]. }
  destruct (mapM manifest_layer_of (prm_layers m)) as [ls|[s|msg]]; cbn.
  - unfold call, SM_map_err. destruct (publish_manifest _ _ _ b) as [[x|e] b1]; cbn;
      (split; [by intros [? [=]]|by intros [_ [? [=]]]]).
  - split; [by intros [? [=]]|by intros [_ [? [=]]]].
  - split; [|by eexists]. intros _. split; [eauto|by eexists].
Qed.
End Manifests.

(** ** Runs on the in-memory backend *)

Section Demo.
Import StoreTheorems.Demo.
Local Existing Instances ref_crates ref_crates_ok.
Local Instance demo_io : IoText := λ _, lit "io".

Definition demo_layer_message : PLayerMeta :=
  let h := ContentHash_to_string ch1 in
  {| pl_input_hash := InputHash_to_string ih1; pl_content_hash := h; pl_parent_input_hash := None;
     pl_uncompressed_size := 4; pl_compressed_size_deploy := 2; pl_compressed_size_cache := 2;
     pl_builder_version := lit "0.1.0"; pl_build_timestamp := 1; pl_build_host := lit "host";
     pl_stage_definition_hash := h; pl_dockerfile_hash := h |}.

Definition demo_layer_meta : LayerMeta :=
  let zero := mk_ContentHash (hash_of x00) in
  {| lm_input_hash := ih1; lm_content_hash := ch1; lm_parent_input_hash := None;
     lm_uncompressed_size := 4; lm_compressed_size_deploy := 2; lm_compressed_size_cache := 2;
     lm_file_checksum_deploy := zero; lm_file_checksum_cache := zero; lm_builder_version := lit "0.1.0";
     lm_build_timestamp := 1; lm_build_host := lit "host"; lm_stage_definition_hash := ch1;
     lm_dockerfile_hash := ch1 |}.

(** Chunks of the two artifacts, mixed. *)
Definition demo_stream : list Msg :=
  [Ok (Some (PCacheChunk [x01])); Ok (Some (PDeployChunk [x02])); Ok None;
   Ok (Some (PDeployChunk [x03])); Ok (Some (PCacheChunk [x04]))].

Lemma upload_roundtrip_witness :
  ∃ b1, serve_publish_layer (Ok (Some (PMeta demo_layer_message)) :: demo_stream) InMemoryBackend_new
          = (Ok (ContentHash_to_string ch1), b1) ∧
    ∃ chunks b2, serve_pull_layer (ContentHash_to_string ch1) FORMAT_DEPLOY b1 = (Ok chunks, b2) ∧
      mjoin chunks = [x02; x03].
Proof.
  destruct (upload_roundtrip InMemoryBackend_new (mk_view ∅ ∅) demo_layer_message demo_layer_meta demo_stream)
    as (b1 & Hrun & _ & Hpull & _); [done|exact I|vm_compute; reflexivity|done|].
  exists b1. split; [exact Hrun|exact Hpull].
Defined.

Lemma pull_stream_bytes_witness :
  ∃ res r', drains {| cur_rest := deploy |} (mjoin (pull_chunks 20 {| cur_rest := deploy |})) res r'.
Proof. destruct (pull_stream_bytes {| cur_rest := deploy |}) as [Hd _]. exact Hd. Defined.

Definition demo_manifest_message : PReleaseManifest :=
  {| prm_schema_version := lit "1.0"; prm_manifest_id := lit "release";
     prm_build_metadata := Some {| pbm_dockerfile_hash := ContentHash_to_string ch1; pbm_build_timestamp := 7;
                                   pbm_builder_version := lit "1.0"; pbm_build_host := lit "host" |};
     prm_layers := [{| pml_name := lit "base"; pml_order := 0; pml_input_hash := InputHash_to_string ih1;
                       pml_content_hash := ContentHash_to_string ch1; pml_size_bytes := 100;
                       pml_size_compressed_bytes := 50; pml_parent_input_hash := None |}];
     prm_workload_metadata := {[lit "cmd" := lit "/bin/sh"]} |}%N.

Lemma manifest_wire_roundtrip_witness :
  ∃ hash b1 b2,
    serve_publish_manifest 1000 (lit "u-1") (Some demo_manifest_message) InMemoryBackend_new = (Ok hash, b1) ∧
    serve_get_manifest hash b1 = (Ok (Some demo_manifest_message), b2).
Proof.
  apply (manifest_wire_roundtrip InMemoryBackend_new (mk_view ∅ ∅)); [done..|]. split.
  - do 2 eexists. split; reflexivity.
  - repeat constructor; [by exists ih1|by exists ch1|by intros p [=]].
Defined.
End Demo.
