(* ===== verification/Upload.v ===== *)
(** * fs-storage: the tasks of an upload
      (src/fs-storage/src/server.rs, publish_layer;
       src/fs-storage/src/layer_store.rs, publish_layer_concurrent)

    The demultiplexing task, its two bounded channels and the two writers that
    [tokio::join!] waits for, as a transition system over every interleaving.
    A writer that has returned, because its disk failed or the blob was already
    there, no longer receives, but its channel stays open until both writers
    have returned. *)

From S2P Require Import Prelude RustStd AsyncIo StoreTypes Proto Server.

Inductive Writer := Reading | Drained | Stopped.

Record Upload := mk_upload {
  up_msgs : list Msg;        (* what the stream still brings *)
  up_open : bool;            (* the demultiplexer runs *)
  up_dq : list bytes; up_cq : list bytes;     (* the channels *)
  up_dgot : list bytes; up_cgot : list bytes; (* received by the writers *)
  up_d : Writer; up_c : Writer;
}.

(** [mpsc::channel(32)]. *)
Definition CHANNEL : nat := 32.

Definition upload_start (msgs : list Msg) : Upload := mk_upload msgs true [] [] [] [] Reading Reading.

Inductive ustep : Upload → Upload → Prop :=
| u_deploy c msgs dq cq dg cg d w :
    length dq < CHANNEL →
    ustep (mk_upload (Ok (Some (PDeployChunk c)) :: msgs) true dq cq dg cg d w)
          (mk_upload msgs true (dq ++ [c]) cq dg cg d w)
| u_cache c msgs dq cq dg cg d w :
    length cq < CHANNEL →
    ustep (mk_upload (Ok (Some (PCacheChunk c)) :: msgs) true dq cq dg cg d w)
          (mk_upload msgs true dq (cq ++ [c]) dg cg d w)
| u_other m msgs dq cq dg cg d w :
    ustep (mk_upload (Ok (Some (PMeta m)) :: msgs) true dq cq dg cg d w) (mk_upload msgs true dq cq dg cg d w)
| u_empty msgs dq cq dg cg d w :
    ustep (mk_upload (Ok None :: msgs) true dq cq dg cg d w) (mk_upload msgs true dq cq dg cg d w)
| u_end dq cq dg cg d w :
    ustep (mk_upload [] true dq cq dg cg d w) (mk_upload [] false dq cq dg cg d w)
| u_broken e msgs dq cq dg cg d w :
    ustep (mk_upload (Err e :: msgs) true dq cq dg cg d w) (mk_upload [] false dq cq dg cg d w)
| u_recv_d c msgs o dq cq dg cg w :
    ustep (mk_upload msgs o (c :: dq) cq dg cg Reading w) (mk_upload msgs o dq cq (dg ++ [c]) cg Reading w)
| u_recv_c c msgs o dq cq dg cg d :
    ustep (mk_upload msgs o dq (c :: cq) dg cg d Reading) (mk_upload msgs o dq cq dg (cg ++ [c]) d Reading)
| u_eof_d msgs cq dg cg w :
    ustep (mk_upload msgs false [] cq dg cg Reading w) (mk_upload msgs false [] cq dg cg Drained w)
| u_eof_c msgs dq dg cg d :
    ustep (mk_upload msgs false dq [] dg cg d Reading) (mk_upload msgs false dq [] dg cg d Drained).

(** A writer returns early. *)
Inductive ustop : Upload → Upload → Prop :=
| u_stop_d msgs o dq cq dg cg w :
    ustop (mk_upload msgs o dq cq dg cg Reading w) (mk_upload msgs o dq cq dg cg Stopped w)
| u_stop_c msgs o dq cq dg cg d :
    ustop (mk_upload msgs o dq cq dg cg d Reading) (mk_upload msgs o dq cq dg cg d Stopped).

Definition uany (s s' : Upload) : Prop := ustep s s' ∨ ustop s s'.
Definition stuck (s : Upload) : Prop := ∀ s', ¬ ustep s s'.

Lemma rtc_preserves {A} (R : A → A → Prop) (P : A → Prop) x y :
  (∀ a b, R a b → P a → P b) → rtc R x y → P x → P y.
Proof. intros HR. induction 1; eauto. Qed.

(** ** What is kept *)

Definition left_d (s : Upload) : list bytes := if up_open s then fst (demux (up_msgs s)) else [].
Definition left_c (s : Upload) : list bytes := if up_open s then snd (demux (up_msgs s)) else [].

(** Nothing is lost, reordered or invented; the channels are bounded; a writer
    is at its end only when all was sent and received. *)
Record upload_inv (msgs : list Msg) (s : Upload) : Prop := {
  ui_deploy : up_dgot s ++ up_dq s ++ left_d s = fst (demux msgs);
  ui_cache : up_cgot s ++ up_cq s ++ left_c s = snd (demux msgs);
  ui_dq : length (up_dq s) ≤ CHANNEL;
  ui_cq : length (up_cq s) ≤ CHANNEL;
  ui_d_end : up_d s = Drained → up_open s = false ∧ up_dq s = [];
  ui_c_end : up_c s = Drained → up_open s = false ∧ up_cq s = [];
}.

Lemma upload_inv_start msgs : upload_inv msgs (upload_start msgs).
Proof. split; cbn; [done..|lia|lia|done|done]. Qed.

Lemma upload_inv_step msgs s s' : ustep s s' → upload_inv msgs s → upload_inv msgs s'.
Proof.
  intros Hs [Hd Hc Hdq Hcq Hde Hce]. unfold left_d, left_c in *.
  destruct Hs; split; unfold left_d, left_c; cbn in *; rewrite ?length_app in *;
    cbn in *; rewrite <- ?app_assoc in *; cbn in *; rewrite ?app_nil_r in *; try done; try lia;
    try (by intros [? ?]%Hde); try (by intros [? ?]%Hce);
    match goal with _ : context [let '(_, _) := demux ?m in _] |- _ => by destruct (demux m) end.
Qed.

Lemma upload_inv_stop msgs s s' : ustop s s' → upload_inv msgs s → upload_inv msgs s'.
Proof. intros Hs [Hd Hc Hdq Hcq Hde Hce]. destruct Hs; by split. Qed.

Lemma upload_inv_reach msgs s : rtc uany (upload_start msgs) s → upload_inv msgs s.
Proof.
  intros Hr. eapply rtc_preserves; [|exact Hr|apply upload_inv_start].
  intros a b [Hs|Hs]; eauto using upload_inv_step, upload_inv_stop.
Qed.

(** ** Every run is finite *)

Definition writer_work (w : Writer) : nat := match w with Reading => 1 | _ => 0 end.
Definition work (s : Upload) : nat :=
  2 * length (up_msgs s) + (if up_open s then 1 else 0) + length (up_dq s) + length (up_cq s) +
  writer_work (up_d s) + writer_work (up_c s).

Lemma ustep_work s s' : ustep s s' → work s' < work s.
Proof. intros []; unfold work; cbn; rewrite ?length_app; cbn; lia. Qed.

Lemma usteps_work n s s' : nsteps ustep n s s' → work s' + n ≤ work s.
Proof. induction 1 as [x|n x y z Hs _ IH]; [lia|]. apply ustep_work in Hs. lia. Qed.

(** ** Progress *)

(** While no writer has stopped and one still reads, something can happen. *)
Lemma upload_progress msgs s :
  upload_inv msgs s → up_d s ≠ Stopped → up_c s ≠ Stopped →
  up_d s = Reading ∨ up_c s = Reading → ∃ s', ustep s s'.
Proof.
  intros [_ _ Hdq Hcq Hde Hce] Hd Hc Hread. destruct s as [ms o dq cq dg cg d c]. cbn in *.
  assert (0 < CHANNEL) as Hcap by (unfold CHANNEL; lia).
  destruct o.
  - assert (d = Reading) as -> by (destruct d; [done|by destruct Hde|done]).
    assert (c = Reading) as -> by (destruct c; [done|by destruct Hce|done]).
    destruct dq as [|x dq]; [|eexists; by constructor].
    destruct cq as [|x cq]; [|eexists; by constructor].
    destruct ms as [|[[[]|]|e] ms]; eexists; by constructor.
  - destruct Hread as [->| ->].
    + destruct dq; eexists; by constructor.
    + destruct cq; eexists; by constructor.
Qed.

(** A writer that has not stopped has not stopped later. *)
Lemma ustep_not_stopped s s' : ustep s s' → up_d s ≠ Stopped ∧ up_c s ≠ Stopped → up_d s' ≠ Stopped ∧ up_c s' ≠ Stopped.
Proof. by intros [] [? ?]. Qed.

(** ** Theorems *)

(** [C19] An upload whose writers read to the end completes, in every
    interleaving: the number of steps is bounded, and a state without a next
    step is one where both writers have reached the end of their channel and
    have received exactly the chunks of their kind among the messages, in
    order. *)
Theorem upload_completes msgs s :
  rtc ustep (upload_start msgs) s →
  (∀ n s', nsteps ustep n s s' → n ≤ 2 * length msgs + 3) ∧
  (stuck s → up_d s = Drained ∧ up_c s = Drained ∧
     up_dgot s = sent Deploy msgs ∧ up_cgot s = sent BuildCache msgs).
Proof.
  intros Hr. split.
  - intros n s' Hn. apply rtc_nsteps in Hr as [k Hk].
    pose proof (usteps_work _ _ _ Hk) as H1. pose proof (usteps_work _ _ _ Hn) as H2.
    assert (work (upload_start msgs) = 2 * length msgs + 3) as Hw by (unfold work; cbn; lia). lia.
  - intros Hst. assert (upload_inv msgs s) as Hinv
      by (eapply rtc_preserves; [apply upload_inv_step|exact Hr|apply upload_inv_start]).
    destruct (rtc_preserves _ _ _ _ ustep_not_stopped Hr) as [Hd Hc]; [done|].
    assert (up_d s ≠ Reading ∧ up_c s ≠ Reading) as [Hrd Hrc].
    { split; intros Heq; destruct (upload_progress msgs s Hinv Hd Hc) as [s' Hs']; auto; by apply (Hst s'). }
    assert (up_d s = Drained) as Hd' by by destruct (up_d s).
    assert (up_c s = Drained) as Hc' by by destruct (up_c s).
    destruct Hinv as [Hdep Hcac _ _ Hde Hce]. destruct (Hde Hd') as [Ho Hdq]. destruct (Hce Hc') as [_ Hcq].
    unfold left_d, left_c in *. rewrite Ho, ?Hdq, ?Hcq, ?app_nil_r in *. by rewrite demux_sent in *.
Qed.

(** The demultiplexer cannot finish while a stopped writer's channel is full. *)
Lemma stopped_blocks msgs s :
  upload_inv msgs s → up_d s = Stopped → length (up_dgot s) + CHANNEL < length (fst (demux msgs)) →
  up_open s = true.
Proof.
  intros [Hdep _ Hdq _ _ _] _ Hlen. destruct (up_open s) eqn:Ho; [done|].
  apply (f_equal length) in Hdep. unfold left_d in Hdep. rewrite Ho, !length_app in Hdep. cbn in Hdep. lia.
Qed.

(** [C30] An upload hangs when a writer gives up.  If the deploy write returns
    early, for instance because the disk is full, while more than 32 of the
    deploy chunks it has not taken are still to come, the cache writer never sees the end
    of its channel: every continuation stops, and in all of them the cache write is
    still waiting, so the call that joins both writes does not return. *)
Theorem upload_hangs msgs s :
  rtc uany (upload_start msgs) s → up_d s = Stopped → up_c s = Reading →
  length (up_dgot s) + CHANNEL < length (fst (demux msgs)) →
  ∀ n s', nsteps ustep n s s' → n ≤ work s ∧ up_d s' = Stopped ∧ up_c s' = Reading.
Proof.
  intros Hr Hd Hc Hlen n s' Hn. split; [apply usteps_work in Hn; lia|].
  set (P := λ x, upload_inv msgs x ∧ up_dgot x = up_dgot s ∧ up_d x = Stopped ∧ up_c x = Reading).
  assert (P s') as (_ & _ & ? & ?); [|done].
  eapply (rtc_preserves ustep P); [|eapply rtc_nsteps_2, Hn|by split; [apply upload_inv_reach|]].
  intros x y Hs (Hinv & Hg & Hxd & Hxc). split; [by eapply upload_inv_step|].
  assert (up_open x = true) as Ho by (eapply stopped_blocks; [done|done|by rewrite Hg]).
  destruct Hs; cbn in *; try done; by subst.
Qed.

(** ** A full disk *)

Section Demo.
Definition full_stream : list Msg := repeat (Ok (Some (PDeployChunk [x00]))) 33 ++ [Ok (Some (PCacheChunk [x01]))].
Definition full_state : Upload := mk_upload full_stream true [] [] [] [] Stopped Reading.

Lemma upload_completes_witness :
  up_dgot (mk_upload [] false [] [] [[x00]] [[x01]] Drained Drained) = [[x00]].
Proof.
  destruct (upload_completes [Ok (Some (PDeployChunk [x00])); Ok (Some (PCacheChunk [x01]))]
    (mk_upload [] false [] [] [[x00]] [[x01]] Drained Drained)) as [_ Hst].
  - eapply rtc_l; [by apply u_deploy; cbn; unfold CHANNEL; lia|].
    eapply rtc_l; [by apply u_cache; cbn; unfold CHANNEL; lia|].
    eapply rtc_l; [by apply u_end|]. eapply rtc_l; [by apply u_recv_d|]. eapply rtc_l; [by apply u_recv_c|].
    eapply rtc_l; [by apply u_eof_d|]. eapply rtc_l; [by apply u_eof_c|]. apply rtc_refl.
  - destruct Hst as (_ & _ & Hd & _); [|exact Hd]. intros s' Hs. inversion Hs.
Defined.

Lemma upload_hangs_witness :
  up_d full_state = Stopped ∧ ∀ n s', nsteps ustep n full_state s' → up_c s' = Reading.
Proof.
  split; [reflexivity|]. intros n s' Hn.
  destruct (upload_hangs full_stream full_state) with (n := n) (s' := s') as (_ & _ & Hc);
    [|reflexivity|reflexivity|vm_compute; lia|exact Hn|exact Hc].
  eapply rtc_l; [right; apply u_stop_d|]. apply rtc_refl.
Defined.
End Demo.
