(* ===== verification/FileSys.v ===== *)
(** * A file system

    The calls of [tokio::fs] and [std::path] the local backend makes, on a tree
    of directories and regular files without links.  A path is resolved
    component by component the way the kernel does; each call may fail with an
    I/O error that an oracle of faults decides.  A fault is never of kind
    [NotFound]: that answer means the entry is not there. *)

From S2P Require Import Prelude RustStd AsyncIo.

(** A location: the names from the entry up to the root directory. *)
Abbreviation Loc := (list rstr) (only parsing).

Inductive Node := NFile (data : bytes) | NDir.

(** An I/O error, and how much a failing copy or write got done before it. *)
Record Fault := { ft_code : N; ft_done : nat }.

Record Disk := {
  dk_nodes : gmap Loc Node;
  dk_cwd : Loc;
  (** what befalls the next calls; none once the list is used up *)
  dk_faults : list (option Fault);
  (** random identifiers drawn so far *)
  dk_uuids : nat;
}.

Definition with_nodes (nodes : gmap Loc Node) (d : Disk) : Disk :=
  {| dk_nodes := nodes; dk_cwd := dk_cwd d; dk_faults := dk_faults d; dk_uuids := dk_uuids d |}.
Definition past_fault (d : Disk) : Disk :=
  {| dk_nodes := dk_nodes d; dk_cwd := dk_cwd d; dk_faults := tail (dk_faults d); dk_uuids := dk_uuids d |}.

(** [Uuid::new_v4().to_string()], the n-th one drawn. *)
Class UuidGen := uuid_text : nat → rstr.
Definition uuid_new `{UuidGen} : SM Disk IoError rstr := λ d,
  (Ok (uuid_text (dk_uuids d)),
   {| dk_nodes := dk_nodes d; dk_cwd := dk_cwd d; dk_faults := dk_faults d; dk_uuids := S (dk_uuids d) |}).

(** ** Paths *)

Definition slash : N := 47.
Definition dot : rstr := lit ".".
Definition dotdot : rstr := lit "..".
Definition components (path : rstr) : list rstr := filter (λ n, n ≠ [] ∧ n ≠ dot) (split_on slash path).

(** A name the file system can store: at most 255 bytes, none of them zero. *)
Definition storable (name : rstr) : bool :=
  bool_decide (length (as_bytes name) ≤ 255) && bool_decide (0%N ∉ name).

Definition ENOTDIR : IoError := IoOther 20.
Definition EISDIR : IoError := IoOther 21.
Definition ENAMETOOLONG : IoError := IoOther 36.

(** What is passed through must be a directory. *)
Fixpoint walk (nodes : gmap Loc Node) (at_ : Loc) (names : list rstr) : result IoError Loc :=
  match names with
  | [] => Ok at_
  | name :: rest =>
      match nodes !! at_ with
      | Some NDir =>
          if bool_decide (name = dotdot) then walk nodes (tail at_) rest
          else if storable name then walk nodes (name :: at_) rest else Err ENAMETOOLONG
      | Some (NFile _) => Err ENOTDIR
      | None => Err IoNotFound
      end
  end.

(** Where a path starts: at the root or in the working directory. *)
Definition start (cwd : Loc) (path : rstr) : Loc := if starts_with path (lit "/") then [] else cwd.

Definition resolve (d : Disk) (path : rstr) : result IoError Loc :=
  if bool_decide (path = []) then Err IoNotFound
  else
    at_ ← walk (dk_nodes d) (start (dk_cwd d) path) (components path);
    (** a trailing separator asks for a directory *)
    if ends_with path (lit "/") then
      match dk_nodes d !! at_ with
      | Some NDir => Ok at_
      | Some (NFile _) => Err ENOTDIR
      | None => Err IoNotFound
      end
    else Ok at_.

(** ** Calls *)

Section Calls.
Local Abbreviation F := (SM Disk IoError).

(** A call, unless a fault comes first. *)
Definition sys {A} (m : F A) : F A := λ d,
  match head (dk_faults d) with
  | Some (Some fault) => (Err (IoOther (ft_code fault)), past_fault d)
  | _ => m (past_fault d)
  end.

Definition node_at (path : rstr) : F (Loc * option Node) := λ d,
  match resolve d path with Ok at_ => (Ok (at_, dk_nodes d !! at_), d) | Err e => (Err e, d) end.
Definition set_node (at_ : Loc) (node : Node) : F unit := λ d,
  (Ok tt, with_nodes (<[at_ := node]> (dk_nodes d)) d).
Definition drop_node (at_ : Loc) : F unit := λ d, (Ok tt, with_nodes (delete at_ (dk_nodes d)) d).

(** [fs::metadata(path)?.is_file()]. *)
Definition metadata_is_file (path : rstr) : F bool := sys (
  '(_, node) ← node_at path;
  match node with
  | Some (NFile _) => mret true
  | Some NDir => mret false
  | None => throw IoNotFound
  end).

(** [Path::exists]: any error is no. *)
Definition path_exists {E} (path : rstr) : SM Disk E bool :=
  r ← attempt (metadata_is_file path);
  mret (match (r : result IoError bool) with Ok _ => true | Err _ => false end).

(** [fs::read]; [File::open] of a regular file, as the bytes it will read. *)
Definition read_file (path : rstr) : F bytes := sys (
  '(_, node) ← node_at path;
  match node with
  | Some (NFile data) => mret data
  | Some NDir => throw EISDIR
  | None => throw IoNotFound
  end).

(** [fs::remove_file]. *)
Definition remove_file (path : rstr) : F unit := sys (
  '(at_, node) ← node_at path;
  match node with
  | Some (NFile _) => drop_node at_
  | Some NDir => throw EISDIR
  | None => throw IoNotFound
  end).

(** [File::create]: an empty file, its directory must exist. *)
Definition create_file (path : rstr) : F unit := sys (
  '(at_, node) ← node_at path;
  match node with
  | Some NDir => throw EISDIR
  | _ => set_node at_ (NFile [])
  end).

(** Append to the file that was just created. *)
Definition append_at (path : rstr) (data : bytes) : F unit :=
  '(at_, node) ← node_at path;
  match node with
  | Some (NFile old) => set_node at_ (NFile (old ++ data))
  | _ => throw EISDIR
  end.

(** [write_all]: a fault leaves a part written. *)
Definition write_all (path : rstr) (data : bytes) : F unit := λ d,
  match head (dk_faults d) with
  | Some (Some fault) =>
      let '(_, d') := append_at path (take (ft_done fault) data) (past_fault d) in
      (Err (IoOther (ft_code fault)), d')
  | _ => append_at path data (past_fault d)
  end.

(** [File::sync_all]. *)
Definition sync_all : F unit := sys (mret tt).

(** [fs::rename] of a regular file: replaces a file, not a directory. *)
Definition rename (from to : rstr) : F unit := sys (
  '(src, node) ← node_at from;
  '(dst, target) ← node_at to;
  match node, target with
  | Some (NFile data), Some NDir => throw EISDIR
  | Some (NFile data), _ => _ ← drop_node src; set_node dst (NFile data)
  | _, _ => throw IoNotFound
  end).

(** [fs::create_dir_all]. *)
Fixpoint mkdirs (nodes : gmap Loc Node) (at_ : Loc) (names : list rstr) : result IoError (gmap Loc Node) :=
  match nodes !! at_ with
  | Some (NFile _) => Err ENOTDIR
  | found =>
      let nodes := match found with None => <[at_ := NDir]> nodes | _ => nodes end in
      match names with
      | [] => Ok nodes
      | name :: rest =>
          if bool_decide (name = dotdot) then mkdirs nodes (tail at_) rest
          else if storable name then mkdirs nodes (name :: at_) rest else Err ENAMETOOLONG
      end
  end.
Definition create_dir_all (path : rstr) : F unit := sys (λ d,
  match mkdirs (dk_nodes d) (start (dk_cwd d) path) (components path) with
  | Ok nodes => (Ok tt, with_nodes nodes d)
  | Err e => (Err e, d)
  end).

(** [fs::read_dir]: the names in a directory, in some order. *)
Definition names_in (nodes : gmap Loc Node) (at_ : Loc) : list (rstr * Node) :=
  omap (λ '(loc, node), match loc with
                        | name :: up => if bool_decide (up = at_) then Some (name, node) else None
                        | [] => None
                        end) (map_to_list nodes).
Definition read_dir (path : rstr) : F (list (rstr * Node)) := sys (λ d,
  match node_at path d with
  | (Ok (at_, Some NDir), _) => (Ok (names_in (dk_nodes d) at_), d)
  | (Ok (_, Some (NFile _)), _) => (Err ENOTDIR, d)
  | (Ok (_, None), _) => (Err IoNotFound, d)
  | (Err e, _) => (Err e, d)
  end).
(** [DirEntry::file_type()?.is_file()]. *)
Definition entry_is_file (entry : rstr * Node) : F bool := sys (
  mret (match snd entry with NFile _ => true | NDir => false end)).
(** [ReadDir::next_entry] that has an entry to give. *)
Definition next_entry (entry : rstr * Node) : F (rstr * Node) := sys (mret entry).
(** [next_entry] at the end. *)
Definition last_entry : F unit := sys (mret tt).
End Calls.

(** [io::copy(reader, &mut file)].  A fault of the file stops it after some
    reads. *)
Definition copy_to `{IoCopy} {R} `{AsyncRead R} (path : rstr) (reader : R) (d : Disk)
  : result IoError unit * R * Disk :=
  match head (dk_faults d) with
  | Some (Some fault) =>
      let '(data, _, reader') := copy_loop (ft_done fault) reader in
      let '(_, d') := append_at path data (past_fault d) in
      (Err (IoOther (ft_code fault)), reader', d')
  | _ =>
      let '(data, res, reader') := io_copy reader in
      match append_at path data (past_fault d) with
      | (Ok _, d') => (res, reader', d')
      | (Err e, d') => (Err e, reader', d')
      end
  end.

(** ** Lemmas on paths *)

Lemma split_on_app_sep c a b : split_on c (a ++ c :: b) = split_on c a ++ split_on c b.
Proof.
  induction a as [|d a IH]; cbn; [by rewrite N.eqb_refl|]. rewrite IH.
  destruct (d =? c)%N; [done|]. by destruct (split_on_cons_inv c a) as (p & ps & ->).
Qed.

Lemma components_app a b : components (a ++ slash :: b) = components a ++ components b.
Proof. unfold components. by rewrite split_on_app_sep, filter_app. Qed.

(** A name of one component that denotes an entry of its directory. *)
Record plain (n : rstr) : Prop := {
  pn_nonempty : n ≠ [];
  pn_dot : n ≠ dot;
  pn_dotdot : n ≠ dotdot;
  pn_slash : Forall (λ c, c ≠ slash) n;
  pn_storable : storable n = true;
}.

Lemma split_on_none c s : Forall (λ d, d ≠ c) s → split_on c s = [s].
Proof.
  induction 1 as [|d s Hd _ IH]; [done|]. cbn. by rewrite (proj2 (N.eqb_neq _ _) Hd), IH.
Qed.

Lemma components_plain n : plain n → components n = [n].
Proof.
  intros [Hn Hd _ Hs _]. unfold components. rewrite split_on_none by done.
  rewrite filter_cons, decide_True by done. done.
Qed.

Lemma starts_with_slash s : starts_with s (lit "/") = bool_decide (head s = Some slash).
Proof.
  unfold starts_with. apply bool_decide_ext. split.
  - intros [t ->%strip_prefix_Some]. done.
  - destruct s as [|c s]; [done|]. intros [= ->]. exists s. by apply strip_prefix_Some.
Qed.

Lemma ends_with_slash s : ends_with s (lit "/") = bool_decide (last s = Some slash).
Proof.
  unfold ends_with, strip_suffix. rewrite <- head_reverse. change (reverse (lit "/")) with (lit "/").
  rewrite <- starts_with_slash. unfold starts_with. apply bool_decide_ext. by rewrite fmap_is_Some.
Qed.

Lemma plain_head n : plain n → head n ≠ Some slash.
Proof. intros [_ _ _ Hs _]. by destruct Hs as [|c s Hc _]; cbn; [|congruence]. Qed.

Lemma plain_last n : plain n → ∃ c, last n = Some c ∧ c ≠ slash.
Proof.
  intros [Hn _ _ Hs _]. destruct n as [|c n _] using rev_ind; [done|].
  exists c. rewrite last_snoc. split; [done|]. apply Forall_app in Hs as [_ Hs]. by inversion Hs.
Qed.

(** [join] with a plain name: the two shapes of the result. *)
Lemma join_plain a n :
  plain n → (a = [] ∧ join a n = n) ∨ ∃ a', join a n = a' ++ slash :: n ∧
    (a = a' ∧ a ≠ [] ∨ a = a' ++ [slash]).
Proof.
  intros Hn. unfold join. rewrite starts_with_slash, (bool_decide_false _ (plain_head n Hn)).
  destruct (decide (a = [])) as [->|Ha]; [by left|right]. rewrite bool_decide_false by done. cbn [orb].
  destruct (ends_with a (lit "/")) eqn:He.
  - apply ends_with_true in He as [t ->]. exists t. by rewrite <- app_assoc; auto.
  - exists a. auto.
Qed.

Lemma join_components a n : plain n → components (join a n) = components a ++ [n].
Proof.
  intros Hn. destruct (join_plain a n Hn) as [[-> ->]|(a' & -> & Ha)]; [by apply components_plain|].
  rewrite components_app, (components_plain n) by done. f_equal.
  destruct Ha as [[-> _]| ->]; [done|]. by rewrite components_app, app_nil_r.
Qed.

Lemma join_start cwd a n : plain n → start cwd (join a n) = start cwd a.
Proof.
  intros Hn. unfold start. rewrite !starts_with_slash.
  destruct (join_plain a n Hn) as [[-> ->]|(a' & -> & Ha)].
  - by rewrite bool_decide_false by by apply plain_head.
  - destruct Ha as [[-> Hne]| ->]; [by destruct a'|by destruct a'].
Qed.

(** The path of an entry: not empty, no trailing separator. *)
Definition entry_path (p : rstr) : Prop := p ≠ [] ∧ ends_with p (lit "/") = false.

Lemma join_entry a n : plain n → entry_path (join a n).
Proof.
  intros Hn. destruct (plain_last n Hn) as (c & Hl & Hc). unfold entry_path.
  rewrite ends_with_slash, bool_decide_eq_false.
  assert (last (join a n) = Some c) as Hlast.
  { destruct (join_plain a n Hn) as [[-> ->]|(a' & -> & _)]; [done|].
    by rewrite last_app, last_cons, Hl. }
  split; [by intros Hnil; rewrite Hnil in Hlast|congruence].
Qed.

(** *** Parents *)

Lemma rtrim_components r : components (reverse (rtrim_path r)) = components (reverse r).
Proof.
  assert (∀ r', components (reverse (47%N :: r')) = components (reverse r')) as Hs.
  { intros r'. rewrite reverse_cons. change [47%N] with (slash :: []).
    by rewrite components_app, app_nil_r. }
  assert (∀ r', components (reverse (46%N :: 47%N :: r')) = components (reverse r')) as Hd.
  { intros r'. rewrite !reverse_cons, <- app_assoc. change ([47%N] ++ [46%N]) with (slash :: dot).
    by rewrite components_app, app_nil_r. }
  induction r as [|c r IH]; [done|]. cbn [rtrim_path].
  repeat (case_match; try done); rewrite ?Hd, ?Hs, ?IH, ?Hs; done.
Qed.

Lemma rtrim_last r : last (rtrim_path r) = last r.
Proof.
  induction r as [|c r IH]; [done|]. cbn [rtrim_path].
  repeat (case_match; try done); rewrite ?IH; try done.
  match goal with Hb : bool_decide _ = false |- _ => apply bool_decide_eq_false in Hb end. by destruct r.
Qed.

Lemma rtrim_start cwd r : start cwd (reverse (rtrim_path r)) = start cwd (reverse r).
Proof. unfold start. by rewrite !starts_with_slash, !head_reverse, rtrim_last. Qed.

Lemma last_component_app r r' :
  Forall (λ c, c ≠ slash) r → last_component (r ++ slash :: r') = (r, slash :: r').
Proof.
  induction 1 as [|c r Hc _ IH]; [done|]. cbn [app last_component]. rewrite IH.
  unfold slash in Hc. repeat (case_match; try done).
Qed.

Lemma last_component_all r : Forall (λ c, c ≠ slash) r → last_component r = (r, []).
Proof.
  induction 1 as [|c r Hc _ IH]; [done|]. cbn [last_component]. rewrite IH.
  unfold slash in Hc. repeat (case_match; try done).
Qed.

Lemma rtrim_plain n r : plain n → rtrim_path (reverse n ++ r) = reverse n ++ r.
Proof.
  intros [Hn Hd _ Hs _]. apply Forall_reverse in Hs.
  assert (reverse n ≠ []) as Hne by (intros Hr%(f_equal reverse); by rewrite reverse_involutive in Hr).
  assert (reverse n ≠ dot) as Hnd by (intros Hr%(f_equal reverse); by rewrite reverse_involutive in Hr).
  destruct (reverse n) as [|c [|e m]]; [done|..]; cbn [app rtrim_path]; unfold slash in Hs.
  - inversion Hs; subst. repeat (case_match; try done); subst; done.
  - inversion Hs as [|? ? ? Hs']; subst. inversion Hs'; subst. repeat (case_match; try done).
Qed.

Lemma join_parent a n :
  plain n → ∃ p, path_parent (join a n) = Some p ∧ components p = components a ∧
    ∀ cwd, start cwd p = start cwd a.
Proof.
  intros Hn. unfold path_parent.
  assert (∀ r, bool_decide (reverse n ++ r = []) || bool_decide (reverse n ++ r = lit "/") = false) as Hb.
  { intros r. apply orb_false_iff. split; apply bool_decide_eq_false; intros Heq;
      destruct Hn as [Hn _ _ Hs _]; apply Forall_reverse in Hs.
    - apply app_eq_nil in Heq as [Hr _]. by apply (f_equal reverse) in Hr; rewrite reverse_involutive in Hr.
    - destruct (reverse n) as [|c l] eqn:Hr.
      + by apply (f_equal reverse) in Hr; rewrite reverse_involutive in Hr.
      + injection Heq as -> _. by inversion Hs. }
  pose proof (pn_slash n Hn) as Hs. apply Forall_reverse in Hs.
  destruct (join_plain a n Hn) as [[-> ->]|(a' & -> & Ha)].
  - pose proof (rtrim_plain n [] Hn) as Ht. specialize (Hb []). rewrite app_nil_r in Ht, Hb.
    rewrite Ht, Hb, last_component_all by done. by eexists.
  - rewrite reverse_app, reverse_cons, <- app_assoc. rewrite rtrim_plain, Hb by done.
    change ([slash] ++ reverse a') with (slash :: reverse a').
    rewrite last_component_app by done. cbn [snd]. eexists. split; [done|]. split.
    + rewrite rtrim_components, reverse_cons, reverse_involutive. change [slash] with (slash :: []).
      rewrite components_app, app_nil_r. destruct Ha as [[-> _]| ->]; [done|].
      by rewrite components_app, app_nil_r.
    + intros cwd. rewrite rtrim_start, reverse_cons, reverse_involutive.
      destruct Ha as [[-> Hne]| ->]; [|done]. unfold start. rewrite !starts_with_slash. by destruct a'.
Qed.

(** ** Lemmas on walks *)

Lemma walk_app nodes at_ xs ys :
  walk nodes at_ (xs ++ ys) = (at' ← walk nodes at_ xs; walk nodes at' ys).
Proof.
  revert at_. induction xs as [|x xs IH]; intros at_; [done|]. cbn.
  destruct (nodes !! at_) as [[]|]; [done| |done]. repeat case_match; [apply IH..|done].
Qed.

Lemma walk_step nodes at_ n ns :
  nodes !! at_ = Some NDir → plain n → walk nodes at_ (n :: ns) = walk nodes (n :: at_) ns.
Proof.
  intros Hd [_ _ Hn _ Hs]. cbn. by rewrite Hd, Hs, bool_decide_false by done.
Qed.

(** The directories of one tree are directories of the other. *)
Definition dirs_kept (nodes nodes' : gmap Loc Node) : Prop :=
  ∀ at_, nodes !! at_ = Some NDir → nodes' !! at_ = Some NDir.

Lemma walk_kept nodes nodes' at_ ns loc :
  dirs_kept nodes nodes' → walk nodes at_ ns = Ok loc → walk nodes' at_ ns = Ok loc.
Proof.
  intros Hk. revert at_. induction ns as [|n ns IH]; intros at_; [done|]. cbn.
  destruct (nodes !! at_) as [[]|] eqn:Hd; [done| |done]. rewrite (Hk _ Hd).
  repeat case_match; auto.
Qed.

(** A path that continues another one by these names. *)
Record extends (root p : rstr) (ns : list rstr) : Prop := {
  ex_components : components p = components root ++ ns;
  ex_start : ∀ cwd, start cwd p = start cwd root;
}.

Lemma extends_refl root : extends root root [].
Proof. split; [by rewrite app_nil_r|done]. Qed.

Lemma extends_join root p ns n : plain n → extends root p ns → extends root (join p n) (ns ++ [n]).
Proof.
  intros Hn [Hc Hs]. split.
  - by rewrite join_components, Hc, app_assoc by done.
  - intros cwd. by rewrite join_start by done.
Qed.

Lemma extends_parent root p ns n q :
  plain n → path_parent (join p n) = Some q → extends root p ns → extends root q ns.
Proof.
  intros Hn Hq [Hc Hs]. destruct (join_parent p n Hn) as (q' & Hq' & Hqc & Hqs).
  rewrite Hq in Hq'. injection Hq' as <-. split; [by rewrite Hqc|]. intros. by rewrite Hqs.
Qed.

(** ** Lemmas on calls *)

(** The tree below a root: where the root is. *)
Definition rooted (root : rstr) (rl : Loc) (d : Disk) : Prop :=
  walk (dk_nodes d) (start (dk_cwd d) root) (components root) = Ok rl.

Lemma resolve_extends root rl d p ns :
  rooted root rl d → extends root p ns → entry_path p → resolve d p = walk (dk_nodes d) rl ns.
Proof.
  intros Hr [Hc Hs] [Hne He]. unfold resolve. rewrite bool_decide_false, He by done.
  rewrite Hc, Hs, walk_app, Hr. cbn. by destruct (walk _ rl ns).
Qed.

Lemma rooted_kept root rl d nodes :
  rooted root rl d → dirs_kept (dk_nodes d) nodes → rooted root rl (with_nodes nodes d).
Proof. intros Hr Hk. unfold rooted. cbn. by eapply walk_kept. Qed.

Lemma rooted_past root rl d : rooted root rl d → rooted root rl (past_fault d).
Proof. done. Qed.

(** A call runs, or a pending fault stops it. *)
Lemma sys_cases {A} (m : SM Disk IoError A) d r d' :
  sys m d = (r, d') →
  m (past_fault d) = (r, d') ∨
  (∃ code, r = Err (IoOther code)) ∧ d' = past_fault d ∧ dk_faults d ≠ [].
Proof.
  unfold sys. destruct (dk_faults d) as [|[f|] fs]; cbn; [by left| |by left].
  intros [= <- <-]. right. eauto.
Qed.

(** [create_dir_all] where the directories exist up to the last one. *)
Lemma mkdirs_walk nodes at_ xs ys loc :
  walk nodes at_ xs = Ok loc → nodes !! loc = Some NDir → mkdirs nodes at_ (xs ++ ys) = mkdirs nodes loc ys.
Proof.
  revert at_. induction xs as [|x xs IH]; intros at_ Hw Hd; [by injection Hw as ->|].
  cbn in Hw. cbn [app mkdirs]. destruct (nodes !! at_) as [[]|]; [done| |done].
  case_bool_decide; [by apply IH|]. destruct (storable x); [by apply IH|done].
Qed.

Lemma mkdirs_one nodes at_ n :
  nodes !! at_ = Some NDir → plain n →
  (∀ data, nodes !! (n :: at_) ≠ Some (NFile data)) →
  mkdirs nodes at_ [n] = Ok (match nodes !! (n :: at_) with None => <[n :: at_ := NDir]> nodes | _ => nodes end).
Proof.
  intros Hd [_ _ Hn _ Hs] Hf. cbn [mkdirs]. rewrite Hd, bool_decide_false, Hs by done.
  destruct (nodes !! (n :: at_)) as [[data|]|]; [|done..]. by destruct (Hf data).
Qed.

Lemma mkdirs_dir nodes at_ : nodes !! at_ = Some NDir → mkdirs nodes at_ [] = Ok nodes.
Proof. intros Hd. cbn. by rewrite Hd. Qed.

Lemma names_in_elem nodes at_ n node :
  (n, node) ∈ names_in nodes at_ ↔ nodes !! (n :: at_) = Some node.
Proof.
  unfold names_in. rewrite list_elem_of_omap. split.
  - intros ([[|m up] x] & Hin & Hx); [done|]. case_bool_decide; [|done]. simplify_eq.
    by apply elem_of_map_to_list in Hin.
  - intros Hl. exists (n :: at_, node). rewrite elem_of_map_to_list. split; [done|].
    by rewrite bool_decide_true.
Qed.

Lemma names_in_nodup nodes at_ : NoDup (names_in nodes at_).*1.
Proof.
  unfold names_in. pose proof (NoDup_fst_map_to_list nodes) as Hnd.
  induction (map_to_list nodes) as [|[loc node] l IH]; [constructor|].
  apply NoDup_cons in Hnd as [Hn Hnd]. cbn in Hn |- *. specialize (IH Hnd).
  destruct loc as [|m up]; [done|]. case_bool_decide as Hup; [|done]. subst up.
  cbn. constructor; [|done]. intros Hin. apply list_elem_of_fmap in Hin as ([n x] & -> & Hin).
  apply list_elem_of_omap in Hin as ([[|n' up'] x'] & Hin & Hx); [done|].
  case_bool_decide; [|done]. simplify_eq. apply Hn. apply list_elem_of_fmap. by eexists (_, _).
Qed.
