(* ===== verification/LocalBackend.v ===== *)
(** * fs-storage: the local backend (src/fs-storage/src/backends/local_json.rs)

    Blobs and metadata as files under a root directory, written to [tmp] first
    and moved into place. *)

From S2P Require Import Prelude RustStd AsyncIo StoreTypes Backend FileSys.

Record LocalJsonBackend := mk_local { lj_root : rstr; lj_disk : Disk }.

Section Local.
Context `{IoCopy, UuidGen, Hex}.
Local Abbreviation M := (SM LocalJsonBackend StoreError).

(** A call of [tokio::fs] on the disk, its error still an [io::Error]. *)
Definition fs_call {A} (m : SM Disk IoError A) : SM LocalJsonBackend IoError A := λ b,
  let '(r, d) := m (lj_disk b) in (r, mk_local (lj_root b) d).
(** [call.await?]. *)
Definition fs_try {A} (m : SM Disk IoError A) : M A := SM_map_err Io (fs_call m).
(** [self.root]. *)
Definition ask_root : M rstr := λ b, (Ok (lj_root b), b).

(** ** Paths *)

Definition blob_path (root : rstr) (hash : ContentHash) (format : ArtifactFormat) : rstr :=
  let hash_str := ContentHash_to_string hash in
  let prefix := take 2 hash_str in
  let suffix := drop 2 hash_str in
  join (join (join root (lit "objects")) prefix) (suffix ++ lit "." ++ ArtifactFormat_extension format).

Definition get_meta_file_path (root key : rstr) : rstr :=
  match strip_prefix (lit "manifests/") key with
  | Some name => join (join root (lit "manifests")) (name ++ lit ".json")
  | None =>
  match strip_prefix (lit "tags/") key with
  | Some name => join (join (join root (lit "refs")) (lit "tags")) name
  | None =>
  match strip_prefix (lit "layers/") key with
  | Some name => join (join (join root (lit "meta")) (lit "layers")) (name ++ lit ".json")
  | None =>
  match strip_prefix (lit "builds/") key with
  | Some name => join (join (join root (lit "meta")) (lit "builds")) (name ++ lit ".json")
  | None =>
  match strip_prefix (lit "index/") key with
  | Some name => join (join (join root (lit "meta")) (lit "index")) name
  | None => join (join root (lit "meta")) key
  end end end end end.

(** ** Opening *)

Definition layout_dirs (root : rstr) : list rstr :=
  [join root (lit "objects"); join root (lit "manifests");
   join (join root (lit "meta")) (lit "layers"); join (join root (lit "meta")) (lit "index");
   join (join root (lit "meta")) (lit "builds"); join (join root (lit "refs")) (lit "tags");
   join root (lit "tmp")].

(** The loop over [tmp]: it ends at the first error of [next_entry], other
    errors are ignored. *)
Fixpoint sweep_tmp (tmp_dir : rstr) (entries : list (rstr * Node)) : SM Disk IoError unit :=
  match entries with
  | [] => _ ← attempt last_entry; mret tt
  | entry :: rest =>
      next ← attempt (next_entry entry);
      match (next : result IoError (rstr * Node)) with
      | Err _ => mret tt
      | Ok entry =>
          ft ← attempt (entry_is_file entry);
          _ ← (match (ft : result IoError bool) with
               | Ok true => _ ← attempt (remove_file (join tmp_dir (fst entry))); mret tt
               | _ => mret tt
               end : SM Disk IoError unit);
          sweep_tmp tmp_dir rest
      end
  end.

Definition LocalJsonBackend_new (root : rstr) (d : Disk) : result StoreError LocalJsonBackend * Disk :=
  let m :=
    _ ← for_each (layout_dirs root) tt (λ dir _, create_dir_all dir);
    let tmp_dir := join root (lit "tmp") in
    entries ← attempt (read_dir tmp_dir);
    match (entries : result IoError (list (rstr * Node))) with
    | Ok entries => sweep_tmp tmp_dir entries
    | Err _ => mret tt
    end in
  match m d with
  | (Ok _, d') => (Ok (mk_local root d'), d')
  | (Err e, d') => (Err (Io e), d')
  end.

(** ** Blobs *)

(** [Ok] and [NotFound] are answers, every other error is passed on. *)
Definition or_missing {A C} (m : SM Disk IoError A) (found : A → C) (missing : C) : M C :=
  r ← attempt (fs_call m);
  match (r : result IoError A) with
  | Ok a => mret (found a)
  | Err IoNotFound => mret missing
  | Err e => throw (Io e)
  end.

Definition lj_has_blob (hash : ContentHash) (format : ArtifactFormat) : M bool :=
  root ← ask_root;
  or_missing (metadata_is_file (blob_path root hash format)) id false.

(** [if let Some(parent) = path.parent() { create_dir_all(parent) }]. *)
Definition ensure_parent (path : rstr) : M unit :=
  match path_parent path with Some parent => fs_try (create_dir_all parent) | None => mret tt end.

(** The file under [tmp], created. *)
Definition create_tmp (root : rstr) : M rstr :=
  id ← fs_try uuid_new;
  let tmp_path := join (join root (lit "tmp")) id in
  _ ← fs_try (create_file tmp_path);
  mret tmp_path.

(** Move it into place (lines 103-109, 149-155). *)
Definition commit (tmp_path final_path : rstr) : M unit :=
  r ← attempt (fs_call (rename tmp_path final_path));
  match (r : result IoError unit) with
  | Ok _ => mret tt
  | Err e => _ ← attempt (E := IoError) (fs_call (remove_file tmp_path)); throw (Io e)
  end.

Definition lj_put_blob {R : Type} `{AsyncRead R} (hash : ContentHash) (format : ArtifactFormat)
    (reader : R) (b : LocalJsonBackend) : result StoreError unit * R * LocalJsonBackend :=
  let final_path := blob_path (lj_root b) hash format in
  let prepare : M (option rstr) :=
    present ← fs_try (path_exists final_path);
    if (present : bool) then mret None
    else
      _ ← ensure_parent final_path;
      tmp_path ← create_tmp (lj_root b);
      mret (Some tmp_path) in
  match prepare b with
  | (Err e, b1) => (Err e, reader, b1)
  | (Ok None, b1) => (Ok tt, reader, b1)
  | (Ok (Some tmp_path), b1) =>
      match copy_to tmp_path reader (lj_disk b1) with
      | (Err e, reader', d2) => (Err (Io e), reader', mk_local (lj_root b1) d2)
      | (Ok _, reader', d2) =>
          let '(r, b3) := (_ ← fs_try sync_all; commit tmp_path final_path) (mk_local (lj_root b1) d2) in
          (r, reader', b3)
      end
  end.

Definition lj_get_blob (hash : ContentHash) (format : ArtifactFormat) : M Cursor :=
  root ← ask_root;
  r ← attempt (fs_call (read_file (blob_path root hash format)));
  match (r : result IoError bytes) with
  | Ok data => mret {| cur_rest := data |}
  | Err IoNotFound => throw NotFound
  | Err e => throw (Io e)
  end.

Definition lj_delete_blob (hash : ContentHash) (format : ArtifactFormat) : M unit :=
  root ← ask_root;
  or_missing (remove_file (blob_path root hash format)) id tt.

(** ** Metadata *)

Definition lj_put_meta (key : rstr) (value : bytes) : M unit :=
  root ← ask_root;
  let final_path := get_meta_file_path root key in
  _ ← ensure_parent final_path;
  tmp_path ← create_tmp root;
  _ ← fs_try (write_all tmp_path value);
  _ ← fs_try sync_all;
  commit tmp_path final_path.

Definition lj_get_meta (key : rstr) : M (option bytes) :=
  root ← ask_root;
  or_missing (read_file (get_meta_file_path root key)) Some None.

Definition list_dir (root prefix : rstr) : rstr :=
  if bool_decide (prefix = lit "manifests") || starts_with prefix (lit "manifests/")
  then join root (lit "manifests")
  else if bool_decide (prefix = lit "tags") || starts_with prefix (lit "tags/")
  then join (join root (lit "refs")) (lit "tags")
  else join (join root (lit "meta")) prefix.

(** [trim_end_matches('/')]. *)
Fixpoint drop_slashes (r : rstr) : rstr :=
  match r with 47%N :: r' => drop_slashes r' | _ => r end.
Definition trim_end_slashes (s : rstr) : rstr := reverse (drop_slashes (reverse s)).

Definition list_key (prefix file_name : rstr) : rstr :=
  let name := match strip_suffix (lit ".json") file_name with Some name => name | None => file_name end in
  if starts_with prefix (lit "manifests") then lit "manifests/" ++ name
  else if starts_with prefix (lit "tags") then lit "tags/" ++ name
  else trim_end_slashes prefix ++ lit "/" ++ name.

Fixpoint list_entries (prefix : rstr) (entries : list (rstr * Node)) (keys : list rstr)
  : SM Disk IoError (list rstr) :=
  match entries with
  | [] => _ ← last_entry; mret keys
  | entry :: rest =>
      entry ← next_entry entry;
      is_file ← entry_is_file entry;
      list_entries prefix rest
        (if (is_file : bool) then keys ++ [list_key prefix (fst entry)] else keys)
  end.

Definition lj_list_meta (prefix : rstr) : M (list rstr) :=
  root ← ask_root;
  entries ← or_missing (read_dir (list_dir root prefix)) Some None;
  match (entries : option (list (rstr * Node))) with
  | None => mret []
  | Some entries => fs_try (list_entries prefix entries [])
  end.

Definition lj_delete_meta (key : rstr) : M unit :=
  root ← ask_root;
  or_missing (remove_file (get_meta_file_path root key)) id tt.

#[export] Instance LocalJsonBackend_storage : StorageBackend LocalJsonBackend := {|
  has_blob := lj_has_blob; put_blob := @lj_put_blob; get_blob := lj_get_blob;
  delete_blob := lj_delete_blob; put_meta := lj_put_meta; get_meta := lj_get_meta;
  list_meta := lj_list_meta; delete_meta := lj_delete_meta;
|}.
End Local.
