(* ===== verification/LocalTasks.v ===== *)
(** * fs-storage: the local backend as tasks (src/fs-storage/src/backends/local_json.rs)

    The operations of [LocalBackend] as trees of file-system calls: between two
    calls other tasks of the server run on the same disk.  [io::copy] is one
    call here, its writes all go to a file only this task knows.  [run_*]: a
    task that runs alone does what the operation of [LocalBackend] does. *)

From S2P Require Import Prelude RustStd AsyncIo StoreTypes Backend Tasks FileSys LocalBackend LayerStore.

Section Local.
Context `{IoCopy, UuidGen, Hex} (root : rstr).
Local Abbreviation B := LocalJsonBackend.
Local Abbreviation T := (Task LocalJsonBackend StoreError).
Local Open Scope task_scope.

Definition has_blob_task (hash : ContentHash) (format : ArtifactFormat) : T bool :=
  await (or_missing (metadata_is_file (blob_path root hash format)) id false).

Definition ensure_parent_task (path : rstr) : T unit :=
  match path_parent path with
  | Some parent => await (fs_try (create_dir_all parent))
  | None => task_ret tt
  end.

Definition commit_task (tmp_path final_path : rstr) : T unit :=
  r ⇐ await (attempt (fs_call (rename tmp_path final_path)));
  match (r : result IoError unit) with
  | Ok _ => task_ret tt
  | Err e =>
      _ ⇐ await (attempt (E := IoError) (fs_call (remove_file tmp_path)));
      task_lift (Err (Io e))
  end.

(** [io::copy(reader, &mut tmp_file).await?], keeping the reader. *)
Definition copy_call {R : Type} `{AsyncRead R} (tmp_path : rstr) (reader : R) : SM B StoreError R := λ b,
  match copy_to tmp_path reader (lj_disk b) with
  | (Ok _, reader', d) => (Ok reader', mk_local (lj_root b) d)
  | (Err e, _, d) => (Err (Io e), mk_local (lj_root b) d)
  end.

Definition put_blob_task {R : Type} `{AsyncRead R} (hash : ContentHash) (format : ArtifactFormat)
    (reader : R) : T R :=
  let final_path := blob_path root hash format in
  present ⇐ await (fs_try (path_exists final_path));
  if (present : bool) then task_ret reader else
  _ ⇐ ensure_parent_task final_path;
  tmp_path ⇐ await (create_tmp root);
  reader ⇐ await (copy_call tmp_path reader);
  _ ⇐ await (fs_try sync_all);
  _ ⇐ commit_task tmp_path final_path;
  task_ret reader.

Definition get_blob_task (hash : ContentHash) (format : ArtifactFormat) : T Cursor :=
  r ⇐ await (attempt (fs_call (read_file (blob_path root hash format))));
  match (r : result IoError bytes) with
  | Ok data => task_ret {| cur_rest := data |}
  | Err IoNotFound => task_lift (Err NotFound)
  | Err e => task_lift (Err (Io e))
  end.

Definition delete_blob_task (hash : ContentHash) (format : ArtifactFormat) : T unit :=
  await (or_missing (remove_file (blob_path root hash format)) id tt).

Definition put_meta_task (key : rstr) (value : bytes) : T unit :=
  let final_path := get_meta_file_path root key in
  _ ⇐ ensure_parent_task final_path;
  tmp_path ⇐ await (create_tmp root);
  _ ⇐ await (fs_try (write_all tmp_path value));
  _ ⇐ await (fs_try sync_all);
  commit_task tmp_path final_path.

Definition get_meta_task (key : rstr) : T (option bytes) :=
  await (or_missing (read_file (get_meta_file_path root key)) Some None).

Fixpoint list_entries_task (prefix : rstr) (entries : list (rstr * Node)) (keys : list rstr) : T (list rstr) :=
  match entries with
  | [] => _ ⇐ await (fs_try last_entry); task_ret keys
  | entry :: rest =>
      entry ⇐ await (fs_try (next_entry entry));
      is_file ⇐ await (fs_try (entry_is_file entry));
      list_entries_task prefix rest
        (if (is_file : bool) then keys ++ [list_key prefix (fst entry)] else keys)
  end.

Definition list_meta_task (prefix : rstr) : T (list rstr) :=
  entries ⇐ await (or_missing (read_dir (list_dir root prefix)) Some None);
  match (entries : option (list (rstr * Node))) with
  | None => task_ret []
  | Some entries => list_entries_task prefix entries []
  end.

Definition delete_meta_task (key : rstr) : T unit :=
  await (or_missing (remove_file (get_meta_file_path root key)) id tt).

End Local.

(** ** A task alone *)

Section Alone.
Context `{IoCopy, UuidGen, Hex} (root : rstr).
Local Abbreviation B := LocalJsonBackend.

Lemma ask_root_eq {A} (g : rstr → SM B StoreError A) b : (ask_root ≫= g) b = g (lj_root b) b.
Proof. done. Qed.

Lemma run_ensure_parent path b : run (ensure_parent_task path) b = ensure_parent path b.
Proof. unfold ensure_parent_task, ensure_parent. case_match; [apply run_await|done]. Qed.

Lemma run_commit tmp_path final_path b : run (commit_task tmp_path final_path) b = commit tmp_path final_path b.
Proof.
  apply run_bind_eq; [apply run_await|]. intros [[]|e] b' _; [done|].
  apply run_bind_eq; [apply run_await|done].
Qed.

Lemma run_has_blob h f b : lj_root b = root → run (has_blob_task root h f) b = has_blob h f b.
Proof. intros Hr. rewrite <- Hr. unfold has_blob_task. by rewrite run_await. Qed.

Lemma run_get_blob h f b : lj_root b = root → run (get_blob_task root h f) b = get_blob h f b.
Proof.
  intros Hr. rewrite <- Hr. cbn [get_blob LocalJsonBackend_storage]. unfold lj_get_blob. rewrite ask_root_eq.
  apply run_bind_eq; [apply run_await|]. intros [x|[|c]] b' _; done.
Qed.

Lemma run_delete_blob h f b : lj_root b = root → run (delete_blob_task root h f) b = delete_blob h f b.
Proof. intros Hr. rewrite <- Hr. unfold delete_blob_task. by rewrite run_await. Qed.

Lemma run_get_meta k b : lj_root b = root → run (get_meta_task root k) b = get_meta k b.
Proof. intros Hr. rewrite <- Hr. unfold get_meta_task. by rewrite run_await. Qed.

Lemma run_delete_meta k b : lj_root b = root → run (delete_meta_task root k) b = delete_meta k b.
Proof. intros Hr. rewrite <- Hr. unfold delete_meta_task. by rewrite run_await. Qed.

Lemma run_put_meta k x b : lj_root b = root → run (put_meta_task root k x) b = put_meta k x b.
Proof.
  intros Hr. rewrite <- Hr. cbn [put_meta LocalJsonBackend_storage]. unfold lj_put_meta. rewrite ask_root_eq.
  apply run_bind_eq; [apply run_ensure_parent|]. intros [] b1 _.
  apply run_bind_eq; [apply run_await|]. intros p b2 _.
  apply run_bind_eq; [apply run_await|]. intros [] b3 _.
  apply run_bind_eq; [apply run_await|]. intros [] b4 _. apply run_commit.
Qed.

Lemma run_list_entries p es keys b : run (list_entries_task p es keys) b = fs_try (list_entries p es keys) b.
Proof.
  revert keys b. induction es as [|e es IH]; intros keys b; cbn [list_entries_task list_entries].
  - rewrite run_bind. unfold mbind, SM_bind. rewrite run_await. unfold fs_try, SM_map_err, fs_call.
    by destruct (last_entry (lj_disk b)) as [[] ?].
  - rewrite run_bind. unfold mbind, SM_bind. rewrite run_await. unfold fs_try, SM_map_err, fs_call.
    destruct (next_entry e (lj_disk b)) as [[e1|] d1]; [|done].
    cbn [map_err]. rewrite run_bind. unfold mbind, SM_bind. rewrite run_await. unfold fs_try, SM_map_err, fs_call.
    cbn [lj_disk lj_root map_err]. destruct (entry_is_file e1 d1) as [[x|] d2]; [|done].
    cbn [map_err]. rewrite IH. done.
Qed.

Lemma run_list_meta p b : lj_root b = root → run (list_meta_task root p) b = list_meta p b.
Proof.
  intros Hr. rewrite <- Hr. cbn [list_meta LocalJsonBackend_storage]. unfold lj_list_meta. rewrite ask_root_eq.
  apply run_bind_eq; [apply run_await|].
  intros [es|] b' _; [apply run_list_entries|done].
Qed.

Lemma run_put_blob {R} `{AsyncRead R} h f (rd : R) b :
  lj_root b = root → run (put_blob_task root h f rd) b = put_blob_with h f rd b.
Proof.
  intros Hr. unfold put_blob_with. cbn [put_blob LocalJsonBackend_storage]. unfold lj_put_blob, put_blob_task.
  rewrite Hr. set (final := blob_path root h f).
  rewrite run_bind. unfold mbind, SM_bind. rewrite run_await.
  destruct (fs_try (path_exists final) b) as [[[]|e] b1]; [done| |done].
  rewrite run_bind. unfold mbind, SM_bind. rewrite run_ensure_parent.
  destruct (ensure_parent final b1) as [[[]|e] b2]; [|done].
  rewrite run_bind. unfold mbind, SM_bind. rewrite run_await.
  destruct (create_tmp root b2) as [[p|e] b3]; [|done].
  rewrite run_bind. unfold mbind, SM_bind, mret, SM_ret. rewrite run_await. unfold copy_call.
  cbn [mret SM_ret]. destruct (copy_to p rd (lj_disk b3)) as [[[[]|e] rd'] d4]; [|done].
  rewrite run_bind. unfold mbind, SM_bind. rewrite run_await.
  destruct (fs_try sync_all (mk_local (lj_root b3) d4)) as [[[]|e] b5]; [|done].
  rewrite run_bind. unfold mbind, SM_bind. rewrite run_commit. by destruct (commit p final b5) as [[[]|] b6].
Qed.
End Alone.
