(* ===== verification/StoreTasks.v ===== *)
(** * fs-storage: the requests of the layer store as tasks (src/fs-storage/src/layer_store.rs)

    The functions of [LayerStore] over the local backend, with every
    file-system call a point where other requests run.  The two writes of
    [publish_layer_concurrent] are joined: their calls interleave too.  A
    request that runs alone does what the function of [LayerStore] does. *)

From S2P Require Import Prelude RustStd AsyncIo StoreTypes Crates Backend Tasks FileSys LocalBackend LocalTasks LayerStore.

Section Requests.
Context `{IoCopy, UuidGen, Crates} (root : rstr).
Local Abbreviation T := (Task LocalJsonBackend StoreError).
Local Open Scope task_scope.

Definition resolve_input_hash_task (input_hash : InputHash) : T (option ContentHash) :=
  data ⇐ get_meta_task root (index_key input_hash);
  match (data : option bytes) with
  | Some data =>
      hash_str ⇐ task_lift (ok_or (from_utf8 data) (InvalidHash (lit "Invalid UTF-8 in index")));
      hash ⇐ task_lift (ContentHash_from_str (trim hash_str));
      task_ret (Some hash)
  | None => task_ret None
  end.

Definition has_layer_task (content_hash : ContentHash) : T bool := has_blob_task root content_hash Deploy.

Definition pull_layer_task (content_hash : ContentHash) (format : ArtifactFormat) : T Cursor :=
  get_blob_task root content_hash format.

Definition publish_meta_task (meta : LayerMeta) : T ContentHash :=
  meta_json ⇐ task_lift (map_err Serialization (json_to_vec meta));
  _ ⇐ put_meta_task root (layer_key (lm_content_hash meta)) meta_json;
  _ ⇐ put_meta_task root (index_key (lm_input_hash meta)) (as_bytes (ContentHash_to_string (lm_content_hash meta)));
  task_ret (lm_content_hash meta).

Definition publish_layer_task {RD RC} `{AsyncRead RD, AsyncRead RC}
    (deploy_reader : RD) (cache_reader : RC) (meta : LayerMeta) : T ContentHash :=
  present ⇐ has_layer_task (lm_content_hash meta);
  if (present : bool) then task_ret (lm_content_hash meta) else
  hashing_deploy ⇐ put_blob_task root (lm_content_hash meta) Deploy (HashingReader_new deploy_reader);
  hashing_cache ⇐ put_blob_task root (lm_content_hash meta) BuildCache (HashingReader_new cache_reader);
  publish_meta_task (set_file_checksums meta (HashingReader_finalize hashing_deploy)
                                             (HashingReader_finalize hashing_cache)).

Definition publish_layer_concurrent_task {RD RC} `{AsyncRead RD, AsyncRead RC}
    (deploy_reader : RD) (cache_reader : RC) (meta : LayerMeta) : T ContentHash :=
  present ⇐ has_layer_task (lm_content_hash meta);
  if (present : bool) then task_ret (lm_content_hash meta) else
  both ⇐ task_join (put_blob_task root (lm_content_hash meta) Deploy (HashingReader_new deploy_reader))
                   (put_blob_task root (lm_content_hash meta) BuildCache (HashingReader_new cache_reader));
  hashing_deploy ⇐ task_lift (fst both);
  hashing_cache ⇐ task_lift (snd both);
  publish_meta_task (set_file_checksums meta (HashingReader_finalize hashing_deploy)
                                             (HashingReader_finalize hashing_cache)).

Definition publish_manifest_task (now : N) (uuid : rstr) (manifest : ReleaseManifest) : T ContentHash :=
  json_value ⇐ task_lift (map_err Serialization (to_value manifest));
  buf ⇐ task_lift (map_err Serialization (value_to_vec json_value));
  let hash := mk_ContentHash (sha256 buf) in
  _ ⇐ put_meta_task root (manifest_key hash) buf;
  let build_id := build_id_of now uuid in
  catalog_json ⇐ task_lift (map_err Serialization (json_to_vec (catalog_entry_of build_id hash manifest)));
  _ ⇐ put_meta_task root (build_key build_id) catalog_json;
  task_ret hash.

Definition get_manifest_task (hash : ContentHash) : T ReleaseManifest :=
  found ⇐ get_meta_task root (manifest_key hash);
  data ⇐ task_lift (ok_or found NotFound);
  task_lift (map_err Serialization (json_from_slice data)).

Definition create_tag_task (name : rstr) (manifest_hash : ContentHash) : T unit :=
  _ ⇐ task_lift (validate_tag_name name);
  _ ⇐ get_manifest_task manifest_hash;
  put_meta_task root (tag_key name) (as_bytes (ContentHash_to_string manifest_hash)).

Definition get_tag_task (name : rstr) : T ContentHash :=
  found ⇐ get_meta_task root (tag_key name);
  data ⇐ task_lift (ok_or found NotFound);
  hash_str ⇐ task_lift (ok_or (from_utf8 data) (InvalidHash (lit "Invalid UTF-8 in tag")));
  task_lift (ContentHash_from_str (trim hash_str)).

Definition delete_tag_task (name : rstr) : T unit := delete_meta_task root (tag_key name).

Definition tag_matches_task (filter : BuildFilter) (entry : BuildCatalogEntry) : T bool :=
  match bf_tag filter with
  | Some tag =>
      r ⇐ task_attempt (get_tag_task tag);
      task_ret (match (r : result StoreError ContentHash) with
                | Ok tag_hash => bool_decide (bc_manifest_hash entry = tag_hash)
                | Err _ => false
                end)
  | None => task_ret true
  end.

Definition list_builds_task (filter : BuildFilter) : T (list BuildCatalogEntry) :=
  keys ⇐ list_meta_task root (lit "builds/");
  builds ⇐ task_for_each keys [] (λ key builds,
    found ⇐ get_meta_task root key;
    match (found : option bytes) with
    | Some data =>
        match json_from_slice data with
        | Ok entry =>
            tag_ok ⇐ tag_matches_task filter entry;
            task_ret (if (tag_ok : bool) && entry_matches filter entry
                      then builds ++ [entry] else builds)
        | Err _ => task_ret builds
        end
    | None => task_ret builds
    end);
  task_ret (sort_by newest_first builds).

Definition gc_delete_task (candidate : GcCandidate) (summary : GcSummary) : T GcSummary :=
  let hash := gc_content_hash candidate in
  _ ⇐ task_attempt (delete_blob_task root hash Deploy);
  _ ⇐ task_attempt (delete_blob_task root hash BuildCache);
  r ⇐ task_attempt (get_meta_task root (layer_key hash));
  _ ⇐ (match (r : result StoreError (option bytes)) with
       | Ok (Some data) =>
           match json_from_slice data with
           | Ok meta =>
               _ ⇐ task_attempt (delete_meta_task root (index_key (lm_input_hash meta)));
               task_ret tt
           | Err _ => task_ret tt
           end
       | _ => task_ret tt
       end);
  _ ⇐ task_attempt (delete_meta_task root (layer_key hash));
  task_ret {| gs_deleted_blobs := u64_add (gs_deleted_blobs summary) 2;
              gs_deleted_bytes := u64_add (gs_deleted_bytes summary)
                (u64_add (gc_size_deploy_bytes candidate) (gc_size_cache_bytes candidate)) |}.

Definition gc_execute_task (report : GcReport) : T GcSummary :=
  task_for_each (gr_candidates report) {| gs_deleted_blobs := 0; gs_deleted_bytes := 0 |} gc_delete_task.
End Requests.

(** ** A request alone *)

(** No operation changes the root directory of the backend. *)
Class KeepsRoot {E A} (m : SM LocalJsonBackend E A) : Prop :=
  keeps_root : ∀ b, lj_root (snd (m b)) = lj_root b.

Section Roots.
Context {E F A C : Type}.
#[export] Instance keeps_ret (a : A) : KeepsRoot (E := E) (mret a).
Proof. done. Qed.
#[export] Instance keeps_lift (r : result E A) : KeepsRoot (lift r).
Proof. done. Qed.
#[export] Instance keeps_throw (e : E) : KeepsRoot (A := A) (throw e).
Proof. done. Qed.
#[export] Instance keeps_bind (m : SM LocalJsonBackend E A) (f : A → SM LocalJsonBackend E C) :
  KeepsRoot m → (∀ a, KeepsRoot (f a)) → KeepsRoot (m ≫= f).
Proof.
  intros Hm Hf b. unfold mbind, SM_bind. specialize (Hm b). destruct (m b) as [[a|e] b1]; cbn in *; [|done].
  by rewrite (Hf a b1).
Qed.
#[export] Instance keeps_attempt (m : SM LocalJsonBackend E A) : KeepsRoot m → KeepsRoot (E := F) (attempt m).
Proof. intros Hm b. unfold attempt. specialize (Hm b). by destruct (m b). Qed.
#[export] Instance keeps_map_err (f : E → F) (m : SM LocalJsonBackend E A) : KeepsRoot m → KeepsRoot (SM_map_err f m).
Proof. intros Hm b. unfold SM_map_err. specialize (Hm b). by destruct (m b). Qed.
#[export] Instance keeps_fs_call (m : SM Disk IoError A) : KeepsRoot (fs_call m).
Proof. intros b. unfold fs_call. by destruct (m (lj_disk b)). Qed.
End Roots.
#[export] Instance keeps_or_missing {A C} (m : SM Disk IoError A) (found : A → C) missing :
  KeepsRoot (or_missing m found missing).
Proof. unfold or_missing. apply keeps_bind; [apply _|]. intros [a|[|code]]; apply _. Qed.
#[export] Instance keeps_ask : KeepsRoot ask_root.
Proof. done. Qed.
#[export] Instance keeps_parent p : KeepsRoot (ensure_parent p).
Proof. unfold ensure_parent, fs_try. case_match; apply _. Qed.
#[export] Instance keeps_commit p q : KeepsRoot (commit p q).
Proof. unfold commit. apply keeps_bind; [apply _|]. intros []; apply _. Qed.
#[export] Instance keeps_create_tmp `{UuidGen} r : KeepsRoot (create_tmp r).
Proof. unfold create_tmp, fs_try. apply _. Qed.

Section Keep.
Context `{IoCopy, UuidGen, Hex}.
#[export] Instance keeps_has_blob h f : KeepsRoot (has_blob (B := LocalJsonBackend) h f).
Proof. cbn. unfold lj_has_blob. apply _. Qed.
#[export] Instance keeps_get_meta k : KeepsRoot (get_meta (B := LocalJsonBackend) k).
Proof. cbn. unfold lj_get_meta. apply _. Qed.
#[export] Instance keeps_delete_meta k : KeepsRoot (delete_meta (B := LocalJsonBackend) k).
Proof. cbn. unfold lj_delete_meta. apply _. Qed.
#[export] Instance keeps_delete_blob h f : KeepsRoot (delete_blob (B := LocalJsonBackend) h f).
Proof. cbn. unfold lj_delete_blob. apply _. Qed.
#[export] Instance keeps_put_meta k x : KeepsRoot (put_meta (B := LocalJsonBackend) k x).
Proof. cbn. unfold lj_put_meta, fs_try. apply _. Qed.
#[export] Instance keeps_list_meta p : KeepsRoot (list_meta (B := LocalJsonBackend) p).
Proof. cbn. unfold lj_list_meta, fs_try. repeat (apply keeps_bind; [apply _|intros ?]). case_match; apply _. Qed.
#[export] Instance keeps_put_blob {R} `{AsyncRead R} h f (rd : R) :
  KeepsRoot (put_blob_with (B := LocalJsonBackend) h f rd).
Proof.
  assert (∀ A C (m : SM LocalJsonBackend StoreError A) (f : A → Task LocalJsonBackend StoreError C),
    KeepsRoot m → (∀ a, KeepsRoot (run (f a))) → KeepsRoot (run (task_bind (await m) f))) as Hb.
  { intros A C m g Hm Hg b0. rewrite run_bind. apply (keeps_bind (run (await m)) (λ a, run (g a))); [|done].
    intros b1. rewrite run_await. apply Hm. }
  assert (∀ r, KeepsRoot (run (put_blob_task r h f rd))) as Hput.
  { intros r. apply Hb; [unfold fs_try; apply _|]. intros [|]; [done|].
    assert (KeepsRoot (run (task_bind (await (create_tmp r)) (λ p, task_bind (await (copy_call p rd)) (λ rd',
      task_bind (await (fs_try sync_all)) (λ _, task_bind (commit_task p (blob_path r h f)) (λ _, task_ret rd')))))))
      as Htail.
    { apply Hb; [apply _|]. intros p. apply Hb.
      { intros b. unfold copy_call. by destruct (copy_to _ _ _) as [[[] ?] ?]. }
      intros rd'. apply Hb; [unfold fs_try; apply _|]. intros _ b. rewrite run_bind.
      apply (keeps_bind (run _) (λ a, run (task_ret rd'))); [|done]. intros b1. rewrite run_commit. apply keeps_commit. }
    unfold ensure_parent_task. case_match; [|exact Htail]. apply Hb; [unfold fs_try; apply _|]. intros _. exact Htail. }
  intros b. rewrite <- (run_put_blob (lj_root b)) by done. apply Hput.
Qed.
End Keep.

Section Alone.
Context `{IoCopy, UuidGen, Crates} (root : rstr).
Local Abbreviation B := LocalJsonBackend.
Implicit Types b : B.

(** Statement by statement, the root staying where it is. *)
Lemma run_stmt {A C} (t : Task B StoreError A) (f : A → Task B StoreError C) (m : SM B StoreError A) g b :
  lj_root b = root → KeepsRoot m → run t b = m b →
  (∀ a b', lj_root b' = root → run (f a) b' = g a b') → run (task_bind t f) b = (m ≫= g) b.
Proof.
  intros Hr Hk Hm Hg. apply run_bind_eq; [done|]. intros a b' Hab. apply Hg.
  specialize (Hk b). rewrite Hab in Hk. cbn in Hk. congruence.
Qed.

Lemma run_loop {A Acc} (xs : list A) (acc : Acc) body (body' : A → Acc → SM B StoreError Acc) b :
  (∀ x acc b, lj_root b = root → run (body x acc) b = body' x acc b) →
  (∀ x acc, KeepsRoot (body' x acc)) →
  lj_root b = root → run (task_for_each xs acc body) b = for_each xs acc body' b.
Proof.
  intros Hb Hk. revert acc b. induction xs as [|x xs IH]; intros acc b Hr; [done|].
  change (for_each (x :: xs) acc body' b) with ((body' x acc ≫= λ acc', for_each xs acc' body') b).
  cbn [task_for_each]. by apply run_stmt; auto.
Qed.

Lemma run_resolve ih b :
  lj_root b = root → run (resolve_input_hash_task root ih) b = resolve_input_hash ih b.
Proof.
  intros Hr. apply run_stmt; [done|apply _|by apply run_get_meta|]. intros [data|] b1 Hr1; [|done].
  apply run_stmt; [done|apply _|done|]. intros s b2 Hr2. by apply run_stmt; [done|apply _|done|].
Qed.

Lemma run_publish_meta meta b :
  lj_root b = root → run (publish_meta_task root meta) b = publish_meta meta b.
Proof.
  intros Hr. apply run_stmt; [done|apply _|done|]. intros mj b1 Hr1.
  apply run_stmt; [done|apply _|by apply run_put_meta|]. intros [] b2 Hr2.
  apply run_stmt; [done|apply (keeps_put_meta _ _)|by apply run_put_meta|done].
Qed.

Lemma run_publish_layer {RD RC} `{AsyncRead RD, AsyncRead RC} (dr : RD) (cr : RC) meta b :
  lj_root b = root → run (publish_layer_task root dr cr meta) b = publish_layer dr cr meta b.
Proof.
  intros Hr. apply run_stmt; [done|apply keeps_has_blob|by apply run_has_blob|]. intros [] b1 Hr1; [done|].
  apply run_stmt; [done|apply _|by apply run_put_blob|]. intros hd b2 Hr2.
  apply run_stmt; [done|apply _|by apply run_put_blob|]. intros hc b3 Hr3.
  by apply run_publish_meta.
Qed.

Lemma run_publish_layer_concurrent {RD RC} `{AsyncRead RD, AsyncRead RC} (dr : RD) (cr : RC) meta b :
  lj_root b = root →
  run (publish_layer_concurrent_task root dr cr meta) b = publish_layer_concurrent dr cr meta b.
Proof.
  intros Hr. apply run_stmt; [done|apply keeps_has_blob|by apply run_has_blob|]. intros [] b1 Hr1; [done|].
  unfold task_join. cbn [task_bind run]. unfold mbind, SM_bind, attempt.
  rewrite (run_put_blob root) by done. pose proof (keeps_put_blob (lm_content_hash meta) Deploy (HashingReader_new dr) b1) as Hk.
  destruct (put_blob_with _ Deploy _ b1) as [r1 b2]. cbn in Hk.
  rewrite (run_put_blob root) by congruence.
  pose proof (keeps_put_blob (lm_content_hash meta) BuildCache (HashingReader_new cr) b2) as Hk2.
  destruct (put_blob_with _ BuildCache _ b2) as [r2 b3]. cbn in Hk2.
  destruct r1 as [hd|]; [|done]. destruct r2 as [hc|]; [|done].
  unfold task_lift, lift. cbn [fst snd task_bind]. apply run_publish_meta. congruence.
Qed.

Lemma run_get_manifest h b : lj_root b = root → run (get_manifest_task root h) b = get_manifest h b.
Proof.
  intros Hr. apply run_stmt; [done|apply _|by apply run_get_meta|]. intros o b1 Hr1. by apply run_stmt; [done|apply _|done|].
Qed.

Lemma run_get_tag name b : lj_root b = root → run (get_tag_task root name) b = get_tag name b.
Proof.
  intros Hr. apply run_stmt; [done|apply _|by apply run_get_meta|]. intros o b1 Hr1.
  apply run_stmt; [done|apply _|done|]. intros data b2 Hr2. by apply run_stmt; [done|apply _|done|].
Qed.

Lemma keeps_get_manifest h : KeepsRoot (get_manifest (B := B) h).
Proof. unfold get_manifest. apply _. Qed.

Lemma run_create_tag name h b : lj_root b = root → run (create_tag_task root name h) b = create_tag name h b.
Proof.
  intros Hr. apply run_stmt; [done|apply _|done|]. intros [] b1 Hr1.
  apply run_stmt; [done|apply keeps_get_manifest|by apply run_get_manifest|]. intros m b2 Hr2. by apply run_put_meta.
Qed.

Lemma run_publish_manifest now uuid m b :
  lj_root b = root → run (publish_manifest_task root now uuid m) b = publish_manifest now uuid m b.
Proof.
  intros Hr. apply run_stmt; [done|apply _|done|]. intros jv b1 Hr1.
  apply run_stmt; [done|apply _|done|]. intros buf b2 Hr2.
  apply run_stmt; [done|apply _|by apply run_put_meta|]. intros [] b3 Hr3.
  apply run_stmt; [done|apply _|done|]. intros cj b4 Hr4.
  by apply run_stmt; [done|apply _|by apply run_put_meta|].
Qed.

Lemma run_list_builds filter b : lj_root b = root → run (list_builds_task root filter) b = list_builds filter b.
Proof.
  assert (∀ name, KeepsRoot (get_tag (B := B) name)) as Hkt by (intros name; unfold get_tag; apply _).
  assert (∀ e b, lj_root b = root → run (tag_matches_task root filter e) b = tag_matches filter e b) as Htag.
  { intros e b1 Hr1. unfold tag_matches_task, tag_matches. destruct (bf_tag filter) as [tag|]; [|done].
    apply run_stmt; [done|apply _| |done]. rewrite run_attempt. unfold attempt. by rewrite run_get_tag. }
  assert (∀ e, KeepsRoot (tag_matches (B := B) filter e)) as Hkm.
  { intros e. unfold tag_matches. destruct (bf_tag filter); apply _. }
  intros Hr. apply run_stmt; [done|apply _|by apply run_list_meta|]. intros keys b1 Hr1.
  apply run_bind_eq; [|done]. apply run_loop; [|intros k acc|done].
  - intros k acc b2 Hr2. apply run_stmt; [done|apply _|by apply run_get_meta|]. intros [data|] b3 Hr3; [|done].
    destruct (json_from_slice data) as [e|]; [|done].
    by apply run_stmt; [done|apply _|by apply Htag|].
  - apply keeps_bind; [apply _|]. intros [data|]; [|apply _]. destruct (json_from_slice data); apply _.
Qed.

(** A deletion whose failure is ignored. *)
Lemma keeps_ignored {A C} (m : SM B StoreError A) (c : C) :
  KeepsRoot m → KeepsRoot (E := StoreError) (attempt (F := StoreError) m ≫= λ _, mret c).
Proof. intros Hm. apply keeps_bind; [by apply keeps_attempt|]. intros r. apply keeps_ret. Qed.

Lemma run_gc_delete c s b : lj_root b = root → run (gc_delete_task root c s) b = gc_delete c s b.
Proof.
  assert (∀ A (t : Task B StoreError A) (m : SM B StoreError A) b, run t b = m b →
    run (task_attempt t) b = attempt (F := StoreError) m b) as Hatt.
  { intros A t m b1 Hm. rewrite run_attempt. unfold attempt. by rewrite Hm. }
  intros Hr. apply run_stmt; [done|apply _|by apply Hatt, run_delete_blob|]. intros _ b1 Hr1.
  apply run_stmt; [done|apply _|by apply Hatt, run_delete_blob|]. intros _ b2 Hr2.
  apply run_stmt; [done|apply _|by apply Hatt, run_get_meta|]. intros r b3 Hr3.
  apply run_stmt; [done| | |].
  - destruct r as [[data|]|]; [|apply keeps_ret..]. destruct (json_from_slice data); [|apply keeps_ret].
    apply keeps_ignored, keeps_delete_meta.
  - destruct r as [[data|]|]; [|done..]. destruct (json_from_slice data); [|done].
    by apply run_stmt; [done|apply keeps_attempt, keeps_delete_meta|by apply Hatt, run_delete_meta|].
  - intros _ b4 Hr4. by apply run_stmt; [done|apply keeps_attempt, keeps_delete_meta|by apply Hatt, run_delete_meta|].
Qed.

Lemma keeps_gc_delete c s : KeepsRoot (gc_delete (B := B) c s).
Proof.
  unfold gc_delete. do 3 (apply keeps_bind; [apply _|intros ?]).
  apply keeps_bind; [|intros _; apply keeps_ignored, keeps_delete_meta].
  case_match; [|apply keeps_ret]. case_match; [|apply keeps_ret].
  case_match; [apply keeps_ignored, keeps_delete_meta|apply keeps_ret].
Qed.

Lemma run_gc_execute report b : lj_root b = root → run (gc_execute_task root report) b = gc_execute report b.
Proof. apply run_loop; [intros; by apply run_gc_delete|apply keeps_gc_delete]. Qed.
End Alone.
