(* ===== verification/LocalRep.v ===== *)
(** * fs-storage: what the local backend stores

    The correspondence between the tree below the root and the abstract store:
    where each blob and each metadata value lives ([blob_loc], [lj_key]), the
    layout as an invariant, and that each change of the tree an operation makes
    keeps it. *)

From S2P Require Import Prelude RustStd AsyncIo StoreTypes Backend FileSys LocalBackend.

(** ** Names *)

Lemma as_bytes_ascii s : Forall (λ c, c < 128)%N s → length (as_bytes s) = length s.
Proof.
  induction 1 as [|c s Hc _ IH]; [done|]. change (c :: s) with ([c] ++ s).
  rewrite as_bytes_app, length_app, IH. cbn. unfold utf8_encode_char.
  by rewrite (proj2 (N.ltb_lt _ _) Hc).
Qed.

Definition name_char (c : N) : Prop := (0 < c < 128 ∧ c ≠ slash)%N.

#[export] Instance name_char_dec c : Decision (name_char c).
Proof. unfold name_char. apply _. Defined.

Lemma ascii_plain n :
  Forall name_char n → n ≠ [] → n ≠ dot → n ≠ dotdot → length n ≤ 255 → plain n.
Proof.
  intros Hn ? ? ? Hl. split; try done.
  - eapply Forall_impl; [exact Hn|]. by intros c [_ ?].
  - unfold storable. rewrite as_bytes_ascii by (eapply Forall_impl; [exact Hn|]; intros c [? _]; lia).
    rewrite !bool_decide_true; [done| |done]. intros Hin. eapply (proj1 (Forall_forall _ _)) in Hn; [|exact Hin].
    destruct Hn; lia.
Qed.

Lemma hex_name_char c : hex_digit c = true → name_char c.
Proof. unfold hex_digit, name_char, slash. lia. Qed.

(** A literal name. *)
Ltac plain_lit := apply ascii_plain;
  [apply (bool_decide_unpack (Forall name_char _)); vm_compute; exact I|done|done|done|vm_compute; lia].

Section Names.
Context `{HexOk}.

Definition shard (h : ContentHash) : rstr := take 2 (ContentHash_to_string h).
Definition blob_name (h : ContentHash) (f : ArtifactFormat) : rstr :=
  drop 2 (ContentHash_to_string h) ++ lit "." ++ ArtifactFormat_extension f.

Lemma ContentHash_chars h : Forall name_char (ContentHash_to_string h).
Proof.
  eapply Forall_impl; [apply hex_encode_digits|]. intros c. apply hex_name_char.
Qed.
Lemma ContentHash_length h : length (ContentHash_to_string h) = 64.
Proof. unfold ContentHash_to_string. by rewrite hex_encode_length, arr_len. Qed.

Lemma not_dots n : 3 ≤ length n → n ≠ [] ∧ n ≠ dot ∧ n ≠ dotdot.
Proof. intros Hl. split_and!; intros ->; vm_compute in Hl; lia. Qed.

Lemma shard_plain h : plain (shard h).
Proof.
  assert (length (shard h) = 2) as Hl by (unfold shard; by rewrite length_take, ContentHash_length).
  pose proof (ContentHash_to_string_digits h) as Hd. apply (Forall_take _ 2) in Hd. fold (shard h) in Hd.
  apply ascii_plain; [| | | |rewrite Hl; lia].
  - eapply Forall_impl; [exact Hd|]. intros c. apply hex_name_char.
  - by intros Hn; rewrite Hn in Hl.
  - by intros Hn; rewrite Hn in Hl.
  - intros Hn. rewrite Hn in Hd. inversion Hd. done.
Qed.

Lemma ext_chars f : Forall name_char (lit "." ++ ArtifactFormat_extension f).
Proof. apply (bool_decide_unpack (Forall name_char _)). by destruct f; vm_compute. Qed.

Lemma blob_name_plain h f : plain (blob_name h f).
Proof.
  assert (length (blob_name h f) = 62 + length (lit "." ++ ArtifactFormat_extension f)) as Hl.
  { unfold blob_name. by rewrite length_app, length_drop, ContentHash_length. }
  destruct (not_dots (blob_name h f)) as (? & ? & ?); [lia|].
  apply ascii_plain; try done.
  - apply Forall_app. split; [apply Forall_drop, ContentHash_chars|apply ext_chars].
  - rewrite Hl. destruct f; vm_compute; lia.
Qed.

Lemma blob_name_inj h f h' f' : shard h = shard h' → blob_name h f = blob_name h' f' → h = h' ∧ f = f'.
Proof.
  intros Hs Hb. unfold blob_name in Hb.
  apply app_inj_1 in Hb as [Hd He]; [|by rewrite !length_drop, !ContentHash_length].
  split; [|by destruct f, f']. apply (inj ContentHash_to_string).
  rewrite <- (take_drop 2 (ContentHash_to_string h)), <- (take_drop 2 (ContentHash_to_string h')).
  by f_equal.
Qed.

(** ** Where things are *)

Definition shard_loc (rl : Loc) (h : ContentHash) : Loc := shard h :: lit "objects" :: rl.
Definition blob_loc (rl : Loc) (h : ContentHash) (f : ArtifactFormat) : Loc := blob_name h f :: shard_loc rl h.
Definition tmp_loc (rl : Loc) (id : rstr) : Loc := id :: lit "tmp" :: rl.
End Names.

(** The keys the backend stores faithfully, each with its file: the name, then
    the directories from the inside out. *)
Inductive lj_key : rstr → list rstr → Prop :=
| key_manifest n : plain (n ++ lit ".json") →
    lj_key (lit "manifests/" ++ n) [n ++ lit ".json"; lit "manifests"]
| key_tag n : plain n → strip_suffix (lit ".json") n = None →
    lj_key (lit "tags/" ++ n) [n; lit "tags"; lit "refs"]
| key_layer n : plain (n ++ lit ".json") →
    lj_key (lit "layers/" ++ n) [n ++ lit ".json"; lit "layers"; lit "meta"]
| key_build n : plain (n ++ lit ".json") →
    lj_key (lit "builds/" ++ n) [n ++ lit ".json"; lit "builds"; lit "meta"]
| key_index n : plain n → lj_key (lit "index/" ++ n) [n; lit "index"; lit "meta"].

Lemma lj_key_fun k l l' : lj_key k l → lj_key k l' → l = l'.
Proof.
  intros Hk Hk'. destruct Hk; inversion Hk' as [m Hp Heq|m Hp Hj Heq|m Hp Heq|m Hp Heq|m Hp Heq];
    cbn in Heq; by simplify_eq.
Qed.

Lemma lj_key_inj k k' l : lj_key k l → lj_key k' l → k = k'.
Proof.
  intros Hk Hk'. destruct Hk; inversion Hk'; subst; try done;
    by match goal with Heq : _ ++ lit ".json" = _ |- _ => apply (inj (.++ _)) in Heq as -> end.
Qed.

(** The directories that are listed. *)
Definition listed_dirs : list (list rstr) :=
  [[lit "manifests"]; [lit "tags"; lit "refs"]; [lit "layers"; lit "meta"]; [lit "builds"; lit "meta"]].
(** The directories that are always there. *)
Definition fixed_dirs : list (list rstr) :=
  [[]; [lit "objects"]; [lit "meta"]; [lit "refs"]; [lit "tmp"]; [lit "index"; lit "meta"]] ++ listed_dirs.

(** ** The layout *)

Section Layout.
Context `{HexOk}.
Implicit Types (nodes : gmap Loc Node) (rl : Loc) (v : StoreView).

Record layout rl nodes v : Prop := {
  ly_dirs : ∀ dir, dir ∈ fixed_dirs → nodes !! (dir ++ rl) = Some NDir;
  ly_shard : ∀ x data, nodes !! (x :: lit "objects" :: rl) ≠ Some (NFile data);
  ly_blob : ∀ h f, nodes !! blob_loc rl h f = NFile <$> sv_blobs v !! (h, f);
  ly_blob_dir : ∀ h f, is_Some (sv_blobs v !! (h, f)) → nodes !! shard_loc rl h = Some NDir;
  ly_meta : ∀ k l, lj_key k l → nodes !! (l ++ rl) = NFile <$> sv_metas v !! k;
  ly_keys : ∀ k, is_Some (sv_metas v !! k) → ∃ l, lj_key k l;
  ly_listed : ∀ dir n data, dir ∈ listed_dirs → nodes !! ((n :: dir) ++ rl) = Some (NFile data) →
    ∃ k, lj_key k (n :: dir);
  ly_tmp : ∀ id, nodes !! tmp_loc rl id ≠ Some NDir;
  ly_tmp_name : ∀ id, is_Some (nodes !! tmp_loc rl id) → plain id;
}.

(** Locations of different kinds differ. *)
Ltac loc_neq :=
  let Heq := fresh "Heq" in
  intros Heq; unfold blob_loc, shard_loc, tmp_loc in Heq; cbn [app] in Heq;
  first [by simplify_eq | apply (f_equal length) in Heq; cbn [length] in Heq; rewrite ?length_app in Heq; cbn in Heq; lia].

Lemma tmp_not_blob rl id h f : tmp_loc rl id ≠ blob_loc rl h f.
Proof. loc_neq. Qed.
Lemma tmp_not_shard rl id x : tmp_loc rl id ≠ x :: lit "objects" :: rl.
Proof. loc_neq. Qed.
Lemma blob_not_shard rl h f x : blob_loc rl h f ≠ x :: lit "objects" :: rl.
Proof. loc_neq. Qed.
Lemma key_not_tmp rl k l id : lj_key k l → l ++ rl ≠ tmp_loc rl id.
Proof. intros []; loc_neq. Qed.
Lemma key_not_blob rl k l h f : lj_key k l → l ++ rl ≠ blob_loc rl h f.
Proof. intros []; loc_neq. Qed.
Lemma key_not_shard rl k l x : lj_key k l → l ++ rl ≠ x :: lit "objects" :: rl.
Proof. intros []; loc_neq. Qed.
Lemma blob_loc_inj rl h f h' f' : blob_loc rl h f = blob_loc rl h' f' → h = h' ∧ f = f'.
Proof. intros [= Hn Hs]. by apply blob_name_inj. Qed.
Lemma listed_not_tmp rl dir n id : dir ∈ listed_dirs → (n :: dir) ++ rl ≠ tmp_loc rl id.
Proof. unfold listed_dirs. rewrite !elem_of_cons, elem_of_nil. intros [->|[->|[->|[->|[]]]]]; loc_neq. Qed.
Lemma listed_not_blob rl dir n h f : dir ∈ listed_dirs → (n :: dir) ++ rl ≠ blob_loc rl h f.
Proof. unfold listed_dirs. rewrite !elem_of_cons, elem_of_nil. intros [->|[->|[->|[->|[]]]]]; loc_neq. Qed.
Lemma listed_not_shard rl dir n x : dir ∈ listed_dirs → (n :: dir) ++ rl ≠ x :: lit "objects" :: rl.
Proof. unfold listed_dirs. rewrite !elem_of_cons, elem_of_nil. intros [->|[->|[->|[->|[]]]]]; loc_neq. Qed.

Lemma dirs_kept_insert nodes loc x : nodes !! loc ≠ Some NDir → dirs_kept nodes (<[loc := x]> nodes).
Proof. intros Hl at_ Hd. rewrite lookup_insert_ne; [done|]. by intros ->. Qed.

Lemma layout_blob_not_dir rl nodes v h f : layout rl nodes v → nodes !! blob_loc rl h f ≠ Some NDir.
Proof. intros Hl. rewrite (ly_blob _ _ _ Hl). by destruct (sv_blobs v !! (h, f)). Qed.
Lemma layout_key_not_dir rl nodes v k l : layout rl nodes v → lj_key k l → nodes !! (l ++ rl) ≠ Some NDir.
Proof. intros Hl Hk. rewrite (ly_meta _ _ _ Hl k l Hk). by destruct (sv_metas v !! k). Qed.

(** *** Changes *)

(** The entry at [loc] is set or removed. *)
Definition place (loc : Loc) (node : option Node) nodes : gmap Loc Node := partial_alter (λ _, node) loc nodes.

Lemma place_kept nodes loc node : nodes !! loc ≠ Some NDir → dirs_kept nodes (place loc node nodes).
Proof. intros Hl at_ Hd. unfold place. rewrite lookup_partial_alter_ne; [done|]. by intros ->. Qed.

Lemma layout_tmp rl nodes v id node :
  layout rl nodes v → plain id → node ≠ Some NDir → layout rl (place (tmp_loc rl id) node nodes) v.
Proof.
  intros Hl Hid Hnode. pose proof (place_kept nodes _ node (ly_tmp _ _ _ Hl id)) as Hk.
  destruct Hl as [Hd Hs Hb Hbd Hm Hks Hli Ht Hn]. unfold place in *. split; [auto| | |eauto| |done| | |].
  - intros x data. rewrite lookup_partial_alter_ne by apply tmp_not_shard. apply Hs.
  - intros h f. rewrite lookup_partial_alter_ne by apply tmp_not_blob. apply Hb.
  - intros k l Hkl. rewrite lookup_partial_alter_ne by by apply not_eq_sym, (key_not_tmp rl k l). by apply Hm.
  - intros dir n data Hdir. rewrite lookup_partial_alter_ne by by apply not_eq_sym, listed_not_tmp. by apply Hli.
  - intros id'. destruct (decide (tmp_loc rl id = tmp_loc rl id')) as [->|Hne];
      [by rewrite lookup_partial_alter_eq|by rewrite lookup_partial_alter_ne].
  - intros id' Hs'. destruct (decide (id = id')) as [->|Hne]; [done|].
    rewrite lookup_partial_alter_ne in Hs' by (unfold tmp_loc; congruence). auto.
Qed.

Lemma layout_shard rl nodes v x :
  layout rl nodes v → nodes !! (x :: lit "objects" :: rl) = None →
  layout rl (<[x :: lit "objects" :: rl := NDir]> nodes) v.
Proof.
  intros Hl Hx. assert (dirs_kept nodes (<[x :: lit "objects" :: rl := NDir]> nodes)) as Hk.
  { apply dirs_kept_insert. by rewrite Hx. }
  destruct Hl as [Hd Hs Hb Hbd Hm Hks Hli Ht Hn]. split; [auto| | |eauto| |done| | |].
  - intros y data. destruct (decide (x = y)) as [->|Hne]; [by rewrite lookup_insert_eq|].
    rewrite lookup_insert_ne by congruence. apply Hs.
  - intros h f. rewrite lookup_insert_ne by apply not_eq_sym, blob_not_shard. apply Hb.
  - intros k l Hkl. rewrite lookup_insert_ne by by apply not_eq_sym, (key_not_shard rl k l). by apply Hm.
  - intros dir n data Hdir. rewrite lookup_insert_ne by by apply not_eq_sym, listed_not_shard. by apply Hli.
  - intros id. rewrite lookup_insert_ne by apply not_eq_sym, tmp_not_shard. apply Ht.
  - intros id. rewrite lookup_insert_ne by apply not_eq_sym, tmp_not_shard. apply Hn.
Qed.

(** A blob is written or removed. *)
Lemma layout_blob rl nodes v h f (o : option bytes) :
  layout rl nodes v → (is_Some o → nodes !! shard_loc rl h = Some NDir) →
  layout rl (place (blob_loc rl h f) (NFile <$> o) nodes)
    (mk_view (partial_alter (λ _, o) (h, f) (sv_blobs v)) (sv_metas v)).
Proof.
  intros Hl Hsd. pose proof (place_kept nodes _ (NFile <$> o) (layout_blob_not_dir _ _ _ h f Hl)) as Hk.
  destruct Hl as [Hd Hs Hb Hbd Hm Hks Hli Ht Hn]. unfold place in *. split; cbn [sv_blobs sv_metas]; [auto|..].
  - intros x data. rewrite lookup_partial_alter_ne by apply blob_not_shard. apply Hs.
  - intros h' f'. destruct (decide ((h, f) = (h', f'))) as [[= <- <-]|Hne].
    + by rewrite !lookup_partial_alter_eq.
    + rewrite !lookup_partial_alter_ne; [apply Hb|done|]. intros Heq. apply Hne.
      apply blob_loc_inj in Heq. naive_solver.
  - intros h' f' Hsome. destruct (decide ((h, f) = (h', f'))) as [[= <- <-]|Hne].
    + rewrite lookup_partial_alter_eq in Hsome. auto.
    + rewrite lookup_partial_alter_ne in Hsome by done. eauto.
  - intros k l Hkl. rewrite lookup_partial_alter_ne by by apply not_eq_sym, (key_not_blob rl k l). by apply Hm.
  - done.
  - intros dir n data Hdir. rewrite lookup_partial_alter_ne by by apply not_eq_sym, listed_not_blob. by apply Hli.
  - intros id. rewrite lookup_partial_alter_ne by apply not_eq_sym, tmp_not_blob. apply Ht.
  - intros id. rewrite lookup_partial_alter_ne by apply not_eq_sym, tmp_not_blob. apply Hn.
Qed.

(** A metadata value is written or removed. *)
Lemma layout_meta rl nodes v k l (o : option bytes) :
  layout rl nodes v → lj_key k l →
  layout rl (place (l ++ rl) (NFile <$> o) nodes)
    (mk_view (sv_blobs v) (partial_alter (λ _, o) k (sv_metas v))).
Proof.
  intros Hl Hkey. pose proof (place_kept nodes _ (NFile <$> o) (layout_key_not_dir _ _ _ k l Hl Hkey)) as Hk.
  destruct Hl as [Hd Hs Hb Hbd Hm Hks Hli Ht Hn]. unfold place in *. split; cbn [sv_blobs sv_metas]; [auto| | |eauto|..].
  - intros x data. rewrite lookup_partial_alter_ne by by apply (key_not_shard rl k l). apply Hs.
  - intros h f. rewrite lookup_partial_alter_ne by by apply (key_not_blob rl k l). apply Hb.
  - intros k' l' Hkl'. destruct (decide (k = k')) as [<-|Hne].
    + rewrite (lj_key_fun _ _ _ Hkl' Hkey). by rewrite !lookup_partial_alter_eq.
    + rewrite !lookup_partial_alter_ne; [by apply Hm|done|]. intros Heq%(inj (.++ rl)). subst.
      by apply Hne, (lj_key_inj k k' l').
  - intros k' Hsome. destruct (decide (k = k')) as [<-|Hne]; [eauto|].
    rewrite lookup_partial_alter_ne in Hsome by done. auto.
  - intros dir n data Hdir. destruct (decide (l ++ rl = (n :: dir) ++ rl)) as [Heq|Hne].
    + apply (inj (.++ rl)) in Heq as ->. eauto.
    + rewrite lookup_partial_alter_ne by done. by apply Hli.
  - intros id. rewrite lookup_partial_alter_ne by by apply (key_not_tmp rl k l). apply Ht.
  - intros id. rewrite lookup_partial_alter_ne by by apply (key_not_tmp rl k l). apply Hn.
Qed.
End Layout.

(** A fixed directory is there. *)
Ltac fixed_dir Hl :=
  match goal with
  | |- _ !! (?x :: ?y :: _) = _ => apply (ly_dirs _ _ _ Hl [x; y])
  | |- _ !! (?x :: _) = _ => apply (ly_dirs _ _ _ Hl [x])
  | |- _ !! _ = _ => apply (ly_dirs _ _ _ Hl [])
  end; unfold fixed_dirs, listed_dirs; set_solver.
