(* ===== verification/LocalOk.v ===== *)
(** * fs-storage: the local backend meets the contract

    Every operation of [LocalJsonBackend], run on a disk laid out for a store
    [v], does to [v] what the contract of [StorageBackend] says, faults of the
    disk included. *)

From S2P Require Import Prelude RustStd AsyncIo StoreTypes Backend FileSys LocalBackend LocalRep.

(** A version-4 uuid: 36 characters, hexadecimal digits and hyphens. *)
Class UuidOk `{UuidGen} : Prop := uuid_format : ∀ n,
  length (uuid_text n) = 36 ∧ Forall (λ c, hex_digit c = true ∨ c = 45%N) (uuid_text n).

Lemma uuid_plain `{UuidOk} n : plain (uuid_text n).
Proof.
  destruct (uuid_format n) as [Hl Hc]. destruct (not_dots (uuid_text n)) as (? & ? & ?); [rewrite Hl; lia|].
  apply ascii_plain; [|done..|rewrite Hl; lia]. eapply Forall_impl; [exact Hc|].
  intros c [Hd| ->]; [by apply hex_name_char|]. unfold name_char, slash. lia.
Qed.

Section At.
Context `{IoCopy, UuidOk, HexOk} (root : rstr) (rl : Loc).
Implicit Types (b : LocalJsonBackend) (d : Disk) (v : StoreView).
Local Abbreviation M := (SM LocalJsonBackend StoreError).

(** The backend stores [v] below the root at [rl]. *)
Record at_root v b : Prop := {
  ar_root : lj_root b = root;
  ar_rooted : rooted root rl (lj_disk b);
  ar_layout : layout rl (dk_nodes (lj_disk b)) v;
}.
Definition quiet b : Prop := dk_faults (lj_disk b) = [].

Lemma at_root_nodes v v' b nodes d' :
  at_root v b → dirs_kept (dk_nodes (lj_disk b)) nodes → layout rl nodes v' →
  dk_nodes d' = nodes → dk_cwd d' = dk_cwd (lj_disk b) → at_root v' (mk_local root d').
Proof.
  intros [Hr Hro Hl] Hk Hl' <- Hc. split; [done| |done]. unfold rooted in *. cbn. rewrite Hc.
  by eapply walk_kept.
Qed.

Lemma at_root_same v b d' :
  at_root v b → dk_nodes d' = dk_nodes (lj_disk b) → dk_cwd d' = dk_cwd (lj_disk b) →
  at_root v (mk_local root d').
Proof. intros Hb Hn Hc. eapply at_root_nodes; [done|by intros ?|by destruct Hb|done|done]. Qed.

(** ** Where the paths lead *)

Lemma extends_tmp id : plain id → extends root (join (join root (lit "tmp")) id) [lit "tmp"; id].
Proof. intros Hid. apply (extends_join _ _ [lit "tmp"]); [done|]. apply (extends_join _ _ []); [plain_lit|]. apply extends_refl. Qed.

Lemma extends_shard h : extends root (join (join root (lit "objects")) (shard h)) [lit "objects"; shard h].
Proof.
  apply (extends_join _ _ [lit "objects"]); [apply shard_plain|].
  apply (extends_join _ _ []); [plain_lit|]. apply extends_refl.
Qed.

Lemma extends_blob h f : extends root (blob_path root h f) [lit "objects"; shard h; blob_name h f].
Proof. apply (extends_join _ _ [lit "objects"; shard h]); [apply blob_name_plain|apply extends_shard]. Qed.

(** The path of a key: its directory and its name. *)
Lemma key_path k l :
  lj_key k l → ∃ n dir p, l = n :: dir ∧ plain n ∧ get_meta_file_path root k = join p n ∧
    extends root p (reverse dir) ∧ dir ∈ fixed_dirs.
Proof.
  assert (∀ a, plain a → extends root (join root a) [a]) as He1.
  { intros a Ha. apply (extends_join _ _ []); [done|]. apply extends_refl. }
  assert (∀ x y, plain x → plain y → extends root (join (join root x) y) [x; y]) as He2.
  { intros x y Hx Hy. by apply (extends_join _ _ [x]); [|apply He1]. }
  intros []; eexists _, _, _; (split; [reflexivity|split; [done|split; [reflexivity|split]]]).
  1: apply He1; plain_lit.
  2, 4, 6, 8: apply He2; plain_lit.
  all: unfold fixed_dirs, listed_dirs; set_solver.
Qed.

Lemma node_at_tmp v b id :
  at_root v b → plain id →
  node_at (join (join root (lit "tmp")) id) (lj_disk b) =
    (Ok (tmp_loc rl id, dk_nodes (lj_disk b) !! tmp_loc rl id), lj_disk b).
Proof.
  intros [_ Hr Hl] Hid. unfold node_at.
  rewrite (resolve_extends root rl _ _ _ Hr (extends_tmp id Hid)) by by apply join_entry.
  rewrite walk_step; [|by apply (ly_dirs _ _ _ Hl []); left|plain_lit].
  rewrite walk_step; [done| |done]. apply (ly_dirs _ _ _ Hl [lit "tmp"]).
  unfold fixed_dirs. set_solver.
Qed.

(** A blob whose directory is missing is missing. *)
Lemma node_at_blob v b h f :
  at_root v b →
  node_at (blob_path root h f) (lj_disk b) =
    (Ok (blob_loc rl h f, NFile <$> sv_blobs v !! (h, f)), lj_disk b) ∨
  node_at (blob_path root h f) (lj_disk b) = (Err IoNotFound, lj_disk b) ∧ sv_blobs v !! (h, f) = None.
Proof.
  intros [_ Hr Hl]. unfold node_at.
  rewrite (resolve_extends root rl _ _ _ Hr (extends_blob h f)) by apply join_entry, blob_name_plain.
  rewrite walk_step; [|by apply (ly_dirs _ _ _ Hl []); left|plain_lit].
  rewrite walk_step; [| |apply shard_plain].
  2: { apply (ly_dirs _ _ _ Hl [lit "objects"]). unfold fixed_dirs. set_solver. }
  destruct (dk_nodes (lj_disk b) !! shard_loc rl h) as [[data|]|] eqn:Hs.
  - by destruct (ly_shard _ _ _ Hl (shard h) data).
  - left. rewrite walk_step; [|done|apply blob_name_plain]. cbn [walk]. by rewrite <- (ly_blob _ _ _ Hl).
  - right. unfold shard_loc in Hs. cbn [walk]. rewrite Hs. split; [done|].
    destruct (sv_blobs v !! (h, f)) as [bs|] eqn:Hb; [|done].
    pose proof (ly_blob_dir _ _ _ Hl h f ltac:(eauto)) as Hd. unfold shard_loc in Hd. congruence.
Qed.

Lemma walk_fixed v b dir ns :
  at_root v b → dir ∈ fixed_dirs →
  walk (dk_nodes (lj_disk b)) rl (reverse dir ++ ns) = walk (dk_nodes (lj_disk b)) (dir ++ rl) ns.
Proof.
  intros [_ _ Hl] Hdir. unfold fixed_dirs, listed_dirs in Hdir. cbn [app] in Hdir.
  repeat (apply elem_of_cons in Hdir as [->|Hdir]); [..|by apply not_elem_of_nil in Hdir];
    change (reverse ?l) with (rev_append l []); cbn [rev_append app];
    repeat (rewrite walk_step; [|fixed_dir Hl|plain_lit]); done.
Qed.

Lemma node_at_key v b k l :
  at_root v b → lj_key k l →
  node_at (get_meta_file_path root k) (lj_disk b) = (Ok (l ++ rl, NFile <$> sv_metas v !! k), lj_disk b).
Proof.
  intros Hb Hk. destruct (key_path k l Hk) as (n & dir & p & -> & Hn & -> & Hp & Hdir).
  unfold node_at. rewrite (resolve_extends root rl _ _ (reverse dir ++ [n]) (ar_rooted _ _ Hb))
    by (by apply extends_join || by apply join_entry).
  rewrite (walk_fixed v) by done.
  rewrite walk_step; [|by apply (ly_dirs _ _ _ (ar_layout _ _ Hb))|done]. cbn [walk].
  change (n :: dir ++ rl) with ((n :: dir) ++ rl). by rewrite (ly_meta _ _ _ (ar_layout _ _ Hb) k).
Qed.

(** ** Runs that succeed or meet a fault *)

(** [m] from [b] gives a result in [Q]; or an I/O error, only if a fault was
    pending, with [v] still stored. *)
Definition runs {A} v (m : M A) (Q : A → LocalJsonBackend → Prop) b : Prop :=
  ∀ r b', m b = (r, b') → (quiet b → quiet b') ∧
    match r with
    | Ok a => Q a b'
    | Err e => (∃ io, e = Io io) ∧ ¬ quiet b ∧ at_root v b'
    end.

Lemma runs_ret {A} v (a : A) (Q : A → LocalJsonBackend → Prop) b : Q a b → runs v (mret a) Q b.
Proof. by intros HQ r b' [= <- <-]. Qed.

Lemma runs_bind {A B} v (m : M A) (f : A → M B) Q b :
  runs v m (λ a b1, runs v (f a) Q b1) b → runs v (m ≫= f) Q b.
Proof.
  intros Hm r b' Hrun. unfold mbind, SM_bind in Hrun. destruct (m b) as [[a|e] b1] eqn:Hm1.
  - destruct (Hm _ _ Hm1) as [Hq Hf]. destruct (Hf _ _ Hrun) as [Hq' Hr]. split; [auto|].
    destruct r; [done|]. destruct Hr as (? & ? & ?). split_and!; auto.
  - injection Hrun as <- <-. by apply (Hm (Err e) b1).
Qed.

Lemma runs_mono {A} v (m : M A) (Q Q' : A → LocalJsonBackend → Prop) b :
  (∀ a b', Q a b' → Q' a b') → runs v m Q b → runs v m Q' b.
Proof. intros HQ Hm r b' Hrun. destruct (Hm r b' Hrun). split; [done|]. destruct r; auto. Qed.

(** The disk past a fault. *)
Definition past b : LocalJsonBackend := mk_local root (past_fault (lj_disk b)).
Lemma at_root_past v b : at_root v b → at_root v (past b).
Proof. intros Hb. by apply (at_root_same v b). Qed.
Lemma quiet_past b : quiet b → quiet (past b).
Proof. unfold quiet. cbn. by intros ->. Qed.

Lemma runs_sys {A} v (m : SM Disk IoError A) (Q : A → LocalJsonBackend → Prop) b :
  at_root v b →
  (at_root v (past b) → ∃ a d', m (lj_disk (past b)) = (Ok a, d') ∧
     dk_faults d' = dk_faults (lj_disk (past b)) ∧ Q a (mk_local root d')) →
  runs v (fs_try (sys m)) Q b.
Proof.
  intros Hb Hm r b' Hrun. destruct (Hm (at_root_past v b Hb)) as (a & d' & Hd & Hf & HQ).
  unfold fs_try, SM_map_err, fs_call in Hrun. rewrite (ar_root v b Hb) in Hrun.
  destruct (sys m (lj_disk b)) as [r1 d1] eqn:Hs. injection Hrun as <- <-.
  destruct (sys_cases _ _ _ _ Hs) as [Hc|([code ->] & -> & Hf1)].
  - cbn in Hd. rewrite Hd in Hc. injection Hc as <- <-. split; [|done].
    intros Hq. unfold quiet. cbn. rewrite Hf. by apply quiet_past.
  - split; [by intros Hq%quiet_past|]. cbn. split; [eauto|]. split; [done|]. by apply at_root_past.
Qed.

(** ** Temporary files *)

Lemma at_root_tmp v b id node d' :
  at_root v b → plain id → node ≠ Some NDir →
  dk_nodes d' = place (tmp_loc rl id) node (dk_nodes (lj_disk b)) → dk_cwd d' = dk_cwd (lj_disk b) →
  at_root v (mk_local root d').
Proof.
  intros Hb Hid Hn Hd Hc. destruct (Hb) as [_ _ Hl]. eapply at_root_nodes; [exact Hb| | |exact Hd|exact Hc].
  - apply place_kept, (ly_tmp _ _ _ Hl).
  - by apply layout_tmp.
Qed.

Definition tmp_holds (id : rstr) (data : bytes) b : Prop :=
  dk_nodes (lj_disk b) !! tmp_loc rl id = Some (NFile data).
Definition tmp_path (id : rstr) : rstr := join (join root (lit "tmp")) id.

Lemma runs_create_tmp v b :
  at_root v b →
  runs v (create_tmp root) (λ p b', ∃ id, p = tmp_path id ∧ plain id ∧ at_root v b' ∧ tmp_holds id [] b' ∧
    ∀ loc, dk_nodes (lj_disk b) !! loc = Some NDir → dk_nodes (lj_disk b') !! loc = Some NDir) b.
Proof.
  intros Hb. unfold create_tmp. apply runs_bind. intros r b1 Hr.
  unfold fs_try, SM_map_err, fs_call, uuid_new in Hr. rewrite (ar_root v b Hb) in Hr. injection Hr as <- <-.
  set (id := uuid_text (dk_uuids (lj_disk b))). split; [done|].
  pose proof (uuid_plain (dk_uuids (lj_disk b))) as Hid. fold id in Hid.
  match goal with |- runs _ _ _ ?x => set (b1 := x) end.
  assert (at_root v b1) as Hb1 by by apply (at_root_same v b).
  apply runs_bind, runs_sys; [done|]. intros Hp. unfold mbind, SM_bind.
  rewrite (node_at_tmp v (past b1) id Hp Hid).
  assert (dk_nodes (lj_disk (past b1)) !! tmp_loc rl id ≠ Some NDir) as Ht
    by apply (ly_tmp _ _ _ (ar_layout _ _ Hp)).
  exists tt, (with_nodes (<[tmp_loc rl id := NFile []]> (dk_nodes (lj_disk (past b1)))) (lj_disk (past b1))).
  split; [by destruct (dk_nodes _ !! _) as [[]|]|]. split; [done|]. apply runs_ret.
  exists id. split; [done|]. split; [done|]. split; [|split].
  - by eapply (at_root_tmp v (past b1) id (Some (NFile []))).
  - apply lookup_insert_eq.
  - by apply dirs_kept_insert.
Qed.

Lemma append_tmp v b id old data :
  at_root v b → plain id → tmp_holds id old b →
  append_at (tmp_path id) data (lj_disk b) =
    (Ok tt, with_nodes (<[tmp_loc rl id := NFile (old ++ data)]> (dk_nodes (lj_disk b))) (lj_disk b)).
Proof.
  intros Hb Hid Ht. unfold append_at, mbind, SM_bind, tmp_path. rewrite (node_at_tmp v b id Hb Hid), Ht. done.
Qed.

Lemma runs_write v b id data :
  at_root v b → plain id → tmp_holds id [] b →
  runs v (fs_try (write_all (tmp_path id) data)) (λ _ b', at_root v b' ∧ tmp_holds id data b') b.
Proof.
  intros Hb Hid Ht r b' Hrun. pose proof (at_root_past v b Hb) as Hp.
  assert (tmp_holds id [] (past b)) as Htp by exact Ht.
  assert (∀ part d', dk_nodes d' = <[tmp_loc rl id := NFile part]> (dk_nodes (lj_disk (past b))) →
    dk_cwd d' = dk_cwd (lj_disk b) → at_root v (mk_local root d')) as Hat.
  { intros part d' Hn Hc. by eapply (at_root_tmp v (past b) id (Some (NFile part))). }
  unfold fs_try, SM_map_err, fs_call, write_all in Hrun. rewrite (ar_root v b Hb) in Hrun.
  change (past_fault (lj_disk b)) with (lj_disk (past b)) in Hrun.
  destruct (head (dk_faults (lj_disk b))) as [[f|]|] eqn:Hf;
    rewrite (append_tmp v (past b) id [] _ Hp Hid Htp) in Hrun; injection Hrun as <- <-;
    (split; [intros Hq; unfold quiet in *; cbn; rewrite Hq in *; done|]).
  - split; [by eexists|]. split; [intros Hq; unfold quiet in Hq; by rewrite Hq in Hf|]. by eapply Hat.
  - split; [by eapply Hat|]. apply lookup_insert_eq.
  - split; [by eapply Hat|]. apply lookup_insert_eq.
Qed.

Lemma runs_sync v b Q : at_root v b → (at_root v (past b) → Q tt (past b)) → runs v (fs_try sync_all) Q b.
Proof. intros Hb HQ. apply runs_sys; [done|]. intros Hp. exists tt, (lj_disk (past b)). auto. Qed.

(** The temporary file becomes the entry at [loc]. *)
Lemma runs_commit v v' b id data final loc :
  at_root v b → plain id → tmp_holds id data b → loc ≠ tmp_loc rl id →
  (at_root v (past b) → ∃ o, node_at final (lj_disk (past b)) = (Ok (loc, o), lj_disk (past b)) ∧
     dk_nodes (lj_disk b) !! loc = o ∧ o ≠ Some NDir) →
  (∀ nodes, layout rl nodes v → dirs_kept (dk_nodes (lj_disk b)) nodes →
     layout rl (place loc (Some (NFile data)) nodes) v') →
  runs v (commit (tmp_path id) final) (λ _ b', at_root v' b') b.
Proof.
  intros Hb Hid Ht Hloc Hfinal Hplace r b' Hrun. pose proof (at_root_past v b Hb) as Hp.
  destruct (Hfinal Hp) as (o & Hnode & Ho & Hdir).
  unfold commit, mbind, SM_bind, attempt, fs_call in Hrun. rewrite (ar_root v b Hb) in Hrun.
  destruct (rename (tmp_path id) final (lj_disk b)) as [r1 d1] eqn:Hren.
  destruct (sys_cases _ _ _ _ Hren) as [Hc|([code ->] & -> & Hf)].
  - change (past_fault (lj_disk b)) with (lj_disk (past b)) in Hc. unfold mbind, SM_bind, tmp_path in Hc.
    rewrite (node_at_tmp v (past b) id Hp Hid) in Hc.
    assert (dk_nodes (lj_disk (past b)) !! tmp_loc rl id = Some (NFile data)) as Htp by exact Ht.
    rewrite Htp, Hnode in Hc.
    assert (∃ d2, (r1, d1) = (Ok tt, d2) ∧ dk_cwd d2 = dk_cwd (lj_disk b) ∧
      dk_faults d2 = tail (dk_faults (lj_disk b)) ∧
      dk_nodes d2 = place loc (Some (NFile data)) (place (tmp_loc rl id) None (dk_nodes (lj_disk b)))) as
      (d2 & Heq & Hcwd & Hfl & Hn).
    { rewrite <- Hc. destruct o as [[]|]; [|by destruct Hdir|]; eexists; split; reflexivity || done. }
    injection Heq as -> ->. injection Hrun as <- <-.
    assert (dirs_kept (dk_nodes (lj_disk b)) (place (tmp_loc rl id) None (dk_nodes (lj_disk b)))) as Hk.
    { apply place_kept, (ly_tmp _ _ _ (ar_layout _ _ Hb)). }
    split; [intros Hq; unfold quiet in *; cbn; by rewrite Hfl, Hq|].
    eapply (at_root_nodes v v' b); [done| | |exact Hn|exact Hcwd].
    + intros x Hx. apply place_kept; [|by apply Hk]. unfold place.
      rewrite lookup_partial_alter_ne by done. by rewrite Ho.
    + apply Hplace; [|done]. by apply layout_tmp; [destruct Hb|done|done].
  - destruct (remove_file (tmp_path id) (past_fault (lj_disk b))) as [r2 d2] eqn:Hrm.
    cbn in Hrun. rewrite Hrm in Hrun. injection Hrun as <- <-.
    assert (at_root v (mk_local root d2) ∧ (quiet (past b) → dk_faults d2 = [])) as [Hat Hqd].
    { destruct (sys_cases _ _ _ _ Hrm) as [Hc|(_ & -> & Hff)].
      - change (past_fault (past_fault (lj_disk b))) with (lj_disk (past (past b))) in Hc.
        pose proof (at_root_past v _ Hp) as Hpp. unfold mbind, SM_bind, tmp_path in Hc.
        rewrite (node_at_tmp v (past (past b)) id Hpp Hid) in Hc.
        assert (dk_nodes (lj_disk (past (past b))) !! tmp_loc rl id = Some (NFile data)) as Htp by exact Ht.
        rewrite Htp in Hc. injection Hc as _ <-. split; [by eapply (at_root_tmp v (past (past b)) id None)|].
        by intros Hq%quiet_past.
      - split; [by apply (at_root_past v (past b))|]. by intros Hq%quiet_past. }
    split; [intros Hq; by apply Hqd, quiet_past|]. split; [by eexists|]. split; [done|exact Hat].
Qed.

(** ** Directories *)

Lemma runs_parent v b p n ns (Q : unit → LocalJsonBackend → Prop) :
  at_root v b → plain n → extends root p ns →
  (at_root v (past b) → ∃ nodes, mkdirs (dk_nodes (lj_disk b)) (start (dk_cwd (lj_disk b)) root)
     (components root ++ ns) = Ok nodes ∧ Q tt (mk_local root (with_nodes nodes (lj_disk (past b))))) →
  runs v (ensure_parent (join p n)) Q b.
Proof.
  intros Hb Hn Hp Hm. unfold ensure_parent. destruct (join_parent p n Hn) as (q & Hq & _).
  rewrite Hq. destruct (extends_parent root p ns n q Hn Hq Hp) as [Hc Hs].
  apply runs_sys; [done|]. intros Hpast. destruct (Hm Hpast) as (nodes & Hmk & HQ).
  cbn [lj_disk past past_fault dk_nodes dk_cwd] in *. rewrite Hc, Hs, Hmk. by eexists tt, _.
Qed.

Lemma runs_key_parent v b k l :
  at_root v b → lj_key k l →
  runs v (ensure_parent (get_meta_file_path root k)) (λ _ b', at_root v b') b.
Proof.
  intros Hb Hk. destruct (key_path k l Hk) as (n & dir & p & -> & Hn & -> & Hp & Hdir).
  eapply runs_parent; [done|done|exact Hp|]. intros Hpast. exists (dk_nodes (lj_disk b)).
  split; [|by apply (at_root_same v (past b))].
  pose proof (ly_dirs _ _ _ (ar_layout _ _ Hb) dir Hdir) as Hd.
  pose proof (walk_fixed v b dir [] Hb Hdir) as Hw. rewrite app_nil_r in Hw. cbn [walk] in Hw.
  rewrite <- (app_nil_r (components root ++ reverse dir)).
  rewrite (mkdirs_walk _ _ _ _ (dir ++ rl)); [by apply mkdirs_dir| |done].
  rewrite walk_app. rewrite (ar_rooted _ _ Hb). exact Hw.
Qed.

Lemma runs_blob_parent v b h f :
  at_root v b →
  runs v (ensure_parent (blob_path root h f))
    (λ _ b', at_root v b' ∧ dk_nodes (lj_disk b') !! shard_loc rl h = Some NDir) b.
Proof.
  intros Hb. destruct (Hb) as [_ Hr Hl]. eapply runs_parent; [done|apply blob_name_plain|apply extends_shard|].
  intros Hpast. set (nodes := dk_nodes (lj_disk b)).
  assert (nodes !! (lit "objects" :: rl) = Some NDir) as Ho by fixed_dir Hl.
  exists (match nodes !! shard_loc rl h with None => <[shard_loc rl h := NDir]> nodes | _ => nodes end). split.
  - change [lit "objects"; shard h] with ([lit "objects"] ++ [shard h]). rewrite app_assoc.
    rewrite (mkdirs_walk _ _ _ _ (lit "objects" :: rl)); [| |done].
    + apply mkdirs_one; [done|apply shard_plain|]. apply (ly_shard _ _ _ Hl).
    + unfold nodes. rewrite walk_app, Hr. cbn [mbind result_bind].
      by rewrite walk_step; [|fixed_dir Hl|plain_lit].
  - destruct (nodes !! shard_loc rl h) as [[data|]|] eqn:Hs.
    + by destruct (ly_shard _ _ _ Hl (shard h) data).
    + split; [by apply (at_root_same v (past b))|done].
    + split; [|apply lookup_insert_eq].
      eapply (at_root_nodes v v (past b)); [done| |by apply layout_shard; [destruct Hb|]|done|done].
      apply dirs_kept_insert. change (nodes !! shard_loc rl h ≠ Some NDir). by rewrite Hs.
Qed.

(** ** Operations *)

Lemma runs_put_meta v b k l value :
  at_root v b → lj_key k l → runs v (lj_put_meta k value) (λ _ b', at_root (view_put_meta k value v) b') b.
Proof.
  intros Hb Hk. unfold lj_put_meta. apply runs_bind. intros r b1 [= <- <-]. split; [done|].
  rewrite (ar_root v b Hb). apply runs_bind. eapply runs_mono; [|by eapply runs_key_parent].
  intros [] b1 Hb1. apply runs_bind. eapply runs_mono; [|by apply runs_create_tmp].
  intros p b2 (id & -> & Hid & Hb2 & Ht2 & _). apply runs_bind. eapply runs_mono; [|by apply runs_write].
  intros [] b3 [Hb3 Ht3]. apply runs_bind, (runs_sync v); [done|]. intros Hb4.
  eapply (runs_commit v _ _ id value _ (l ++ rl)); [done|done|exact Ht3|by eapply key_not_tmp| |].
  - intros Hp. eexists. rewrite (node_at_key v _ k l Hp Hk). split; [done|].
    cbn. rewrite (ly_meta _ _ _ (ar_layout _ _ Hb3) k l Hk). split; [done|]. by destruct (sv_metas v !! k).
  - intros nodes Hl _. by apply (layout_meta rl nodes v k l (Some value)).
Qed.

Lemma runs_missing {A C} v (m : SM Disk IoError A) (found : A → C) (missing : C) Q b :
  at_root v b →
  (at_root v (past b) → ∃ r d', m (lj_disk (past b)) = (r, d') ∧
     dk_faults d' = dk_faults (lj_disk (past b)) ∧
     match r with
     | Ok a => Q (found a) (mk_local root d')
     | Err IoNotFound => Q missing (mk_local root d')
     | Err _ => False
     end) →
  runs v (or_missing (sys m) found missing) Q b.
Proof.
  intros Hb Hm r b' Hrun. destruct (Hm (at_root_past v b Hb)) as (r0 & d' & Hd & Hf & HQ).
  unfold or_missing, mbind, SM_bind, attempt, fs_call in Hrun. rewrite (ar_root v b Hb) in Hrun.
  destruct (sys m (lj_disk b)) as [r1 d1] eqn:Hs.
  destruct (sys_cases _ _ _ _ Hs) as [Hc|([code ->] & -> & Hf1)].
  - cbn in Hd. rewrite Hd in Hc. injection Hc as <- <-.
    assert (quiet b → dk_faults d' = []) as Hq by (intros Hq; rewrite Hf; by apply quiet_past).
    destruct r0 as [a|[|code]]; [| |done]; injection Hrun as <- <-; done.
  - injection Hrun as <- <-. split; [by intros Hq%quiet_past|].
    split; [eauto|]. split; [done|]. by apply at_root_past.
Qed.

Lemma runs_root {A} v b (f : rstr → M A) Q : at_root v b → runs v (f root) Q b → runs v (ask_root ≫= f) Q b.
Proof.
  intros Hb Hf. apply runs_bind. intros r b1 [= <- <-]. split; [done|]. by rewrite (ar_root v b Hb).
Qed.

(** What the call answered. *)
Ltac answer := do 2 eexists; split; [reflexivity|]; split; [reflexivity|].

Lemma runs_has_blob v b h f :
  at_root v b →
  runs v (lj_has_blob h f) (λ x b', x = bool_decide (is_Some (sv_blobs v !! (h, f))) ∧ at_root v b') b.
Proof.
  intros Hb. apply runs_root; [done|]. apply runs_missing; [done|]. intros Hp. unfold mbind, SM_bind.
  destruct (node_at_blob v (past b) h f Hp) as [->|[-> ->]].
  - destruct (sv_blobs v !! (h, f)); answer; (split; [done|exact Hp]).
  - answer. split; [done|exact Hp].
Qed.

Lemma runs_delete_blob v b h f :
  at_root v b → runs v (lj_delete_blob h f) (λ _ b', at_root (view_delete_blob h f v) b') b.
Proof.
  intros Hb. apply runs_root; [done|]. apply runs_missing; [done|]. intros Hp. unfold mbind, SM_bind.
  assert (sv_blobs v !! (h, f) = None → at_root (view_delete_blob h f v) (mk_local root (lj_disk (past b)))) as Hnone.
  { intros Hn. unfold view_delete_blob. rewrite delete_id by done. by destruct v. }
  destruct (node_at_blob v (past b) h f Hp) as [->|[-> Hn]].
  - destruct (sv_blobs v !! (h, f)) as [bs|]; [|answer; by apply Hnone]. answer.
    eapply (at_root_nodes v _ (past b)); [done| | |done|done].
    + apply (place_kept _ _ None). by eapply layout_blob_not_dir, (ar_layout _ _ Hp).
    + by apply (layout_blob rl _ v h f None); [apply (ar_layout _ _ Hp)|intros [? ?]].
  - answer. by apply Hnone.
Qed.

Lemma runs_get_meta v b k l :
  at_root v b → lj_key k l → runs v (lj_get_meta k) (λ o b', o = sv_metas v !! k ∧ at_root v b') b.
Proof.
  intros Hb Hk. apply runs_root; [done|]. apply runs_missing; [done|]. intros Hp. unfold mbind, SM_bind.
  rewrite (node_at_key v (past b) k l Hp Hk). destruct (sv_metas v !! k);
    answer; (split; [done|exact Hp]).
Qed.

Lemma runs_delete_meta v b k l :
  at_root v b → lj_key k l → runs v (lj_delete_meta k) (λ _ b', at_root (view_delete_meta k v) b') b.
Proof.
  intros Hb Hk. apply runs_root; [done|]. apply runs_missing; [done|]. intros Hp. unfold mbind, SM_bind.
  rewrite (node_at_key v (past b) k l Hp Hk). destruct (sv_metas v !! k) as [x|] eqn:Hx.
  - answer. eapply (at_root_nodes v _ (past b)); [done| | |done|done].
    + apply (place_kept _ _ None). by eapply layout_key_not_dir; [apply (ar_layout _ _ Hp)|].
    + apply (layout_meta rl _ v k l None); [apply (ar_layout _ _ Hp)|done].
  - answer. unfold view_delete_meta. rewrite delete_id by done. by destruct v.
Qed.

Lemma get_blob_at v b h f r b' :
  at_root v b → lj_get_blob h f b = (r, b') →
  at_root v b' ∧ (quiet b → quiet b') ∧
  (r = match sv_blobs v !! (h, f) with Some bs => Ok {| cur_rest := bs |} | None => Err NotFound end ∨
   ¬ quiet b ∧ ∃ e, r = Err (Io e)).
Proof.
  intros Hb Hrun. pose proof (at_root_past v b Hb) as Hp.
  unfold lj_get_blob, mbind, SM_bind, attempt, fs_call in Hrun. cbn [ask_root] in Hrun.
  rewrite (ar_root v b Hb) in Hrun.
  destruct (read_file (blob_path root h f) (lj_disk b)) as [r1 d1] eqn:Hs.
  destruct (sys_cases _ _ _ _ Hs) as [Hc|([code ->] & -> & Hf1)].
  - change (past_fault (lj_disk b)) with (lj_disk (past b)) in Hc. unfold mbind, SM_bind in Hc.
    destruct (node_at_blob v (past b) h f Hp) as [Hn|[Hn Hnone]]; rewrite Hn in Hc; [|rewrite Hnone].
    + destruct (sv_blobs v !! (h, f)); injection Hc as <- <-; injection Hrun as <- <-;
        (split; [exact Hp|]); (split; [apply quiet_past|]); by left.
    + injection Hc as <- <-; injection Hrun as <- <-.
      split; [exact Hp|]. split; [apply quiet_past|]. by left.
  - injection Hrun as <- <-. split; [exact Hp|]. split; [apply quiet_past|]. right. eauto.
Qed.

(** [io::copy] into the temporary file: all of the reader, unless the reader
    or the file fails. *)
Lemma copy_tmp `{!IoCopyOk} {R} `{AsyncReadOk R} v b id (rd : R) r rd' d' :
  at_root v b → plain id → tmp_holds id [] b → copy_to (tmp_path id) rd (lj_disk b) = (r, rd', d') →
  at_root v (mk_local root d') ∧ (quiet b → dk_faults d' = []) ∧
  dirs_kept (dk_nodes (lj_disk b)) (dk_nodes d') ∧
  match r with
  | Ok _ => ∃ bs, tmp_holds id bs (mk_local root d') ∧ drains rd bs (Ok tt) rd'
  | Err e => ¬ quiet b ∨ ∃ bs, drains rd bs (Err e) rd'
  end.
Proof.
  intros Hb Hid Ht Hrun. pose proof (at_root_past v b Hb) as Hp.
  assert (tmp_holds id [] (past b)) as Htp by exact Ht.
  assert (∀ part d', dk_nodes d' = <[tmp_loc rl id := NFile part]> (dk_nodes (lj_disk (past b))) →
    dk_cwd d' = dk_cwd (lj_disk b) →
    at_root v (mk_local root d') ∧ dirs_kept (dk_nodes (lj_disk b)) (dk_nodes d')) as Hat.
  { intros part d1 Hn Hc. split; [by eapply (at_root_tmp v (past b) id (Some (NFile part)))|].
    rewrite Hn. by apply dirs_kept_insert, (ly_tmp _ _ _ (ar_layout _ _ Hb)). }
  unfold copy_to in Hrun. change (past_fault (lj_disk b)) with (lj_disk (past b)) in Hrun.
  destruct (dk_faults (lj_disk b)) as [|[f|] fs] eqn:Hf; cbn [head] in Hrun.
  2: { destruct (copy_loop (ft_done f) rd) as [[data res] rd1].
    rewrite (append_tmp v (past b) id [] _ Hp Hid Htp) in Hrun. injection Hrun as <- <- <-.
    edestruct Hat as [? ?]; [| |split_and!; [done|intros Hq; unfold quiet in Hq; by rewrite Hf in Hq|done|left]].
    all: try done. intros Hq. unfold quiet in Hq. by rewrite Hf in Hq. }
  all: destruct (io_copy rd) as [[data res] rd1] eqn:Hcopy; apply io_copy_drains in Hcopy.
  all: rewrite (append_tmp v (past b) id [] _ Hp Hid Htp) in Hrun; injection Hrun as <- <- <-.
  all: edestruct Hat as [? ?]; [| |split_and!; [done| |done|]]; try done.
  all: try (intros Hq; unfold quiet in Hq; cbn; by rewrite Hf in *).
  all: destruct res as [[]|e]; [exists data; split; [apply lookup_insert_eq|done]|right; by exists data].
Qed.

Lemma runs_exists v b h f :
  at_root v b →
  runs v (fs_try (path_exists (blob_path root h f)))
    (λ x b', at_root v b' ∧ (x = true → is_Some (sv_blobs v !! (h, f)))) b.
Proof.
  intros Hb r b' Hrun. pose proof (at_root_past v b Hb) as Hp.
  unfold fs_try, SM_map_err, fs_call, path_exists, mbind, SM_bind, attempt in Hrun.
  rewrite (ar_root v b Hb) in Hrun.
  destruct (metadata_is_file (blob_path root h f) (lj_disk b)) as [r1 d1] eqn:Hs.
  injection Hrun as <- <-.
  destruct (sys_cases _ _ _ _ Hs) as [Hc|([code ->] & -> & Hf1)].
  - change (past_fault (lj_disk b)) with (lj_disk (past b)) in Hc. unfold mbind, SM_bind in Hc.
    destruct (node_at_blob v (past b) h f Hp) as [Hn|[Hn Hnone]]; rewrite Hn in Hc.
    + destruct (sv_blobs v !! (h, f)); injection Hc as <- <-;
        (split; [apply quiet_past|]); (split; [exact Hp|]); by eauto.
    + injection Hc as <- <-. split; [apply quiet_past|]. by split; [exact Hp|].
  - split; [apply quiet_past|]. by split; [exact Hp|].
Qed.

Definition put_prepare h f : M (option rstr) :=
  present ← fs_try (path_exists (blob_path root h f));
  if (present : bool) then mret None
  else
    _ ← ensure_parent (blob_path root h f);
    tmp_path ← create_tmp root;
    mret (Some tmp_path).

Lemma runs_prepare v b h f :
  at_root v b →
  runs v (put_prepare h f) (λ o b', at_root v b' ∧
    match o with
    | None => is_Some (sv_blobs v !! (h, f))
    | Some p => ∃ id, p = tmp_path id ∧ plain id ∧ tmp_holds id [] b' ∧
                  dk_nodes (lj_disk b') !! shard_loc rl h = Some NDir
    end) b.
Proof.
  intros Hb. unfold put_prepare. apply runs_bind. eapply runs_mono; [|by apply runs_exists].
  intros [] b1 [Hb1 Hex]; [apply runs_ret; auto|].
  apply runs_bind. eapply runs_mono; [|by apply runs_blob_parent]. intros [] b2 [Hb2 Hs2].
  apply runs_bind. eapply runs_mono; [|by apply runs_create_tmp].
  intros p b3 (id & -> & Hid & Hb3 & Ht3 & Hk3). apply runs_ret. split; [done|]. exists id. auto.
Qed.

(** The move of a copied blob. *)
Lemma runs_finish v b id bs h f :
  at_root v b → plain id → tmp_holds id bs b → dk_nodes (lj_disk b) !! shard_loc rl h = Some NDir →
  runs v (_ ← fs_try sync_all; commit (tmp_path id) (blob_path root h f))
    (λ _ b', at_root (view_put_blob h f bs v) b') b.
Proof.
  intros Hb Hid Ht Hs. apply runs_bind, (runs_sync v); [done|]. intros Hp.
  eapply (runs_commit v _ _ id bs _ (blob_loc rl h f));
    [done|done|exact Ht|apply not_eq_sym, tmp_not_blob| |].
  - intros Hpp. exists (dk_nodes (lj_disk b) !! blob_loc rl h f).
    split_and!; [|done|apply (layout_blob_not_dir _ _ _ _ _ (ar_layout _ _ Hb))].
    rewrite (ly_blob _ _ _ (ar_layout _ _ Hb)).
    destruct (node_at_blob v (past (past b)) h f Hpp) as [->|[Hn _]]; [done|].
    (** the directory of the blob is there *)
    exfalso. destruct (Hpp) as [_ Hr Hl]. revert Hn. unfold node_at.
    rewrite (resolve_extends root rl _ _ _ Hr (extends_blob h f)) by apply join_entry, blob_name_plain.
    rewrite walk_step; [|fixed_dir Hl|plain_lit]. rewrite walk_step; [|fixed_dir Hl|apply shard_plain].
    rewrite walk_step; [done|exact Hs|apply blob_name_plain].
  - intros nodes Hl Hk. apply (layout_blob rl nodes v h f (Some bs) Hl). intros _. by apply Hk.
Qed.

Lemma put_blob_at `{!IoCopyOk} {R} `{AsyncReadOk R} v b h f (rd : R) r rd' b' :
  at_root v b → lj_put_blob h f rd b = (r, rd', b') →
  (quiet b → quiet b' ∧ (is_ok r ∨ ∃ bs e, drains rd bs (Err e) rd')) ∧ io_only r ∧
  match r with
  | Ok _ => ∃ bs, at_root (view_put_blob h f bs v) b' ∧
              (sv_blobs v !! (h, f) = Some bs ∨ drains rd bs (Ok tt) rd')
  | Err _ => at_root v b'
  end.
Proof.
  intros Hb Hrun. unfold lj_put_blob in Hrun. rewrite (ar_root v b Hb) in Hrun. fold (put_prepare h f) in Hrun.
  destruct (put_prepare h f b) as [r1 b1] eqn:Hx1. destruct (runs_prepare v b h f Hb _ _ Hx1) as [Hq1 Hr1].
  destruct r1 as [[p|]|e1].
  - destruct Hr1 as (Hb1 & id & -> & Hid & Ht1 & Hs1).
    destruct (copy_to (tmp_path id) rd (lj_disk b1)) as [[r2 rd2] d2] eqn:Hx2.
    destruct (copy_tmp v b1 id rd r2 rd2 d2 Hb1 Hid Ht1 Hx2) as (Hb2 & Hq2 & Hk2 & Hr2).
    rewrite (ar_root v b1 Hb1) in Hrun. destruct r2 as [[]|e2].
    + destruct Hr2 as (bs & Ht2 & Hd2).
      destruct ((_ ← fs_try sync_all; commit (tmp_path id) (blob_path root h f)) (mk_local root d2))
        as [r3 b3] eqn:Hx3. injection Hrun as <- <- <-.
      destruct (runs_finish v (mk_local root d2) id bs h f Hb2 Hid Ht2 (Hk2 _ Hs1) _ _ Hx3) as [Hq3 Hr3].
      destruct r3 as [[]|e3].
      * split_and!; [intros Hq; split; [by apply Hq3, Hq2, Hq1|left; by eexists]|done|]. exists bs. auto.
      * destruct Hr3 as ([io ->] & Hn3 & Hb3). split_and!; [|done|done]. intros Hq. by destruct Hn3; apply Hq2, Hq1.
    + injection Hrun as <- <- <-. split_and!; [|done|done]. intros Hq. split; [by apply Hq2, Hq1|].
      right. destruct Hr2 as [Hn|[bs Hd]]; [by destruct Hn; apply Hq1|eauto].
  - injection Hrun as <- <- <-. destruct Hr1 as [Hb1 [bs Hbs]].
    split_and!; [intros Hq; split; [by apply Hq1|left; by eexists]|done|]. exists bs.
    split; [|by left]. unfold view_put_blob. rewrite insert_id by done. by destruct v.
  - injection Hrun as <- <- <-. destruct Hr1 as ([io ->] & Hn1 & Hb1). by split_and!.
Qed.

(** ** Listings *)

(** The prefixes the store lists and their directories. *)
Inductive listing : rstr → list rstr → Prop :=
| listing_manifests : listing (lit "manifests/") [lit "manifests"]
| listing_tags : listing (lit "tags/") [lit "tags"; lit "refs"]
| listing_layers : listing (lit "layers/") [lit "layers"; lit "meta"]
| listing_builds : listing (lit "builds/") [lit "builds"; lit "meta"].

Lemma listing_prefix p : p ∈ list_prefixes → ∃ dir, listing p dir ∧ dir ∈ listed_dirs.
Proof.
  unfold list_prefixes, listed_dirs. rewrite !elem_of_cons, elem_of_nil.
  intros [->|[->|[->|[->|[]]]]]; eexists; (split; [constructor|set_solver]).
Qed.

(** The key of a listed file, and only such keys have the prefix. *)
Lemma list_key_of p dir k n :
  listing p dir → lj_key k (n :: dir) → list_key p n = k ∧ starts_with k p = true.
Proof.
  assert (∀ m, strip_suffix (lit ".json") (m ++ lit ".json") = Some m) as Hj
    by (intros m; by apply strip_suffix_Some).
  intros [] Hk; inversion Hk as [m Hp|m Hp Hnj|m Hp|m Hp|]; subst;
    unfold list_key; rewrite ?Hj, ?Hnj; (split; [reflexivity|]);
    apply starts_with_true; by eexists.
Qed.

Lemma listing_key p dir k l :
  listing p dir → lj_key k l → starts_with k p = true → ∃ n, l = n :: dir.
Proof.
  intros Hp Hk Hs. apply starts_with_true in Hs as [t Ht].
  destruct Hp, Hk; try (by cbn in Ht; simplify_eq); eexists; reflexivity.
Qed.

Lemma join_trailing p n : plain n → join p (n ++ lit "/") = join p n ++ lit "/".
Proof.
  intros Hn. unfold join. rewrite !starts_with_slash.
  assert (head (n ++ lit "/") = head n) as -> by by destruct n; [destruct (pn_nonempty _ Hn)|].
  rewrite (bool_decide_false _ (plain_head n Hn)). case_match; by rewrite <- ?app_assoc.
Qed.

(** Reading the directory of a prefix. *)
Lemma node_at_listing v b p dir :
  at_root v b → listing p dir → dir ∈ listed_dirs →
  node_at (list_dir root p) (lj_disk b) = (Ok (dir ++ rl, Some NDir), lj_disk b).
Proof.
  intros Hb Hp Hdir. pose proof (ar_layout _ _ Hb) as Hl.
  assert (dir ∈ fixed_dirs) as Hfix by (unfold fixed_dirs; set_solver).
  pose proof (walk_fixed v b dir [] Hb Hfix) as Hw. rewrite app_nil_r in Hw. cbn [walk] in Hw.
  pose proof (ly_dirs _ _ _ Hl dir Hfix) as Hd.
  assert (∀ x, plain x → extends root (join root x) [x]) as He1.
  { intros x Hx. apply (extends_join _ _ []); [done|apply extends_refl]. }
  assert (∀ x y, plain x → plain y → extends root (join (join root x) y) [x; y]) as He2.
  { intros x y Hx Hy. by apply (extends_join _ _ [x]); [|apply He1]. }
  assert (∀ q, extends root q (reverse dir) → entry_path q →
    node_at q (lj_disk b) = (Ok (dir ++ rl, Some NDir), lj_disk b)) as Hplain.
  { intros q Hq Hen. unfold node_at. rewrite (resolve_extends root rl _ _ _ (ar_rooted _ _ Hb) Hq Hen), Hw.
    by rewrite Hd. }
  assert (∀ q, extends root q (reverse dir) → entry_path q →
    node_at (q ++ lit "/") (lj_disk b) = (Ok (dir ++ rl, Some NDir), lj_disk b)) as Hslash.
  { intros q [Hc Hs] [Hne He]. unfold node_at, resolve.
    rewrite bool_decide_false by by destruct q.
    assert (components (q ++ lit "/") = components q) as ->.
    { change (lit "/") with (slash :: []). by rewrite components_app, app_nil_r. }
    assert (∀ cwd, start cwd (q ++ lit "/") = start cwd q) as ->.
    { intros cwd. unfold start. rewrite !starts_with_slash. by destruct q. }
    rewrite Hc, Hs, walk_app, (ar_rooted _ _ Hb). cbn [mbind result_bind]. rewrite Hw. cbn [mbind result_bind].
    rewrite ends_with_slash. change (lit "/") with [slash]. rewrite last_snoc, bool_decide_true, Hd by done.
    by rewrite Hd. }
  destruct Hp.
  - apply Hplain; [apply He1; plain_lit|apply join_entry; plain_lit].
  - apply Hplain; [apply He2; plain_lit|apply join_entry; plain_lit].
  - change (list_dir root (lit "layers/")) with (join (join root (lit "meta")) (lit "layers" ++ lit "/")).
    rewrite join_trailing by plain_lit. apply Hslash; [apply He2; plain_lit|apply join_entry; plain_lit].
  - change (list_dir root (lit "builds/")) with (join (join root (lit "meta")) (lit "builds" ++ lit "/")).
    rewrite join_trailing by plain_lit. apply Hslash; [apply He2; plain_lit|apply join_entry; plain_lit].
Qed.

Definition file_names (entries : list (rstr * Node)) : list rstr :=
  omap (λ '(name, node), match node with NFile _ => Some name | NDir => None end) entries.

Lemma list_entries_cases p entries keys d r d' :
  list_entries p entries keys d = (r, d') →
  dk_nodes d' = dk_nodes d ∧ dk_cwd d' = dk_cwd d ∧ (dk_faults d = [] → dk_faults d' = []) ∧
  (r = Ok (keys ++ map (list_key p) (file_names entries)) ∨
   dk_faults d ≠ [] ∧ ∃ code, r = Err (IoOther code)).
Proof.
  revert keys d. induction entries as [|[n node] entries IH]; intros keys d; cbn [list_entries]; unfold mbind, SM_bind.
  - destruct (last_entry d) as [r1 d1] eqn:Hs.
    destruct (sys_cases _ _ _ _ Hs) as [Hc|([code ->] & -> & Hf)].
    + injection Hc as <- <-. intros [= <- <-]. split_and!; [done..|by cbn; intros ->|].
      left. by rewrite app_nil_r.
    + intros [= <- <-]. split_and!; [done..|by cbn; intros ->|eauto].
  - destruct (next_entry (n, node) d) as [r1 d1] eqn:Hs1.
    destruct (sys_cases _ _ _ _ Hs1) as [Hc|([code ->] & -> & Hf)].
    2: { intros [= <- <-]. split_and!; [done..|by cbn; intros ->|eauto]. }
    injection Hc as <- <-. destruct (entry_is_file (n, node) (past_fault d)) as [r2 d2] eqn:Hs2.
    destruct (sys_cases _ _ _ _ Hs2) as [Hc|([code ->] & -> & Hf)].
    2: { intros [= <- <-]. split_and!; [done..|by cbn; intros ->|]. right. split; [|eauto].
         intros Hnil. apply Hf. cbn. by rewrite Hnil. }
    injection Hc as <- <-. intros (Hn & Hcw & Hq & Hr)%IH. split_and!; [done..| |].
    + intros Hnil. apply Hq. cbn. by rewrite Hnil.
    + destruct Hr as [->|[Hf Hc]]; [left|right; split; [|done]].
      * destruct node; cbn; [|done]. by rewrite <- app_assoc.
      * intros Hnil. apply Hf. cbn. by rewrite Hnil.
Qed.

Lemma file_names_elem nodes at_ n :
  n ∈ file_names (names_in nodes at_) ↔ ∃ data, nodes !! (n :: at_) = Some (NFile data).
Proof.
  unfold file_names. rewrite list_elem_of_omap. split.
  - intros ([m []] & Hin & Hx); [|done]. injection Hx as ->. apply names_in_elem in Hin. eauto.
  - intros [data Hd]. exists (n, NFile data). by rewrite names_in_elem.
Qed.

Lemma file_names_nodup nodes at_ : NoDup (file_names (names_in nodes at_)).
Proof.
  unfold file_names. pose proof (names_in_nodup nodes at_) as Hnd.
  induction (names_in nodes at_) as [|[n node] l IH]; [constructor|].
  apply NoDup_cons in Hnd as [Hn Hnd]. cbn in Hn |- *. destruct node as [data|]; [|auto].
  cbn. constructor; [|auto]. intros Hin. apply Hn.
  apply list_elem_of_omap in Hin as ([m []] & Hin & Hx); [|done]. injection Hx as ->.
  apply list_elem_of_fmap. by eexists (_, _).
Qed.

(** The keys of a directory are those of the store with the prefix. *)
Lemma listed_keys v b p dir :
  at_root v b → listing p dir → dir ∈ listed_dirs →
  let ks := map (list_key p) (file_names (names_in (dk_nodes (lj_disk b)) (dir ++ rl))) in
  NoDup ks ∧ ∀ k, k ∈ ks ↔ is_Some (sv_metas v !! k) ∧ starts_with k p = true.
Proof.
  intros Hb Hp Hdir. pose proof (ar_layout _ _ Hb) as Hl. cbv zeta.
  assert (∀ n, n ∈ file_names (names_in (dk_nodes (lj_disk b)) (dir ++ rl)) →
    lj_key (list_key p n) (n :: dir) ∧ is_Some (sv_metas v !! list_key p n) ∧
    starts_with (list_key p n) p = true) as Hkey.
  { intros n [data Hn]%file_names_elem. destruct (ly_listed _ _ _ Hl dir n data Hdir Hn) as [k Hk].
    destruct (list_key_of p dir k n Hp Hk) as [-> Hs]. split; [done|]. split; [|done].
    pose proof (ly_meta _ _ _ Hl k _ Hk) as Hm. change ((n :: dir) ++ rl) with (n :: dir ++ rl) in Hm.
    rewrite Hn in Hm. by destruct (sv_metas v !! k). }
  split.
  - apply NoDup_fmap_2_strong; [|apply file_names_nodup]. intros n m Hn Hm Heq.
    destruct (Hkey n Hn) as [Hkn _]. destruct (Hkey m Hm) as [Hkm _]. rewrite Heq in Hkn.
    pose proof (lj_key_fun _ _ _ Hkn Hkm) as Hf. by injection Hf.
  - intros k. setoid_rewrite (list_elem_of_fmap (list_key p) _ k). split.
    + intros (n & -> & Hn). by destruct (Hkey n Hn) as (_ & ? & ?).
    + intros [Hsome Hs]. destruct (ly_keys _ _ _ Hl k Hsome) as [l Hk].
      destruct (listing_key p dir k l Hp Hk Hs) as [n ->]. exists n.
      destruct (list_key_of p dir k n Hp Hk) as [-> _]. split; [done|].
      apply file_names_elem. destruct Hsome as [x Hx]. exists x.
      pose proof (ly_meta _ _ _ Hl k _ Hk) as Hm. by rewrite Hx in Hm.
Qed.

Lemma runs_list_meta v b p :
  at_root v b → p ∈ list_prefixes →
  runs v (lj_list_meta p) (λ ks b', at_root v b' ∧ NoDup ks ∧
    ∀ k, k ∈ ks ↔ is_Some (sv_metas v !! k) ∧ starts_with k p = true) b.
Proof.
  intros Hb (dir & Hp & Hdir)%listing_prefix. unfold lj_list_meta. apply runs_root; [done|].
  apply runs_bind, runs_missing; [done|]. intros Hpast.
  rewrite (node_at_listing v (past b) p dir Hpast Hp Hdir). answer.
  intros r b' Hrun. unfold fs_try, SM_map_err, fs_call in Hrun. cbn [lj_root lj_disk] in Hrun.
  destruct (list_entries p _ [] (lj_disk (past b))) as [r1 d1] eqn:Hs. injection Hrun as <- <-.
  destruct (list_entries_cases _ _ _ _ _ _ Hs) as (Hn & Hc & Hq & Hr).
  assert (at_root v (mk_local root d1)) as Hb1 by by apply (at_root_same v (past b)).
  split; [exact Hq|]. destruct Hr as [->|[Hf [code ->]]].
  - split; [done|]. cbn [app]. apply (listed_keys v (past b)); done.
  - split; [by eexists|]. by split.
Qed.
End At.

(** ** The contract *)

Section Contract.
Context `{IoCopyOk, UuidOk, HexOk}.

Definition local_rep (b : LocalJsonBackend) (v : StoreView) : Prop := ∃ rl, at_root (lj_root b) rl v b.

Lemma local_rep_at root rl v b : at_root root rl v b → local_rep b v.
Proof. intros Hb. exists rl. by rewrite (ar_root _ _ _ _ Hb). Qed.

(** A run that succeeds or meets a fault, as the contract states it. *)
Lemma runs_contract {A} root rl v (m : SM LocalJsonBackend StoreError A) Q b r b' :
  runs root rl v m Q b → m b = (r, b') →
  (quiet b → quiet b' ∧ is_ok r) ∧ io_only r ∧
  match r with Ok a => Q a b' | Err _ => local_rep b' v end.
Proof.
  intros Hm Hrun. destruct (Hm r b' Hrun) as [Hq Hr]. destruct r as [a|e].
  - split_and!; [|done|done]. intros. split; [auto|by eexists].
  - destruct Hr as ([io ->] & Hn & Hb). split_and!; [done|done|]. by eapply local_rep_at.
Qed.

#[export] Instance LocalJsonBackend_ok : BackendOk LocalJsonBackend.
Proof.
  refine {| rep := local_rep; calm := quiet; key_ok k := ∃ l, lj_key k l |}.
  - intros b v k [rl Hb] Hk. by eapply ly_keys, Hk; destruct Hb.
  - intros h f b v r b' [rl Hb] Hrun.
    destruct (runs_contract _ _ _ _ _ _ _ _ (runs_has_blob _ _ _ _ h f Hb) Hrun) as (Hq & Hio & Hr).
    destruct r as [x|e]; [destruct Hr as [-> Hr]|]; split_and!; eauto using local_rep_at; naive_solver.
  - intros h f b v r b' [rl Hb] Hrun. destruct (get_blob_at _ _ _ _ h f r b' Hb Hrun) as (Hb' & Hq & Hr).
    split; [by eapply local_rep_at|]. split; [done|].
    destruct (sv_blobs v !! (h, f)) as [bs|], Hr as [->|[Hn [e ->]]]; unfold is_ok, io_only; naive_solver.
  - intros R AR AOk h f rd b v r rd' b' [rl Hb] Hrun.
    destruct (put_blob_at _ _ _ _ h f rd r rd' b' Hb Hrun) as (Hq & Hio & Hr).
    split; [done|]. split; [done|]. destruct r; [|by eapply local_rep_at].
    destruct Hr as (bs & Hb' & Hd). exists bs. split; [by eapply local_rep_at|done].
  - intros h f b v r b' [rl Hb] Hrun.
    destruct (runs_contract _ _ _ _ _ _ _ _ (runs_delete_blob _ _ _ _ h f Hb) Hrun) as (Hq & Hio & Hr).
    split_and!; [done|done|]. destruct r; [by eapply local_rep_at|done].
  - intros k x b v r b' [rl Hb] [l Hk] Hrun.
    destruct (runs_contract _ _ _ _ _ _ _ _ (runs_put_meta _ _ _ _ k l x Hb Hk) Hrun) as (Hq & Hio & Hr).
    split_and!; [done|done|]. destruct r; [by eapply local_rep_at|done].
  - intros k b v r b' [rl Hb] [l Hk] Hrun.
    destruct (runs_contract _ _ _ _ _ _ _ _ (runs_get_meta _ _ _ _ k l Hb Hk) Hrun) as (Hq & Hio & Hr).
    destruct r as [x|e]; [destruct Hr as [-> Hr]|]; split_and!; eauto using local_rep_at; naive_solver.
  - intros p b v r b' [rl Hb] Hp Hrun.
    destruct (runs_contract _ _ _ _ _ _ _ _ (runs_list_meta _ _ _ _ p Hb Hp) Hrun) as (Hq & Hio & Hr).
    destruct r as [ks|e]; [destruct Hr as (Hr & ? & ?)|]; split_and!; eauto using local_rep_at; naive_solver.
  - intros k b v r b' [rl Hb] [l Hk] Hrun.
    destruct (runs_contract _ _ _ _ _ _ _ _ (runs_delete_meta _ _ _ _ k l Hb Hk) Hrun) as (Hq & Hio & Hr).
    split_and!; [done|done|]. destruct r; [by eapply local_rep_at|done].
Defined.
End Contract.
