(* ===== verification/LocalKeys.v ===== *)
(** * fs-storage: the keys the local backend stores faithfully

    The layer store's own keys each have a file of their own, and so have tags
    with a valid name of at most 255 characters that does not end in [.json]. *)

From S2P Require Import Prelude RustStd AsyncIo StoreTypes Crates Backend LayerStore FileSys LocalBackend LocalRep LocalOk.

Lemma hash_name_plain s suffix :
  length s = 64 → Forall (λ c, hex_digit c = true) s → Forall name_char suffix → length suffix ≤ 10 →
  plain (s ++ suffix).
Proof.
  intros Hl Hs Hx Hlx. assert (length (s ++ suffix) = 64 + length suffix) as Hlen by by rewrite length_app, Hl.
  destruct (not_dots (s ++ suffix)) as (? & ? & ?); [lia|].
  apply ascii_plain; [|done..|lia]. apply Forall_app. split; [|done].
  eapply Forall_impl; [exact Hs|]. apply hex_name_char.
Qed.

Section Keys.
Context `{CratesOk}.

Lemma json_chars : Forall name_char (lit ".json").
Proof. apply (bool_decide_unpack (Forall name_char _)). exact I. Qed.

Lemma index_key_file ih : ∃ l, lj_key (index_key ih) l.
Proof.
  destruct ih as [h]. eexists. apply key_index. unfold InputHash_to_string. cbn [InputHash_as_bytes].
  rewrite <- (app_nil_r (hex_encode _)). apply hash_name_plain; [|apply hex_encode_digits|done|cbn; lia].
  by rewrite hex_encode_length, arr_len.
Qed.

Lemma layer_key_file h : ∃ l, lj_key (layer_key h) l.
Proof.
  destruct h as [h]. eexists. apply key_layer, hash_name_plain; [|apply hex_encode_digits|apply json_chars|vm_compute; lia].
  unfold ContentHash_to_string. by rewrite hex_encode_length, arr_len.
Qed.

Lemma manifest_key_file h : ∃ l, lj_key (manifest_key h) l.
Proof.
  destruct h as [h]. eexists. apply key_manifest, hash_name_plain; [|apply hex_encode_digits|apply json_chars|vm_compute; lia].
  unfold ContentHash_to_string. by rewrite hex_encode_length, arr_len.
Qed.

Lemma tag_key_file name :
  regex_is_match TAG_PATTERN name = true → length name ≤ 255 → strip_suffix (lit ".json") name = None →
  ∃ l, lj_key (tag_key name) l.
Proof.
  intros (c & cs & -> & Hc & Hcs)%tag_pattern_spec Hl Hj. eexists. apply key_tag; [|done].
  assert (∀ x, tag_char x = true → name_char x) as Hname.
  { intros x. unfold tag_char, tag_first, name_char, slash. lia. }
  assert (c ≠ 46%N) as Hdot by (intros ->; done).
  apply ascii_plain; [|done|by intros [= ]|by intros [= ]|done]. constructor.
  - apply Hname. unfold tag_char. by rewrite Hc.
  - eapply Forall_impl; [exact Hcs|done].
Qed.

Lemma dec_name_char n : Forall name_char (dec n).
Proof.
  eapply Forall_impl; [apply dec_digits|]. intros c Hc. unfold is_digit in Hc. unfold name_char, slash. lia.
Qed.

Lemma dec_length k n : (n < 10 ^ N.of_nat (S k))%N → length (dec n) ≤ S k.
Proof.
  assert (∀ j x s, (x < 10 ^ N.of_nat j)%N → length (lit (pretty.pretty_N_go x s)) ≤ j + length (lit s)) as Hgo.
  { intros j. induction j as [|j IH]; intros x s Hx.
    - replace x with 0%N by lia. by rewrite pretty.pretty_N_go_0.
    - destruct (decide (0 < x)%N) as [Hpos|Hpos].
      + rewrite pretty.pretty_N_go_step by done. etrans; [apply IH|unfold lit; cbn; lia].
        apply N.Div0.div_lt_upper_bound. rewrite Nat2N.inj_succ, N.pow_succ_r' in Hx. lia.
      + replace x with 0%N by lia. rewrite pretty.pretty_N_go_0. lia. }
  intros Hn. unfold dec, pretty.pretty, pretty.pretty_N. case_decide; [change (1 ≤ S k); lia|].
  etrans; [by apply (Hgo (S k))|]. change (length (lit "")) with 0. lia.
Qed.

Lemma build_key_file `{UuidOk} now n :
  (now < 2 ^ 64)%N → ∃ l, lj_key (build_key (build_id_of now (uuid_text n))) l.
Proof.
  intros Hnow. eexists. apply key_build. destruct (uuid_format n) as [Hl Hc].
  assert (length (dec now) ≤ 20) as Hd by (apply (dec_length 19); lia).
  assert (∀ x y : rstr, length (x ++ lit "T" ++ y) = length x + 1 + length y) as Happ.
  { intros x y. rewrite !length_app. change (length (lit "T")) with 1. lia. }
  pose proof (Happ (dec now) (uuid_text n)) as Hlen. rewrite Hl in Hlen.
  set (name := dec now ++ lit "T" ++ uuid_text n) in *.
  assert (length (name ++ lit ".json") = length name + 5) as Hj by by rewrite length_app.
  destruct (not_dots (name ++ lit ".json")) as (? & ? & ?); [lia|].
  change (plain (name ++ lit ".json")). apply ascii_plain; [|done..|lia]. unfold name. rewrite !Forall_app. split_and!.
  - apply dec_name_char.
  - apply (bool_decide_unpack (Forall name_char _)). exact I.
  - eapply Forall_impl; [exact Hc|]. intros c [Hx| ->]; [by apply hex_name_char|]. unfold name_char, slash. lia.
  - apply (bool_decide_unpack (Forall name_char _)). exact I.
Qed.
End Keys.
