(* ===== verification/LocalEffects.v ===== *)
(** * fs-storage: what each call of the local backend changes on disk

    One lemma per file-system call of a write: the tree after it, whether it
    succeeded or met a fault.  The sequential contract ([LocalOk]) looks at
    the operation as a whole; here other tasks may run between the calls. *)

From S2P Require Import Prelude RustStd AsyncIo StoreTypes Backend FileSys LocalBackend LocalRep LocalOk LocalTasks.

Section Effects.
Context `{IoCopyOk, UuidOk, HexOk} (root : rstr) (rl : Loc).
Implicit Types (b : LocalJsonBackend) (d : Disk) (v : StoreView).

Definition nodes b : gmap Loc Node := dk_nodes (lj_disk b).
Definition drawn b : nat := dk_uuids (lj_disk b).
(** The location of the [n]-th temporary file. *)
Definition tmp_at (n : nat) : Loc := tmp_loc rl (uuid_text n).

(** Root, working directory and tree; the identifiers drawn; each call uses up
    one entry of the faults to come. *)
Definition becomes b (tree : gmap Loc Node) b' : Prop :=
  lj_root b' = lj_root b ∧ dk_cwd (lj_disk b') = dk_cwd (lj_disk b) ∧ nodes b' = tree ∧ drawn b' = drawn b ∧
  dk_faults (lj_disk b') = tail (dk_faults (lj_disk b)).

Lemma becomes_quiet b tree b' : becomes b tree b' → quiet b → quiet b'.
Proof. unfold quiet. by intros (_ & _ & _ & _ & ->) ->. Qed.

Lemma fs_sys_cases {A} (m : SM Disk IoError A) b r b' :
  fs_call (sys m) b = (r, b') →
  (∃ d, m (past_fault (lj_disk b)) = (r, d) ∧ b' = mk_local (lj_root b) d) ∨
  (∃ code, r = Err (IoOther code) ∧ ¬ quiet b) ∧ becomes b (nodes b) b'.
Proof.
  unfold fs_call. destruct (sys m (lj_disk b)) as [r1 d1] eqn:Hs. intros [= <- <-].
  destruct (sys_cases _ _ _ _ Hs) as [Hc|([code Hc] & -> & Hq)]; [left|right]; eauto. split; [by exists code|by split].
Qed.

Lemma fs_try_eq {A} (m : SM Disk IoError A) b r b' :
  fs_try m b = (r, b') → ∃ r0, fs_call m b = (r0, b') ∧ r = map_err Io r0.
Proof. unfold fs_try, SM_map_err. destruct (fs_call m b) as [r0 b0]. intros [= <- <-]. eauto. Qed.

Lemma or_missing_eq {A C} (m : SM Disk IoError A) (found : A → C) missing b r b' :
  or_missing m found missing b = (r, b') → ∃ r0, fs_call m b = (r0, b').
Proof.
  unfold or_missing, mbind, SM_bind, attempt. destruct (fs_call m b) as [[a|[|code]] b0]; intros [= <- <-]; eauto.
Qed.

(** *** Calls that only look *)

(** The call leaves everything but the pending faults alone. *)
Definition looks {A} (m : SM LocalJsonBackend StoreError A) : Prop := ∀ b r b', m b = (r, b') → becomes b (nodes b) b'.

Lemma fs_looks {A} (m : SM Disk IoError A) b r b' :
  (∀ d, snd (m d) = d) → fs_call (sys m) b = (r, b') → becomes b (nodes b) b'.
Proof.
  intros Hm [(d & Hd & ->)|[_ ?]]%fs_sys_cases; [|done].
  pose proof (Hm (past_fault (lj_disk b))) as He. rewrite Hd in He. cbn in He. subst d. by split.
Qed.

Lemma node_at_looks p d : snd (node_at p d) = d.
Proof. unfold node_at. by destruct (resolve d p). Qed.
Lemma looks_bind {A C} (m : SM Disk IoError A) (f : A → SM Disk IoError C) d :
  (∀ d, snd (m d) = d) → (∀ a d, snd (f a d) = d) → snd ((m ≫= f) d) = d.
Proof.
  intros Hm Hf. unfold mbind, SM_bind. specialize (Hm d). destruct (m d) as [[a|e] d1]; cbn in *; subst; [apply Hf|done].
Qed.

Lemma read_file_looks {A} p (found : bytes → A) missing : looks (or_missing (read_file p) found missing).
Proof.
  intros b r b' [r0 Hr0]%or_missing_eq. eapply fs_looks, Hr0. intros d. apply looks_bind; [apply node_at_looks|].
  by intros [? [[]|]] ?.
Qed.

Lemma get_file_looks p : looks (attempt (fs_call (read_file p))).
Proof.
  intros b r b'. unfold attempt. destruct (fs_call (read_file p) b) as [r0 b0] eqn:Hr0. intros [= _ <-].
  eapply fs_looks, Hr0. intros d. apply looks_bind; [apply node_at_looks|]. by intros [? [[]|]] ?.
Qed.

Lemma metadata_looks p (f : bool → bool) missing : looks (or_missing (metadata_is_file p) f missing).
Proof.
  intros b r b' [r0 Hr0]%or_missing_eq. eapply fs_looks, Hr0. intros d. apply looks_bind; [apply node_at_looks|].
  by intros [? [[]|]] ?.
Qed.

Lemma exists_looks p : looks (fs_try (path_exists p)).
Proof.
  intros b r b' (r0 & Hr0 & _)%fs_try_eq. unfold path_exists, fs_call, mbind, SM_bind, attempt in Hr0.
  destruct (metadata_is_file p (lj_disk b)) as [r1 d1] eqn:Hm. injection Hr0 as _ <-.
  eapply (fs_looks _ b r1); [|by unfold fs_call; unfold metadata_is_file in Hm; rewrite Hm].
  intros d. apply looks_bind; [apply node_at_looks|]. by intros [? [[]|]] ?.
Qed.

Lemma sync_looks : looks (fs_try sync_all).
Proof. intros b r b' (r0 & Hr0 & _)%fs_try_eq. by eapply fs_looks, Hr0. Qed.
Lemma next_entry_looks e : looks (fs_try (next_entry e)).
Proof. intros b r b' (r0 & Hr0 & _)%fs_try_eq. by eapply fs_looks, Hr0. Qed.
Lemma entry_is_file_looks e : looks (fs_try (entry_is_file e)).
Proof. intros b r b' (r0 & Hr0 & _)%fs_try_eq. by eapply fs_looks, Hr0. Qed.
Lemma last_entry_looks : looks (fs_try last_entry).
Proof. intros b r b' (r0 & Hr0 & _)%fs_try_eq. by eapply fs_looks, Hr0. Qed.
Lemma read_dir_looks {A} p (found : list (rstr * Node) → A) missing : looks (or_missing (read_dir p) found missing).
Proof.
  intros b r b' [r0 Hr0]%or_missing_eq. eapply fs_looks, Hr0. intros d.
  cbv beta. by destruct (node_at p d) as [[[? [[]|]]|] ?].
Qed.

(** *** Directories *)

Lemma key_parent_effect v b k l r b' q :
  at_root root rl v b → lj_key k l → path_parent (get_meta_file_path root k) = Some q →
  fs_try (create_dir_all q) b = (r, b') → becomes b (nodes b) b' ∧ (quiet b → r = Ok tt).
Proof.
  intros Hb Hk Hq (r0 & Hr0 & ->)%fs_try_eq.
  destruct (key_path root k l Hk) as (n & dir & p & -> & Hn & Hpath & Hp & Hdir). rewrite Hpath in Hq.
  destruct (extends_parent root p _ n q Hn Hq Hp) as [Hc Hs].
  destruct (fs_sys_cases _ _ _ _ Hr0) as [(d & Hd & ->)|[(code & -> & ?) ?]]; [|done].
  assert (mkdirs (nodes b) (start (dk_cwd (lj_disk b)) q) (components q) = Ok (nodes b)) as Hmk.
  { rewrite Hc, Hs. pose proof (ly_dirs _ _ _ (ar_layout _ _ _ _ Hb) dir Hdir) as Hd'.
    pose proof (walk_fixed root rl v b dir [] Hb Hdir) as Hw. rewrite app_nil_r in Hw. cbn [walk] in Hw.
    rewrite <- (app_nil_r (components root ++ reverse dir)).
    rewrite (mkdirs_walk _ _ _ _ (dir ++ rl)); [by apply mkdirs_dir| |done].
    rewrite walk_app. unfold nodes. rewrite (ar_rooted _ _ _ _ Hb). exact Hw. }
  cbn in Hd. unfold nodes in Hmk. rewrite Hmk in Hd. injection Hd as <- <-. by split.
Qed.

Lemma blob_parent_effect v b h f r b' q :
  at_root root rl v b → path_parent (blob_path root h f) = Some q →
  fs_try (create_dir_all q) b = (r, b') →
  (∃ e, r = Err e ∧ ¬ quiet b) ∧ becomes b (nodes b) b' ∨
  r = Ok tt ∧ becomes b (match nodes b !! shard_loc rl h with
                         | None => <[shard_loc rl h := NDir]> (nodes b) | _ => nodes b end) b'.
Proof.
  intros Hb Hq (r0 & Hr0 & ->)%fs_try_eq. destruct (Hb) as [_ Hro Hl].
  destruct (extends_parent root _ _ _ q (blob_name_plain h f) Hq (extends_shard root h)) as [Hc Hs].
  destruct (fs_sys_cases _ _ _ _ Hr0) as [(d & Hd & ->)|[(code & -> & ?) ?]]; [right|left; cbn; eauto].
  assert (nodes b !! (lit "objects" :: rl) = Some NDir) as Ho by (unfold nodes; fixed_dir Hl).
  assert (mkdirs (nodes b) (start (dk_cwd (lj_disk b)) q) (components q) =
    Ok (match nodes b !! shard_loc rl h with None => <[shard_loc rl h := NDir]> (nodes b) | _ => nodes b end)) as Hmk.
  { rewrite Hc, Hs. change [lit "objects"; shard h] with ([lit "objects"] ++ [shard h]). rewrite app_assoc.
    rewrite (mkdirs_walk _ _ _ _ (lit "objects" :: rl)); [| |done].
    - apply mkdirs_one; [done|apply shard_plain|]. apply (ly_shard _ _ _ Hl).
    - unfold nodes. rewrite walk_app, Hro. cbn [mbind result_bind].
      by rewrite walk_step; [|fixed_dir Hl|plain_lit]. }
  cbn in Hd. unfold nodes in Hmk. rewrite Hmk in Hd. injection Hd as <- <-. by split.
Qed.

(** *** The temporary file *)

Lemma create_tmp_effect v b r b' :
  at_root root rl v b → create_tmp root b = (r, b') →
  lj_root b' = lj_root b ∧ dk_cwd (lj_disk b') = dk_cwd (lj_disk b) ∧ drawn b' = S (drawn b) ∧
  (quiet b → quiet b') ∧
  ((∃ e, r = Err e ∧ ¬ quiet b) ∧ nodes b' = nodes b ∨
   r = Ok (tmp_path root (uuid_text (drawn b))) ∧ nodes b' = place (tmp_at (drawn b)) (Some (NFile [])) (nodes b)).
Proof.
  intros Hb Hrun. unfold create_tmp in Hrun. unfold mbind, SM_bind in Hrun.
  unfold fs_try at 1, SM_map_err, fs_call, uuid_new in Hrun. cbn [map_err] in Hrun.
  set (d1 := {| dk_nodes := _ |}) in Hrun. set (b1 := mk_local (lj_root b) d1) in Hrun.
  set (id := uuid_text (dk_uuids (lj_disk b))) in *.
  assert (at_root root rl v b1) as Hb1.
  { unfold b1. rewrite (ar_root _ _ _ _ Hb). by apply (at_root_same root rl v b). }
  destruct (fs_try (create_file (join (join root (lit "tmp")) id)) b1) as [r1 b2] eqn:Hx1.
  apply fs_try_eq in Hx1 as (r0 & Hr0 & ->).
  pose proof (at_root_past root rl v b1 Hb1) as Hp. pose proof (uuid_plain (dk_uuids (lj_disk b))) as Hid. fold id in Hid.
  destruct (fs_sys_cases _ _ _ _ Hr0) as [(d & Hd & ->)|[(code & -> & Hq) (Ha & Hc & Hn & Hu & Hf)]].
  - unfold mbind, SM_bind in Hd.
    pose proof (node_at_tmp root rl v (past root b1) id Hp Hid) as Hna. cbn [lj_disk past] in Hna. rewrite Hna in Hd.
    pose proof (ly_tmp _ _ _ (ar_layout _ _ _ _ Hp) id) as Ht. cbn [lj_disk past] in Ht.
    destruct (dk_nodes (past_fault (lj_disk b1)) !! tmp_loc rl id) as [[]|]; [|done|];
      injection Hd as <- <-; injection Hrun as <- <-; split_and!; try done;
      [by unfold quiet; cbn; intros ->|by right|by unfold quiet; cbn; intros ->|by right].
  - injection Hrun as <- <-. rewrite Ha, Hc, Hn, Hu. split_and!; [done..| |].
    + unfold quiet in *. rewrite Hf. cbn. by intros ->.
    + left. split; [by eexists|done].
Qed.

(** Writing what is left of the contents. *)
Lemma append_effect v b n data old :
  at_root root rl v b → nodes b !! tmp_at n = Some (NFile old) →
  append_at (tmp_path root (uuid_text n)) data (past_fault (lj_disk b)) =
    (Ok tt, with_nodes (place (tmp_at n) (Some (NFile (old ++ data))) (nodes b)) (past_fault (lj_disk b))).
Proof.
  intros Hb Ht. pose proof (at_root_past root rl v b Hb) as Hp.
  exact (append_tmp root rl v (past root b) (uuid_text n) old data Hp (uuid_plain n) Ht).
Qed.

Lemma write_effect v b n data r b' :
  at_root root rl v b → nodes b !! tmp_at n = Some (NFile []) →
  fs_try (write_all (tmp_path root (uuid_text n)) data) b = (r, b') →
  (∃ e part, r = Err e ∧ ¬ quiet b ∧ becomes b (place (tmp_at n) (Some (NFile part)) (nodes b)) b') ∨
  r = Ok tt ∧ becomes b (place (tmp_at n) (Some (NFile data)) (nodes b)) b'.
Proof.
  intros Hb Ht (r0 & Hr0 & ->)%fs_try_eq. unfold fs_call, write_all in Hr0.
  destruct (head (dk_faults (lj_disk b))) as [[fault|]|] eqn:Hhead;
    rewrite (append_effect v b n _ [] Hb Ht) in Hr0; injection Hr0 as <- <-; [left|right..].
  - do 2 eexists. split; [done|]. split; [unfold quiet; by intros Hq; rewrite Hq in Hhead|by split].
  - by split.
  - by split.
Qed.

Lemma copy_effect {R} `{AsyncReadOk R} v b n (rd : R) r b' :
  at_root root rl v b → nodes b !! tmp_at n = Some (NFile []) →
  copy_call (tmp_path root (uuid_text n)) rd b = (r, b') →
  ∃ data, becomes b (place (tmp_at n) (Some (NFile data)) (nodes b)) b' ∧
    (∀ rd', r = Ok rd' → drains rd data (Ok tt) rd') ∧
    (∀ e, r = Err e → quiet b → ∃ io rd', drains rd data (Err io) rd').
Proof.
  intros Hb Ht Hrun. unfold copy_call, copy_to in Hrun.
  destruct (head (dk_faults (lj_disk b))) as [[fault|]|] eqn:Hhead.
  - destruct (copy_loop (ft_done fault) rd) as [[data res] rd'].
    rewrite (append_effect v b n _ [] Hb Ht) in Hrun. injection Hrun as <- <-.
    eexists. split; [by split|]. split; [done|]. intros e _ Hq. unfold quiet in Hq. by rewrite Hq in Hhead.
  - destruct (io_copy rd) as [[data res] rd'] eqn:Hcopy. apply io_copy_drains in Hcopy.
    rewrite (append_effect v b n _ [] Hb Ht) in Hrun.
    destruct res as [[]|e]; injection Hrun as <- <-; exists data; (split; [by split|]);
      (split; [naive_solver|intros e1; naive_solver]).
  - destruct (io_copy rd) as [[data res] rd'] eqn:Hcopy. apply io_copy_drains in Hcopy.
    rewrite (append_effect v b n _ [] Hb Ht) in Hrun.
    destruct res as [[]|e]; injection Hrun as <- <-; exists data; (split; [by split|]);
      (split; [naive_solver|intros e1; naive_solver]).
Qed.

(** The move; the target is a file or absent. *)
Lemma rename_effect v b n data final loc o r b' :
  at_root root rl v b → nodes b !! tmp_at n = Some (NFile data) →
  node_at final (past_fault (lj_disk b)) = (Ok (loc, o), past_fault (lj_disk b)) → o ≠ Some NDir →
  attempt (E := IoError) (F := StoreError) (fs_call (rename (tmp_path root (uuid_text n)) final)) b = (r, b') →
  (∃ e, r = Ok (Err e) ∧ ¬ quiet b ∧ becomes b (nodes b) b') ∨
  r = Ok (Ok tt) ∧ becomes b (place loc (Some (NFile data)) (place (tmp_at n) None (nodes b))) b'.
Proof.
  intros Hb Ht Hfinal Ho Hrun. unfold attempt in Hrun.
  destruct (fs_call (rename (tmp_path root (uuid_text n)) final) b) as [r0 b0] eqn:Hr0. injection Hrun as <- <-.
  destruct (fs_sys_cases _ _ _ _ Hr0) as [(d & Hd & ->)|[(code & -> & Hq) Hbe]]; [right|left; eauto].
  pose proof (at_root_past root rl v b Hb) as Hp. unfold mbind, SM_bind in Hd.
  pose proof (node_at_tmp root rl v (past root b) (uuid_text n) Hp (uuid_plain n)) as Hna.
  cbn [lj_disk past] in Hna. unfold tmp_path in Hd. rewrite Hna, Hfinal in Hd. fold (tmp_at n) in Hd.
  change (dk_nodes (past_fault (lj_disk b))) with (nodes b) in Hd. rewrite Ht in Hd.
  destruct o as [[]|]; [|done|]; injection Hd as <- <-; by split.
Qed.

Lemma remove_tmp_effect v b n r b' :
  at_root root rl v b →
  attempt (E := IoError) (F := StoreError) (fs_call (remove_file (tmp_path root (uuid_text n)))) b = (r, b') →
  (∃ x, r = Ok x) ∧ (becomes b (nodes b) b' ∨ becomes b (place (tmp_at n) None (nodes b)) b').
Proof.
  intros Hb Hrun. unfold attempt in Hrun.
  destruct (fs_call (remove_file (tmp_path root (uuid_text n))) b) as [r0 b0] eqn:Hr0. injection Hrun as <- <-.
  split; [eauto|]. destruct (fs_sys_cases _ _ _ _ Hr0) as [(d & Hd & ->)|[_ Hbe]]; [|by left].
  pose proof (at_root_past root rl v b Hb) as Hp. unfold mbind, SM_bind in Hd.
  pose proof (node_at_tmp root rl v (past root b) (uuid_text n) Hp (uuid_plain n)) as Hna.
  cbn [lj_disk past] in Hna. unfold tmp_path in Hd. rewrite Hna in Hd.
  destruct (dk_nodes (past_fault (lj_disk b)) !! tmp_loc rl (uuid_text n)) as [[]|]; injection Hd as _ <-;
    [right|left..]; by split.
Qed.

(** Removing the file of a key. *)
Lemma remove_key_effect {A} v b k l (found : unit → A) missing r b' :
  at_root root rl v b → lj_key k l →
  or_missing (remove_file (get_meta_file_path root k)) found missing b = (r, b') →
  becomes b (nodes b) b' ∨ becomes b (place (l ++ rl) None (nodes b)) b'.
Proof.
  intros Hb Hk [r0 Hr0]%or_missing_eq.
  destruct (fs_sys_cases _ _ _ _ Hr0) as [(d & Hd & ->)|[_ Hbe]]; [|by left].
  pose proof (at_root_past root rl v b Hb) as Hp. unfold mbind, SM_bind in Hd.
  pose proof (node_at_key root rl v (past root b) k l Hp Hk) as Hna. cbn [lj_disk past] in Hna. rewrite Hna in Hd.
  destruct (sv_metas v !! k); injection Hd as _ <-; [right|left]; by split.
Qed.
End Effects.
