(* ===== verification/LocalRG.v ===== *)
(** * fs-storage: what concurrent requests rely on and guarantee

    The invariant of the directory, [inv]: it stores some maps in which every
    entry of the index names a layer with both artifacts.  What a request does
    to the disk between two of its calls: it leaves the temporary files of
    the others alone, removes no directory, no artifact and no index entry.
    Each request is proved against that, whatever faults its calls meet. *)

From S2P Require Import Prelude RustStd AsyncIo StoreTypes Crates Backend Tasks FileSys LocalBackend LocalTasks LayerStore StoreTasks StoreBlobs LocalRep LocalOk LocalKeys LocalEffects.

(** The first [limit] identifiers are different. *)
Class UuidFresh `{UuidGen} (limit : nat) : Prop := uuid_fresh : ∀ n m,
  n < limit → m < limit → uuid_text n = uuid_text m → n = m.

(** Every index entry is the hash of a layer with both artifacts. *)
Definition index_ok `{Crates} (v : StoreView) : Prop :=
  ∀ ih data, sv_metas v !! index_key ih = Some data →
    ∃ h, data = hash_text h ∧ ∀ f, is_Some (sv_blobs v !! (h, f)).

Section RG.
Context `{IoCopyOk, !UuidGen, !UuidOk, !Crates, !CratesOk} (root : rstr) (rl : Loc) (limit : nat) `{!UuidFresh limit}.
Implicit Types (b : LocalJsonBackend) (v : StoreView) (O : gset nat).
Local Abbreviation tmp_at := (tmp_at rl).
Local Abbreviation at_root := (at_root root rl).
Local Abbreviation T := (Task LocalJsonBackend StoreError).

Definition inv b : Prop := drawn b ≤ limit ∧ ∃ v, at_root v b ∧ index_ok v.
Definition has b h f : Prop := ∃ bs, nodes b !! blob_loc rl h f = Some (NFile bs).
Definition indexed b ih : Prop := ∃ l data, lj_key (index_key ih) l ∧ nodes b !! (l ++ rl) = Some (NFile data).

Record relies O b b' : Prop := {
  re_drawn : drawn b ≤ drawn b';
  re_tmp : ∀ n, n ∈ O → nodes b' !! tmp_at n = nodes b !! tmp_at n;
  re_dirs : dirs_kept (nodes b) (nodes b');
  re_has : ∀ h f, has b h f → has b' h f;
  re_indexed : ∀ ih, indexed b ih → indexed b' ih;
}.

Record grants O O' b b' : Prop := {
  gr_drawn : drawn b ≤ drawn b';
  gr_own : ∀ n, n ∈ O' → n ∈ O ∨ drawn b ≤ n < drawn b';
  gr_tmp : ∀ n, n < drawn b → n ∉ O → nodes b' !! tmp_at n = nodes b !! tmp_at n;
  gr_dirs : dirs_kept (nodes b) (nodes b');
  gr_has : ∀ h f, has b h f → has b' h f;
  gr_indexed : ∀ ih, indexed b ih → indexed b' ih;
}.

#[export] Instance local_rg : RelyGuarantee LocalJsonBackend.
Proof.
  refine {| rg_inv := inv; rg_adm b := drawn b ≤ limit; rg_fits O b := ∀ n, n ∈ O → n < drawn b; rely := relies; guar := grants |}.
  - intros O b. split; [done|done|by intros ?|done|done].
  - intros O b1 b2 b3 [] []. split; [lia| |unfold dirs_kept in *; auto|auto|auto].
    intros n Hn. trans (nodes b2 !! tmp_at n); auto.
  - intros O O' b b' Hsub []. split; auto.
  - intros O O' b Hsub Hf n Hn. auto.
  - intros O O' b Hf Hf' n [Hn|Hn]%elem_of_union; auto.
  - intros O O' O2 b b' [Hd Ho Ht Hk Hh Hi] Hdis Hf. split.
    + split; [done| |done..]. intros n Hn. apply Ht; [auto|]. set_solver.
    + intros n Hn Hn'. destruct (Ho n Hn') as [?|?]; [set_solver|]. specialize (Hf n Hn). lia.
  - intros O O' b b' [Hd Ho Ht Hk Hh Hi] Hf n Hn. destruct (Ho n Hn) as [Hin|?]; [|lia].
    specialize (Hf n Hin). lia.
  - intros O O' b b' [] Hf n Hn. specialize (Hf n Hn). lia.
  - intros O O' O2 b b' [Hd Ho Ht Hk Hh Hi] Hdis. split; [done| |intros; apply Ht; set_solver|done..].
    intros n [Hn|Hn]%elem_of_union; [|by left; set_solver]. destruct (Ho n Hn); [left; set_solver|by right].
Defined.

(** ** Views *)

Lemma has_view v b h f : at_root v b → has b h f ↔ is_Some (sv_blobs v !! (h, f)).
Proof.
  intros Hb. unfold has, nodes. rewrite (ly_blob _ _ _ (ar_layout _ _ _ _ Hb)).
  destruct (sv_blobs v !! (h, f)) as [bs|]; cbn; split; intros [? [=]]; subst; eauto.
Qed.

Lemma indexed_view v b ih : at_root v b → indexed b ih ↔ is_Some (sv_metas v !! index_key ih).
Proof.
  intros Hb. unfold indexed, nodes. split.
  - intros (l & data & Hl & Hn). rewrite (ly_meta _ _ _ (ar_layout _ _ _ _ Hb) _ _ Hl) in Hn.
    by destruct (sv_metas v !! index_key ih).
  - intros [data Hd]. destruct (index_key_file ih) as [l Hl]. exists l, data. split; [done|].
    by rewrite (ly_meta _ _ _ (ar_layout _ _ _ _ Hb) _ _ Hl), Hd.
Qed.

Lemma index_ok_blob v h f bs : index_ok v → index_ok (view_put_blob h f bs v).
Proof.
  intros Hi ih data Hd. destruct (Hi ih data Hd) as (h' & -> & Hb). exists h'. split; [done|]. intros f'. cbn.
  destruct (decide ((h, f) = (h', f'))) as [->|Hne]; [rewrite lookup_insert_eq|rewrite lookup_insert_ne]; eauto.
Qed.

Lemma index_ok_meta v k x :
  (∀ ih, k = index_key ih → ∃ h, x = hash_text h ∧ ∀ f, is_Some (sv_blobs v !! (h, f))) →
  index_ok v → index_ok (view_put_meta k x v).
Proof.
  intros Hk Hi ih data Hd. cbn in *. destruct (decide (k = index_key ih)) as [->|Hne].
  - rewrite lookup_insert_eq in Hd. injection Hd as <-. by apply (Hk ih).
  - rewrite lookup_insert_ne in Hd by done. by apply (Hi ih).
Qed.

Lemma index_ok_delete v k : index_ok v → index_ok (view_delete_meta k v).
Proof. intros Hi ih data Hd. cbn in Hd. apply lookup_delete_Some in Hd as [_ Hd]. by apply (Hi ih). Qed.

(** ** Changes *)

Lemma tmp_at_inj n m : n < limit → m < limit → tmp_at n = tmp_at m → n = m.
Proof. intros Hn Hm [= Heq]. by apply uuid_fresh. Qed.

(** The maps grow, the rest of the layout stays. *)
Lemma rg_intro O O' b b' v v' :
  at_root v b → lj_root b' = lj_root b → dk_cwd (lj_disk b') = dk_cwd (lj_disk b) →
  drawn b ≤ drawn b' ≤ limit → (∀ n, n ∈ O' → n ∈ O ∨ drawn b ≤ n < drawn b') →
  (∀ n, n < drawn b → n ∉ O → nodes b' !! tmp_at n = nodes b !! tmp_at n) →
  dirs_kept (nodes b) (nodes b') → layout rl (nodes b') v' → index_ok v' →
  (∀ k, is_Some (sv_blobs v !! k) → is_Some (sv_blobs v' !! k)) →
  (∀ ih, is_Some (sv_metas v !! index_key ih) → is_Some (sv_metas v' !! index_key ih)) →
  inv b' ∧ grants O O' b b'.
Proof.
  intros Hb Hroot Hc Hd Ho Ht Hk Hl Hi Hbl Hix.
  assert (at_root v' b') as Hb'.
  { destruct b' as [r' d']. cbn in *. rewrite Hroot, (ar_root _ _ _ _ Hb).
    by apply (at_root_nodes root rl v v' b (dk_nodes d')). }
  destruct Hd as [Hd Hlim]. split; [split; [done|by exists v']|]. split; [done..| |].
  - intros h f. rewrite (has_view v), (has_view v') by done. apply Hbl.
  - intros ih. rewrite (indexed_view v), (indexed_view v') by done. apply Hix.
Qed.

Lemma rg_same O b b' : inv b → becomes b (nodes b) b' → inv b' ∧ grants O O b b'.
Proof.
  intros (Hlim & v & Hb & Hi) (Hr & Hc & Hn & Hd & _). apply (rg_intro O O b b' v v); try done; try lia; auto.
  - by rewrite Hn.
  - by rewrite Hn; intros ?.
  - rewrite Hn. by destruct Hb.
Qed.

Lemma rg_tmp O O' b b' n node :
  inv b → lj_root b' = lj_root b → dk_cwd (lj_disk b') = dk_cwd (lj_disk b) → drawn b ≤ drawn b' ≤ limit →
  nodes b' = place (tmp_at n) node (nodes b) → node ≠ Some NDir →
  (n ∈ O ∨ n = drawn b) → n < limit → (∀ m, m ∈ O' → m ∈ O ∨ drawn b ≤ m < drawn b') →
  inv b' ∧ grants O O' b b'.
Proof.
  intros (Hlim & v & Hb & Hi) Hr Hc Hd Hn Hnode Hmine Hlt Ho. apply (rg_intro O O' b b' v v); try done; auto.
  - intros m Hm Hno. rewrite Hn. unfold place. apply lookup_partial_alter_ne. intros Heq. apply tmp_at_inj in Heq as <-; [|done|lia].
    destruct Hmine; [done|lia].
  - rewrite Hn. apply place_kept, (ly_tmp _ _ _ (ar_layout _ _ _ _ Hb)).
  - rewrite Hn. apply layout_tmp; [by destruct Hb|apply uuid_plain|done].
Qed.

Lemma rg_own_tmp O b b' n node :
  inv b → n ∈ O → n < limit → node ≠ Some NDir → becomes b (place (tmp_at n) node (nodes b)) b' →
  inv b' ∧ grants O O b b'.
Proof.
  intros Hi Hn Hlt Hnode (Hr & Hc & Hne & Hd & _). apply (rg_tmp O O b b' n node); try done; [destruct Hi; lia|by left|by left].
Qed.

Lemma rg_shard O b b' h :
  inv b → becomes b (match nodes b !! shard_loc rl h with
                     | None => <[shard_loc rl h := NDir]> (nodes b) | _ => nodes b end) b' →
  inv b' ∧ grants O O b b' ∧ nodes b' !! shard_loc rl h = Some NDir.
Proof.
  intros (Hlim & v & Hb & Hi) Hbe. pose proof (ar_layout _ _ _ _ Hb) as Hl.
  destruct (nodes b !! shard_loc rl h) as [[data|]|] eqn:Hs.
  - by destruct (ly_shard _ _ _ Hl (shard h) data).
  - destruct (rg_same O b b') as [? ?]; [by split; [|exists v]|done|]. split_and!; [done..|]. destruct Hbe as (_ & _ & -> & _). done.
  - destruct Hbe as (Hr & Hc & Hn & Hd & _).
    destruct (rg_intro O O b b' v v) as [? ?]; try done; auto.
    + lia.
    + intros n _ _. rewrite Hn. apply lookup_insert_ne, not_eq_sym, tmp_not_shard.
    + rewrite Hn. apply dirs_kept_insert. by rewrite Hs.
    + rewrite Hn. by apply layout_shard.
    + split_and!; [done..|]. rewrite Hn. apply lookup_insert_eq.
Qed.

(** The move of the own temporary file to [loc], which keeps the layout. *)
Lemma rg_commit O b b' n data loc v v' :
  at_root v b → drawn b ≤ limit → n ∈ O → n < limit → loc ≠ tmp_at n → (∀ m, loc ≠ tmp_at m) → nodes b !! loc ≠ Some NDir →
  becomes b (place loc (Some (NFile data)) (place (tmp_at n) None (nodes b))) b' →
  (∀ tree, layout rl tree v → dirs_kept (nodes b) tree → layout rl (place loc (Some (NFile data)) tree) v') →
  index_ok v' → (∀ k, is_Some (sv_blobs v !! k) → is_Some (sv_blobs v' !! k)) →
  (∀ ih, is_Some (sv_metas v !! index_key ih) → is_Some (sv_metas v' !! index_key ih)) →
  inv b' ∧ grants O (O ∖ {[n]}) b b'.
Proof.
  intros Hb Hlim Hn Hlt Hloc Hlocs Hnd (Hr & Hc & Hne & Hd & _) Hlay Hi Hbl Hix. pose proof (ar_layout _ _ _ _ Hb) as Hl.
  assert (dirs_kept (nodes b) (place (tmp_at n) None (nodes b))) as Hk by apply place_kept, (ly_tmp _ _ _ Hl).
  apply (rg_intro O _ b b' v v'); try done.
  - lia.
  - intros m. set_solver.
  - intros m Hmd Hm. rewrite Hne. unfold place. rewrite !lookup_partial_alter_ne; [done| |done].
    intros Heq. apply tmp_at_inj in Heq as <-; [done|done|lia].
  - rewrite Hne. intros x Hx. apply place_kept; [|by apply Hk]. unfold place. by rewrite lookup_partial_alter_ne.
  - rewrite Hne. apply Hlay; [|done]. apply layout_tmp; [done|apply uuid_plain|done].
Qed.

Lemma rg_blob O b b' n data h f :
  inv b → n ∈ O → n < limit → nodes b !! shard_loc rl h = Some NDir →
  becomes b (place (blob_loc rl h f) (Some (NFile data)) (place (tmp_at n) None (nodes b))) b' →
  inv b' ∧ grants O (O ∖ {[n]}) b b' ∧ has b' h f.
Proof.
  intros (Hlim & v & Hb & Hi) Hn Hlt Hs Hbe. pose proof (ar_layout _ _ _ _ Hb) as Hl.
  destruct (rg_commit O b b' n data (blob_loc rl h f) v (view_put_blob h f data v)) as [? ?]; try done; auto.
  - apply not_eq_sym, tmp_not_blob.
  - intros m. apply not_eq_sym, tmp_not_blob.
  - by eapply layout_blob_not_dir.
  - intros tree Htree Hk. apply (layout_blob rl tree v h f (Some data) Htree). intros _. by apply Hk.
  - by apply index_ok_blob.
  - intros k Hsome. cbn. destruct (decide ((h, f) = k)) as [->|Hne]; [rewrite lookup_insert_eq|rewrite lookup_insert_ne]; eauto.
  - split_and!; [done..|]. exists data. destruct Hbe as (_ & _ & -> & _). apply lookup_partial_alter_eq.
Qed.

Lemma rg_meta O b b' n data k l :
  inv b → n ∈ O → n < limit → lj_key k l →
  (∀ ih, k = index_key ih → ∃ h, data = hash_text h ∧ ∀ f, has b h f) →
  becomes b (place (l ++ rl) (Some (NFile data)) (place (tmp_at n) None (nodes b))) b' →
  inv b' ∧ grants O (O ∖ {[n]}) b b'.
Proof.
  intros (Hlim & v & Hb & Hi) Hn Hlt Hk Hix Hbe. pose proof (ar_layout _ _ _ _ Hb) as Hl.
  apply (rg_commit O b b' n data (l ++ rl) v (view_put_meta k data v)); try done; auto.
  - by eapply key_not_tmp.
  - intros m. by eapply key_not_tmp.
  - by eapply layout_key_not_dir.
  - intros tree Htree _. by apply (layout_meta rl tree v k l (Some data)).
  - apply index_ok_meta; [|done]. intros ih Heq. destruct (Hix ih Heq) as (h & -> & Hhas). exists h. split; [done|].
    intros f. by apply (has_view v b).
  - intros ih Hsome. cbn. destruct (decide (k = index_key ih)) as [->|Hne];
      [rewrite lookup_insert_eq|rewrite lookup_insert_ne]; eauto.
Qed.

Lemma rg_delete O b b' k l :
  inv b → lj_key k l → foreign_key k → becomes b (place (l ++ rl) None (nodes b)) b' →
  inv b' ∧ grants O O b b'.
Proof.
  intros (Hlim & v & Hb & Hi) Hk [Hf _] (Hr & Hc & Hn & Hd & _). pose proof (ar_layout _ _ _ _ Hb) as Hl.
  apply (rg_intro O O b b' v (view_delete_meta k v)); try done; auto.
  - lia.
  - intros m _ _. rewrite Hn. unfold place. apply lookup_partial_alter_ne. by eapply key_not_tmp.
  - rewrite Hn. by apply place_kept; eapply layout_key_not_dir.
  - rewrite Hn. by apply (layout_meta rl _ v k l None).
  - by apply index_ok_delete.
  - intros ih Hsome. cbn. rewrite lookup_delete_ne; [done|]. apply Hf.
Qed.
End RG.
