(* ===== verification/RequestsOk.v ===== *)
(** * fs-storage: every request keeps what the others rely on

    Rely-guarantee proofs of the requests: the writes of the local backend,
    then the functions of the layer store the server offers.  An artifact that
    was put is there from then on, so both artifacts are there when a
    publication registers its layer. *)

From S2P Require Import Prelude RustStd AsyncIo StoreTypes Crates Backend Tasks FileSys LocalBackend LocalTasks LayerStore StoreTasks StoreBlobs LocalRep LocalOk LocalKeys LocalEffects LocalRG.

Section Requests.
Context `{IoCopyOk, !UuidGen, !UuidOk, !Crates, !CratesOk} (root : rstr) (rl : Loc) (limit : nat) `{!UuidFresh limit}.
Implicit Types (b : LocalJsonBackend) (v : StoreView) (O : gset nat).
Local Abbreviation tmp_at := (tmp_at rl).
Local Abbreviation at_root := (at_root root rl).
Local Abbreviation inv := (inv root rl limit).
Local Abbreviation has := (has rl).
Local Abbreviation T := (Task LocalJsonBackend StoreError).
#[local] Existing Instance local_rg.
Local Abbreviation ok := (ok (H := local_rg root rl limit)).
Local Abbreviation stable := (stable (H := local_rg root rl limit)).

(** Nothing is promised of the result. *)
Definition any {A} (r : result StoreError A) O b : Prop := True.

Lemma any_stable {A} : stable (any (A := A)).
Proof. done. Qed.

(** ** Calls *)

Lemma ok_look {A} (m : SM LocalJsonBackend StoreError A) O b0 (Q : result StoreError A → gset nat → _ → Prop) :
  looks m → (∀ b r b', inv b → relies rl O b0 b → m b = (r, b') → becomes b (nodes b) b' → Q r O b') →
  ok (await m) O b0 Q.
Proof.
  intros Hm HQ. apply ok_await. intros b r b' Hi Hr Ha Hrun. pose proof (Hm _ _ _ Hrun) as Hbe.
  exists O. destruct (rg_same root rl limit O b b' Hi Hbe) as [? ?]. split_and!; [done..|]. exact (HQ b r b' Hi Hr Hrun Hbe).
Qed.

Lemma ok_look_any {A} (m : SM LocalJsonBackend StoreError A) O b0 : looks m → ok (await m) O b0 any.
Proof. intros Hm. by apply ok_look. Qed.

(** A value at hand. *)
Lemma ok_lift {A} (r : result StoreError A) O b Q : Q r O b → ok (task_lift r) O b Q.
Proof. done. Qed.

(** What a task needs of the temporary file it filled: the contents. *)
Lemma relies_tmp O n b b' : n ∈ O → relies rl O b b' → nodes b' !! tmp_at n = nodes b !! tmp_at n.
Proof. intros Hn Hr. by apply (re_tmp _ _ _ _ Hr). Qed.

(** The task drew [n] and created its file. *)
Lemma ok_create_tmp O b0 (Q : result StoreError rstr → gset nat → _ → Prop) :
  (∀ e O b, Q (Err e) O b) →
  (∀ n b b', n < limit → relies rl O b0 b → dirs_kept (nodes b) (nodes b') → (∀ h f, has b h f → has b' h f) →
     nodes b' !! tmp_at n = Some (NFile []) → Q (Ok (tmp_path root (uuid_text n))) (O ∪ {[n]}) b') →
  ok (await (create_tmp root)) O b0 Q.
Proof.
  intros HQe HQ. apply ok_await. intros b r b' Hi Hr Ha Hrun. destruct (Hi) as (Hlim & v & Hb & Hix). cbn in Ha.
  destruct (create_tmp_effect root rl v b r b' Hb Hrun) as (Hroot & Hc & Hd & _ & [[(e & -> & _) Hn]|[-> Hn]]).
  - exists O. destruct (rg_intro root rl limit O O b b' v v) as [? ?]; try done; auto.
    + lia.
    + by rewrite Hn.
    + rewrite Hn. by intros ?.
    + rewrite Hn. by destruct Hb.
  - exists (O ∪ {[drawn b]}).
    destruct (rg_tmp root rl limit O (O ∪ {[drawn b]}) b b' (drawn b) (Some (NFile []))) as [Hi' Hg]; try done.
    + lia.
    + by right.
    + lia.
    + intros m. rewrite elem_of_union, elem_of_singleton, Hd. intros [?| ->]; [by left|right; lia].
    + split_and!; [done..|]. apply (HQ _ b); [lia|done|by apply (gr_dirs _ _ _ _ _ Hg)|apply (gr_has _ _ _ _ _ Hg)|].
      rewrite Hn. apply lookup_partial_alter_eq.
Qed.

(** The move into place, or the clean-up when it fails. *)
Lemma ok_commit O n b0 data final (Q : result StoreError unit → gset nat → _ → Prop) :
  n ∈ O → n < limit → nodes b0 !! tmp_at n = Some (NFile data) → (∀ e O b, Q (Err e) O b) →
  (∀ b, inv b → relies rl O b0 b → ∃ loc o,
     node_at final (past_fault (lj_disk b)) = (Ok (loc, o), past_fault (lj_disk b)) ∧ o ≠ Some NDir ∧
     ∀ b', becomes b (place loc (Some (NFile data)) (place (tmp_at n) None (nodes b))) b' →
       inv b' ∧ grants rl O (O ∖ {[n]}) b b' ∧ Q (Ok tt) (O ∖ {[n]}) b') →
  ok (commit_task (tmp_path root (uuid_text n)) final) O b0 Q.
Proof.
  intros Hn Hlt Ht HQe Hloc. apply ok_bind, ok_await. intros b r b' Hi Hr _ Hrun. destruct (Hi) as (_ & v & Hb & Hix).
  destruct (Hloc b Hi Hr) as (loc & o & Hnode & Ho & Hdone). rewrite <- (relies_tmp O n b0 b Hn Hr) in Ht.
  destruct (rename_effect root rl v b n data final loc o r b' Hb Ht Hnode Ho Hrun) as [(e & -> & _ & Hbe)|[-> Hbe]].
  - exists O. destruct (rg_same root rl limit O b b' Hi Hbe) as [Hi' Hg]. split_and!; [done..|].
    apply ok_bind, ok_await. intros b1 r1 b1' Hi1 Hr1 _ Hrun1. destruct (Hi1) as (_ & v1 & Hb1 & Hix1).
    destruct (remove_tmp_effect root rl v1 b1 n r1 b1' Hb1 Hrun1) as [[x ->] [Hbe1|Hbe1]]; exists O.
    + destruct (rg_same root rl limit O b1 b1' Hi1 Hbe1) as [? ?]. split_and!; [done..|]. apply HQe.
    + destruct (rg_own_tmp root rl limit O b1 b1' n None Hi1 Hn Hlt ltac:(done) Hbe1) as [? ?]. split_and!; [done..|]. apply HQe.
  - exists (O ∖ {[n]}). destruct (Hdone b' Hbe) as (? & ? & ?). by split_and!.
Qed.

(** ** Writes *)

Lemma node_at_blob_dir v b h f :
  at_root v b → nodes b !! shard_loc rl h = Some NDir →
  node_at (blob_path root h f) (past_fault (lj_disk b)) =
    (Ok (blob_loc rl h f, NFile <$> sv_blobs v !! (h, f)), past_fault (lj_disk b)).
Proof.
  intros Hb Hs. pose proof (at_root_past root rl v b Hb) as Hp.
  destruct (node_at_blob root rl v (past root b) h f Hp) as [Hn|[Hn _]]; [exact Hn|].
  exfalso. destruct (Hp) as [_ Hr Hl]. revert Hn. unfold node_at.
  rewrite (resolve_extends root rl _ _ _ Hr (extends_blob root h f)) by apply join_entry, blob_name_plain.
  rewrite walk_step; [|fixed_dir Hl|plain_lit]. rewrite walk_step; [|fixed_dir Hl|apply shard_plain].
  rewrite walk_step; [done|exact Hs|apply blob_name_plain].
Qed.

Definition put_done {A} h f (r : result StoreError A) O b : Prop :=
  match r with Ok _ => has b h f | Err _ => True end.

Lemma put_done_stable {A} h f : stable (put_done (A := A) h f).
Proof. intros [a|e] O b b' Hq Hr; [|done]. by apply (re_has _ _ _ _ Hr). Qed.

Lemma ok_put_blob {R} `{AsyncReadOk R} h f (rd : R) O b0 :
  ok (put_blob_task root h f rd) O b0 (put_done h f).
Proof.
  apply ok_bind, ok_look; [apply exists_looks|]. intros b r b' Hi Hr Hrun Hbe. destruct (Hi) as (_ & v & Hb & Hix).
  destruct r as [[]|e]; [| |done].
  { destruct (runs_exists root rl v b h f Hb _ _ Hrun) as [_ [Hb' Hx]]. apply (has_view root rl v b' h f Hb'). auto. }
  clear b0 b v Hi Hb Hix Hr Hrun Hbe. apply ok_bind. unfold ensure_parent_task.
  destruct (join_parent (join (join root (lit "objects")) (shard h)) (blob_name h f) (blob_name_plain h f))
    as (q & Hq & _). change (join _ (blob_name h f)) with (blob_path root h f) in Hq. rewrite Hq.
  apply ok_await. intros b1 r1 b1' Hi1 _ _ Hrun1. destruct (Hi1) as (_ & v1 & Hb1 & Hix1). exists O.
  destruct (blob_parent_effect root rl v1 b1 h f r1 b1' q Hb1 Hq Hrun1) as [[(e & -> & _) Hbe1]|[-> Hbe1]].
  { destruct (rg_same root rl limit O b1 b1' Hi1 Hbe1) as [? ?]. by split_and!. }
  destruct (rg_shard root rl limit O b1 b1' h Hi1 Hbe1) as (Hi1' & Hg1 & Hs1). split_and!; [done..|].
  apply ok_bind, ok_create_tmp; [done|]. intros n b2 b2' Hlt Hr2 Hk2 _ Ht2. set (O2 := O ∪ {[n]}).
  assert (n ∈ O2) as Hn by set_solver.
  assert (nodes b2' !! shard_loc rl h = Some NDir) as Hs2 by (apply Hk2, (re_dirs _ _ _ _ Hr2), Hs1).
  apply ok_bind, ok_await. intros b3 r3 b3' Hi3 Hr3 _ Hrun3. destruct (Hi3) as (_ & v3 & Hb3 & Hix3).
  rewrite <- (relies_tmp O2 n b2' b3 Hn Hr3) in Ht2. pose proof (re_dirs _ _ _ _ Hr3 _ Hs2) as Hs3.
  destruct (copy_effect root rl v3 b3 n rd r3 b3' Hb3 Ht2 Hrun3) as (data & Hbe3 & _).
  exists O2. destruct (rg_own_tmp root rl limit O2 b3 b3' n (Some (NFile data)) Hi3 Hn Hlt ltac:(done) Hbe3) as [Hi3' Hg3].
  split_and!; [done..|]. destruct r3 as [rd'|e]; [|done].
  pose proof (gr_dirs _ _ _ _ _ Hg3 _ Hs3) as Hs3'.
  assert (nodes b3' !! tmp_at n = Some (NFile data)) as Ht3.
  { destruct Hbe3 as (_ & _ & -> & _). apply lookup_partial_alter_eq. }
  apply ok_bind, ok_look; [apply sync_looks|]. intros b4 r4 b4' Hi4 Hr4 _ Hbe4. destruct r4 as [[]|e]; [|done].
  assert (nodes b4' = nodes b4) as Hn4 by apply Hbe4.
  assert (nodes b4' !! tmp_at n = Some (NFile data)) as Ht4.
  { rewrite Hn4. by rewrite (relies_tmp O2 n b3' b4 Hn Hr4). }
  assert (nodes b4' !! shard_loc rl h = Some NDir) as Hs4 by (rewrite Hn4; by apply (re_dirs _ _ _ _ Hr4)).
  apply ok_bind, (ok_commit O2 n b4' data); [done|done|done|done|]. intros b5 Hi5 Hr5.
  pose proof (re_dirs _ _ _ _ Hr5 _ Hs4) as Hs5. destruct (Hi5) as (_ & v5 & Hb5 & Hix5).
  exists (blob_loc rl h f), (NFile <$> sv_blobs v5 !! (h, f)). split; [by apply node_at_blob_dir|].
  split; [by destruct (sv_blobs v5 !! (h, f))|]. intros b5' Hbe5.
  by apply (rg_blob root rl limit O2 b5 b5' n data h f).
Qed.

(** A value is written under [k]; an index entry only for a layer that is there. *)
Lemma ok_put_meta k l x O b0 :
  lj_key k l → (∀ ih, k = index_key ih → ∃ h, x = hash_text h ∧ ∀ f, has b0 h f) →
  ok (put_meta_task root k x) O b0 any.
Proof.
  intros Hk Hix. unfold put_meta_task. apply ok_bind. unfold ensure_parent_task.
  destruct (key_path root k l Hk) as (m & dir & p & Hl & Hm & Hpath & Hp & Hdir).
  destruct (join_parent p m Hm) as (q & Hq & _). rewrite <- Hpath in Hq. rewrite Hq.
  apply ok_await. intros b1 r1 b1' Hi1 Hr1 _ Hrun1. destruct (Hi1) as (_ & v1 & Hb1 & _). exists O.
  destruct (key_parent_effect root rl v1 b1 k l r1 b1' q Hb1 Hk Hq Hrun1) as [Hbe1 _].
  destruct (rg_same root rl limit O b1 b1' Hi1 Hbe1) as [Hi1' Hg1]. split_and!; [done..|]. destruct r1 as [[]|e]; [|done].
  assert (∀ h f, has b0 h f → has b1' h f) as Hh1.
  { intros h f Hh. apply (gr_has _ _ _ _ _ Hg1), (re_has _ _ _ _ Hr1), Hh. }
  apply ok_bind, ok_create_tmp; [done|]. intros n b2 b2' Hlt Hr2 _ Hgh2 Ht2. set (O2 := O ∪ {[n]}).
  assert (n ∈ O2) as Hn by set_solver.
  assert (∀ h f, has b0 h f → has b2' h f) as Hh2.
  { intros h f Hh. apply Hgh2, (re_has _ _ _ _ Hr2), Hh1, Hh. }
  apply ok_bind, ok_await. intros b3 r3 b3' Hi3 Hr3 _ Hrun3. destruct (Hi3) as (_ & v3 & Hb3 & _).
  rewrite <- (relies_tmp O2 n b2' b3 Hn Hr3) in Ht2. exists O2.
  assert (∃ part, becomes b3 (place (tmp_at n) (Some (NFile part)) (nodes b3)) b3' ∧ (r3 = Ok tt → part = x)) as (part & Hbe3 & Hpart).
  { destruct (write_effect root rl v3 b3 n x r3 b3' Hb3 Ht2 Hrun3) as [(e & part & -> & _ & ?)|[-> ?]]; eauto.
    by exists part. }
  destruct (rg_own_tmp root rl limit O2 b3 b3' n (Some (NFile part)) Hi3 Hn Hlt ltac:(done) Hbe3) as [Hi3' Hg3].
  split_and!; [done..|]. destruct r3 as [[]|e]; [|done]. rewrite (Hpart eq_refl) in Hbe3.
  assert (nodes b3' !! tmp_at n = Some (NFile x)) as Ht3.
  { destruct Hbe3 as (_ & _ & -> & _). apply lookup_partial_alter_eq. }
  assert (∀ h f, has b0 h f → has b3' h f) as Hh3.
  { intros h f Hh. apply (gr_has _ _ _ _ _ Hg3), (re_has _ _ _ _ Hr3), Hh2, Hh. }
  apply ok_bind, ok_look; [apply sync_looks|]. intros b4 r4 b4' Hi4 Hr4 _ Hbe4. destruct r4 as [[]|e]; [|done].
  assert (nodes b4' = nodes b4) as Hn4 by apply Hbe4.
  assert (nodes b4' !! tmp_at n = Some (NFile x)) as Ht4.
  { rewrite Hn4. by rewrite (relies_tmp O2 n b3' b4 Hn Hr4). }
  apply (ok_commit O2 n b4' x); [done|done|done|done|]. intros b5 Hi5 Hr5. destruct (Hi5) as (_ & v5 & Hb5 & _).
  exists (l ++ rl), (NFile <$> sv_metas v5 !! k).
  split; [exact (node_at_key root rl v5 (past root b5) k l (at_root_past root rl v5 b5 Hb5) Hk)|].
  split; [by destruct (sv_metas v5 !! k)|]. intros b5' Hbe5.
  destruct (rg_meta root rl limit O2 b5 b5' n x k l Hi5 Hn Hlt Hk) as [? ?]; [|done|done].
  intros ih Heq. destruct (Hix ih Heq) as (h & -> & Hh). exists h. split; [done|]. intros f.
  apply (re_has _ _ _ _ Hr5). assert (has b4 h f) as [bs Hbs] by apply (re_has _ _ _ _ Hr4), Hh3, Hh.
  exists bs. by rewrite Hn4.
Qed.

(** ** Requests *)

Lemma ok_any {A B} (t : T A) (f : A → T B) O b0 Q :
  ok t O b0 any → (∀ e O b, Q (Err e) O b) → (∀ a O b, ok (f a) O b Q) → ok (task_bind t f) O b0 Q.
Proof. intros Ht HQ Hf. apply ok_bind. eapply ok_mono, Ht. by intros [a|e] O' b' _. Qed.

Lemma ok_get_meta k O b : ok (get_meta_task root k) O b any.
Proof. apply ok_look_any, read_file_looks. Qed.

Lemma ok_publish_meta meta O b :
  (∀ f, has b (lm_content_hash meta) f) → ok (publish_meta_task root meta) O b any.
Proof.
  intros Hb. unfold publish_meta_task. apply ok_bind, ok_lift. destruct (json_to_vec meta) as [mj|e]; [|done].
  destruct (layer_key_file (lm_content_hash meta)) as [l Hl]. destruct (index_key_file (lm_input_hash meta)) as [l' Hl'].
  apply ok_bind. eapply ok_mono; [|apply (ok_keeps _ _ _ any (λ b, ∀ f, has b (lm_content_hash meta) f))].
  - intros [[]|e] O' b' [_ Hb']; [|done]. apply ok_any; [|done|done].
    apply (ok_put_meta _ l'); [done|]. intros ih Heq. eauto.
  - intros O' b1 b2 Hh Hr f. by apply (re_has _ _ _ _ Hr).
  - intros O1 O2 b1 b2 Hh Hg f. by apply (gr_has _ _ _ _ _ Hg).
  - done.
  - apply (ok_put_meta _ l); [done|]. intros ih Heq. by destruct (index_layer_neq ih (lm_content_hash meta)).
Qed.

Lemma ok_publish_layer {RD RC} `{AsyncReadOk RD, AsyncReadOk RC} (dr : RD) (cr : RC) meta O b :
  ok (publish_layer_task root dr cr meta) O b any.
Proof.
  apply ok_any; [apply ok_look_any, metadata_looks|done|]. intros [] O1 b1; [done|].
  apply ok_bind. eapply ok_mono; [|apply ok_put_blob]. intros [hd|e] O2 b2 Hd; [|done]. cbn in Hd.
  apply ok_bind. eapply ok_mono; [|apply (ok_keeps _ _ _ (put_done (lm_content_hash meta) BuildCache) (λ b, has b (lm_content_hash meta) Deploy)); [..|done|apply ok_put_blob]].
  - intros [hc|e] O3 b3 [Hc Hd3]; [|done]. apply ok_publish_meta. by intros [].
  - intros O' b3 b4 Hh Hr. by apply (re_has _ _ _ _ Hr).
  - intros O' O'' b3 b4 Hh Hg. by apply (gr_has _ _ _ _ _ Hg).
Qed.

Lemma ok_publish_layer_concurrent {RD RC} `{AsyncReadOk RD, AsyncReadOk RC} (dr : RD) (cr : RC) meta O b :
  ok (publish_layer_concurrent_task root dr cr meta) O b any.
Proof.
  apply ok_any; [apply ok_look_any, metadata_looks|done|]. intros [] O1 b1; [done|].
  apply ok_bind. exists O1, ∅, (put_done (lm_content_hash meta) Deploy), (put_done (lm_content_hash meta) BuildCache).
  split_and!; [set_solver|set_solver|apply put_done_stable|apply put_done_stable|apply ok_put_blob|apply ok_put_blob|].
  intros r1 r2 O2 O3 b2 _ Hd Hc. cbn [Tasks.ok fst snd].
  apply ok_bind, ok_lift. destruct r1 as [hd|e]; [|done]. apply ok_bind, ok_lift. destruct r2 as [hc|e]; [|done].
  apply ok_publish_meta. by intros [].
Qed.

Lemma ok_get_manifest h O b : ok (get_manifest_task root h) O b any.
Proof.
  apply ok_any; [apply ok_get_meta|done|]. intros o O1 b1. apply ok_bind, ok_lift. by destruct (ok_or o NotFound).
Qed.

Lemma ok_get_tag name O b : ok (get_tag_task root name) O b any.
Proof.
  apply ok_any; [apply ok_get_meta|done|]. intros o O1 b1. apply ok_bind, ok_lift. destruct (ok_or o NotFound) as [data|]; [|done].
  apply ok_bind, ok_lift. by destruct (ok_or (from_utf8 data) _).
Qed.

Lemma ok_put_foreign k x O b : (∃ l, lj_key k l) → foreign_key k → ok (put_meta_task root k x) O b any.
Proof. intros [l Hl] [Hf _]. apply (ok_put_meta k l); [done|]. intros ih Heq. by destruct (Hf ih). Qed.

Lemma ok_publish_manifest now uuid m O b :
  (∃ l, lj_key (build_key (build_id_of now uuid)) l) → ok (publish_manifest_task root now uuid m) O b any.
Proof.
  intros Hk. unfold publish_manifest_task. apply ok_bind, ok_lift. destruct (to_value m) as [jv|]; [|done].
  apply ok_bind, ok_lift. destruct (value_to_vec jv) as [buf|]; [|done].
  apply ok_any; [apply ok_put_foreign; [apply manifest_key_file|split; key_neq]|done|]. intros _ O1 b1.
  apply ok_bind, ok_lift. destruct (json_to_vec _) as [cj|]; [|done].
  by apply ok_any; [apply ok_put_foreign; [|split; key_neq]| |].
Qed.

Lemma ok_create_tag name h O b :
  (∃ l, lj_key (tag_key name) l) → ok (create_tag_task root name h) O b any.
Proof.
  intros Hk. unfold create_tag_task. apply ok_bind, ok_lift. destruct (validate_tag_name name); [|done].
  apply ok_any; [apply ok_get_manifest|done|]. intros _ O1 b1. apply ok_put_foreign; [done|split; key_neq].
Qed.

Lemma ok_delete_tag name O b : (∃ l, lj_key (tag_key name) l) → ok (delete_tag_task root name) O b any.
Proof.
  intros [l Hl]. apply ok_await. intros b1 r b1' Hi _ _ Hrun. destruct (Hi) as (_ & v & Hb & _). exists O.
  destruct (remove_key_effect root rl v b1 (tag_key name) l id tt r b1' Hb Hl Hrun) as [Hbe|Hbe].
  - destruct (rg_same root rl limit O b1 b1' Hi Hbe) as [? ?]. by split_and!.
  - destruct (rg_delete root rl limit O b1 b1' (tag_key name) l Hi Hl) as [? ?]; [split; key_neq|done|]. by split_and!.
Qed.

Lemma ok_list_meta p O b : ok (list_meta_task root p) O b any.
Proof.
  apply ok_any; [apply ok_look_any, read_dir_looks|done|]. intros [es|] O1 b1; [|done].
  generalize (@nil rstr). revert O1 b1. induction es as [|e es IH]; intros O1 b1 keys; cbn [list_entries_task].
  - by apply ok_any; [apply ok_look_any, last_entry_looks| |].
  - apply ok_any; [apply ok_look_any, next_entry_looks|done|]. intros e' O2 b2.
    apply ok_any; [apply ok_look_any, entry_is_file_looks|done|]. intros x O3 b3. apply IH.
Qed.

Lemma ok_list_builds filter O b : ok (list_builds_task root filter) O b any.
Proof.
  apply ok_any; [apply ok_list_meta|done|]. intros keys O1 b1. apply ok_any; [|done|done].
  apply (ok_for_each _ _ _ _ _ (λ _ _, True)); [done|done|]. intros k acc O2 b2 _. eapply ok_mono; [by intros []|].
  apply (ok_any (A := option bytes) _ _ _ _ any); [apply ok_get_meta|done|]. intros [data|] O3 b3; [|done].
  destruct (json_from_slice data) as [e|]; [|done]. apply ok_any; [|done|done].
  unfold tag_matches_task. destruct (bf_tag filter) as [tag|]; [|done].
  apply ok_any; [|done|done]. apply ok_attempt. eapply ok_mono, ok_get_tag. done.
Qed.
End Requests.
