(* ===== verification/StoreJoin.v ===== *)
(** * fs-storage: the two joined writes of a publication

    [publish_layer_concurrent] writes both artifacts of a layer at once
    ([tokio::join!]).  While it is the only request on a disk without faults,
    each write owns its artifact and its temporary file: whatever the order of
    the file-system calls, the publication ends, answers with the content hash
    and stores what the sequential [publish_layer] stores. *)

From S2P Require Import Prelude RustStd AsyncIo StoreTypes Crates Backend Tasks FileSys LocalBackend LocalTasks LayerStore StoreTasks StoreLogic StoreBlobs LocalRep LocalOk LocalKeys LocalEffects LocalRG RequestsOk.

(** ** Tasks end *)

Section Ends.
Context {S E : Type}.

(** One step of a task, from any state. *)
Definition tstep_any {A} (t t' : Task S E A) : Prop := ∃ s s', tstep t s t' s'.

(** No task runs for ever, whatever happens to the state between its calls. *)
Lemma task_sn {A} (t : Task S E A) : sn tstep_any t.
Proof.
  induction t as [A r|T A m k IH|A1 A2 A p IHp q IHq k IH].
  - constructor. by intros t' (s & s' & []).
  - constructor. intros t' (s & s' & -> & ->). apply IH.
  - induction IHp as [p _ IHp] in q, IHq |- *. induction IHq as [q Hq IHq].
    constructor. intros t' (s & s' & [(p' & Hs & ->)|[(q' & Hs & ->)|(r1 & r2 & -> & -> & -> & ->)]]).
    + apply IHp; [by exists s, s'|by constructor].
    + apply IHq. by exists s, s'.
    + apply IH.
Qed.

(** A task that is not done goes on. *)
Lemma task_progress {A} (t : Task S E A) s : (∃ r, t = Done r) ∨ ∃ t' s', tstep t s t' s'.
Proof.
  induction t as [A r|T A m k IH|A1 A2 A p IHp q IHq k IH]; [eauto|right; cbn; eauto|right].
  destruct IHp as [[r1 ->]|(p' & s' & Hs)]; [|do 2 eexists; left; eauto].
  destruct IHq as [[r2 ->]|(q' & s' & Hs)]; [|do 2 eexists; right; left; eauto].
  do 2 eexists. right. right. eauto 8.
Qed.
End Ends.

(** ** What the two writes own *)

Section Join.
Context `{IoCopyOk, !UuidGen, !UuidOk, !Crates, !CratesOk} (root : rstr) (rl : Loc) (limit : nat) `{!UuidFresh limit}.
Context (h : ContentHash).
Implicit Types (b : LocalJsonBackend) (v : StoreView) (O : gset nat).
Local Abbreviation tmp_at := (tmp_at rl).
Local Abbreviation at_root := (at_root root rl).
Local Abbreviation T := (Task LocalJsonBackend StoreError).

(** The artifacts of [h], the metadata, and the temporary files. *)
Definition slot (f : ArtifactFormat) : nat := match f with Deploy => 0 | BuildCache => 1 end.
Definition metadata : nat := 2.
Definition file (n : nat) : nat := 3 + n.

Lemma file_not_slot n f : file n ≠ slot f.
Proof. by destruct f. Qed.

(** Of what the resources [P] stand for nothing changes, and nothing of the
    other layers. *)
Record kept (P : nat → Prop) v v' : Prop := {
  kp_blobs : ∀ h' f, (h' = h → P (slot f)) → sv_blobs v' !! (h', f) = sv_blobs v !! (h', f);
  kp_metas : P metadata → sv_metas v' = sv_metas v;
}.

Lemma kept_refl P v : kept P v v.
Proof. done. Qed.
Lemma kept_trans P v1 v2 v3 : kept P v1 v2 → kept P v2 v3 → kept P v1 v3.
Proof. intros [Hb Hm] [Hb' Hm']. split; [intros h' f Hp; by rewrite Hb', Hb|intros Hp; by rewrite Hm', Hm]. Qed.
Lemma kept_mono (P P' : nat → Prop) v v' : (∀ r, P' r → P r) → kept P v v' → kept P' v v'.
Proof. intros HP []. split; auto. Qed.
(** Whoever owns everything sees no change. *)
Lemma kept_all (P : nat → Prop) v v' : (∀ f, P (slot f)) → P metadata → kept P v v' → v' = v.
Proof.
  intros Hf Hm [Hb Hk]. destruct v as [bs ms], v' as [bs' ms']. cbn in *. f_equal; [|auto].
  apply map_eq. intros [h' f]. auto.
Qed.

Definition qinv b : Prop := drawn b ≤ limit ∧ quiet b ∧ ∃ v, at_root v b.

Record qrelies O b b' : Prop := {
  qr_drawn : drawn b ≤ drawn b';
  qr_tmp : ∀ n, file n ∈ O → nodes b' !! tmp_at n = nodes b !! tmp_at n;
  qr_dirs : dirs_kept (nodes b) (nodes b');
  qr_view : ∀ v, at_root v b → ∃ v', at_root v' b' ∧ kept (.∈ O) v v';
}.

Record qgrants O O' b b' : Prop := {
  qg_drawn : drawn b ≤ drawn b';
  qg_own : ∀ r, r ∈ O' → r ∈ O ∨ ∃ n, r = file n ∧ drawn b ≤ n < drawn b';
  qg_tmp : ∀ n, n < drawn b → file n ∉ O → nodes b' !! tmp_at n = nodes b !! tmp_at n;
  qg_dirs : dirs_kept (nodes b) (nodes b');
  qg_view : ∀ v, at_root v b → ∃ v', at_root v' b' ∧ kept (.∉ O) v v';
}.

#[local] Instance join_rg : RelyGuarantee LocalJsonBackend.
Proof.
  refine {| rg_inv := qinv; rg_adm b := drawn b ≤ limit; rg_fits O b := ∀ n, file n ∈ O → n < drawn b;
            rely := qrelies; guar := qgrants |}.
  - intros O b. split; [done|done|by intros ?|]. intros v Hv. by exists v.
  - intros O b1 b2 b3 [Hd Ht Hk Hv] [Hd' Ht' Hk' Hv']. split; [lia| |unfold dirs_kept in *; auto|].
    + intros n Hn. trans (nodes b2 !! tmp_at n); auto.
    + intros v (v1 & Hv1 & K1)%Hv. destruct (Hv' v1 Hv1) as (v2 & Hv2 & K2). exists v2. split; [done|]. by eapply kept_trans.
  - intros O O' b b' Hsub [Hd Ht Hk Hv]. split; [done|auto|done|]. intros v (v1 & Hv1 & K1)%Hv.
    exists v1. split; [done|]. eapply kept_mono, K1. auto.
  - intros O O' b Hsub Hf n Hn. auto.
  - intros O O' b Hf Hf' n [Hn|Hn]%elem_of_union; auto.
  - intros O O' O2 b b' [Hd Ho Ht Hk Hv] Hdis Hf. split.
    + split; [done| |done|]. { intros n Hn. apply Ht; [auto|]. set_solver. }
      intros v (v1 & Hv1 & K1)%Hv. exists v1. split; [done|]. eapply kept_mono, K1. set_solver.
    + intros r Hr Hr'. destruct (Ho r Hr') as [?|(n & -> & ?)]; [set_solver|]. specialize (Hf n Hr). lia.
  - intros O O' b b' [Hd Ho Ht Hk Hv] Hf n Hn. destruct (Ho _ Hn) as [Hin|(m & [= <-] & ?)]; [|lia].
    specialize (Hf n Hin). lia.
  - intros O O' b b' [] Hf n Hn. specialize (Hf n Hn). lia.
  - intros O O' O2 b b' [Hd Ho Ht Hk Hv] Hdis. split; [done| |intros; apply Ht; set_solver|done|].
    + intros r [Hr|Hr]%elem_of_union; [|by left; set_solver]. destruct (Ho r Hr); [left; set_solver|by right].
    + intros v (v1 & Hv1 & K1)%Hv. exists v1. split; [done|]. eapply kept_mono, K1. set_solver.
Defined.
Local Abbreviation ok := (ok (H := join_rg)).
Local Abbreviation stable := (stable (H := join_rg)).

(** The directory stores one view. *)
Lemma at_root_unique v v' b : at_root v b → at_root v' b → v' = v.
Proof.
  intros [_ _ Hl] [_ _ Hl']. destruct v as [bs ms], v' as [bs' ms'].
  assert (∀ x y : option bytes, NFile <$> x = NFile <$> y → x = y) as Hinj by (intros [] []; cbn; congruence).
  f_equal; apply map_eq.
  - intros [h' f]. apply Hinj. pose proof (ly_blob _ _ _ Hl h' f) as Hx. pose proof (ly_blob _ _ _ Hl' h' f) as Hy.
    cbn in *. congruence.
  - assert (∀ k l, lj_key k l → ms' !! k = ms !! k) as Hkey.
    { intros k l Hk. apply Hinj. pose proof (ly_meta _ _ _ Hl k l Hk) as Hx. pose proof (ly_meta _ _ _ Hl' k l Hk) as Hy.
      cbn in *. congruence. }
    intros k. apply option_eq. intros x. split; intros Hx.
    + destruct (ly_keys _ _ _ Hl' k) as [l Hlk]; [by eexists|]. by rewrite <- (Hkey k l Hlk).
    + destruct (ly_keys _ _ _ Hl k) as [l Hlk]; [by eexists|]. by rewrite (Hkey k l Hlk).
Qed.

Lemma qrelies_view O b b' v :
  qrelies O b b' → at_root v b → ∃ v', at_root v' b' ∧ kept (.∈ O) v v'.
Proof. intros Hr. apply (qr_view _ _ _ Hr). Qed.

(** ** Changes *)

Lemma q_intro O O' b b' v v' :
  at_root v b → lj_root b' = lj_root b → dk_cwd (lj_disk b') = dk_cwd (lj_disk b) → quiet b' →
  drawn b ≤ drawn b' ≤ limit → (∀ r, r ∈ O' → r ∈ O ∨ ∃ n, r = file n ∧ drawn b ≤ n < drawn b') →
  (∀ n, n < drawn b → file n ∉ O → nodes b' !! tmp_at n = nodes b !! tmp_at n) →
  dirs_kept (nodes b) (nodes b') → layout rl (nodes b') v' → kept (.∉ O) v v' →
  qinv b' ∧ qgrants O O' b b' ∧ at_root v' b'.
Proof.
  intros Hb Hroot Hc Hq [Hd Hlim] Ho Ht Hk Hl Hv.
  assert (at_root v' b') as Hb'.
  { destruct b' as [r' d']. cbn in *. rewrite Hroot, (ar_root _ _ _ _ Hb).
    by apply (at_root_nodes root rl v v' b (dk_nodes d')). }
  split_and!; [split_and!; eauto| |done]. split; [done..|].
  intros v1 Hv1. rewrite (at_root_unique v v1 b Hb Hv1). eauto.
Qed.

Lemma q_same O b b' v :
  qinv b → at_root v b → becomes b (nodes b) b' → qinv b' ∧ qgrants O O b b' ∧ at_root v b'.
Proof.
  intros (Hlim & Hq & _) Hb Hbe. pose proof (becomes_quiet _ _ _ Hbe Hq) as Hq'.
  destruct Hbe as (Hr & Hc & Hn & Hd & _). apply (q_intro O O b b' v v); try done; try lia; auto.
  - by rewrite Hn.
  - by rewrite Hn; intros ?.
  - rewrite Hn. by destruct Hb.
Qed.

Lemma q_tmp O O' b b' v n node :
  at_root v b → quiet b' → lj_root b' = lj_root b → dk_cwd (lj_disk b') = dk_cwd (lj_disk b) → drawn b ≤ drawn b' ≤ limit →
  nodes b' = place (tmp_at n) node (nodes b) → node ≠ Some NDir →
  (file n ∈ O ∨ n = drawn b) → n < limit → (∀ r, r ∈ O' → r ∈ O ∨ ∃ n, r = file n ∧ drawn b ≤ n < drawn b') →
  qinv b' ∧ qgrants O O' b b' ∧ at_root v b'.
Proof.
  intros Hb Hq Hr Hc Hd Hn Hnode Hmine Hlt Ho. apply (q_intro O O' b b' v v); try done; auto.
  - intros m Hm Hno. rewrite Hn. unfold place. apply lookup_partial_alter_ne. intros Heq.
    apply (tmp_at_inj rl limit) in Heq as <-; [|done|lia]. destruct Hmine; [done|lia].
  - rewrite Hn. apply place_kept, (ly_tmp _ _ _ (ar_layout _ _ _ _ Hb)).
  - rewrite Hn. apply layout_tmp; [by destruct Hb|apply uuid_plain|done].
Qed.

Lemma q_own_tmp O b b' v n node :
  qinv b → at_root v b → file n ∈ O → n < limit → node ≠ Some NDir →
  becomes b (place (tmp_at n) node (nodes b)) b' → qinv b' ∧ qgrants O O b b' ∧ at_root v b'.
Proof.
  intros (Hlim & Hq & _) Hb Hn Hlt Hnode Hbe. pose proof (becomes_quiet _ _ _ Hbe Hq) as Hq'.
  destruct Hbe as (Hr & Hc & Hne & Hd & _). apply (q_tmp O O b b' v n node); try done; [lia|by left|by left].
Qed.

Lemma q_shard O b b' v :
  qinv b → at_root v b → becomes b (match nodes b !! shard_loc rl h with
                     | None => <[shard_loc rl h := NDir]> (nodes b) | _ => nodes b end) b' →
  qinv b' ∧ qgrants O O b b' ∧ at_root v b' ∧ nodes b' !! shard_loc rl h = Some NDir.
Proof.
  intros Hi Hb Hbe. pose proof (ar_layout _ _ _ _ Hb) as Hl.
  destruct (nodes b !! shard_loc rl h) as [[data|]|] eqn:Hs.
  - by destruct (ly_shard _ _ _ Hl (shard h) data).
  - destruct (q_same O b b' v Hi Hb Hbe) as (? & ? & ?). split_and!; [done..|]. by destruct Hbe as (_ & _ & -> & _).
  - destruct Hi as (Hlim & Hq & _). pose proof (becomes_quiet _ _ _ Hbe Hq) as Hq'.
    destruct Hbe as (Hr & Hc & Hn & Hd & _).
    destruct (q_intro O O b b' v v) as (? & ? & ?); try done; auto.
    + lia.
    + intros n _ _. rewrite Hn. apply lookup_insert_ne, not_eq_sym, tmp_not_shard.
    + rewrite Hn. apply dirs_kept_insert. by rewrite Hs.
    + rewrite Hn. by apply layout_shard.
    + split_and!; [done..|]. rewrite Hn. apply lookup_insert_eq.
Qed.

(** The move of the own temporary file to [loc]. *)
Lemma q_commit O b b' n data loc v v' :
  qinv b → at_root v b → file n ∈ O → n < limit → (∀ m, loc ≠ tmp_at m) → nodes b !! loc ≠ Some NDir →
  becomes b (place loc (Some (NFile data)) (place (tmp_at n) None (nodes b))) b' →
  (∀ tree, layout rl tree v → dirs_kept (nodes b) tree → layout rl (place loc (Some (NFile data)) tree) v') →
  kept (.∉ O) v v' →
  qinv b' ∧ qgrants O (O ∖ {[file n]}) b b' ∧ at_root v' b'.
Proof.
  intros (Hlim & Hq & _) Hb Hn Hlt Hlocs Hnd Hbe Hlay Hv. pose proof (ar_layout _ _ _ _ Hb) as Hl.
  pose proof (becomes_quiet _ _ _ Hbe Hq) as Hq'. destruct Hbe as (Hr & Hc & Hne & Hd & _).
  assert (dirs_kept (nodes b) (place (tmp_at n) None (nodes b))) as Hk by apply place_kept, (ly_tmp _ _ _ Hl).
  apply (q_intro O _ b b' v v'); try done.
  - lia.
  - intros r. set_solver.
  - intros m Hmd Hm. rewrite Hne. unfold place. rewrite !lookup_partial_alter_ne; [done| |done].
    intros Heq. apply (tmp_at_inj rl limit) in Heq as <-; [done|done|lia].
  - rewrite Hne. intros x Hx. apply place_kept; [|by apply Hk]. unfold place. by rewrite lookup_partial_alter_ne.
  - rewrite Hne. apply Hlay; [|done]. apply layout_tmp; [done|apply uuid_plain|done].
Qed.
(** ** Calls *)

(** The directory stores [v], up to what others did to resources outside [R]. *)
Definition since (R : gset nat) v b : Prop := ∃ v1, at_root v1 b ∧ kept (.∈ R) v v1.

Lemma since_relies O R v b b' : R ⊆ O → qrelies O b b' → since R v b → since R v b'.
Proof.
  intros Hsub Hr (v1 & Hv1 & Hk). destruct (qrelies_view O b b' v1 Hr Hv1) as (v2 & Hv2 & Hk2).
  exists v2. split; [done|]. eapply kept_trans, kept_mono; [done| |exact Hk2]. auto.
Qed.

Lemma q_look {A} (m : SM LocalJsonBackend StoreError A) O b0 (Q : result StoreError A → gset nat → _ → Prop) :
  looks m →
  (∀ b r b' v, qinv b → qrelies O b0 b → at_root v b → at_root v b' → nodes b' = nodes b → m b = (r, b') → Q r O b') →
  ok (await m) O b0 Q.
Proof.
  intros Hm HQ. apply ok_await. intros b r b' Hi Hr Ha Hrun. pose proof (Hm _ _ _ Hrun) as Hbe.
  destruct (Hi) as (_ & _ & v & Hb). exists O. destruct (q_same O b b' v Hi Hb Hbe) as (? & ? & ?).
  split_and!; [done..|]. apply (HQ b r b' v); try done. apply Hbe.
Qed.

Lemma q_create_tmp O R v b0 (Q : result StoreError rstr → gset nat → _ → Prop) :
  R ⊆ O → since R v b0 →
  (∀ n b', n < limit → dirs_kept (nodes b0) (nodes b') → since R v b' →
     nodes b' !! tmp_at n = Some (NFile []) → Q (Ok (tmp_path root (uuid_text n))) (O ∪ {[file n]}) b') →
  ok (await (create_tmp root)) O b0 Q.
Proof.
  intros Hsub Hsince HQ. apply ok_await. intros b r b' Hi Hr Ha Hrun. cbn in Ha.
  destruct (since_relies O R v b0 b Hsub Hr Hsince) as (v1 & Hb & Hk). destruct (Hi) as (Hlim & Hq & _).
  destruct (create_tmp_effect root rl v1 b r b' Hb Hrun) as (Hroot & Hc & Hd & Hq' & [[(e & _ & Hn) _]|[-> Hn]]); [done|].
  exists (O ∪ {[file (drawn b)]}).
  destruct (q_tmp O (O ∪ {[file (drawn b)]}) b b' v1 (drawn b) (Some (NFile []))) as (Hi' & Hg & Hb'); try done.
  - auto.
  - lia.
  - by right.
  - lia.
  - intros r. rewrite elem_of_union, elem_of_singleton, Hd. intros [?| ->]; [by left|right]. eexists. split; [done|lia].
  - split_and!; [done..|]. apply HQ; [lia| |by exists v1|].
    + intros x Hx. apply (qg_dirs _ _ _ _ Hg), (qr_dirs _ _ _ Hr), Hx.
    + rewrite Hn. apply lookup_partial_alter_eq.
Qed.

(** A full temporary file, before the move. *)
Definition filled (R : gset nat) v n data b : Prop := since R v b ∧ nodes b !! tmp_at n = Some (NFile data).

Lemma filled_relies O R v n data b b' :
  R ⊆ O → file n ∈ O → qrelies O b b' → filled R v n data b → filled R v n data b'.
Proof.
  intros Hsub Hn Hr [Hs Ht]. split; [by eapply since_relies|]. by rewrite (qr_tmp _ _ _ Hr n Hn).
Qed.

Lemma q_sync O R v n data b0 (Q : result StoreError unit → gset nat → _ → Prop) :
  R ⊆ O → file n ∈ O → filled R v n data b0 →
  (∀ b', dirs_kept (nodes b0) (nodes b') → filled R v n data b' → Q (Ok tt) O b') →
  ok (await (fs_try sync_all)) O b0 Q.
Proof.
  intros Hsub Hn Hf HQ. apply q_look; [apply sync_looks|]. intros b r b' v1 (_ & Hq & _) Hr Hb Hb' Hnodes Hrun.
  pose proof (filled_relies _ _ _ _ _ _ _ Hsub Hn Hr Hf) as [(v2 & Hv2 & Hk2) Ht].
  destruct (runs_sync root rl v1 b (λ _ _, True) Hb ltac:(done) r b' Hrun) as [_ Hres].
  destruct r as [[]|e]; [|by destruct Hres as (_ & [] & _)]. rewrite <- (at_root_unique v1 v2 b Hb Hv2) in Hb'.
  apply HQ; [rewrite Hnodes; apply (qr_dirs _ _ _ Hr)|]. split; [by exists v2|by rewrite Hnodes].
Qed.

(** The move into place: it cannot fail, and does [put] to the view. *)
Lemma q_move O R v n data final b0 (put : StoreView → StoreView) (Q : result StoreError unit → gset nat → _ → Prop) :
  R ⊆ O → file n ∈ O → n < limit → filled R v n data b0 →
  (∀ b v1, qinv b → qrelies O b0 b → at_root v1 b → ∃ loc,
     (∃ o, node_at final (past_fault (lj_disk b)) = (Ok (loc, o), past_fault (lj_disk b)) ∧ o ≠ Some NDir) ∧
     (∀ m, loc ≠ tmp_at m) ∧ nodes b !! loc ≠ Some NDir ∧
     (∀ tree, layout rl tree v1 → dirs_kept (nodes b) tree → layout rl (place loc (Some (NFile data)) tree) (put v1)) ∧
     kept (.∉ O) v1 (put v1)) →
  (∀ v1, kept (.∈ R) v v1 → kept (.∈ R) (put v) (put v1)) →
  (∀ b', since R (put v) b' → Q (Ok tt) (O ∖ {[file n]}) b') →
  ok (commit_task (tmp_path root (uuid_text n)) final) O b0 Q.
Proof.
  intros Hsub Hn Hlt Hf Hloc Hput HQ. apply ok_bind, ok_await. intros b r b' Hi Hr _ Hrun.
  pose proof (filled_relies _ _ _ _ _ _ _ Hsub Hn Hr Hf) as [(v1 & Hv1 & Hk1) Ht].
  destruct (Hloc b v1 Hi Hr Hv1) as (loc & (o & Hnode & Ho) & Htmp & Hnd & Hlay & Hkept).
  destruct (rename_effect root rl v1 b n data final loc o r b' Hv1 Ht Hnode Ho Hrun) as [(e & _ & Hq & _)|[-> Hbe]].
  { by destruct Hi as (_ & ? & _). }
  exists (O ∖ {[file n]}). destruct (q_commit O b b' n data loc v1 (put v1)) as (? & ? & ?); try done.
  split_and!; [done..|]. apply HQ. exists (put v1). auto.
Qed.
(** ** Writes *)

Lemma kept_put_blob P f bs v v1 : kept P v v1 → kept P (view_put_blob h f bs v) (view_put_blob h f bs v1).
Proof.
  intros [Hb Hm]. split; [|done]. intros h' f' Hp. cbn.
  destruct (decide ((h, f) = (h', f'))) as [<-|Hne]; [by rewrite !lookup_insert_eq|].
  rewrite !lookup_insert_ne by done. by apply Hb.
Qed.

Lemma kept_put_meta (P : nat → Prop) k x v v1 :
  P metadata → kept P v v1 → kept P (view_put_meta k x v) (view_put_meta k x v1).
Proof. intros Hp [Hb Hm]. split; [done|]. intros _. cbn. by rewrite Hm. Qed.

Lemma q_put_blob {RD} `{AsyncReadOk RD} f (rd : RD) bs O R v b0 :
  slot f ∈ R → R ⊆ O → (∀ n, file n ∉ R) → since R v b0 → sv_blobs v !! (h, f) = None → delivers rd bs →
  ok (put_blob_task root h f rd) O b0 (λ r O' b', ∃ rd', r = Ok rd' ∧ drains rd bs (Ok tt) rd' ∧ R ⊆ O' ∧
    since R (view_put_blob h f bs v) b').
Proof.
  intros Hslot Hsub Hfile Hs Hnone Hdel.
  apply ok_bind, q_look; [apply exists_looks|]. intros b r b' v1 (_ & Hq & _) Hr Hb Hb' _ Hrun.
  destruct (since_relies O R v b0 b Hsub Hr Hs) as (v2 & Hv2 & Hk2). rewrite (at_root_unique v1 v2 b Hb Hv2) in Hk2.
  destruct (runs_exists root rl v1 b h f Hb _ _ Hrun) as [_ Hres].
  destruct r as [[]|e]; [| |by destruct Hres as (_ & [] & _)].
  { destruct Hres as [_ [data Hx]]; [done|]. by rewrite (kp_blobs _ _ _ Hk2), Hnone in Hx. }
  assert (since R v b') as Hs' by by exists v1. clear b0 Hs b v2 Hv2 Hk2 Hr Hb Hb' Hrun Hres Hq.
  apply ok_bind. unfold ensure_parent_task.
  destruct (join_parent (join (join root (lit "objects")) (shard h)) (blob_name h f) (blob_name_plain h f))
    as (q & Hqp & _). change (join _ (blob_name h f)) with (blob_path root h f) in Hqp. rewrite Hqp.
  apply ok_await. intros b1 r1 b1' Hi1 Hr1 _ Hrun1. exists O.
  destruct (since_relies O R v b' b1 Hsub Hr1 Hs') as (w1 & Hw1 & Kw1).
  destruct (blob_parent_effect root rl w1 b1 h f r1 b1' q Hw1 Hqp Hrun1) as [[(e & _ & Hnq) _]|[-> Hbe1]].
  { by destruct Hi1 as (_ & ? & _). }
  destruct (q_shard O b1 b1' w1 Hi1 Hw1 Hbe1) as (Hi1' & Hg1 & Hw1' & Hs1). split_and!; [done..|].
  apply ok_bind, (q_create_tmp O R v); [done|by exists w1|]. intros n b2 Hlt Hd2 Hs2 Ht2. set (O2 := O ∪ {[file n]}).
  assert (file n ∈ O2 ∧ R ⊆ O2) as [Hn Hsub2] by set_solver.
  apply ok_bind, ok_await. intros b3 r3 b3' Hi3 Hr3 _ Hrun3.
  destruct (filled_relies O2 R v n [] b2 b3 Hsub2 Hn Hr3) as [(w3 & Hw3 & Kw3) Ht3]; [by split|].
  destruct (copy_effect root rl w3 b3 n rd r3 b3' Hw3 Ht3 Hrun3) as (data & Hbe3 & Hok3 & Herr3).
  exists O2. destruct (q_own_tmp O2 b3 b3' w3 n (Some (NFile data)) Hi3 Hw3 Hn Hlt ltac:(done) Hbe3) as (Hi3' & Hg3 & Hw3').
  split_and!; [done..|]. destruct r3 as [rd'|e].
  2: { destruct Hi3 as (_ & Hq3 & _). destruct (Herr3 e eq_refl Hq3) as (io & rd' & Hd). by apply Hdel in Hd as []. }
  specialize (Hok3 rd' eq_refl). destruct (Hdel _ _ _ Hok3) as [-> _].
  assert (nodes b3' !! shard_loc rl h = Some NDir) as Hsh3.
  { apply (qg_dirs _ _ _ _ Hg3), (qr_dirs _ _ _ Hr3), Hd2, Hs1. }
  apply ok_bind, (q_sync O2 R v n bs); [done|done| |].
  { split; [by exists w3|]. destruct Hbe3 as (_ & _ & -> & _). apply lookup_partial_alter_eq. }
  intros b4 Hd4 Hf4. apply ok_bind, (q_move O2 R v n bs _ _ (view_put_blob h f bs)); [done..| |by apply kept_put_blob|].
  - intros b5 v5 Hi5 Hr5 Hv5. pose proof (ar_layout _ _ _ _ Hv5) as Hl5.
    assert (nodes b5 !! shard_loc rl h = Some NDir) as Hsh5 by (apply (qr_dirs _ _ _ Hr5), Hd4, Hsh3).
    exists (blob_loc rl h f). split_and!.
    + exists (NFile <$> sv_blobs v5 !! (h, f)). split; [by apply (node_at_blob_dir root rl limit)|by destruct (sv_blobs v5 !! (h, f))].
    + intros m. apply not_eq_sym, tmp_not_blob.
    + by eapply layout_blob_not_dir.
    + intros tree Htree Hk. apply (layout_blob rl tree v5 h f (Some bs) Htree). intros _. by apply Hk.
    + split; [|done]. intros h' f' Hp. cbn. apply lookup_insert_ne. intros [= <- <-]. apply (Hp eq_refl). set_solver.
  - intros b5 Hs5. cbn. exists rd'. split_and!; [done..| |done].
    intros x Hx. apply elem_of_difference. split; [set_solver|]. intros ->%elem_of_singleton. by apply (Hfile n).
Qed.

Lemma q_put_meta k l x O R v b0 :
  lj_key k l → metadata ∈ R → R ⊆ O → (∀ n, file n ∉ R) → since R v b0 →
  ok (put_meta_task root k x) O b0 (λ r O' b', r = Ok tt ∧ R ⊆ O' ∧ since R (view_put_meta k x v) b').
Proof.
  intros Hk Hmeta Hsub Hfile Hs. unfold put_meta_task. apply ok_bind. unfold ensure_parent_task.
  destruct (key_path root k l Hk) as (m & dir & p & Hl & Hm & Hpath & Hp & Hdir).
  destruct (join_parent p m Hm) as (q & Hqp & _). rewrite <- Hpath in Hqp. rewrite Hqp.
  apply ok_await. intros b1 r1 b1' Hi1 Hr1 _ Hrun1. exists O.
  destruct (since_relies O R v b0 b1 Hsub Hr1 Hs) as (w1 & Hw1 & Kw1).
  destruct (key_parent_effect root rl w1 b1 k l r1 b1' q Hw1 Hk Hqp Hrun1) as [Hbe1 Hok1].
  destruct (q_same O b1 b1' w1 Hi1 Hw1 Hbe1) as (Hi1' & Hg1 & Hw1'). split_and!; [done..|].
  rewrite Hok1 by apply Hi1.
  apply ok_bind, (q_create_tmp O R v); [done|by exists w1|]. intros n b2 Hlt _ Hs2 Ht2. set (O2 := O ∪ {[file n]}).
  assert (file n ∈ O2 ∧ R ⊆ O2) as [Hn Hsub2] by set_solver.
  apply ok_bind, ok_await. intros b3 r3 b3' Hi3 Hr3 _ Hrun3. exists O2.
  destruct (filled_relies O2 R v n [] b2 b3 Hsub2 Hn Hr3) as [(w3 & Hw3 & Kw3) Ht3]; [by split|].
  destruct (write_effect root rl w3 b3 n x r3 b3' Hw3 Ht3 Hrun3) as [(e & part & _ & Hnq & _)|[-> Hbe3]].
  { by destruct Hi3 as (_ & ? & _). }
  destruct (q_own_tmp O2 b3 b3' w3 n (Some (NFile x)) Hi3 Hw3 Hn Hlt ltac:(done) Hbe3) as (Hi3' & Hg3 & Hw3').
  split_and!; [done..|]. apply ok_bind, (q_sync O2 R v n x); [done|done| |].
  { split; [by exists w3|]. destruct Hbe3 as (_ & _ & -> & _). apply lookup_partial_alter_eq. }
  intros b4 _ Hf4. apply (q_move O2 R v n x _ _ (view_put_meta k x)); [done..| |by intros; apply kept_put_meta|].
  - intros b5 v5 Hi5 Hr5 Hv5. pose proof (ar_layout _ _ _ _ Hv5) as Hl5. exists (l ++ rl). split_and!.
    + exists (NFile <$> sv_metas v5 !! k).
      split; [exact (node_at_key root rl v5 (past root b5) k l (at_root_past root rl v5 b5 Hv5) Hk)|].
      by destruct (sv_metas v5 !! k).
    + intros m'. by eapply key_not_tmp.
    + by eapply layout_key_not_dir.
    + intros tree Htree _. by apply (layout_meta rl tree v5 k l (Some x)).
    + split; [done|]. intros []. set_solver.
  - intros b5 Hs5. split_and!; [done| |done].
    intros y Hy. apply elem_of_difference. split; [set_solver|]. intros ->%elem_of_singleton. by apply (Hfile n).
Qed.
(** ** The publication *)

Definition deploy_rights : gset nat := {[slot Deploy; metadata]}.
Definition cache_rights : gset nat := {[slot BuildCache]}.
Definition rights : gset nat := deploy_rights ∪ cache_rights.

Lemma rights_file n : file n ∉ rights.
Proof using Type.
  clear -n. unfold rights, deploy_rights, cache_rights. rewrite !elem_of_union, !elem_of_singleton.
  intros [[Heq|Heq]|Heq]; discriminate Heq.
Qed.

Lemma since_rights v b : since rights v b → at_root v b.
Proof.
  intros (v1 & Hv1 & Hk). apply kept_all in Hk as <-; [done| |]; [intros []|];
    unfold rights, deploy_rights, cache_rights; set_solver.
Qed.

(** Both writes are done: the two artifacts are there, and nothing else changed. *)
Lemma join_views v deploy cache b :
  since deploy_rights (view_put_blob h Deploy deploy v) b → since cache_rights (view_put_blob h BuildCache cache v) b →
  at_root (view_put_blob h BuildCache cache (view_put_blob h Deploy deploy v)) b.
Proof.
  intros (v1 & Hv1 & [Hb1 Hm1]) (v2 & Hv2 & [Hb2 _]). rewrite (at_root_unique v1 v2 b Hv1 Hv2) in Hb2.
  assert (view_put_blob h BuildCache cache (view_put_blob h Deploy deploy v) = v1) as ->; [|done].
  destruct v1 as [bs ms]. cbn in *. unfold view_put_blob. cbn. f_equal.
  2: { symmetry. apply Hm1. unfold deploy_rights. set_solver. }
  apply map_eq. intros [h' f]. destruct (decide (h' = h)) as [->|Hne].
  - destruct f.
    + rewrite Hb1 by (unfold deploy_rights; set_solver). by rewrite lookup_insert_ne, !lookup_insert_eq.
    + rewrite Hb2 by (unfold cache_rights; set_solver). by rewrite !lookup_insert_eq.
  - rewrite Hb1 by done. rewrite (lookup_insert_ne _ (h, BuildCache)) by congruence. done.
Qed.

Lemma q_publish_meta meta O v b0 mj :
  lm_content_hash meta = h → json_to_vec meta = Ok mj → rights ⊆ O → at_root v b0 →
  ok (publish_meta_task root meta) O b0 (λ r _ b', r = Ok h ∧
    at_root (view_put_meta (index_key (lm_input_hash meta)) (hash_text h) (view_put_meta (layer_key h) mj v)) b').
Proof.
  intros Hh Hmj Hsub Hb. unfold publish_meta_task. apply ok_bind. rewrite Hmj. cbn [map_err task_lift Tasks.ok].
  destruct (layer_key_file h) as [l Hl]. destruct (index_key_file (lm_input_hash meta)) as [l' Hl']. rewrite Hh.
  assert (metadata ∈ rights) as Hmeta by (unfold rights, deploy_rights; set_solver).
  apply ok_bind. eapply ok_mono; [|apply (q_put_meta _ l mj O rights v); [done..|apply rights_file|by exists v]].
  intros r O1 b1 (-> & Hsub1 & Hs1). apply ok_bind.
  eapply ok_mono; [|apply (q_put_meta _ l' _ O1 rights _ _ Hl' Hmeta Hsub1 rights_file Hs1)].
  intros r O2 b2 (-> & _ & Hs2). cbn. split; [done|]. by apply since_rights.
Qed.

Lemma q_publish {RD RC} `{AsyncReadOk RD, AsyncReadOk RC} (dr : RD) (cr : RC) meta deploy cache v b0 mj :
  lm_content_hash meta = h → at_root v b0 → delivers dr deploy → delivers cr cache →
  (∀ f, sv_blobs v !! (h, f) = None) → json_to_vec (final_meta meta deploy cache) = Ok mj →
  ok (publish_layer_concurrent_task root dr cr meta) rights b0 (λ r _ b', r = Ok h ∧
    at_root (published meta deploy cache mj v) b').
Proof.
  intros Hh Hb Hdd Hdc Hnone Hmj. unfold publish_layer_concurrent_task, published. rewrite Hh.
  apply ok_bind, q_look; [apply metadata_looks|]. intros b r b' v1 (_ & Hq & _) Hr Hv1 Hv1' _ Hrun.
  destruct (since_relies rights rights v b0 b ltac:(done) Hr) as (v2 & Hv2 & Hk2); [by exists v|].
  assert (at_root v b) as Hvb by (apply since_rights; by exists v2).
  rewrite (at_root_unique v v1 b Hvb Hv1) in *. clear v1 v2 Hv1 Hv2 Hk2.
  assert (lj_has_blob h Deploy b = (r, b')) as Hrun'.
  { rewrite <- Hrun. rewrite <- (ar_root _ _ _ _ Hvb). done. }
  destruct (runs_has_blob root rl v b h Deploy Hvb r b' Hrun') as [_ Hres].
  destruct r as [x|e]; [|by destruct Hres as (_ & [] & _)]. destruct Hres as [-> _].
  rewrite Hnone, bool_decide_false by (intros [? [=]]).
  apply ok_bind. unfold task_join. exists deploy_rights, cache_rights,
    (λ r (O : gset nat) b, ∃ hd, r = Ok hd ∧ drains (HashingReader_new dr) deploy (Ok tt) hd ∧ deploy_rights ⊆ O ∧
       since deploy_rights (view_put_blob h Deploy deploy v) b),
    (λ r O b, ∃ hc, r = Ok hc ∧ drains (HashingReader_new cr) cache (Ok tt) hc ∧ cache_rights ⊆ O ∧
       since cache_rights (view_put_blob h BuildCache cache v) b).
  assert (∀ n, (file n ∉ deploy_rights) ∧ (file n ∉ cache_rights)) as Hfile.
  { intros n. pose proof (rights_file n). unfold rights in *. set_solver. }
  split_and!; [done|unfold deploy_rights, cache_rights; set_solver|..].
  1,2: intros r O b1 b2 (hr & -> & Hd & Hsub & Hs) Hr12; exists hr; split_and!; try done; by eapply since_relies.
  - apply q_put_blob; [unfold deploy_rights; set_solver|done|apply Hfile|by exists v|done|by apply delivers_hashing].
  - apply q_put_blob; [unfold cache_rights; set_solver|done|apply Hfile|by exists v|done|by apply delivers_hashing].
  - intros r1 r2 O1 O2 b1 _ (hd & -> & Hd1 & Hsub1 & Hs1) (hc & -> & Hd2 & Hsub2 & Hs2).
    cbn [Tasks.ok fst snd task_bind task_lift].
    destruct (delivers_hashed _ _ _ _ Hdd Hd1) as [_ ->]. destruct (delivers_hashed _ _ _ _ Hdc Hd2) as [_ ->].
    apply (q_publish_meta (final_meta meta deploy cache)); [done|done| |by apply join_views]. unfold rights. set_solver.
Qed.
End Join.

(** ** Theorems *)

Section Claims.
Context `{IoCopyOk, !UuidGen, !UuidOk, !Crates, !CratesOk} (limit : nat) `{!UuidFresh limit}.
Local Abbreviation T := (Task LocalJsonBackend StoreError).

#[local] Instance join_keys : StoreKeys LocalJsonBackend.
Proof. split; [apply index_key_file|apply layer_key_file|apply manifest_key_file]. Qed.

(** A step of a request that runs alone, within [limit] identifiers. *)
Definition alone {A} (x y : T A * LocalJsonBackend) : Prop :=
  tstep (fst x) (snd x) (fst y) (snd y) ∧ drawn (snd y) ≤ limit.

Lemma ok_alone {A} root rl h (x y : T A * LocalJsonBackend) O Q :
  rtc alone x y → ok (H := join_rg root rl limit h) (fst x) O (snd x) Q → qinv root rl limit (snd x) →
  (∀ n, file n ∈ O → n < drawn (snd x)) →
  ∃ O', ok (H := join_rg root rl limit h) (fst y) O' (snd y) Q.
Proof.
  intros Hr. revert O. induction Hr as [x|x y z [Hs Ha] _ IH]; intros O Hok Hi Hf; [eauto|].
  destruct (ok_step (H := join_rg root rl limit h) _ _ O _ _ Q Hok Hi Hf Ha Hs) as (O' & Hi' & Hg & Hok').
  apply (IH O'); [done|done|]. destruct Hg as [Hg|[-> ->]]; [|done].
  exact (guar_fits (RelyGuarantee := join_rg root rl limit h) O O' _ _ Hg Hf).
Qed.

(** [C28] The concurrent publication stores what the sequential one does, in
    every interleaving of its two writes.  On a local store whose calls do not
    fail, with no other request running, publishing a new layer from readers
    that deliver [deploy] and [cache] never runs for ever; whatever the order
    of the file-system calls of the two writes, it ends with the content hash,
    and the directory then stores exactly what [publish_layer] stores. *)
Theorem publish_layer_concurrent_agrees {RD RC} `{AsyncReadOk RD, AsyncReadOk RC}
    (b : LocalJsonBackend) v (dr : RD) (cr : RC) meta deploy cache :
  rep b v → calm b → drawn b ≤ limit → delivers dr deploy → delivers cr cache →
  (∀ f, sv_blobs v !! (lm_content_hash meta, f) = None) →
  sn tstep_any (publish_layer_concurrent_task (lj_root b) dr cr meta) ∧
  ∃ v1 b1, publish_layer dr cr meta b = (Ok (lm_content_hash meta), b1) ∧ rep b1 v1 ∧
    ∀ t' b', rtc alone (publish_layer_concurrent_task (lj_root b) dr cr meta, b) (t', b') →
      (∀ t'' b'', ¬ tstep t' b' t'' b'') → t' = Done (Ok (lm_content_hash meta)) ∧ rep b' v1.
Proof.
  intros Hr Hq Hlim Hdd Hdc Hnone. split; [apply task_sn|]. destruct (Hr) as [rl Hb].
  destruct (wp_run _ _ _ _ b (wp_publish_layer_new dr cr meta deploy cache v Hdd Hdc Hnone) Hr (λ _, Hq))
    as (r & b1 & v1 & Hrun & Hr1 & _ & -> & mj & Hmj & _ & ->).
  eexists _, b1. split; [exact Hrun|]. split; [exact Hr1|]. intros t' b' Hsteps Hend.
  destruct (ok_alone (lj_root b) rl (lm_content_hash meta) _ _ rights
    (λ r _ b', r = Ok (lm_content_hash meta) ∧ at_root (lj_root b) rl (published meta deploy cache mj v) b') Hsteps) as [O' Hok].
  - by apply q_publish.
  - split_and!; [done|done|by exists v].
  - intros n Hn. by destruct (rights_file n).
  - cbn in Hok. destruct (task_progress t' b') as [[r ->]|(t'' & b'' & Hs)]; [|by destruct (Hend t'' b'')].
    destruct Hok as [-> Hb']. split; [done|]. by eapply local_rep_at.
Qed.
End Claims.
