(* ===== verification/LocalOpen.v ===== *)
(** * fs-storage: opening a local backend

    [LocalJsonBackend::new] on a directory that holds a store, or nothing yet:
    the directories are created where they are missing and the temporary files
    of interrupted writes are removed. *)

From S2P Require Import Prelude RustStd AsyncIo StoreTypes Backend FileSys LocalBackend LocalRep LocalOk.

Section Open.
Context `{IoCopy, UuidOk, HexOk} (root : rstr) (rl : Loc).
Implicit Types (nodes : gmap Loc Node) (v : StoreView) (d : Disk).

(** The fixed directories, and a tree completed with them. *)
Definition fixed_map : gmap Loc Node := list_to_map (map (λ dir, (dir ++ rl, NDir)) fixed_dirs).
Definition complete nodes : gmap Loc Node := fixed_map ∪ nodes.

Lemma fixed_map_Some loc x : fixed_map !! loc = Some x → x = NDir ∧ ∃ dir, dir ∈ fixed_dirs ∧ loc = dir ++ rl.
Proof.
  intros Hin%elem_of_list_to_map_2. apply list_elem_of_fmap in Hin as (dir & [= -> ->] & Hdir). eauto.
Qed.

Lemma fixed_map_dir dir : dir ∈ fixed_dirs → fixed_map !! (dir ++ rl) = Some NDir.
Proof.
  intros Hdir. destruct (fixed_map !! (dir ++ rl)) as [x|] eqn:Hx.
  - by destruct (fixed_map_Some _ _ Hx) as [-> _].
  - apply not_elem_of_list_to_map_2 in Hx. destruct Hx. rewrite <- list_fmap_compose.
    apply (list_elem_of_fmap_2 (λ dir, dir ++ rl)), Hdir.
Qed.

(** A layout in which directories may still be missing. *)
Record prelayout v nodes : Prop := {
  pl_root : nodes !! rl = Some NDir;
  pl_dirs : ∀ dir data, dir ∈ fixed_dirs → nodes !! (dir ++ rl) ≠ Some (NFile data);
  pl_layout : layout rl (complete nodes) v;
}.

Lemma complete_insert nodes dir :
  dir ∈ fixed_dirs → complete (<[dir ++ rl := NDir]> nodes) = complete nodes.
Proof.
  intros Hdir. apply map_eq. intros loc. unfold complete. rewrite !lookup_union.
  destruct (decide (dir ++ rl = loc)) as [<-|Hne]; [|by rewrite lookup_insert_ne].
  rewrite (fixed_map_dir dir Hdir). by destruct (_ !! _), (_ !! _).
Qed.

Lemma complete_id nodes :
  (∀ dir, dir ∈ fixed_dirs → nodes !! (dir ++ rl) = Some NDir) → complete nodes = nodes.
Proof.
  intros Hd. apply map_subseteq_union, map_subseteq_spec. intros loc x Hx.
  apply fixed_map_Some in Hx as (-> & dir & Hdir & ->). auto.
Qed.

Lemma prelayout_dir v nodes dir :
  prelayout v nodes → dir ∈ fixed_dirs → nodes !! (dir ++ rl) = None → prelayout v (<[dir ++ rl := NDir]> nodes).
Proof.
  intros [Hr Hd Hl] Hdir Hn. split.
  - destruct (decide (dir ++ rl = rl)) as [->|Hne]; [by rewrite lookup_insert_eq|by rewrite lookup_insert_ne].
  - intros dir' data Hdir'. destruct (decide (dir ++ rl = dir' ++ rl)) as [<-|Hne];
      [by rewrite lookup_insert_eq|rewrite lookup_insert_ne by done; auto].
  - by rewrite complete_insert.
Qed.

(** Creating directories of the layout, each in its parent. *)
Lemma mkdirs_pre v nodes dir ns :
  prelayout v nodes → dir ∈ fixed_dirs → Forall plain ns →
  (∀ a b, ns = a ++ b → reverse a ++ dir ∈ fixed_dirs) →
  ∃ nodes', mkdirs nodes (dir ++ rl) ns = Ok nodes' ∧ prelayout v nodes' ∧ dirs_kept nodes nodes' ∧
    ∀ a b, ns = a ++ b → nodes' !! (reverse a ++ dir ++ rl) = Some NDir.
Proof.
  intros Hp Hdir Hns. revert nodes dir Hp Hdir. induction Hns as [|n ns Hn Hns IH]; intros nodes dir Hp Hdir Hin.
  all: set (nodes1 := match nodes !! (dir ++ rl) with None => <[dir ++ rl := NDir]> nodes | _ => nodes end).
  all: assert (prelayout v nodes1 ∧ dirs_kept nodes nodes1 ∧ nodes1 !! (dir ++ rl) = Some NDir) as (Hp1 & Hk1 & Hd1)
    by (unfold nodes1; destruct (nodes !! (dir ++ rl)) as [[data|]|] eqn:Hd;
        [by destruct (pl_dirs _ _ Hp dir data Hdir)|by split_and!; [|by intros ?|]|];
        split_and!; [by apply prelayout_dir|apply dirs_kept_insert; by rewrite Hd|apply lookup_insert_eq]).
  - exists nodes1. split_and!; [|done|done|].
    + cbn. unfold nodes1. destruct (nodes !! (dir ++ rl)) as [[data|]|] eqn:Hd; [|done..].
      by destruct (pl_dirs _ _ Hp dir data Hdir).
    + intros a b Hab. symmetry in Hab. by apply app_eq_nil in Hab as [-> ->].
  - destruct (IH nodes1 (n :: dir) Hp1) as (nodes' & Hm & Hp' & Hk' & Hd').
    { apply (Hin [n] ns). done. }
    { intros a b ->. specialize (Hin (n :: a) b eq_refl). by rewrite reverse_cons, <- app_assoc in Hin. }
    exists nodes'. split_and!; [|done| |].
    + cbn [mkdirs]. destruct (nodes !! (dir ++ rl)) as [[data|]|] eqn:Hd.
      { by destruct (pl_dirs _ _ Hp dir data Hdir). }
      all: unfold nodes1 in Hm; rewrite (pn_storable _ Hn), (bool_decide_false _ (pn_dotdot _ Hn)); exact Hm.
    + intros at_ Hat. auto.
    + intros [|x a] b Hab; [by apply Hk'|]. injection Hab as <- Hab.
      rewrite reverse_cons, <- app_assoc. by apply (Hd' a b).
Qed.

Definition pre v d : Prop := rooted root rl d ∧ prelayout v (dk_nodes d).

(** A directory of the layout: its path and its names. *)
Definition layout_path (q : rstr * list rstr) : Prop :=
  extends root q.1 q.2 ∧ Forall plain q.2 ∧ ∀ a b, q.2 = a ++ b → reverse a ∈ fixed_dirs.

Lemma create_dir_pre v q d r d' :
  layout_path q → pre v d → create_dir_all q.1 d = (r, d') →
  pre v d' ∧ dirs_kept (dk_nodes d) (dk_nodes d') ∧ (dk_faults d = [] → dk_faults d' = [] ∧ r = Ok tt) ∧
  (r = Ok tt → ∀ a b, q.2 = a ++ b → dk_nodes d' !! (reverse a ++ rl) = Some NDir).
Proof.
  intros ([Hc Hs] & Hns & Hfix) [Hr Hp] Hrun.
  destruct (sys_cases _ _ _ _ Hrun) as [Hm|([code ->] & -> & Hf)].
  2: { split_and!; [by split|by intros ?|done|done]. }
  destruct (mkdirs_pre v (dk_nodes d) [] q.2 Hp) as (nodes' & Hmk & Hp' & Hk & Hd); [by left|done| |].
  { intros a b Hab. rewrite app_nil_r. by eapply Hfix. }
  cbn [past_fault dk_nodes dk_cwd] in Hm. rewrite Hc, Hs in Hm.
  rewrite (mkdirs_walk _ _ _ _ rl Hr (pl_root _ _ Hp)) in Hm. cbn [app] in Hmk. rewrite Hmk in Hm.
  injection Hm as <- <-. split_and!; [|done| |done].
  - split; [|done]. unfold rooted. cbn. by eapply walk_kept.
  - cbn. by intros ->.
Qed.

Lemma create_all v qs d r d' :
  Forall layout_path qs → pre v d →
  for_each (map fst qs) tt (λ dir _, create_dir_all dir) d = (r, d') →
  pre v d' ∧ dirs_kept (dk_nodes d) (dk_nodes d') ∧ (dk_faults d = [] → dk_faults d' = [] ∧ r = Ok tt) ∧
  (r = Ok tt → ∀ q a b, q ∈ qs → q.2 = a ++ b → dk_nodes d' !! (reverse a ++ rl) = Some NDir).
Proof.
  intros Hqs. revert d. induction Hqs as [|q qs Hq Hqs IH]; intros d Hd; cbn [map for_each].
  { intros [= <- <-]. split_and!; [done|by intros ?|done|]. by intros _ q a b ?%not_elem_of_nil. }
  unfold mbind, SM_bind. destruct (create_dir_all q.1 d) as [[[]|e] d1] eqn:Hc;
    destruct (create_dir_pre v q d _ _ Hq Hd Hc) as (Hd1 & Hk1 & Hf1 & Hn1).
  - intros (Hd' & Hk' & Hf' & Hn')%IH; [|done]. split_and!; [done|by intros ? ?%Hk1%Hk'| |].
    + intros Hf. by apply Hf', Hf1.
    + intros Hr q' a b [->|Hin]%elem_of_cons Hab; [by eapply Hk', Hn1|by eapply Hn'].
  - intros [= <- <-]. split_and!; [done|done| |done]. intros Hf. by destruct (Hf1 Hf).
Qed.

Definition layout_names : list (list rstr) :=
  [[lit "objects"]; [lit "manifests"]; [lit "meta"; lit "layers"]; [lit "meta"; lit "index"];
   [lit "meta"; lit "builds"]; [lit "refs"; lit "tags"]; [lit "tmp"]].

Lemma layout_paths_ok : Forall layout_path (zip (layout_dirs root) layout_names).
Proof.
  assert (∀ x, plain x → extends root (join root x) [x]) as He1.
  { intros x Hx. apply (extends_join _ _ []); [done|apply extends_refl]. }
  assert (∀ x y, plain x → plain y → extends root (join (join root x) y) [x; y]) as He2.
  { intros x y Hx Hy. by apply (extends_join _ _ [x]); [|apply He1]. }
  assert (∀ x, plain x → [x] ∈ fixed_dirs → layout_path (join root x, [x])) as Hp1.
  { intros x Hx Hf. split_and!; [by apply He1|by apply Forall_singleton|].
    intros [|? [|? a]] b [= ]; subst; [by left|done]. }
  assert (∀ x y, plain x → plain y → [x] ∈ fixed_dirs → [y; x] ∈ fixed_dirs →
    layout_path (join (join root x) y, [x; y])) as Hp2.
  { intros x y Hx Hy Hf Hf2. split_and!; [by apply He2|by apply Forall_cons; split; [|apply Forall_singleton]|].
    intros [|? [|? [|? a]]] b [= ]; subst; [by left|done|done]. }
  repeat (constructor; [first [apply Hp1|apply Hp2]; try plain_lit; unfold fixed_dirs, listed_dirs; set_solver|]).
  constructor.
Qed.

Lemma fixed_dirs_created dir :
  dir ∈ fixed_dirs → ∃ q a b, q ∈ zip (layout_dirs root) layout_names ∧ q.2 = a ++ b ∧ dir = reverse a.
Proof.
  assert (∀ i q a, zip (layout_dirs root) layout_names !! i = Some q → q.2 = a ++ drop (length a) q.2 →
    ∃ q a' b, q ∈ zip (layout_dirs root) layout_names ∧ q.2 = a' ++ b ∧ reverse a = reverse a') as Hi.
  { intros i q a Hq Ha. exists q, a, (drop (length a) q.2). split; [by eapply list_elem_of_lookup_2|done]. }
  unfold fixed_dirs, listed_dirs. cbn [app]. rewrite !elem_of_cons, elem_of_nil.
  intros [->|[->|[->|[->|[->|[->|[->|[->|[->|[->|[]]]]]]]]]]].
  - by eapply (Hi 0 _ []).
  - by eapply (Hi 0 _ [lit "objects"]).
  - by eapply (Hi 2 _ [lit "meta"]).
  - by eapply (Hi 5 _ [lit "refs"]).
  - by eapply (Hi 6 _ [lit "tmp"]).
  - by eapply (Hi 3 _ [lit "meta"; lit "index"]).
  - by eapply (Hi 1 _ [lit "manifests"]).
  - by eapply (Hi 5 _ [lit "refs"; lit "tags"]).
  - by eapply (Hi 2 _ [lit "meta"; lit "layers"]).
  - by eapply (Hi 4 _ [lit "meta"; lit "builds"]).
Qed.

(** ** The sweep of [tmp] *)

Definition stored v d : Prop := at_root root rl v (mk_local root d).

(** No temporary file appears. *)
Definition tmp_shrinks d d' : Prop :=
  ∀ id, dk_nodes d !! tmp_loc rl id = None → dk_nodes d' !! tmp_loc rl id = None.

Lemma remove_tmp v id d r d' :
  stored v d → plain id → remove_file (tmp_path root id) d = (r, d') →
  stored v d' ∧ tmp_shrinks d d' ∧ (dk_faults d = [] → dk_faults d' = [] ∧ dk_nodes d' !! tmp_loc rl id = None).
Proof.
  intros Hd Hid Hrun. pose proof (at_root_past root rl v _ Hd) as Hp.
  destruct (sys_cases _ _ _ _ Hrun) as [Hc|([code ->] & -> & Hf)].
  2: { split_and!; [exact Hp|by intros ?|done]. }
  unfold mbind, SM_bind, tmp_path in Hc.
  change (past_fault d) with (lj_disk (past root (mk_local root d))) in Hc.
  rewrite (node_at_tmp root rl v _ id Hp Hid) in Hc. cbn [lj_disk past past_fault dk_nodes] in Hc.
  pose proof (ly_tmp _ _ _ (ar_layout _ _ _ _ Hd) id) as Hnd. cbn [lj_disk] in Hnd.
  destruct (dk_nodes d !! tmp_loc rl id) as [[data|]|] eqn:Hn; [|done|]; injection Hc as <- <-.
  - split_and!.
    + by apply (at_root_tmp root rl v _ id None _ Hp Hid).
    + intros id' Hid'. cbn. by apply lookup_delete_None; right.
    + cbn. intros ->. split; [done|]. apply lookup_delete_eq.
  - split_and!; [exact Hp|by intros ?|]. cbn. by intros ->.
Qed.

Lemma sweep_spec v entries d r d' :
  stored v d → Forall (λ e : rstr * Node, plain e.1) entries → sweep_tmp (join root (lit "tmp")) entries d = (r, d') →
  r = Ok tt ∧ stored v d' ∧ tmp_shrinks d d' ∧
  (dk_faults d = [] → dk_faults d' = [] ∧
     ∀ id data, (id, NFile data) ∈ entries → dk_nodes d' !! tmp_loc rl id = None).
Proof.
  intros Hd Hes. revert d Hd. induction Hes as [|[id node] entries Hid Hes IH]; intros d Hd; cbn [sweep_tmp];
    unfold mbind, SM_bind, attempt.
  { destruct (last_entry d) as [r1 d1] eqn:Hs. intros [= <- <-].
    assert (d1 = past_fault d) as ->.
    { destruct (sys_cases _ _ _ _ Hs) as [[= _ <-]|(_ & -> & _)]; done. }
    split_and!; [done|exact (at_root_past root rl v _ Hd)|by intros ?|].
    cbn. intros ->. split; [done|]. by intros ? ? ?%not_elem_of_nil. }
  cbn [fst] in Hid. pose proof (at_root_past root rl v _ Hd) as Hp.
  destruct (next_entry (id, node) d) as [r1 d1] eqn:Hs1.
  destruct (sys_cases _ _ _ _ Hs1) as [[= <- <-]|([code ->] & -> & Hf)].
  2: { intros [= <- <-]. split_and!; [done|exact Hp|by intros ?|done]. }
  destruct (entry_is_file (id, node) (past_fault d)) as [r2 d2] eqn:Hs2.
  assert (d2 = past_fault (past_fault d) ∧ (dk_faults d = [] → r2 = Ok (if node is NFile _ then true else false)))
    as [-> Hr2].
  { destruct (sys_cases _ _ _ _ Hs2) as [Hc|(_ & -> & Hf)]; [by injection Hc as <- <-|].
    split; [done|]. intros Hnil. destruct Hf. cbn. by rewrite Hnil. }
  set (d2 := past_fault (past_fault d)).
  assert (stored v d2) as Hd2 by exact (at_root_past root rl v _ Hp).
  assert (dk_faults d = [] → dk_faults d2 = []) as Hf2 by by cbn; intros ->.
  assert (∃ d3, (match r2 with
     | Ok true => attempt (F := IoError) (remove_file (join (join root (lit "tmp")) id)) ≫= λ _, mret tt
     | _ => mret tt end) d2 = (Ok tt, d3) ∧ stored v d3 ∧ tmp_shrinks d2 d3 ∧
     (dk_faults d = [] → dk_faults d3 = [] ∧ ∀ data, node = NFile data → dk_nodes d3 !! tmp_loc rl id = None))
    as (d3 & Hm & Hd3 & Hs3 & Hq3).
  { destruct r2 as [[]|e].
    2, 3: exists d2; split_and!; [done|done|by intros ?|]; intros Hnil; split; [auto|]; intros data ->;
          by specialize (Hr2 Hnil).
    destruct (remove_file (join (join root (lit "tmp")) id) d2) as [r3 d3] eqn:Hrm.
    destruct (remove_tmp v id d2 r3 d3 Hd2 Hid Hrm) as (? & ? & Hq). exists d3. split_and!; [|done..|].
    - unfold mbind, SM_bind, attempt. by rewrite Hrm.
    - intros Hnil. destruct (Hq (Hf2 Hnil)). auto. }
  fold d2. unfold mbind, SM_bind, attempt in Hm. cbn [fst]. rewrite Hm.
  intros (-> & Hd' & Hs' & Hq')%IH; [|done]. split_and!; [done|done| |].
  - intros x Hx. apply Hs', Hs3. exact Hx.
  - intros Hnil. destruct (Hq3 Hnil) as [Hf3 Hn3]. destruct (Hq' Hf3) as [Hf' Hn']. split; [done|].
    intros x data [[= -> <-]|Hin]%elem_of_cons; [|by eapply Hn']. apply Hs'. by eapply Hn3.
Qed.

(** ** Opening *)

Lemma open_pre v d r d' :
  pre v d → LocalJsonBackend_new root d = (r, d') →
  match r with
  | Ok b => b = mk_local root d' ∧ stored v d' ∧
      (dk_faults d = [] → dk_faults d' = [] ∧ ∀ id, dk_nodes d' !! tmp_loc rl id = None)
  | Err _ => dk_faults d ≠ []
  end.
Proof.
  intros Hd Hrun. unfold LocalJsonBackend_new in Hrun. unfold mbind, SM_bind in Hrun.
  change (layout_dirs root) with (map fst (zip (layout_dirs root) layout_names)) in Hrun.
  destruct (for_each _ tt _ d) as [r1 d1] eqn:Hloop.
  destruct (create_all v _ d r1 d1 layout_paths_ok Hd Hloop) as ((Hr1 & Hp1) & _ & Hf1 & Hn1).
  destruct r1 as [[]|e].
  2: { injection Hrun as <- <-. intros Hnil. by destruct (Hf1 Hnil). }
  assert (stored v d1) as Hst.
  { split; [done|done|]. cbn. rewrite <- (complete_id (dk_nodes d1)); [apply Hp1|].
    intros dir (q & a & b & Hq & Hab & ->)%fixed_dirs_created. by eapply Hn1. }
  unfold attempt in Hrun. destruct (read_dir (join root (lit "tmp")) d1) as [r2 d2] eqn:Hrd.
  assert (d2 = past_fault d1 ∧ (r2 = Ok (names_in (dk_nodes d1) (lit "tmp" :: rl)) ∨
    (∃ e, r2 = Err e) ∧ dk_faults d1 ≠ [])) as [-> Hr2].
  { destruct (sys_cases _ _ _ _ Hrd) as [Hc|([code ->] & -> & Hf)]; [|by eauto].
    pose proof (at_root_past root rl v _ Hst) as Hp. destruct (Hst) as [_ _ Hl]. cbn [lj_disk] in Hl.
    assert (node_at (join root (lit "tmp")) (past_fault d1) =
      (Ok (lit "tmp" :: rl, Some NDir), past_fault d1)) as Hn.
    { unfold node_at. rewrite (resolve_extends root rl (past_fault d1) _ [lit "tmp"] Hr1).
      2: { apply (extends_join _ _ []); [plain_lit|apply extends_refl]. }
      2: { apply join_entry. plain_lit. }
      rewrite walk_step; [|fixed_dir Hl|plain_lit]. cbn [walk].
      assert (dk_nodes d1 !! (lit "tmp" :: rl) = Some NDir) as Ht by fixed_dir Hl.
      cbn [past_fault dk_nodes]. by rewrite Ht. }
    rewrite Hn in Hc. injection Hc as <- <-. auto. }
  assert (stored v (past_fault d1)) as Hst2 by exact (at_root_past root rl v _ Hst).
  destruct Hr2 as [->|[[e ->] Hf]].
  - destruct (sweep_tmp _ _ (past_fault d1)) as [r3 d3] eqn:Hsw.
    destruct (sweep_spec v _ _ _ _ Hst2 ltac:(apply Forall_forall; intros [id node] Hin;
      apply names_in_elem in Hin; apply (ly_tmp_name _ _ _ (ar_layout _ _ _ _ Hst)); by eexists) Hsw)
      as (-> & Hd3 & Hs3 & Hq3).
    injection Hrun as <- <-. split; [done|]. split; [done|]. intros Hnil. destruct (Hf1 Hnil) as [Hf _].
    destruct (Hq3 ltac:(by cbn; rewrite Hf)) as [Hf3 Hn3]. split; [done|]. intros id.
    destruct (dk_nodes d1 !! tmp_loc rl id) as [[data|]|] eqn:Hn.
    + apply (Hn3 id data). by apply names_in_elem.
    + by destruct (ly_tmp _ _ _ (ar_layout _ _ _ _ Hst) id).
    + by apply Hs3.
  - injection Hrun as <- <-. split; [done|]. split; [done|]. intros Hnil. by destruct Hf, (Hf1 Hnil).
Qed.

(** An opening that fails leaves the store as it was. *)
Lemma open_fails v d e d' : pre v d → LocalJsonBackend_new root d = (Err e, d') → pre v d'.
Proof.
  intros Hd Hrun. unfold LocalJsonBackend_new, mbind, SM_bind in Hrun.
  change (layout_dirs root) with (map fst (zip (layout_dirs root) layout_names)) in Hrun.
  destruct (for_each _ tt _ d) as [[[]|e1] d1] eqn:Hloop.
  - exfalso. unfold attempt in Hrun. destruct (read_dir _ d1) as [[es|] d2]; [|done].
    assert (∀ es d, fst (sweep_tmp (join root (lit "tmp")) es d) = Ok tt) as Hsw.
    { clear. intros es. induction es as [|x es IH]; intros d; cbn [sweep_tmp]; unfold mbind, SM_bind, attempt.
      - by destruct (last_entry d).
      - destruct (next_entry x d) as [[y|] d1]; [|done]. destruct (entry_is_file y d1) as [[[]|] d2]; try apply IH.
        destruct (remove_file _ d2) as [? d3]. apply IH. }
    specialize (Hsw es d2). destruct (sweep_tmp _ es d2) as [r3 d3]. cbn in Hsw. by rewrite Hsw in Hrun.
  - injection Hrun as _ <-. by destruct (create_all v _ d _ d1 layout_paths_ok Hd Hloop) as (? & _).
Qed.
End Open.
