(* ===== verification/BackendSim.v ===== *)
(** * fs-storage: backends as implementations of one specification

    A sequence of backend operations, run on any backend that meets the
    contract, gives the answers of the abstract store; so two backends that
    store the same maps cannot be told apart. *)

From S2P Require Import Prelude RustStd AsyncIo StoreTypes Backend.

Inductive BOp :=
| OHas (h : ContentHash) (f : ArtifactFormat)
| OGet (h : ContentHash) (f : ArtifactFormat)
| OPut (h : ContentHash) (f : ArtifactFormat) (data : bytes)
| ODel (h : ContentHash) (f : ArtifactFormat)
| OPutMeta (k : rstr) (x : bytes)
| OGetMeta (k : rstr)
| OListMeta (p : rstr)
| ODelMeta (k : rstr).

Inductive Out :=
| OutBool (r : result StoreError bool)
| OutBlob (r : result StoreError bytes)
| OutUnit (r : result StoreError unit)
| OutMeta (r : result StoreError (option bytes))
| OutKeys (r : result StoreError (list rstr)).

Definition map_ok {E A C} (f : A → C) (r : result E A) : result E C :=
  match r with Ok a => Ok (f a) | Err e => Err e end.

(** One operation on a backend; a blob is written from memory. *)
Definition run_op `{StorageBackend B} (op : BOp) (b : B) : Out * B :=
  match op with
  | OHas h f => let '(r, b') := has_blob h f b in (OutBool r, b')
  | OGet h f => let '(r, b') := get_blob h f b in (OutBlob (map_ok cur_rest r), b')
  | OPut h f data => let '(r, _, b') := put_blob h f {| cur_rest := data |} b in (OutUnit r, b')
  | ODel h f => let '(r, b') := delete_blob h f b in (OutUnit r, b')
  | OPutMeta k x => let '(r, b') := put_meta k x b in (OutUnit r, b')
  | OGetMeta k => let '(r, b') := get_meta k b in (OutMeta r, b')
  | OListMeta p => let '(r, b') := list_meta p b in (OutKeys r, b')
  | ODelMeta k => let '(r, b') := delete_meta k b in (OutUnit r, b')
  end.

Fixpoint run_ops `{StorageBackend B} (ops : list BOp) (b : B) : list Out * B :=
  match ops with
  | [] => ([], b)
  | op :: ops => let '(o, b1) := run_op op b in let '(os, b2) := run_ops ops b1 in (o :: os, b2)
  end.

(** ** The specification *)

Definition view_op (op : BOp) (v : StoreView) : StoreView :=
  match op with
  | OPut h f data => view_put_blob h f data v
  | ODel h f => view_delete_blob h f v
  | OPutMeta k x => view_put_meta k x v
  | ODelMeta k => view_delete_meta k v
  | _ => v
  end.

Definition view_out (op : BOp) (v : StoreView) : Out :=
  match op with
  | OHas h f => OutBool (Ok (bool_decide (is_Some (sv_blobs v !! (h, f)))))
  | OGet h f => OutBlob (ok_or (sv_blobs v !! (h, f)) NotFound)
  | OGetMeta k => OutMeta (Ok (sv_metas v !! k))
  | OListMeta p =>
      OutKeys (Ok (filter (λ k, starts_with k p = true) (map fst (map_to_list (sv_metas v)))))
  | _ => OutUnit (Ok tt)
  end.

Fixpoint view_outs (ops : list BOp) (v : StoreView) : list Out :=
  match ops with [] => [] | op :: ops => view_out op v :: view_outs ops (view_op op v) end.

(** The same answer, keys in any order. *)
Inductive same_out : Out → Out → Prop :=
| same_refl o : same_out o o
| same_keys ks ks' : ks ≡ₚ ks' → same_out (OutKeys (Ok ks)) (OutKeys (Ok ks')).

#[export] Instance same_out_equiv : Equivalence same_out.
Proof.
  split.
  - intros o. constructor.
  - intros ? ? []; [constructor|]. constructor. by symmetry.
  - intros ? ? ? [] Hs; [done|]. inversion Hs; subst; constructor; [done|]. by etrans.
Qed.

(** Operations as the layer store makes them: keys the backend stores
    faithfully, and content addressing (what is put under a stored hash is
    what is stored). *)
Definition op_ok (keys : rstr → Prop) (op : BOp) (v : StoreView) : Prop :=
  match op with
  | OPut h f data => ∀ old, sv_blobs v !! (h, f) = Some old → old = data
  | OPutMeta k _ | OGetMeta k | ODelMeta k => keys k
  | OListMeta p => p ∈ list_prefixes
  | _ => True
  end.

Fixpoint ops_ok (keys : rstr → Prop) (ops : list BOp) (v : StoreView) : Prop :=
  match ops with [] => True | op :: ops => op_ok keys op v ∧ ops_ok keys ops (view_op op v) end.

Lemma ops_ok_mono (P Q : rstr → Prop) ops v : (∀ k, P k → Q k) → ops_ok P ops v → ops_ok Q ops v.
Proof.
  intros HPQ. revert v. induction ops as [|op ops IH]; intros v; [done|]. cbn.
  intros [Ho Hs]. split; [|auto]. destruct op; cbn in *; auto.
Qed.

Section Simulation.
Context {B : Type} `{BackendOk B}.

Lemma list_out p (b : B) v r b' :
  rep b v → calm b → p ∈ list_prefixes → list_meta p b = (r, b') →
  rep b' v ∧ calm b' ∧ same_out (OutKeys r) (view_out (OListMeta p) v).
Proof.
  intros Hr Hc Hp Hrun. destruct (list_meta_ok p b v r b' Hr Hp Hrun) as (Hr' & Hcalm & _ & Hks).
  destruct (Hcalm Hc) as [Hc' [ks ->]]. split; [done|]. split; [done|].
  destruct (Hks ks eq_refl) as [Hnd Hin]. constructor. apply NoDup_Permutation; [done| |].
  - apply NoDup_filter, NoDup_fst_map_to_list.
  - intros k. rewrite Hin, list_elem_of_filter.
    setoid_rewrite (list_elem_of_fmap fst (map_to_list (sv_metas v)) k). split.
    + intros [[x Hx] Hs]. split; [done|]. exists (k, x). by rewrite elem_of_map_to_list.
    + intros (Hs & [k' x] & -> & Hx%elem_of_map_to_list). cbn. eauto.
Qed.

Lemma put_out h f data (b : B) v r rd' b' :
  rep b v → calm b → (∀ old, sv_blobs v !! (h, f) = Some old → old = data) →
  put_blob h f {| cur_rest := data |} b = (r, rd', b') →
  rep b' (view_put_blob h f data v) ∧ calm b' ∧ r = Ok tt.
Proof.
  intros Hr Hc Hold Hrun. destruct (put_blob_ok _ h f _ b v r rd' b' Hr Hrun) as (Hcalm & _ & Hput).
  destruct (Hcalm Hc) as [Hc' Hok]. destruct r as [[]|e].
  - destruct Hput as (bs & Hr' & Hbs). assert (bs = data) as ->; [|done].
    destruct Hbs as [Hb|Hd]; [by apply Hold|]. by destruct (Cursor_drains _ _ _ _ Hd) as (-> & _).
  - destruct Hok as [[? [=]]|(bs & e' & Hd)]. by destruct (Cursor_drains _ _ _ _ Hd) as (_ & [=] & _).
Qed.

(** A calm backend answers one operation as the specification does. *)
Lemma run_op_spec op (b : B) v o b' :
  rep b v → calm b → op_ok key_ok op v → run_op op b = (o, b') →
  rep b' (view_op op v) ∧ calm b' ∧ same_out o (view_out op v).
Proof.
  intros Hr Hc Hop Hrun. destruct op as [h f|h f|h f data|h f|k x|k|p|k]; cbn in Hop, Hrun |- *.
  - destruct (has_blob h f b) as [r b1] eqn:Hx. injection Hrun as <- <-.
    destruct (has_blob_ok h f b v r b1 Hr Hx) as (Hr' & _ & Hcalm & Hres).
    destruct (Hcalm Hc) as [Hc' [y ->]]. rewrite (Hres y eq_refl). by split_and!.
  - destruct (get_blob h f b) as [r b1] eqn:Hx. injection Hrun as <- <-.
    destruct (get_blob_ok h f b v r b1 Hr Hx) as (Hr' & Hcalm & Hres). split; [done|]. split; [auto|].
    destruct (sv_blobs v !! (h, f)) as [bs|]; [|by destruct Hres as [->|[? _]]].
    destruct Hres as (_ & Hok & Hcur). destruct (Hok Hc) as [c ->]. cbn. by rewrite (Hcur c eq_refl).
  - destruct (put_blob h f {| cur_rest := data |} b) as [[r rd] b1] eqn:Hx. injection Hrun as <- <-.
    destruct (put_out h f data b v r rd b1 Hr Hc Hop Hx) as (? & ? & ->). by split_and!.
  - destruct (delete_blob h f b) as [r b1] eqn:Hx. injection Hrun as <- <-.
    destruct (delete_blob_ok h f b v r b1 Hr Hx) as (Hcalm & _ & Hres).
    destruct (Hcalm Hc) as [Hc' [[] ->]]. by split_and!.
  - destruct (put_meta k x b) as [r b1] eqn:Hx. injection Hrun as <- <-.
    destruct (put_meta_ok k x b v r b1 Hr Hop Hx) as (Hcalm & _ & Hres).
    destruct (Hcalm Hc) as [Hc' [[] ->]]. by split_and!.
  - destruct (get_meta k b) as [r b1] eqn:Hx. injection Hrun as <- <-.
    destruct (get_meta_ok k b v r b1 Hr Hop Hx) as (Hr' & Hcalm & _ & Hres).
    destruct (Hcalm Hc) as [Hc' [y ->]]. rewrite (Hres y eq_refl). by split_and!.
  - destruct (list_meta p b) as [r b1] eqn:Hx. injection Hrun as <- <-. by apply (list_out p b).
  - destruct (delete_meta k b) as [r b1] eqn:Hx. injection Hrun as <- <-.
    destruct (delete_meta_ok k b v r b1 Hr Hop Hx) as (Hcalm & _ & Hres).
    destruct (Hcalm Hc) as [Hc' [[] ->]]. by split_and!.
Qed.

Lemma run_ops_spec ops (b : B) v os b' :
  rep b v → calm b → ops_ok key_ok ops v → run_ops ops b = (os, b') →
  Forall2 same_out os (view_outs ops v) ∧ calm b' ∧ rep b' (foldl (λ v op, view_op op v) v ops).
Proof.
  revert b v os. induction ops as [|op ops IH]; intros b v os Hr Hc; cbn; [by intros _ [= <- <-]|].
  intros [Hop Hops]. destruct (run_op op b) as [o b1] eqn:H1. destruct (run_ops ops b1) as [os1 b2] eqn:H2.
  intros [= <- <-]. destruct (run_op_spec op b v o b1 Hr Hc Hop H1) as (Hr1 & Hc1 & Ho).
  destruct (IH b1 _ os1 Hr1 Hc1 Hops H2) as (? & ? & ?). by split; [constructor|].
Qed.
End Simulation.
