(* ===== verification/LocalTheorems.v ===== *)
(** * fs-storage: theorems on the local backend

    Opening a directory recovers the store in it; the backend answers like the
    in-memory one; the layer store's own keys are among those it stores
    faithfully, and what happens to other keys. *)

From S2P Require Import Prelude RustStd AsyncIo StoreTypes Crates Backend MemoryBackend LayerStore StoreLogic StoreBlobs StoreMeta StoreGc Instances StoreTheorems FileSys LocalBackend LocalRep LocalOk LocalKeys LocalOpen BackendSim Proto Server.

#[local] Existing Instance loop_copy.
#[local] Existing Instance loop_copy_ok.

(** ** Opening *)

Section Opening.
Context `{UuidOk, HexOk}.

(** The directory at [root] holds nothing yet. *)
Definition empty_root (root : rstr) (d : Disk) : Prop :=
  ∃ rl, rooted root rl d ∧ dk_nodes d !! rl = Some NDir ∧
    ∀ l, l ≠ [] → dk_nodes d !! (l ++ rl) = None.

Lemma layout_below rl nodes v : layout rl nodes v → prelayout rl v nodes.
Proof.
  intros Hl. split; [by apply (ly_dirs _ _ _ Hl []); left| |].
  - intros dir data Hdir. by rewrite (ly_dirs _ _ _ Hl dir Hdir).
  - rewrite complete_id; [done|]. apply (ly_dirs _ _ _ Hl).
Qed.

(** Not one of the fixed directories. *)
Ltac not_fixed := unfold fixed_dirs, listed_dirs; cbn [app]; rewrite !not_elem_of_cons; split_and!;
  try (by intros ?; simplify_eq); apply not_elem_of_nil.

Lemma empty_prelayout rl nodes :
  nodes !! rl = Some NDir → (∀ l, l ≠ [] → nodes !! (l ++ rl) = None) → prelayout rl (mk_view ∅ ∅) nodes.
Proof.
  intros Hr Hn. assert (∀ l, l ∉ fixed_dirs → complete rl nodes !! (l ++ rl) = None) as Hc.
  { intros l Hl. apply lookup_union_None. split.
    - destruct (fixed_map rl !! (l ++ rl)) as [x|] eqn:Hx; [|done].
      apply fixed_map_Some in Hx as (_ & dir & Hdir & Heq%(inj (.++ rl))). by subst.
    - apply Hn. intros ->. apply Hl. by left. }
  assert (∀ x y, [x; y] ∉ fixed_dirs → complete rl nodes !! (x :: y :: rl) = None) as Hc2
    by (intros x y; apply (Hc [x; y])).
  split; [done| |split; cbn [sv_blobs sv_metas]].
  - intros dir data Hdir. destruct dir as [|x dir]; [cbn; by rewrite Hr|by rewrite Hn].
  - intros dir Hdir. by apply lookup_union_Some_l, fixed_map_dir.
  - intros x data. rewrite Hc2; [done|]. not_fixed.
  - intros h f. rewrite lookup_empty. apply (Hc [blob_name h f; shard h; lit "objects"]).
    not_fixed.
  - intros h f. rewrite lookup_empty. by intros [? [=]].
  - intros k l Hk. rewrite lookup_empty. apply Hc. destruct Hk; not_fixed.
  - intros k. rewrite lookup_empty. by intros [? [=]].
  - intros dir n data Hdir. rewrite (Hc (n :: dir)); [done|].
    unfold listed_dirs in Hdir. rewrite !elem_of_cons, elem_of_nil in Hdir.
    destruct Hdir as [->|[->|[->|[->|[]]]]]; not_fixed.
  - intros id. unfold tmp_loc. rewrite Hc2; [done|]. not_fixed.
  - intros id. unfold tmp_loc. rewrite Hc2; [by intros [? [=]]|]. not_fixed.
Qed.

(** A directory with a store, or an empty one, can be opened. *)
Lemma start_pre root d v :
  local_rep (mk_local root d) v ∨ empty_root root d ∧ v = mk_view ∅ ∅ → ∃ rl, pre root rl v d.
Proof.
  intros [[rl [_ Hro Hl]]|[(rl & Hro & Hr & Hn) ->]]; exists rl; (split; [done|]).
  - by apply layout_below.
  - by apply empty_prelayout.
Qed.

(** [C20] Opening recovers the store.  On a directory that holds a store, with
    whatever files interrupted writes left in [tmp], or on an empty directory,
    opening gives a backend with exactly that store (the empty one); it fails
    only if the disk does, and on a sound disk no temporary file is left. *)
Theorem local_open_recovers root d v r d' :
  local_rep (mk_local root d) v ∨ empty_root root d ∧ v = mk_view ∅ ∅ →
  LocalJsonBackend_new root d = (r, d') →
  match r with
  | Ok b => b = mk_local root d' ∧ local_rep b v
  | Err _ => dk_faults d ≠ []
  end ∧
  (dk_faults d = [] → dk_faults d' = [] ∧
     ∀ rl id, rooted root rl d' → dk_nodes d' !! tmp_loc rl id = None).
Proof.
  intros (rl & Hpre)%start_pre Hrun.
  pose proof (open_pre root rl v d r d' Hpre Hrun) as Hopen. destruct r as [b|e].
  - destruct Hopen as (-> & Hst & Hq). split; [split; [done|by exists rl]|].
    intros Hnil. destruct (Hq Hnil) as [Hf Ht]. split; [done|]. intros rl' id Hro.
    assert (rl' = rl) as -> by (destruct Hst as [_ Hro' _]; unfold rooted in *; cbn in *; congruence).
    apply Ht.
  - split; [done|]. intros Hnil. done.
Qed.
End Opening.

(** ** Refinement *)

Section Refinement.
Context `{UuidOk, HexOk}.

(** [C9] The local backend refines the in-memory one.  On a sound disk that
    stores the maps [v], every sequence of operations that uses only keys the
    backend has a file for, lists only the prefixes the store lists, and writes
    under a stored hash only what is stored there (the local backend skips such a
    write, the in-memory one repeats it)
    gives the answers the in-memory backend gives from the same maps, up to
    the order of listings, and both end with the same maps. *)
Theorem local_refines_memory (b : LocalJsonBackend) v ops :
  rep b v → calm b → ops_ok (key_ok (B := LocalJsonBackend)) ops v →
  let '(os, b') := run_ops ops b in
  let '(os_mem, m') := run_ops ops (mk_mem (sv_blobs v) (sv_metas v)) in
  Forall2 same_out os os_mem ∧ rep b' (mk_view (mem_blobs m') (mem_meta m')).
Proof.
  intros Hr Hc Hops. destruct (run_ops ops b) as [os b'] eqn:Hb.
  destruct (run_ops ops (mk_mem _ _)) as [os_mem m'] eqn:Hm.
  destruct (run_ops_spec ops b v os b' Hr Hc Hops Hb) as (Ho & _ & Hr').
  destruct (run_ops_spec ops (mk_mem (sv_blobs v) (sv_metas v)) v os_mem m') as (Hom & _ & Hrm); [..|exact Hm|].
  { by destruct v. }
  { exact I. }
  { by eapply ops_ok_mono, Hops. }
  split; [|by rewrite <- Hrm]. etrans; [exact Ho|]. by symmetry.
Qed.
End Refinement.

(** ** Keys *)

(** The layer store's index, layer and manifest keys are stored faithfully. *)
#[export] Instance local_keys `{CratesOk, UuidOk} : StoreKeys LocalJsonBackend.
Proof. split; [apply index_key_file|apply layer_key_file|apply manifest_key_file]. Qed.

(** ** Names that are paths *)

Lemma tag_path_absolute root name :
  starts_with name (lit "/") = true → get_meta_file_path root (tag_key name) = name.
Proof.
  intros Hn. change (get_meta_file_path root (tag_key name))
    with (join (join (join root (lit "refs")) (lit "tags")) name).
  generalize (join (join root (lit "refs")) (lit "tags")). intros dir. unfold join. by rewrite Hn.
Qed.

(** [C33] A tag request reads any file of the host.  Tag names are checked when
    a tag is created, not when it is looked up: a request for the tag [name],
    an absolute path, reads the file at that path, and if it is text other
    than a hash, the status message of the answer contains it. *)
Theorem get_tag_discloses `{Crates, IoText, UuidGen} root d name data text d' :
  starts_with name (lit "/") = true → read_file name d = (Ok data, d') →
  from_utf8 data = Some text → ContentHash_from_str (trim text) = Err (InvalidHash (trim text)) →
  serve_get_tag name (mk_local root d) =
    (Err (RStatus {| sta_code := InvalidArgument; sta_message := lit "Invalid hash: " ++ trim text |}),
     mk_local root d').
Proof.
  intros Hn Hread Htext Hhash.
  assert (get_tag name (mk_local root d) = (Err (InvalidHash (trim text)), mk_local root d')) as Hget.
  { unfold get_tag, mbind, SM_bind. cbn [get_meta LocalJsonBackend_storage].
    unfold lj_get_meta, or_missing, mbind, SM_bind, attempt, fs_call. cbn [ask_root lj_root lj_disk].
    rewrite tag_path_absolute, Hread by done. cbn. rewrite Htext. cbn. unfold lift. by rewrite Hhash. }
  unfold serve_get_tag, mbind, SM_bind, call, SM_map_err. by rewrite Hget.
Qed.

(** ** Runs on a disk *)

Section Demo.
Import StoreTheorems.Demo.
Local Existing Instances ref_crates ref_crates_ok.
Local Instance disk_io : IoText := λ _, lit "io".

(** Uuids need not differ when operations follow one another. *)
Local Instance demo_uuid : UuidGen := λ _, repeat 48%N 36.
Local Instance demo_uuid_ok : UuidOk.
Proof. intros n. split; [done|]. apply Forall_forall. intros c ->%list_elem_of_In%repeat_spec. by left. Qed.

(** An empty directory [/data], and a text file elsewhere. *)
Definition demo_nodes : gmap Loc Node :=
  <[[] := NDir]> (<[[lit "data"] := NDir]> (<[[lit "etc"] := NDir]>
    {[ [lit "passwd"; lit "etc"] := NFile (as_bytes (lit "root:x:0:0")) ]})).
Definition demo_disk (faults : list (option Fault)) : Disk :=
  {| dk_nodes := demo_nodes; dk_cwd := []; dk_faults := faults; dk_uuids := 0 |}.

Lemma demo_empty : empty_root (lit "/data") (demo_disk []).
Proof.
  exists [lit "data"]. split_and!; [reflexivity..|]. intros l Hl. unfold demo_disk, demo_nodes. cbn [dk_nodes].
  destruct l as [|x [|y l]]; [done|..]; cbn [app].
  - repeat (rewrite lookup_insert_ne; [|by intros ?; simplify_eq]). by rewrite lookup_singleton_ne by (by intros ?; simplify_eq).
  - repeat (rewrite lookup_insert_ne; [|by intros ?; simplify_eq]).
    rewrite lookup_singleton_ne; [done|]. intros Heq. apply (f_equal length) in Heq. cbn in Heq.
    rewrite length_app in Heq. cbn in Heq. lia.
Qed.

(** The disk after opening. *)
Definition demo_opened : Disk :=
  Eval vm_compute in snd (LocalJsonBackend_new (lit "/data") (demo_disk [])).
Definition demo_local : LocalJsonBackend := mk_local (lit "/data") demo_opened.
Lemma demo_open : LocalJsonBackend_new (lit "/data") (demo_disk []) = (Ok demo_local, demo_opened).
Proof. vm_compute. reflexivity. Qed.

Lemma local_open_recovers_witness :
  LocalJsonBackend_new (lit "/data") (demo_disk []) = (Ok demo_local, demo_opened) ∧
  local_rep demo_local (mk_view ∅ ∅).
Proof.
  split; [exact demo_open|].
  exact (proj2 (proj1 (local_open_recovers (lit "/data") (demo_disk []) (mk_view ∅ ∅) (Ok demo_local) demo_opened
    (or_intror (conj demo_empty eq_refl)) demo_open))).
Defined.

Lemma demo_local_rep : rep demo_local (mk_view ∅ ∅) ∧ calm demo_local.
Proof.
  destruct (demo_empty) as (rl & Hro & Hr & Hn).
  assert (pre (lit "/data") rl (mk_view ∅ ∅) (demo_disk [])) as Hpre by (split; [done|by apply empty_prelayout]).
  destruct (open_pre (lit "/data") rl _ _ _ _ Hpre demo_open) as (_ & Hst & Hq).
  split; [by exists rl|]. by apply Hq.
Qed.

Definition demo_ops : list BOp :=
  [OPut ch1 Deploy deploy; OHas ch1 Deploy; OGet ch1 Deploy; OGet ch2 Deploy;
   OPutMeta (lit "tags/v1") cache; OListMeta (lit "tags/"); OPut ch1 Deploy deploy; ODel ch1 Deploy;
   OGetMeta (lit "tags/v1"); ODelMeta (lit "tags/v1"); OListMeta (lit "tags/")].

Lemma local_refines_memory_witness :
  Forall2 same_out (fst (run_ops demo_ops demo_local)) (fst (run_ops demo_ops InMemoryBackend_new)).
Proof.
  assert (lj_key (lit "tags/v1") [lit "v1"; lit "tags"; lit "refs"]) as Hk.
  { apply (key_tag (lit "v1")); [plain_lit|reflexivity]. }
  pose proof (local_refines_memory demo_local (mk_view ∅ ∅) demo_ops (proj1 demo_local_rep) (proj2 demo_local_rep)) as Href.
  destruct (run_ops demo_ops demo_local) as [os b']. destruct (run_ops demo_ops InMemoryBackend_new) as [om m'] eqn:Hm.
  change InMemoryBackend_new with (mk_mem (sv_blobs (mk_view ∅ ∅)) (sv_metas (mk_view ∅ ∅))) in Hm.
  rewrite Hm in Href. apply Href. unfold demo_ops. cbn [ops_ok op_ok].
  assert (key_ok (B := LocalJsonBackend) (lit "tags/v1")) as Hkey by (eexists; exact Hk).
  assert (lit "tags/" ∈ list_prefixes) as Hp by (right; left).
  split; [intros old Hold; vm_compute in Hold; discriminate|]. do 3 (split; [exact I|]).
  split; [exact Hkey|]. split; [exact Hp|].
  split; [intros old Hold; vm_compute in Hold; injection Hold as <-; reflexivity|].
  split; [exact I|]. split; [exact Hkey|]. split; [exact Hkey|]. split; [exact Hp|exact I].
Defined.

Lemma get_tag_discloses_witness :
  fst (serve_get_tag (lit "/etc/passwd") demo_local) =
  Err (RStatus {| sta_code := InvalidArgument; sta_message := lit "Invalid hash: root:x:0:0" |}).
Proof.
  exact (f_equal fst (get_tag_discloses (lit "/data") demo_opened (lit "/etc/passwd")
    (as_bytes (lit "root:x:0:0")) (lit "root:x:0:0") (past_fault demo_opened)
    ltac:(vm_compute; reflexivity) ltac:(vm_compute; reflexivity) ltac:(vm_compute; reflexivity)
    ltac:(vm_compute; reflexivity))).
Defined.

(** A failed write leaves its temporary file until the next start. *)
Definition demo_torn : LocalJsonBackend :=
  snd (put_meta (lit "tags/v1") cache
         (mk_local (lit "/data") {| dk_nodes := dk_nodes demo_opened; dk_cwd := [];
            dk_faults := [None; None; Some {| ft_code := 28; ft_done := 3 |}]; dk_uuids := 0 |})).
Example torn_write_left :
  length (names_in (dk_nodes (lj_disk demo_torn)) [lit "tmp"; lit "data"]) = 1 ∧
  fst (get_meta (lit "tags/v1") demo_torn) = Ok None ∧
  names_in (dk_nodes (snd (LocalJsonBackend_new (lit "/data") (lj_disk demo_torn)))) [lit "tmp"; lit "data"] = [].
Proof. vm_compute. auto. Qed.

(** A tag whose name ends in [.json] is stored and then listed without it. *)
Example json_tag_lost :
  fst (list_tags (snd (put_meta (tag_key (lit "v1.json")) (as_bytes (ContentHash_to_string ch1)) demo_local))) = Ok [] ∧
  fst (get_tag (lit "v1.json") (snd (put_meta (tag_key (lit "v1.json")) (as_bytes (ContentHash_to_string ch1)) demo_local)))
    = Ok ch1.
Proof. vm_compute. auto. Qed.
End Demo.
