(* ===== verification/Service.v ===== *)
(** * fs-storage: the running service

    The store as a process: requests arrive and their calls interleave in any
    order, any call may meet an I/O fault, the process may be killed between
    any two calls and is started again on the directory it left.  Only what is
    on disk survives a kill; a write that was cut short leaves the part the
    fault let through.

    The disk keeps what was written and renamed when the process dies; losing
    power, and with it what the disk had not stored, is another matter. *)

From S2P Require Import Prelude RustStd AsyncIo StoreTypes Crates Backend Tasks LayerStore StoreLogic StoreBlobs FileSys LocalBackend LocalTasks StoreTasks LocalRep LocalOk LocalKeys LocalEffects LocalRG RequestsOk LocalOpen StoreTheorems LocalTheorems.

#[local] Existing Instance loop_copy.
#[local] Existing Instance loop_copy_ok.

Section Service.
Context `{!UuidGen, !Crates} (root : rstr).
Local Abbreviation T := (Task LocalJsonBackend StoreError).

(** The functions of the store the server and its administrator use, with any
    arguments; tags and build ids the backend has a file for.  [gc]: whether
    an administrator collects garbage while the service is up.  Neither an RPC
    nor a program of the repository calls [gc_execute]; it is part of the
    library, and such a run is one of a program that uses it on the store. *)
Inductive request (gc : bool) : ∀ A, T A → Prop :=
| rq_publish_layer {RD RC} `{AsyncReadOk RD, AsyncReadOk RC} (dr : RD) (cr : RC) meta :
    request gc _ (publish_layer_task root dr cr meta)
| rq_publish_layer_concurrent {RD RC} `{AsyncReadOk RD, AsyncReadOk RC} (dr : RD) (cr : RC) meta :
    request gc _ (publish_layer_concurrent_task root dr cr meta)
| rq_resolve ih : request gc _ (resolve_input_hash_task root ih)
| rq_has_layer h : request gc _ (has_layer_task root h)
| rq_pull h f : request gc _ (pull_layer_task root h f)
| rq_publish_manifest now uuid m :
    (∃ l, lj_key (build_key (build_id_of now uuid)) l) → request gc _ (publish_manifest_task root now uuid m)
| rq_get_manifest h : request gc _ (get_manifest_task root h)
| rq_list_builds filter : request gc _ (list_builds_task root filter)
| rq_create_tag name h : (∃ l, lj_key (tag_key name) l) → request gc _ (create_tag_task root name h)
| rq_get_tag name : request gc _ (get_tag_task root name)
| rq_delete_tag name : (∃ l, lj_key (tag_key name) l) → request gc _ (delete_tag_task root name)
| rq_gc_execute report : gc = true → request gc _ (gc_execute_task root report).

(** A request under way. *)
Definition Job : Type := {A : Type & T A}.
Definition job {A} (t : T A) : Job := existT A t.

Inductive Process := Up (b : LocalJsonBackend) (jobs : list Job) | Down (d : Disk).

Definition with_faults (fs : list (option Fault)) (d : Disk) : Disk :=
  {| dk_nodes := dk_nodes d; dk_cwd := dk_cwd d; dk_faults := fs; dk_uuids := dk_uuids d |}.

Inductive process_step (gc : bool) : Process → Process → Prop :=
| sv_arrive b jobs A (t : T A) : request gc A t → process_step gc (Up b jobs) (Up b (jobs ++ [job t]))
| sv_run b jobs (i : nat) A (t t' : T A) b' :
    jobs !! i = Some (job t) → tstep t b t' b' → process_step gc (Up b jobs) (Up b' (<[i := job t']> jobs))
| sv_fault b jobs fs : process_step gc (Up b jobs) (Up (mk_local (lj_root b) (with_faults fs (lj_disk b))) jobs)
| sv_kill b jobs : process_step gc (Up b jobs) (Down (lj_disk b))
| sv_boot d fs b d' :
    LocalJsonBackend_new root (with_faults fs d) = (Ok b, d') → process_step gc (Down d) (Up b [])
| sv_boot_fails d fs e d' :
    LocalJsonBackend_new root (with_faults fs d) = (Err e, d') → process_step gc (Down d) (Down d').

(** The identifiers drawn since the store was made. *)
Definition draws (p : Process) : nat :=
  match p with Up b _ => dk_uuids (lj_disk b) | Down d => dk_uuids d end.

(** A step of a run that draws no more than [limit] identifiers. *)
Definition service_step (gc : bool) (limit : nat) (p p' : Process) : Prop := process_step gc p p' ∧ draws p' ≤ limit.
End Service.

Section Safety.
Context `{!UuidGen, !UuidOk, !Crates, !CratesOk} (root : rstr) (rl : Loc) (limit : nat) `{!UuidFresh limit}.
Local Abbreviation T := (Task LocalJsonBackend StoreError).
Local Abbreviation ok := (ok (H := local_rg root rl limit)).
Implicit Types (X : InputHash → Prop).

Lemma request_ok A (t : T A) b : request root false A t → ok t ∅ b any.
Proof.
  intros Hr. destruct Hr.
  - by apply ok_publish_layer.
  - by apply ok_publish_layer_concurrent.
  - apply ok_any; [apply ok_get_meta|done|]. intros [data|] O b'; [|done].
    apply ok_bind, ok_lift. destruct (ok_or (from_utf8 data) _) as [s|]; [|done].
    apply ok_bind, ok_lift. by destruct (ContentHash_from_str _).
  - apply ok_look_any, metadata_looks.
  - apply ok_any; [apply ok_look_any, get_file_looks|done|]. by intros [x|[|c]] O b'.
  - by apply ok_publish_manifest.
  - apply ok_get_manifest.
  - apply ok_list_builds.
  - by apply ok_create_tag.
  - apply ok_get_tag.
  - by apply ok_delete_tag.
  - done.
Qed.

(** Every job is proved from the current state, and their temporary files are
    disjoint. *)
Record jobs_ok b (jobs : list Job) (Os : list (gset nat)) : Prop := {
  jo_jobs : Forall2 (λ (j : Job) O, ok (projT2 j) O b any ∧ ∀ n, n ∈ O → n < drawn b) jobs Os;
  jo_disjoint : ∀ i j Oi Oj, i ≠ j → Os !! i = Some Oi → Os !! j = Some Oj → Oi ## Oj;
}.

(** The invariant; the input hashes of [X] resolve. *)
Definition sound X (p : Process) : Prop :=
  match p with
  | Up b jobs => inv root rl limit b ∧ (∀ ih, X ih → indexed rl b ih) ∧ ∃ Os, jobs_ok b jobs Os
  | Down d => dk_uuids d ≤ limit ∧ ∃ v, pre root rl v d ∧ index_ok v ∧ ∀ ih, X ih → is_Some (sv_metas v !! index_key ih)
  end.

Lemma jobs_ok_arrive b jobs Os A (t : T A) :
  jobs_ok b jobs Os → ok t ∅ b any → jobs_ok b (jobs ++ [job t]) (Os ++ [∅]).
Proof.
  intros [Hj Hd] Ht. split.
  - apply Forall2_app; [done|]. constructor; [|done]. split; [done|]. set_solver.
  - intros i j Oi Oj Hij [Hi|[_ Hi]]%lookup_app_Some [Hjj|[_ Hjj]]%lookup_app_Some; [by eapply Hd| | |].
    all: repeat match goal with H : [_] !! _ = Some _ |- _ => apply list_lookup_singleton_Some in H as [? <-] end;
      try set_solver; lia.
Qed.

Lemma jobs_ok_run b b' jobs Os i A (t t' : T A) :
  inv root rl limit b → jobs_ok b jobs Os → jobs !! i = Some (job t) → tstep t b t' b' → drawn b' ≤ limit →
  ∃ Os', inv root rl limit b' ∧ jobs_ok b' (<[i := job t']> jobs) Os' ∧
    ∀ ih, indexed rl b ih → indexed rl b' ih.
Proof.
  intros Hi [Hj Hd] Hjob Hstep Ha.
  destruct (Forall2_lookup_l _ _ _ _ _ Hj Hjob) as (O & HO & Hok & Hfit). cbn in Hok.
  destruct (ok_step t t' O b b' any Hok Hi Hfit Ha Hstep) as (O' & Hi' & Hg & Hok').
  exists (<[i := O']> Os). split; [done|].
  destruct Hg as [Hg|[-> ->]].
  2: { split; [|done]. rewrite (list_insert_id Os) by done. split; [|done].
       rewrite <- (list_insert_id Os i O) by done. by apply Forall2_insert. }
  assert (i < length Os) as Hlen by (by eapply lookup_lt_Some).
  assert (∀ k Ox, k ≠ i → Os !! k = Some Ox → (∀ n, n ∈ Ox → n < drawn b) →
    relies rl Ox b b' ∧ Ox ## O') as Hothers.
  { intros k Ox Hk HOk Hf. apply (guar_rely (RelyGuarantee := local_rg root rl limit) O O' Ox b b' Hg); [|done]. by eapply Hd. }
  split; [split|by apply (gr_indexed _ _ _ _ _ Hg)].
  - apply Forall2_same_length_lookup. rewrite !length_insert. split; [by eapply Forall2_length|].
    intros k j Ox Hkj HkO. destruct (decide (k = i)) as [->|Hne].
    + rewrite list_lookup_insert_eq in Hkj by (by eapply lookup_lt_Some).
      rewrite list_lookup_insert_eq in HkO by done. injection Hkj as <-. injection HkO as <-. split; [done|].
      exact (guar_fits (RelyGuarantee := local_rg root rl limit) O O' b b' Hg Hfit).
    + rewrite list_lookup_insert_ne in Hkj by done. rewrite list_lookup_insert_ne in HkO by done.
      destruct (Forall2_lookup_lr _ _ _ _ _ _ Hj Hkj HkO) as [Hokk Hfk].
      destruct (Hothers k Ox Hne HkO Hfk) as [Hrel _]. split; [by eapply ok_rely|].
      intros n Hn. pose proof (Hfk n Hn). pose proof (re_drawn _ _ _ _ Hrel). lia.
  - assert (∀ k Ox, k ≠ i → Os !! k = Some Ox → Ox ## O') as Hdis.
    { intros k Ox Hk HOk. destruct (Forall2_lookup_r _ _ _ _ _ Hj HOk) as (j & _ & _ & Hf). by eapply Hothers. }
    intros k j Ox Oj Hkj HkO HjO.
    destruct (decide (k = i)) as [->|Hk], (decide (j = i)) as [->|Hj']; [done| | |].
    + rewrite list_lookup_insert_eq in HkO by done. rewrite list_lookup_insert_ne in HjO by done.
      injection HkO as <-. symmetry. by eapply Hdis.
    + rewrite list_lookup_insert_ne in HkO by done. rewrite list_lookup_insert_eq in HjO by done.
      injection HjO as <-. by eapply Hdis.
    + rewrite list_lookup_insert_ne in HkO by done. rewrite list_lookup_insert_ne in HjO by done. exact (Hd k j Ox Oj Hkj HkO HjO).
Qed.

Lemma pre_faults v d fs : pre root rl v d → pre root rl v (with_faults fs d).
Proof. done. Qed.

Lemma sound_step X p p' : service_step root false limit p p' → sound X p → sound X p'.
Proof.
  intros [Hs Ha]. destruct Hs as [b jobs A t Hreq|b jobs i A t t' b' Hjob Hstep|b jobs fs|b jobs|d fs b d' Hopen|d fs e d' Hopen];
    cbn in Ha |- *.
  - intros (Hi & HX & Os & Hj). split_and!; [done..|]. eexists. by apply jobs_ok_arrive; [|apply request_ok].
  - intros (Hi & HX & Os & Hj). destruct (jobs_ok_run b b' jobs Os i A t t' Hi Hj Hjob Hstep Ha) as (Os' & Hi' & Hj' & Hix).
    split_and!; [done|auto|by exists Os'].
  - intros (Hi & HX & Os & [Hj Hd]). set (b' := mk_local _ _).
    assert (inv root rl limit b') as Hi'.
    { destruct Hi as (? & v & [] & ?). split; [done|]. exists v. split; [by split|done]. }
    split_and!; [done|done|]. exists Os. split; [|done].
    eapply Forall2_impl; [exact Hj|]. intros j O [Hok Hf]. split; [|done]. eapply ok_rely; [done|done|].
    change (relies rl O b b'). split; [done|done|by intros ?|done|done].
  - intros ((_ & v & Hb & Hix) & HX & _). split; [done|]. exists v. split; [|split; [done|]].
    + split; [apply (ar_rooted _ _ _ _ Hb)|]. apply layout_below, (ar_layout _ _ _ _ Hb).
    + intros ih Hih. apply (indexed_view root rl v b); auto.
  - intros (_ & v & Hp & Hix & HX).
    destruct (open_pre root rl v _ _ _ (pre_faults v d fs Hp) Hopen) as (-> & Hst & _).
    split_and!; [split; [done|by exists v]| |].
    + intros ih Hih. apply (indexed_view root rl v _ _ Hst). auto.
    + exists []. split; [constructor|]. by intros i j Oi Oj _ [=].
  - intros (_ & v & Hp & Hix & HX). split; [done|]. exists v. split; [|done].
    by apply (open_fails root rl v _ _ _ (pre_faults v d fs Hp) Hopen).
Qed.

Lemma sound_steps X p p' : rtc (service_step root false limit) p p' → sound X p → sound X p'.
Proof. induction 1; [done|]. intros. eauto using sound_step. Qed.
End Safety.

(** ** Cache hits *)

Section Hits.
Context `{!UuidGen, !UuidOk, !Crates, !CratesOk} (root : rstr) (limit : nat) `{!UuidFresh limit}.

(** The backend once the disk stops failing. *)
Definition settled (b : LocalJsonBackend) : LocalJsonBackend :=
  mk_local (lj_root b) (with_faults [] (lj_disk b)).

Lemma resolved_indexed rl b b' ih h :
  inv root rl limit b → resolve_input_hash ih b = (Ok (Some h), b') → indexed rl b ih.
Proof.
  intros (_ & v & Hb & Hix) Hres. apply (indexed_view root rl v b ih Hb). destruct (index_key_file ih) as [l Hl].
  unfold resolve_input_hash, mbind, SM_bind in Hres. destruct (get_meta (index_key ih) b) as [r b1] eqn:Hg.
  destruct (runs_get_meta root rl v b _ l Hb Hl r b1 Hg) as [_ Hr]. destruct r as [o|e]; [|done].
  destruct Hr as [-> _]. destruct (sv_metas v !! index_key ih); [by eexists|by injection Hres].
Qed.

Lemma indexed_hit rl b ih :
  inv root rl limit b → indexed rl b ih →
  ∃ h b1, resolve_input_hash ih (settled b) = (Ok (Some h), b1) ∧ ∀ f, ∃ cur b2, pull_layer h f b1 = (Ok cur, b2).
Proof.
  intros (_ & v & Hb & Hix) [data Hd]%(indexed_view root rl v b ih Hb).
  destruct (Hix ih data Hd) as (h & -> & Hblobs).
  assert (at_root root rl v (settled b)) as Hs by (destruct Hb; by split).
  pose proof (wp_resolve true ih v (λ r v', v' = v ∧ r = Ok (Some h)) (Some h) Hd) as Hw.
  destruct (wp_run _ _ _ _ (settled b) (Hw ltac:(by intros r [->|[[] _]])) (local_rep_at root rl v _ Hs) (λ _, eq_refl))
    as (r & b1 & v1 & Hres & Hr1 & Hc1 & -> & ->).
  exists h, b1. split; [done|]. intros f. destruct (Hblobs f) as [bs Hbs].
  assert (wp true (pull_layer h f) v (λ r _, is_ok r)) as Hpull.
  { apply wp_get_blob. rewrite Hbs. intros r [(cur & -> & _)|[[] _]]; [by eexists|done]. }
  destruct (wp_run _ _ _ _ b1 Hpull Hr1 Hc1) as (r & b2 & v2 & Hrun & _ & _ & [cur ->]). eauto.
Qed.

(** [C2] Cache hits survive everything but garbage collection.  A service is
    started on an empty directory; requests arrive and interleave at every
    file-system call, calls fail, the process is killed at any point and
    started again.  Once an input hash resolves, it resolves in every later
    state of the running service, to a layer both of whose artifacts can be
    pulled. *)
Theorem hits_persist d0 b1 jobs1 b1' b2 jobs2 ih h :
  empty_root root d0 → dk_uuids d0 = 0 →
  rtc (service_step root false limit) (Down d0) (Up b1 jobs1) → resolve_input_hash ih b1 = (Ok (Some h), b1') →
  rtc (service_step root false limit) (Up b1 jobs1) (Up b2 jobs2) →
  ∃ h' b3, resolve_input_hash ih (settled b2) = (Ok (Some h'), b3) ∧
    ∀ f, ∃ cur b4, pull_layer h' f b3 = (Ok cur, b4).
Proof.
  intros (rl & Hroot & Hdir & Hempty) Hu Hrun1 Hres Hrun2.
  assert (sound root rl limit (λ _, False) (Down d0)) as Hs0.
  { split; [lia|]. exists (mk_view ∅ ∅). split; [|done]. split; [done|]. by apply empty_prelayout. }
  destruct (sound_steps root rl limit _ _ _ Hrun1 Hs0) as (Hi1 & _ & Hjobs1).
  assert (sound root rl limit (λ i, i = ih) (Up b1 jobs1)) as Hs1.
  { split; [done|]. split; [|done]. intros i ->. by eapply resolved_indexed. }
  destruct (sound_steps root rl limit _ _ _ Hrun2 Hs1) as (Hi2 & HX & _).
  apply (indexed_hit rl); [done|]. by apply HX.
Qed.
End Hits.
