(* ===== verification/ServiceTheorems.v ===== *)
(** * fs-storage: runs of the service

    Schedules as lists of job numbers, executed; a run in which a cache hit
    survives a kill; runs in which garbage collection, or a second publisher
    of the same layer, leaves the store incomplete. *)

From S2P Require Import Prelude RustStd AsyncIo StoreTypes Crates Backend Tasks LayerStore StoreLogic StoreBlobs Instances StoreTheorems FileSys LocalBackend LocalTasks StoreTasks LocalRep LocalOk LocalRG LocalOpen StoreJoin LocalTheorems Service.

#[local] Existing Instance loop_copy.
#[local] Existing Instance loop_copy_ok.

(** ** Schedules *)

Section Advance.
Context {S E : Type}.

Definition result_of {A} (t : Task S E A) : option (result E A) :=
  match t with Done r => Some r | _ => None end.

(** One step of a task; of two joined tasks the left one goes first. *)
Fixpoint advance {A} (t : Task S E A) : S → Task S E A * S :=
  match t with
  | Done r => λ s, (Done r, s)
  | Await m k => λ s, (k (fst (m s)), snd (m s))
  | Join p q k => λ s,
      match result_of p, result_of q with
      | None, _ => (Join (fst (advance p s)) q k, snd (advance p s))
      | Some _, None => (Join p (fst (advance q s)) k, snd (advance q s))
      | Some r1, Some r2 => (k r1 r2, s)
      end
  end.

Lemma result_of_Some {A} (t : Task S E A) r : result_of t = Some r → t = Done r.
Proof. by destruct t; intros [= ->]. Qed.

Lemma advance_step {A} (t : Task S E A) s :
  result_of t = None → tstep t s (fst (advance t s)) (snd (advance t s)).
Proof.
  induction t as [A r|T A m k IH|A1 A2 A p IHp q IHq k IH]; intros Ht; [done|done|]. cbn [advance tstep].
  destruct (result_of p) as [r1|] eqn:Hp; [|left; eauto]. apply result_of_Some in Hp as ->.
  destruct (result_of q) as [r2|] eqn:Hq; [|right; left; eauto]. apply result_of_Some in Hq as ->.
  right; right. eauto 6.
Qed.
End Advance.

Section Exec.
Context `{!UuidGen, !Crates} (root : rstr).
Local Abbreviation T := (Task LocalJsonBackend StoreError).

(** A step of the job with number [i]. *)
Definition exec1 (i : nat) (p : LocalJsonBackend * list Job) : LocalJsonBackend * list Job :=
  match snd p !! i with
  | Some (existT A t) => (snd (advance t (fst p)), <[i := existT A (fst (advance t (fst p)))]> (snd p))
  | None => p
  end.

Fixpoint exec (sched : list nat) (p : LocalJsonBackend * list Job) : LocalJsonBackend * list Job :=
  match sched with [] => p | i :: sched' => exec sched' (exec1 i p) end.

(** Job [i] can take a step that stays within [limit]. *)
Definition enabled (limit : nat) (i : nat) (p : LocalJsonBackend * list Job) : bool :=
  match snd p !! i with
  | Some (existT A t) =>
      match result_of t with None => dk_uuids (lj_disk (fst (exec1 i p))) <=? limit | Some _ => false end
  | None => false
  end.

Fixpoint follows (limit : nat) (sched : list nat) (p : LocalJsonBackend * list Job) : bool :=
  match sched with [] => true | i :: sched' => enabled limit i p && follows limit sched' (exec1 i p) end.

Definition up (p : LocalJsonBackend * list Job) : Process := Up (fst p) (snd p).

Lemma exec1_step gc limit i p : enabled limit i p = true → service_step root gc limit (up p) (up (exec1 i p)).
Proof.
  unfold enabled. destruct p as [b jobs]. cbn [fst snd]. destruct (jobs !! i) as [[A t]|] eqn:Hi; [|done].
  destruct (result_of t) eqn:Ht; [done|]. intros Hl%Nat.leb_le. split; [|done].
  unfold exec1. cbn [fst snd]. rewrite Hi. cbn [up fst snd]. eapply sv_run; [done|]. by apply advance_step.
Qed.

Lemma exec_steps gc limit sched p :
  follows limit sched p = true → rtc (service_step root gc limit) (up p) (up (exec sched p)).
Proof.
  revert p. induction sched as [|i sched IH]; intros p; cbn; [done|]. intros [Hi Hs]%andb_prop.
  eapply rtc_l; [by apply exec1_step|auto].
Qed.

Definition arrived {A} (t : T A) (p : LocalJsonBackend * list Job) : LocalJsonBackend * list Job :=
  (fst p, snd p ++ [job t]).
Definition within (limit : nat) (p : LocalJsonBackend * list Job) : bool := dk_uuids (lj_disk (fst p)) <=? limit.

(** A request arrives, and a schedule is followed. *)
Lemma serve_steps gc limit sched A (t : T A) p :
  request root gc A t → within limit p = true → follows limit sched (arrived t p) = true →
  rtc (service_step root gc limit) (up p) (up (exec sched (arrived t p))).
Proof.
  intros Hr Hl%Nat.leb_le Hs. eapply rtc_l; [split; [by apply sv_arrive|done]|]. by apply (exec_steps gc limit sched (arrived t p)).
Qed.

(** Killed and started again. *)
Definition restarted (p : LocalJsonBackend * list Job) : LocalJsonBackend * list Job :=
  (mk_local root (snd (LocalJsonBackend_new root (with_faults [] (lj_disk (fst p))))), []).
Definition restarts (p : LocalJsonBackend * list Job) : bool :=
  match fst (LocalJsonBackend_new root (with_faults [] (lj_disk (fst p)))) with Ok _ => true | Err _ => false end.

Lemma restart_steps gc limit p :
  restarts p = true → within limit p = true → within limit (restarted p) = true →
  rtc (service_step root gc limit) (up p) (up (restarted p)).
Proof.
  intros Hn Hl%Nat.leb_le Hl'%Nat.leb_le. eapply rtc_l; [split; [by apply sv_kill|done]|].
  apply rtc_once. split; [|done]. apply (sv_boot root gc _ [] _ (lj_disk (fst (restarted p)))). apply run_eq.
  revert Hn. unfold restarts, restarted, LocalJsonBackend_new. cbn [fst lj_disk].
  match goal with |- context [match ?r with (_, _) => _ end] => by destruct r as [[] ?] end.
Qed.
End Exec.

(** ** Runs *)

Module Run.
Import StoreTheorems.Demo.
#[local] Existing Instances ref_crates ref_crates_ok.

(** Identifiers that differ for the first 36 draws. *)
Definition run_uuid : UuidGen := λ n, repeat 48%N (n mod 36) ++ [49%N] ++ repeat 48%N (35 - n mod 36).
#[local] Existing Instance run_uuid.

Lemma run_uuid_ok : UuidOk.
Proof.
  intros n. unfold uuid_text, run_uuid. pose proof (Nat.mod_upper_bound n 36 ltac:(lia)). split.
  - rewrite !length_app, !repeat_length. cbn. lia.
  - rewrite !Forall_app. split_and!.
    + apply Forall_forall. intros c ->%list_elem_of_In%repeat_spec. by left.
    + constructor; [by left|constructor].
    + apply Forall_forall. intros c ->%list_elem_of_In%repeat_spec. by left.
Qed.

Lemma run_uuid_fresh : UuidFresh 36.
Proof.
  assert (∀ i j a b, repeat 48%N i ++ 49%N :: a = repeat 48%N j ++ 49%N :: b → i = j) as Hpos.
  { induction i as [|i IH]; intros [|j] a b Heq; cbn in Heq; [done|discriminate..|]. f_equal. injection Heq. apply IH. }
  intros n m Hn Hm Heq. unfold uuid_text, run_uuid in Heq. cbn [app] in Heq.
  apply Hpos in Heq. rewrite !Nat.mod_small in Heq by lia. done.
Qed.
#[local] Existing Instances run_uuid_ok run_uuid_fresh.

Definition root : rstr := lit "/data".
Definition limit : nat := 36.

(** The service started on an empty directory. *)
Definition started : LocalJsonBackend := Eval vm_compute in
  mk_local root (snd (LocalJsonBackend_new root (demo_disk []))).
(** A publisher of the layer [ch1] for [ih]. *)
Definition publishing (ih : InputHash) : Task LocalJsonBackend StoreError ContentHash :=
  publish_layer_task root {| cur_rest := deploy |} {| cur_rest := cache |} (meta_of ih ch1).
Ltac computed := vm_compute; reflexivity.

Lemma publishing_request gc ih : request root gc _ (publishing ih).
Proof. unfold publishing. apply rq_publish_layer; apply _. Qed.

Lemma started_steps gc : rtc (service_step root gc limit) (Down (demo_disk [])) (up (started, [])).
Proof.
  apply rtc_once. split; [apply (sv_boot root gc (demo_disk []) [] started (lj_disk started)); computed|].
  apply Nat.leb_le. computed.
Qed.

(** One layer is published. *)
Definition published : LocalJsonBackend * list Job := exec (repeat 0 23) (arrived (publishing ih1) (started, [])).

Lemma published_steps gc : rtc (service_step root gc limit) (Down (demo_disk [])) (up published).
Proof.
  eapply rtc_trans; [apply started_steps|]. apply serve_steps; [apply publishing_request|computed..].
Qed.

(** A hit survives a kill. *)
Lemma hits_persist_witness :
  ∃ h b3, resolve_input_hash ih1 (settled (fst (restarted root published))) = (Ok (Some h), b3) ∧
    ∀ f, ∃ cur b4, pull_layer h f b3 = (Ok cur, b4).
Proof.
  eapply (hits_persist root limit (demo_disk []) (fst published) (snd published) _
    (fst (restarted root published)) (snd (restarted root published)) ih1 ch1).
  - exact demo_empty.
  - reflexivity.
  - exact (published_steps false).
  - apply run_eq. computed.
  - exact (restart_steps root false limit published ltac:(computed) ltac:(computed) ltac:(computed)).
Defined.

(** ** Joined writes *)

Lemma publish_layer_concurrent_agrees_witness :
  ∃ v1 b1, publish_layer {| cur_rest := deploy |} {| cur_rest := cache |} (meta_of ih1 ch1) started = (Ok ch1, b1) ∧
    rep b1 v1 ∧
    ∀ t' b', rtc (alone limit) (publish_layer_concurrent_task root {| cur_rest := deploy |} {| cur_rest := cache |}
                          (meta_of ih1 ch1), started) (t', b') →
      (∀ t'' b'', ¬ tstep t' b' t'' b'') → t' = Done (Ok ch1) ∧ rep b' v1.
Proof.
  assert (rep started (mk_view ∅ ∅) ∧ calm started) as [Hrep Hcalm].
  { destruct demo_empty as (rl & Hro & Hr & Hn).
    assert (pre root rl (mk_view ∅ ∅) (demo_disk [])) as Hpre by (split; [done|by apply empty_prelayout]).
    destruct (open_pre root rl _ _ (Ok started) (lj_disk started) Hpre ltac:(computed)) as (_ & Hst & Hq).
    split; [by exists rl|]. by apply Hq. }
  apply (publish_layer_concurrent_agrees limit started (mk_view ∅ ∅) {| cur_rest := deploy |} {| cur_rest := cache |}
    (meta_of ih1 ch1) deploy cache).
  - exact Hrep.
  - exact Hcalm.
  - apply Nat.leb_le. computed.
  - apply Cursor_delivers.
  - apply Cursor_delivers.
  - reflexivity.
Defined.

(** ** Garbage collection *)

(** What an administrator's [gc_candidates] reports after the publication. *)
Definition report : GcReport := Eval vm_compute in
  default {| gr_candidates := []; gr_total_reclaimable_bytes := 0 |} (res_ok (fst (gc_candidates (fst published)))).
Definition collecting : Task LocalJsonBackend StoreError GcSummary := gc_execute_task root report.

Lemma collecting_request : request root true _ collecting.
Proof. by apply rq_gc_execute. Qed.

(** The first two calls of a garbage collection; then the service is killed. *)
Definition gc_half : LocalJsonBackend * list Job := exec [1; 1] (arrived collecting published).
Definition gc_killed : LocalJsonBackend * list Job := restarted root gc_half.

(** [C36] A killed garbage collection leaves an input hash that resolves to a
    layer without artifacts.  The service publishes a layer, collects it as
    [gc_candidates] says and is killed after two calls; started again it
    answers [resolve_input_hash] with the layer, and both artifacts are
    missing: the artifacts are deleted before the index entry. *)
Theorem gc_kill_leaves_index :
  fst (gc_candidates (fst published)) = Ok report ∧
  rtc (service_step root true limit) (Down (demo_disk [])) (up gc_killed) ∧
  fst (resolve_input_hash ih1 (fst gc_killed)) = Ok (Some ch1) ∧
  ∀ f, fst (pull_layer ch1 f (fst gc_killed)) = Err NotFound.
Proof.
  split; [computed|]. split; [|split; [computed|intros []; computed]].
  eapply rtc_trans; [apply published_steps|].
  eapply rtc_trans; [apply (serve_steps root true limit [1; 1] _ collecting published); [apply collecting_request|computed..]|].
  unfold gc_killed, gc_half. apply restart_steps; computed.
Qed.

(** A disk whose next calls fail where [fs] says so. *)
Definition failing (fs : list (option Fault)) (b : LocalJsonBackend) : LocalJsonBackend :=
  mk_local (lj_root b) (with_faults fs (lj_disk b)).
Definition disk_error : Fault := {| ft_code := 5; ft_done := 0 |}.
Definition no_candidates : GcReport := {| gr_candidates := []; gr_total_reclaimable_bytes := 0 |}.

Definition collected : result StoreError GcSummary * LocalJsonBackend :=
  gc_execute report (failing [None; None; None; Some disk_error] (fst published)).

(** Garbage collection does not report a deletion that failed.  The deletion of
    the index entry, its fourth call, fails: [gc_execute] still answers with
    what it deleted, the input hash still resolves to the layer, whose
    artifacts are gone, and no later collection sees it. *)
Theorem gc_ignores_failed_delete :
  fst collected = Ok {| gs_deleted_blobs := 2; gs_deleted_bytes := 90 |} ∧
  fst (resolve_input_hash ih1 (snd collected)) = Ok (Some ch1) ∧
  (∀ f, fst (pull_layer ch1 f (snd collected)) = Err NotFound) ∧
  fst (gc_candidates (snd collected)) = Ok no_candidates.
Proof. split; [computed|]. split; [computed|]. split; [intros []; computed|computed]. Qed.

(** A layer a manifest names. *)
Definition released : LocalJsonBackend :=
  snd (publish_manifest 1 (lit "u") (manifest_of ch1 1) (fst published)).

(** Garbage collection reports layers in use when a manifest cannot be read.
    The layer a manifest names is not a candidate; when reading that manifest
    fails, [gc_candidates] answers without an error, and the layer is one. *)
Theorem gc_reports_referenced :
  fst (gc_candidates released) = Ok no_candidates ∧
  fst (gc_candidates (failing (repeat None 6 ++ [Some disk_error]) released)) = Ok report.
Proof. split; computed. Qed.

(** A garbage collection (job 1) and a publisher of the same content for
    another input hash (job 2).  The publisher finds the deploy artifact gone
    and writes it again; the cache artifact is still there and is not written;
    the collection deletes it and the index entry of the old input hash; the
    publisher records the layer and its index entry; the collection deletes
    the layer's record. *)
Definition gc_raced : LocalJsonBackend * list Job :=
  exec ([1] ++ repeat 2 8 ++ repeat 1 3 ++ repeat 2 10 ++ [1])
    (arrived (publishing ih2) (exec [] (arrived collecting published))).
(** The same layer published once more. *)
Definition published_again : LocalJsonBackend * list Job :=
  exec [3] (arrived (publishing ih2) gc_raced).

(** [C31] Collecting a layer while it is published again loses an artifact for
    good.  There is a run in which the publisher is told the layer is stored
    and its input hash resolves, but the build cache is missing; publishing
    the layer once more is answered with success and stores nothing, and the
    collector does not see the layer any more. *)
Theorem gc_race_loses_cache :
  rtc (service_step root true limit) (Down (demo_disk [])) (up published_again) ∧
  snd gc_raced !! 2 = Some (job (Done (Ok ch1))) ∧
  snd published_again !! 3 = Some (job (Done (Ok ch1))) ∧
  fst (resolve_input_hash ih2 (fst published_again)) = Ok (Some ch1) ∧
  fst (pull_layer ch1 BuildCache (fst published_again)) = Err NotFound ∧
  fst (gc_candidates (fst published_again)) = Ok {| gr_candidates := []; gr_total_reclaimable_bytes := 0 |}.
Proof.
  split; [|split; [computed|]; split; [computed|]; split; [computed|]; split; computed].
  eapply rtc_trans; [apply published_steps|].
  eapply rtc_trans; [apply (serve_steps root true limit [] _ collecting published); [apply collecting_request|computed..]|].
  unfold published_again. eapply rtc_trans; [|apply serve_steps; [apply publishing_request|computed..]].
  unfold gc_raced. apply serve_steps; [apply publishing_request|computed..].
Qed.

(** ** Two publishers *)

(** The first publisher (job 0) has renamed the deploy artifact, and nothing
    more, when the second (job 1) asks. *)
Definition first_half : LocalJsonBackend * list Job := exec (repeat 0 7) (arrived (publishing ih1) (started, [])).
Definition second_asks : LocalJsonBackend * list Job := exec [1] (arrived (publishing ih1) first_half).
Definition after_kill : LocalJsonBackend * list Job := restarted root second_asks.
(** The layer published once more after that. *)
Definition third_asks : LocalJsonBackend * list Job := exec [0] (arrived (publishing ih1) after_kill).

(** [C37] A publisher can be told that a layer is stored which is not.  While one
    publisher writes a layer, a second one of the same layer is answered with
    success once the deploy artifact is in place: the input hash does not
    resolve and the build cache is missing.  If the service is killed then,
    this is how the store stays: a third publisher is answered with success
    too, and stores nothing. *)
Theorem second_publisher_early :
  rtc (service_step root false limit) (Down (demo_disk [])) (up second_asks) ∧
  snd second_asks !! 1 = Some (job (Done (Ok ch1))) ∧
  fst (resolve_input_hash ih1 (fst second_asks)) = Ok None ∧
  rtc (service_step root false limit) (up second_asks) (up third_asks) ∧
  snd third_asks !! 0 = Some (job (Done (Ok ch1))) ∧
  fst (resolve_input_hash ih1 (fst third_asks)) = Ok None ∧
  fst (pull_layer ch1 BuildCache (fst third_asks)) = Err NotFound.
Proof.
  split; [|split; [computed|]; split; [computed|]; split; [|split; [computed|]; split; computed]].
  - eapply rtc_trans; [apply started_steps|]. unfold second_asks.
    eapply rtc_trans; [|apply serve_steps; [apply publishing_request|computed..]].
    unfold first_half. apply serve_steps; [apply publishing_request|computed..].
  - unfold third_asks. eapply rtc_trans; [|apply serve_steps; [apply publishing_request|computed..]].
    unfold after_kill. apply restart_steps; computed.
Qed.
End Run.
