(* ===== verification/StoreMain.v ===== *)
(** * fs-storage: the program (src/fs-storage/src/main.rs)

    [main] opens the local backend at the root directory, wraps it in the
    layer store and the gRPC service, and serves it on every IPv4 address of
    the host.  The transport is a parameter. *)

From S2P Require Import Prelude RustStd AsyncIo StoreTypes Crates Backend LayerStore StoreLogic Instances StoreTheorems FileSys LocalBackend LocalRep LocalOk LocalOpen LocalTheorems Server.

#[local] Existing Instance loop_copy.
#[local] Existing Instance loop_copy_ok.

Record Args := { arg_port : N; arg_root : rstr }.
(** Without arguments. *)
Definition default_args : Args := {| arg_port := 50051; arg_root := lit "./storage" |}.

Record SocketAddrV4 := { sa_octets : list N; sa_port : N }.

(** An octet of an address: at most three digits, no leading zero. *)
Definition parse_octet (s : rstr) : option N :=
  if bool_decide (s = []) || (3 <? length s)%nat || (starts_with s (lit "0") && (1 <? length s)%nat) then None
  else res_ok (parse_digits 255 0 s).

(** [SocketAddrV4::from_str], which [SocketAddr::from_str] tries first. *)
Definition parse_socket_v4 (s : rstr) : option SocketAddrV4 :=
  match split_on 58 s with
  | [host; port] =>
      octets ← mapM parse_octet (split_on 46 host);
      if bool_decide (length octets = 4) && negb (bool_decide (port = []))
      then port ← res_ok (parse_digits 65535 0 port); Some {| sa_octets := octets; sa_port := port |}
      else None
  | _ => None
  end.

Section Main.
Context `{UuidGen, Crates, IoText}.
(** [run_server]: what the transport does with the store until it stops. *)
Context (run_server : SocketAddrV4 → SM LocalJsonBackend rstr unit).

Definition main (args : Args) : SM Disk rstr unit := λ d,
  match LocalJsonBackend_new (arg_root args) d with
  | (Err e, d') => (Err (StoreError_to_string e), d')
  | (Ok backend, d') =>
      match parse_socket_v4 (lit "0.0.0.0:" ++ dec (arg_port args)) with
      | None => (Err (lit "invalid socket address syntax"), d')
      | Some addr =>
          let '(r, backend') := run_server addr backend in
          (r, lj_disk backend')
      end
  end.
End Main.

(** Any port parses. *)
Lemma serve_addr_parses port :
  (port ≤ 65535)%N →
  parse_socket_v4 (lit "0.0.0.0:" ++ dec port) = Some {| sa_octets := [0; 0; 0; 0]%N; sa_port := port |}.
Proof.
  intros Hp. unfold parse_socket_v4.
  assert (split_on 58 (lit "0.0.0.0:" ++ dec port) = [lit "0.0.0.0"; dec port]) as ->.
  { change (lit "0.0.0.0:" ++ dec port) with (lit "0.0.0.0" ++ 58%N :: dec port).
    rewrite split_on_app by (by repeat constructor). f_equal. apply split_on_none.
    eapply Forall_impl; [apply dec_digits|]. unfold is_digit. intros c Hc. lia. }
  assert (dec port ≠ []) as Hne.
  { intros He. pose proof (parse_digits_dec 65535 port Hp) as Hd. rewrite He in Hd. injection Hd as <-. discriminate He. }
  change (mapM parse_octet (split_on 46 (lit "0.0.0.0"))) with (Some [0; 0; 0; 0]%N). cbn [mbind option_bind].
  rewrite (bool_decide_false (dec port = [])) by done. cbn. by rewrite parse_digits_dec.
Qed.

Section Serves.
Context `{UuidOk, CratesOk, IoText}.

(** [C21] The program serves the store of its directory.  On a sound disk, with a
    directory that holds a store [v] (and whatever interrupted writes left) or
    an empty one, and any port, [main] runs the server at that port of every
    address, on a backend with the store [v]. *)
Theorem main_serves run_server args d v :
  (arg_port args ≤ 65535)%N → dk_faults d = [] →
  local_rep (mk_local (arg_root args) d) v ∨ empty_root (arg_root args) d ∧ v = mk_view ∅ ∅ →
  ∃ b, rep b v ∧ calm b ∧
    main run_server args d =
      (let '(r, b') := run_server {| sa_octets := [0; 0; 0; 0]%N; sa_port := arg_port args |} b in (r, lj_disk b')).
Proof.
  intros Hport Hf (rl & Hpre)%start_pre. unfold main.
  destruct (LocalJsonBackend_new (arg_root args) d) as [r d'] eqn:Hopen.
  pose proof (open_pre (arg_root args) rl v d r d' Hpre Hopen) as Ho. destruct r as [b|e]; [|done].
  destruct Ho as (-> & Hst & Hq). exists (mk_local (arg_root args) d').
  split; [by exists rl|]. split; [by apply Hq|]. by rewrite serve_addr_parses.
Qed.
End Serves.

Module StoreMainDemo.
#[local] Existing Instances demo_uuid demo_uuid_ok ref_crates ref_crates_ok disk_io.
Definition args : Args := {| arg_port := 50051; arg_root := lit "/data" |}.

Lemma main_serves_witness :
  ∃ b, rep b (mk_view ∅ ∅) ∧ main (λ addr b, (Ok tt, b)) args (demo_disk []) = (Ok tt, lj_disk b).
Proof.
  destruct (main_serves (λ addr b, (Ok tt, b)) args (demo_disk []) (mk_view ∅ ∅)) as (b & Hrep & _ & Hrun).
  - cbn. lia.
  - reflexivity.
  - right. split; [exact demo_empty|reflexivity].
  - exists b. split; [exact Hrep|exact Hrun].
Defined.
End StoreMainDemo.
