(* ===== verification/StoreTests.v ===== *)
(** * fs-storage: the repository's tests (src/fs-storage/tests)

    The integration tests of the layer store and of the two backends, run on
    the model.  Each is written once for any backend and run on both; a test
    is a computation that collects its assertions, an error being an [unwrap]
    that fails. *)

From S2P Require Import Prelude RustStd AsyncIo StoreTypes Crates Backend MemoryBackend LayerStore StoreLogic Instances StoreTheorems FileSys LocalBackend LocalTheorems.

#[local] Existing Instance loop_copy.

Section Tests.
Context `{StorageBackend B, Crates}.
Local Abbreviation M := (SM B StoreError).

Definition hash_arg (digits : rstr) : M ContentHash := lift (ContentHash_from_str digits).
Definition key_hash : rstr := lit "abcdef0123456789abcdef0123456789abcdef0123456789abcdef0123456789".
Definition digits (c : N) : rstr := repeat c 64.

(** [test_memory_blob_ops], [test_local_json_blob_ops]. *)
Definition test_blob_ops (format : ArtifactFormat) (content : bytes) : M (list bool) :=
  hash ← hash_arg key_hash;
  before ← has_blob hash format;
  _ ← put_blob_with hash format {| cur_rest := content |};
  present ← has_blob hash format;
  cur ← get_blob hash format;
  _ ← delete_blob hash format;
  after ← has_blob hash format;
  mret [negb before; present; bool_decide (cur_rest cur = content); negb after].

(** [test_memory_meta_ops]; the first and last steps of [test_local_json_meta_ops]. *)
Definition test_meta_ops (dir key : rstr) (value : bytes) : M (list bool) :=
  _ ← put_meta key value;
  data ← get_meta key;
  keys ← list_meta dir;
  _ ← delete_meta key;
  gone ← get_meta key;
  mret [bool_decide (data = Some value); bool_decide (keys = [key]); bool_decide (gone = None)].

Definition test_local_json_meta_ops : M (list bool) :=
  let key_layer := lit "layers/" ++ key_hash in
  let key_tag := lit "tags/production" in
  let key_index := lit "index/1234567890abcdef1234567890abcdef1234567890abcdef1234567890abcdef" in
  _ ← put_meta key_layer (as_bytes (lit "layer metadata"));
  _ ← put_meta key_tag (as_bytes (lit "tag metadata"));
  _ ← put_meta key_index (as_bytes (lit "index metadata"));
  data ← get_meta key_tag;
  layer_keys ← list_meta (lit "layers/");
  tag_keys ← list_meta (lit "tags/");
  index_keys ← list_meta (lit "index/");
  _ ← delete_meta key_tag;
  gone ← get_meta key_tag;
  mret [bool_decide (data = Some (as_bytes (lit "tag metadata"))); bool_decide (layer_keys = [key_layer]);
        bool_decide (tag_keys = [key_tag]); bool_decide (index_keys = [key_index]); bool_decide (gone = None)].

Definition test_meta (ih : InputHash) (ch : ContentHash) : LayerMeta :=
  {| lm_input_hash := ih; lm_content_hash := ch; lm_parent_input_hash := None; lm_uncompressed_size := 100;
     lm_compressed_size_deploy := 50; lm_compressed_size_cache := 50; lm_file_checksum_deploy := ch;
     lm_file_checksum_cache := ch; lm_builder_version := lit "1.0"; lm_build_timestamp := 123456789;
     lm_build_host := lit "test-host"; lm_stage_definition_hash := ch; lm_dockerfile_hash := ch |}%N.
Definition deploy_content : bytes := as_bytes (lit "deploy data").
Definition cache_content : bytes := as_bytes (lit "cache data").

Definition test_layer_store_blob_ops : M (list bool) :=
  input_hash ← lift (InputHash_from_str (digits 49));
  content_hash ← hash_arg (digits 50);
  before ← has_layer content_hash;
  unresolved ← resolve_input_hash input_hash;
  returned ← publish_layer {| cur_rest := deploy_content |} {| cur_rest := cache_content |} (test_meta input_hash content_hash);
  present ← has_layer content_hash;
  resolved ← resolve_input_hash input_hash;
  deploy ← pull_layer content_hash Deploy;
  cache ← pull_layer content_hash BuildCache;
  mret [negb before; bool_decide (unresolved = None); bool_decide (returned = content_hash); present;
        bool_decide (resolved = Some content_hash); bool_decide (cur_rest deploy = deploy_content);
        bool_decide (cur_rest cache = cache_content)].

Definition test_layer_store_gc : M (list bool) :=
  input_hash1 ← lift (InputHash_from_str (digits 49));
  content_hash1 ← hash_arg (digits 50);
  _ ← publish_layer {| cur_rest := deploy_content |} {| cur_rest := cache_content |} (test_meta input_hash1 content_hash1);
  present ← has_layer content_hash1;
  report ← gc_candidates;
  summary ← gc_execute report;
  after ← has_layer content_hash1;
  unresolved ← resolve_input_hash input_hash1;
  mret [present; bool_decide (gc_content_hash <$> gr_candidates report = [content_hash1]);
        (gr_total_reclaimable_bytes report =? 100)%N; (gs_deleted_blobs summary =? 2)%N;
        (gs_deleted_bytes summary =? 100)%N; negb after; bool_decide (unresolved = None)].

Definition test_manifest (dockerfile_hash layer_hash : ContentHash) (layer_input : InputHash) : ReleaseManifest :=
  {| rm_schema_version := lit "1.0"; rm_manifest_id := lit "test-release";
     rm_build_metadata := {| bm_dockerfile_hash := dockerfile_hash; bm_build_timestamp := 1000;
                             bm_builder_version := lit "1.0.0"; bm_build_host := lit "test-host" |};
     rm_layers := [{| ml_name := lit "base"; ml_order := 0; ml_input_hash := layer_input; ml_content_hash := layer_hash;
                      ml_size_bytes := 100; ml_size_compressed_bytes := 50; ml_parent_input_hash := None |}];
     rm_workload_metadata := ∅ |}%N.
(** [BuildFilter::default()]. *)
Definition no_filter : BuildFilter :=
  {| bf_tag := None; bf_release_name_prefix := None; bf_layer_hash := None; bf_from_timestamp := None; bf_to_timestamp := None |}.

(** [now] and [uuid]: the clock and the generator of the catalogue entry. *)
Definition test_layer_store_manifest_and_tags (now : N) (uuid : rstr) : M (list bool) :=
  dockerfile_hash ← hash_arg (digits 49);
  layer_content_hash ← hash_arg (digits 50);
  layer_input_hash ← lift (InputHash_from_str (digits 51));
  manifest_hash ← publish_manifest now uuid (test_manifest dockerfile_hash layer_content_hash layer_input_hash);
  retrieved ← get_manifest manifest_hash;
  builds ← list_builds no_filter;
  _ ← create_tag (lit "latest") manifest_hash;
  resolved_hash ← get_tag (lit "latest");
  tags ← list_tags;
  _ ← delete_tag (lit "latest");
  gone ← attempt (get_tag (lit "latest"));
  mret [bool_decide (rm_manifest_id retrieved = lit "test-release");
        bool_decide ((λ b, (bc_release_name b, bc_manifest_hash b)) <$> builds = [(lit "test-release", manifest_hash)]);
        bool_decide (resolved_hash = manifest_hash); bool_decide (tags = [(lit "latest", manifest_hash)]);
        match (gone : result StoreError ContentHash) with Err _ => true | Ok _ => false end].
End Tests.

(** ** The runs *)

Section Runs.
#[local] Existing Instances ref_crates.
#[local] Instance test_uuid : UuidGen := λ _, repeat 48%N 36.

Definition passes {B} (r : result StoreError (list bool) * B) : bool :=
  match fst r with Ok bs => forallb id bs | Err _ => false end.

Definition store_tests `{StorageBackend B} (start : B) : list bool :=
  [passes (test_blob_ops Deploy (as_bytes (lit "hello ext4 world")) start);
   passes (test_blob_ops BuildCache (as_bytes (lit "hello oci world")) start);
   passes (test_meta_ops (lit "manifests/") (lit "manifests/" ++ key_hash) (as_bytes (lit "manifest data")) start);
   passes (test_local_json_meta_ops start); passes (test_layer_store_blob_ops start);
   passes (test_layer_store_gc start); passes (test_layer_store_manifest_and_tags 1000 (lit "u-1") start)].

Example memory_tests_pass : forallb id (store_tests InMemoryBackend_new) = true.
Proof. vm_compute. reflexivity. Qed.
Example local_tests_pass : forallb id (store_tests demo_local) = true.
Proof. vm_compute. reflexivity. Qed.
End Runs.
