(* ===== verification/VmState.v ===== *)
(** * control-plane: the VM lifecycle state machine (src/control-plane/src/vmm/state.rs)

    The states, the machine and its guarded transition; a run is a sequence of
    transition requests, the refused ones included.  The theorems bound every
    run, give the only ways to [Running], and show that teardown is always two
    requests away once provisioning has begun. *)

From S2P Require Import Prelude RustStd.

(** ** The machine *)

Inductive VmState :=
| Pending | ProvisioningStorage | ConfiguringNetwork | InitializingCgroup | LaunchingVMM
| ConfiguringVMM | Running | Terminating | Destroyed.

#[export] Instance VmState_eq_dec : EqDecision VmState.
Proof. solve_decision. Defined.

(** [Display], which is the derived [Debug]: the constructor's name. *)
Definition VmState_fmt (s : VmState) : rstr :=
  match s with
  | Pending => lit "Pending"
  | ProvisioningStorage => lit "ProvisioningStorage"
  | ConfiguringNetwork => lit "ConfiguringNetwork"
  | InitializingCgroup => lit "InitializingCgroup"
  | LaunchingVMM => lit "LaunchingVMM"
  | ConfiguringVMM => lit "ConfiguringVMM"
  | Running => lit "Running"
  | Terminating => lit "Terminating"
  | Destroyed => lit "Destroyed"
  end.

Record VmStateMachine := mk_sm { sm_state : VmState; sm_session_id : N }.

Definition VmStateMachine_new (session_id : N) : VmStateMachine :=
  {| sm_state := Pending; sm_session_id := session_id |}.

Definition current_state (sm : VmStateMachine) : VmState := sm_state sm.

Definition is_valid_transition (sm : VmStateMachine) (next_state : VmState) : bool :=
  match sm_state sm, next_state with
  | Pending, ProvisioningStorage => true
  | ProvisioningStorage, ConfiguringNetwork => true
  | ConfiguringNetwork, InitializingCgroup => true
  | InitializingCgroup, LaunchingVMM => true
  | LaunchingVMM, ConfiguringVMM => true
  | ConfiguringVMM, Running => true
  | LaunchingVMM, Running => true
  | Running, Terminating => true
  | Terminating, Destroyed => true
  | ProvisioningStorage, Terminating => true
  | ConfiguringNetwork, Terminating => true
  | InitializingCgroup, Terminating => true
  | LaunchingVMM, Terminating => true
  | ConfiguringVMM, Terminating => true
  | _, _ => false
  end.

Definition transition_to (next_state : VmState) : SM VmStateMachine rstr unit := λ sm,
  if is_valid_transition sm next_state
  then (Ok tt, {| sm_state := next_state; sm_session_id := sm_session_id sm |})
  else (Err (lit "Invalid state transition: " ++ VmState_fmt (sm_state sm) ++ lit " -> "
             ++ VmState_fmt next_state), sm).

(** ** Errors of the orchestrator *)

Record OrchestratorError := mk_oe { oe_session_id : N; oe_state : VmState; oe_message : rstr }.

Definition OrchestratorError_new (session_id : N) (state : VmState) (message : rstr)
  : OrchestratorError :=
  {| oe_session_id := session_id; oe_state := state; oe_message := message |}.

Definition OrchestratorError_fmt (e : OrchestratorError) : rstr :=
  lit "[Session " ++ lit (pretty.pretty (oe_session_id e)) ++ lit "][State "
  ++ VmState_fmt (oe_state e) ++ lit "] Error: " ++ oe_message e.

(** ** Runs *)

(** A sequence of requests, each refused or accepted; the states entered. *)
Fixpoint requests (reqs : list VmState) (sm : VmStateMachine) : list VmState * VmStateMachine :=
  match reqs with
  | [] => ([], sm)
  | next :: reqs =>
      match transition_to next sm with
      | (Ok _, sm') => let '(h, sm'') := requests reqs sm' in (next :: h, sm'')
      | (Err _, sm') => requests reqs sm'
      end
  end.

(** The provisioning states in the order [provision_vm] walks them. *)
Definition provisioning : list VmState :=
  [ProvisioningStorage; ConfiguringNetwork; InitializingCgroup; LaunchingVMM].

(** The sequences of states that can be entered one after the other from a
    state. *)
Inductive lifecycle : VmState → list VmState → Prop :=
| life_stop s : lifecycle s []
| life_step s s' h id :
    is_valid_transition {| sm_state := s; sm_session_id := id |} s' = true →
    lifecycle s' h → lifecycle s (s' :: h).

(** Position in the lifecycle; every accepted transition moves forward. *)
Definition rank (s : VmState) : nat :=
  match s with
  | Pending => 0
  | ProvisioningStorage => 1
  | ConfiguringNetwork => 2
  | InitializingCgroup => 3
  | LaunchingVMM => 4
  | ConfiguringVMM => 5
  | Running => 6
  | Terminating => 7
  | Destroyed => 8
  end.

Lemma is_valid_transition_rank sm s' : is_valid_transition sm s' = true → rank (sm_state sm) < rank s'.
Proof. destruct sm as [[] ?], s'; cbn; intros; first [lia|done]. Qed.

Lemma transition_to_ok next sm sm' :
  transition_to next sm = (Ok tt, sm') ↔
  is_valid_transition sm next = true ∧ sm' = mk_sm next (sm_session_id sm).
Proof. unfold transition_to. destruct (is_valid_transition sm next); naive_solver. Qed.

Lemma requests_lifecycle reqs sm h sm' :
  requests reqs sm = (h, sm') →
  lifecycle (sm_state sm) h ∧ sm_state sm' = default (sm_state sm) (last h) ∧
  sm_session_id sm' = sm_session_id sm.
Proof.
  revert sm h. induction reqs as [|next reqs IH]; intros sm h; cbn; intros Hrun.
  - simplify_eq. split_and!; [constructor|done|done].
  - destruct (transition_to next sm) as [[[]|e] sm1] eqn:Ht.
    + apply transition_to_ok in Ht as [Hv ->].
      destruct (requests reqs _) as [h1 sm2] eqn:Hr. simplify_eq.
      apply IH in Hr as (Hl & Hs & Hid). cbn in Hl, Hs. split_and!.
      * apply (life_step _ _ _ (sm_session_id sm)); [destruct sm; exact Hv|done].
      * rewrite Hs, last_cons. by destruct (last h1).
      * exact Hid.
    + unfold transition_to in Ht. destruct (is_valid_transition sm next); simplify_eq. by apply IH.
Qed.

Lemma lifecycle_length s h : lifecycle s h → length h + rank s ≤ 8.
Proof.
  induction 1 as [s|s s' h id Hv _ IH]; cbn.
  - destruct s; cbn; lia.
  - apply is_valid_transition_rank in Hv. cbn in Hv. lia.
Qed.

(** The ways to [Running] from each state. *)
Lemma lifecycle_to_running s h : lifecycle s (h ++ [Running]) →
  match s with
  | Running | Terminating | Destroyed => False
  | ConfiguringVMM => h = []
  | _ => h = drop (rank s) provisioning ∨ h = drop (rank s) provisioning ++ [ConfiguringVMM]
  end.
Proof.
  revert s. induction h as [|x h IH]; intros s Hl; cbn [app] in Hl; inversion Hl as [|? ? ? id Hv Hh]; subst.
  - destruct s; first [discriminate Hv|by left|done].
  - specialize (IH _ Hh). destruct s, x; try discriminate Hv; cbn in IH |- *; naive_solver.
Qed.

(** ** Theorems *)

(** A transition request on every branch: an allowed one enters the
    requested state, a refused one leaves the machine as it was and names both
    states; the session id never changes. *)
Theorem transition_to_spec next sm :
  (is_valid_transition sm next = true ∧
   transition_to next sm = (Ok tt, {| sm_state := next; sm_session_id := sm_session_id sm |}) ∧
   rank (sm_state sm) < rank next) ∨
  (is_valid_transition sm next = false ∧
   transition_to next sm = (Err (lit "Invalid state transition: " ++ VmState_fmt (sm_state sm)
     ++ lit " -> " ++ VmState_fmt next), sm)).
Proof.
  unfold transition_to. destruct (is_valid_transition sm next) eqn:Hv; [left|right].
  - split_and!; [done|done|by apply is_valid_transition_rank].
  - done.
Qed.

(** [C14] A VM is [Running] only after storage, network, cgroup and VMM launch,
    each entered once and in this order, whatever requests were made in
    between; only [ConfiguringVMM] may be skipped. *)
Theorem running_requires_provisioning session_id reqs h sm' :
  requests reqs (VmStateMachine_new session_id) = (h, sm') → sm_state sm' = Running →
  h = provisioning ++ [Running] ∨ h = provisioning ++ [ConfiguringVMM; Running].
Proof.
  intros Hrun Hs. apply requests_lifecycle in Hrun as (Hl & Hlast & _). rewrite Hs in Hlast.
  cbn in Hl, Hlast. destruct (last h) as [x|] eqn:Hx; [|done]. cbn in Hlast. subst x.
  apply last_Some in Hx as [h' ->].
  apply lifecycle_to_running in Hl as [->| ->]; [by left|by right].
Qed.

(** Every run is finite: at most eight requests are ever accepted, no
    state is entered twice, and a destroyed VM accepts none. *)
Theorem lifecycle_terminates session_id reqs h sm' :
  requests reqs (VmStateMachine_new session_id) = (h, sm') →
  length h ≤ 8 ∧ NoDup h ∧ (sm_state sm' = Destroyed → ∀ next, is_valid_transition sm' next = false).
Proof.
  intros Hrun. apply requests_lifecycle in Hrun as (Hl & _ & _). split_and!.
  - apply lifecycle_length in Hl. lia.
  - cbn in Hl. assert (NoDup h ∧ Forall (λ s, 0 < rank s) h) as [? _]; [|done].
    change 0 with (rank Pending). induction Hl as [s|s s' h id Hv _ IH]; [by split; constructor|].
    apply is_valid_transition_rank in Hv. cbn in Hv. destruct IH as [Hnd Hall]. split.
    + constructor; [|done]. intros Hin. rewrite Forall_forall in Hall.
      specialize (Hall _ Hin). lia.
    + constructor; [done|]. eapply Forall_impl; [exact Hall|]. cbn. lia.
  - destruct sm' as [s ?]. cbn. intros ->. by intros [].
Qed.

(** Teardown is possible from every state a run can be in once
    provisioning has begun: requesting [Terminating] and [Destroyed] ends in
    [Destroyed].  From [Pending] both are refused: a machine that never began
    stays [Pending]. *)
Theorem teardown_reaches_destroyed sm :
  sm_state (snd (requests [Terminating; Destroyed] sm)) =
    match sm_state sm with Pending => Pending | _ => Destroyed end.
Proof. by destruct sm as [[] ?]. Qed.

Lemma running_requires_provisioning_witness :
  provisioning ++ [Running] = provisioning ++ [Running] ∨
  provisioning ++ [Running] = provisioning ++ [ConfiguringVMM; Running].
Proof.
  apply (running_requires_provisioning 7
    [Running; ProvisioningStorage; ConfiguringNetwork; InitializingCgroup; LaunchingVMM; Running]
    _ {| sm_state := Running; sm_session_id := 7 |}); reflexivity.
Defined.

Lemma lifecycle_terminates_witness :
  length [ProvisioningStorage; Terminating; Destroyed] ≤ 8.
Proof.
  apply (lifecycle_terminates 7 [ProvisioningStorage; Terminating; Running; Destroyed]
    _ {| sm_state := Destroyed; sm_session_id := 7 |}); reflexivity.
Defined.
