(* ===== verification/Observability.v ===== *)
(** * control-plane: observability (src/control-plane/src/vmm/observability.rs)

    The syscall auditor times a closure and warns when it blocked for a
    millisecond or more; [spawn_blocking] does so on a pool thread and turns a
    panic into an error.  The other components' models run such closures as
    they are: [spawn_blocking_returns] is why.  The metrics collector names a
    cgroup by its inode and collects nothing yet. *)

From S2P Require Import Prelude RustStd.

(** How a closure ends. *)
Inductive Outcome (R : Type) := Finished (r : R) | Panicked (msg : rstr).
Arguments Finished {R} r.
Arguments Panicked {R} msg.

(** The clock reads taken so far, and the warnings logged: the name and the
    milliseconds. *)
Record Telemetry := mk_tele { tl_reads : nat; tl_warnings : list (rstr * N) }.

Section Auditor.
(** [Instant::now]: the nanoseconds of the n-th read. *)
Context (instant : nat → N) {W R : Type}.

(** [duration.as_millis()] of [start.elapsed()], which saturates at zero. *)
Definition elapsed_millis (start now : N) : N := ((now - start) / 1000000)%N.

Definition SyscallAuditor_audit (name : rstr) (f : W → Outcome R * W) : W * Telemetry → Outcome R * (W * Telemetry) :=
  λ '(w, t),
  let start := instant (tl_reads t) in
  match f w with
  | (Panicked msg, w') => (Panicked msg, (w', mk_tele (S (tl_reads t)) (tl_warnings t)))
  | (Finished result, w') =>
      let duration := elapsed_millis start (instant (S (tl_reads t))) in
      let warnings := if (1 <=? duration)%N then tl_warnings t ++ [(name, duration)] else tl_warnings t in
      (Finished result, (w', mk_tele (S (S (tl_reads t))) warnings))
  end.

(** [JoinHandle::await] answers a panic with a [JoinError]. *)
Definition SyscallAuditor_spawn_blocking (name : rstr) (f : W → Outcome R * W) : SM (W * Telemetry) rstr R := λ s,
  match SyscallAuditor_audit name f s with
  | (Finished result, s') => (Ok result, s')
  | (Panicked msg, s') => (Err msg, s')
  end.

(** The auditor does not interfere: the closure runs once, on the state it
    was given, and its result is the result. *)
Lemma spawn_blocking_returns name f w t r w' :
  f w = (Finished r, w') → ∃ t', SyscallAuditor_spawn_blocking name f (w, t) = (Ok r, (w', t')).
Proof. intros Hf. unfold SyscallAuditor_spawn_blocking, SyscallAuditor_audit. rewrite Hf. eauto. Qed.

(** A panic of the closure is an error of the caller, not a panic. *)
Lemma spawn_blocking_contains name f w t msg w' :
  f w = (Panicked msg, w') → ∃ t', SyscallAuditor_spawn_blocking name f (w, t) = (Err msg, (w', t')).
Proof. intros Hf. unfold SyscallAuditor_spawn_blocking, SyscallAuditor_audit. rewrite Hf. eauto. Qed.

(** A warning is logged for a closure that returned after a millisecond or
    more, and for no other. *)
Theorem audit_warns name f w t r w' t' :
  SyscallAuditor_audit name f (w, t) = (Finished r, (w', t')) →
  let ns := (instant (S (tl_reads t)) - instant (tl_reads t))%N in
  tl_warnings t' = tl_warnings t ++ if (1000000 <=? ns)%N then [(name, (ns / 1000000)%N)] else [].
Proof.
  intros Hrun ns. unfold SyscallAuditor_audit in Hrun. destruct (f w) as [[r0|] w0]; [|done].
  injection Hrun as -> -> <-. unfold elapsed_millis. fold ns. cbn [tl_warnings].
  destruct (1000000 <=? ns)%N eqn:Hns.
  - apply N.leb_le in Hns. replace (1 <=? ns / 1000000)%N with true; [done|]. symmetry. apply N.leb_le.
    by apply N.div_le_lower_bound.
  - apply N.leb_gt in Hns. rewrite N.div_small by done. by rewrite app_nil_r.
Qed.
End Auditor.

(** ** Metrics *)

Record MetricsCollector := { mx_cgroup_id : N }.

(** [inode]: [std::fs::metadata(path)?.ino()]. *)
Definition MetricsCollector_from_cgroup_path (inode : rstr → result rstr N) (path : rstr)
  : result rstr MetricsCollector :=
  ino ← inode path;
  mret {| mx_cgroup_id := ino |}.

(** Always zero: nothing is read. *)
Definition get_kvm_exit_count (m : MetricsCollector) : result rstr N := Ok 0%N.

(** Only logged: no map is written. *)
Definition link_cgroup_to_session (cgroup_id session_id : N) : unit := tt.

(** [rand::rng().random()]: whatever the generator draws, as a [u64]. *)
Definition generate_session_id {W} (random : W → N * W) (w : W) : N * W :=
  let '(x, w') := random w in ((x mod 2 ^ 64)%N, w').

(** ** The tests *)

(** [test_spawn_blocking_audit]: a closure that sleeps for two milliseconds
    and returns 42. *)
Definition sleeping (n : nat) : N := (N.of_nat n * 2000000)%N.
Definition test_spawn_blocking_audit : result rstr N * (unit * Telemetry) :=
  SyscallAuditor_spawn_blocking sleeping (lit "test_task") (λ w, (Finished 42%N, w)) (tt, mk_tele 0 []).
Example spawn_blocking_audit_passes :
  test_spawn_blocking_audit = (Ok 42%N, (tt, mk_tele 2 [(lit "test_task", 2%N)])).
Proof. reflexivity. Qed.

(** [test_syscall_auditor] (src/control-plane/src/main.rs): a call that takes
    no time and one that sleeps for two milliseconds. *)
Definition fast_then_slow (n : nat) : N := if (3 <=? n) then 2000000%N else 0%N.
Definition test_syscall_auditor : list (rstr * N) :=
  let f := λ w : unit, (Finished tt, w) in
  let '(_, s1) := SyscallAuditor_audit fast_then_slow (lit "fast_call") f (tt, mk_tele 0 []) in
  let '(_, (_, t)) := SyscallAuditor_audit fast_then_slow (lit "slow_call") f s1 in
  tl_warnings t.
Example syscall_auditor_passes : test_syscall_auditor = [(lit "slow_call", 2%N)].
Proof. reflexivity. Qed.
