(* ===== verification/Xtask.v ===== *)
(** * control-plane: building the eBPF object (src/control-plane/xtask/src/main.rs)

    [cargo xtask build-ebpf] compiles the eBPF crate and copies the object to
    the path the loader includes it from (src/control-plane/src/vmm/network.rs,
    lines 20-23).  Progress messages are left out; an [anyhow] error is its
    outermost context. *)

From S2P Require Import Prelude RustStd.

(** [std::process::Command]. *)
Record Cmd := { cm_program : rstr; cm_current_dir : rstr; cm_env_remove : list rstr; cm_args : list rstr }.

Class XtaskOs (W : Type) := {
  (** [cmd.status()]: whether it was a success, and the status as text *)
  xt_status : Cmd → SM W rstr (bool * rstr);
  xt_create_dir_all : rstr → SM W rstr unit;
  xt_copy : rstr → rstr → SM W rstr unit;
}.

(** [.context(msg)]. *)
Definition context {W A} (msg : rstr) (m : SM W rstr A) : SM W rstr A := SM_map_err (λ _, msg) m.

(** The path the control plane embeds, given its manifest directory. *)
Definition ebpf_bytes_path (manifest_dir : rstr) : rstr := manifest_dir ++ lit "/src/bpf/microvisor-ebpf".

Section Xtask.
Context {W : Type} `{XtaskOs W} (manifest_dir : rstr).
Local Abbreviation M := (SM W rstr).

Definition ebpf_build_cmd (ebpf_dir : rstr) (release : bool) : Cmd :=
  {| cm_program := lit "cargo"; cm_current_dir := ebpf_dir; cm_env_remove := [lit "RUSTUP_TOOLCHAIN"];
     cm_args := [lit "build"; lit "--target"; lit "bpfel-unknown-none"; lit "-Z"; lit "build-std=core"]
                ++ (if release then [lit "--release"] else []) |}.

Definition build_ebpf (release : bool) : M unit :=
  workspace_root ← lift (ok_or (path_parent manifest_dir) (lit "xtask has no parent directory"));
  let ebpf_dir := join workspace_root (lit "microvisor-ebpf") in
  let profile := if release then lit "release" else lit "debug" in
  status ← context (lit "failed to invoke cargo for eBPF build") (xt_status (ebpf_build_cmd ebpf_dir release));
  if negb (fst status) then throw (lit "eBPF build failed with status: " ++ snd status) else
  let obj_src := join (join (join (join ebpf_dir (lit "target")) (lit "bpfel-unknown-none")) profile) (lit "microvisor-ebpf") in
  let obj_dst_dir := join (join workspace_root (lit "src")) (lit "bpf") in
  _ ← context (lit "failed to create src/bpf/ output directory") (xt_create_dir_all obj_dst_dir);
  let obj_dst := join obj_dst_dir (lit "microvisor-ebpf") in
  context (lit "failed to copy eBPF object from " ++ obj_src ++ lit " to " ++ obj_dst) (xt_copy obj_src obj_dst).

(** [env::args().nth(1)]; [Some 1]: [std::process::exit(1)] after the usage. *)
Definition xtask_main (task : option rstr) : M (option N) :=
  match task with
  | Some t =>
      if bool_decide (t = lit "build-ebpf") then _ ← build_ebpf false; mret None
      else if bool_decide (t = lit "build-ebpf-release") then _ ← build_ebpf true; mret None
      else mret (Some 1%N)
  | None => mret (Some 1%N)
  end.
End Xtask.

(** ** The object gets where it is looked for *)

(** A path that does not end in a separator or a dot. *)
Definition plain_path (p : rstr) : Prop := ∃ q c, p = q ++ [c] ∧ c ≠ 47%N ∧ c ≠ 46%N.

Lemma rtrim_tail p : plain_path p → rtrim_path (reverse p) = reverse p.
Proof.
  intros (q & c & -> & Hs & Hd). rewrite reverse_app. cbn. destruct c as [|c]; [done|].
  repeat (destruct c as [c|c|]; try done).
Qed.

Lemma rtrim_sep p : plain_path p → rtrim_path (lit "/" ++ reverse p) = reverse p.
Proof.
  intros Hp. rewrite <- (rtrim_tail p Hp) at 2. destruct (reverse p) as [|c r] eqn:He; [|done].
  apply (f_equal reverse) in He. rewrite reverse_involutive in He. subst p.
  destruct Hp as (q & c & Heq & _). by destruct q.
Qed.

Lemma join_tail p name : plain_path p → starts_with name (lit "/") = false → join p name = p ++ lit "/" ++ name.
Proof.
  intros (q & c & -> & Hs & _) Hn. unfold join. rewrite Hn.
  rewrite bool_decide_false by (by destruct q). cbn [orb].
  replace (ends_with (q ++ [c]) (lit "/")) with false; [done|].
  symmetry. apply not_true_iff_false. rewrite ends_with_true. intros [t Ht]. by apply app_inj_2 in Ht as [_ [= ->]].
Qed.

Lemma plain_app p q : plain_path q → plain_path (p ++ q).
Proof. intros (r & c & -> & ? & ?). exists (p ++ r), c. by rewrite <- app_assoc. Qed.

Lemma plain_join p q : plain_path q → plain_path (p ++ lit "/" ++ q).
Proof. intros. by do 2 apply plain_app. Qed.

Lemma parent_plain p name :
  plain_path p → plain_path name → Forall (λ c, c ≠ 47%N) name → path_parent (p ++ lit "/" ++ name) = Some p.
Proof.
  intros Hp Hname Hn. assert (plain_path (p ++ lit "/" ++ name)) as Hpath by (by apply plain_join).
  unfold path_parent. rewrite (rtrim_tail _ Hpath).
  assert (snd (last_component (reverse (p ++ lit "/" ++ name))) = lit "/" ++ reverse p) as Hlast.
  { rewrite app_assoc, reverse_app, reverse_app. apply Forall_reverse in Hn. revert Hn.
    generalize (reverse name). induction 1 as [|c l Hc Hl IH]; [done|]. cbn [app].
    destruct c as [|c]; [apply IH|].
    repeat (destruct c as [c|c|]; try (exact IH)). done. }
  assert (∀ r, length r < 2 → reverse (p ++ lit "/" ++ name) ≠ r) as Hlong.
  { intros r Hr He. apply (f_equal length) in He. rewrite length_reverse, !length_app in He.
    destruct Hp as (q & c & -> & _). destruct Hname as (q' & c' & -> & _). rewrite !length_app in He. cbn in He. lia. }
  rewrite Hlast, (bool_decide_false (_ = [])) by (by apply Hlong, Nat.ltb_lt).
  rewrite (bool_decide_false (_ = lit "/")) by (by apply Hlong, Nat.ltb_lt).
  cbn [orb]. by rewrite (rtrim_sep p Hp), reverse_involutive.
Qed.

Ltac plain_tail :=
  match goal with
  | |- plain_path (_ ++ _) => apply plain_app; plain_tail
  | |- plain_path ?t => exists (removelast t), (List.last t 0%N); by vm_compute
  end.
Ltac plain_paths :=
  match goal with H : plain_path ?ws |- _ => rewrite ?(join_tail ws) by (exact H || reflexivity) end;
  repeat match goal with |- context [join (?a ++ ?b) ?n] =>
    rewrite (join_tail (a ++ b) n); [|plain_tail|reflexivity] end;
  rewrite <- ?app_assoc; reflexivity.

Lemma context_ok {W A} msg (m : SM W rstr A) w a w' : context msg m w = (Ok a, w') → m w = (Ok a, w').
Proof. unfold context, SM_map_err. destruct (m w) as [[x|e] w1]; [|done]. by intros [= -> ->]. Qed.

(** A build task that succeeds has run cargo in the eBPF crate successfully,
    and then copied the object of that profile to the file the control plane
    embeds. *)
Theorem build_ebpf_installs `{XtaskOs W} (workspace : rstr) release w w' :
  plain_path workspace → build_ebpf (workspace ++ lit "/xtask") release w = (Ok tt, w') →
  ∃ text w1 w2 w3,
    xt_status (ebpf_build_cmd (workspace ++ lit "/microvisor-ebpf") release) w = (Ok (true, text), w1) ∧
    xt_create_dir_all (workspace ++ lit "/src/bpf") w1 = (Ok tt, w2) ∧
    xt_copy (workspace ++ lit "/microvisor-ebpf/target/bpfel-unknown-none/"
             ++ (if release then lit "release" else lit "debug") ++ lit "/microvisor-ebpf")
      (ebpf_bytes_path workspace) w2 = (Ok tt, w3) ∧ w' = w3.
Proof.
  intros Hws Hrun. unfold build_ebpf in Hrun.
  change (lit "/xtask") with (lit "/" ++ lit "xtask") in Hrun.
  rewrite (parent_plain workspace (lit "xtask")) in Hrun;
    [|done|by exists (lit "xtas"), 107%N|by repeat constructor].
  apply bind_ok in Hrun as (root & w0 & [= <- <-] & Hrun).
  apply bind_ok in Hrun as ([ok text] & w1 & Hst & Hrun). destruct ok; [|done].
  apply bind_ok in Hrun as ([] & w2 & Hdir & Hrun).
  apply context_ok in Hst, Hdir, Hrun. exists text, w1, w2, w'.
  assert (join workspace (lit "microvisor-ebpf") = workspace ++ lit "/microvisor-ebpf") as Hebpf by plain_paths.
  assert (join (join workspace (lit "src")) (lit "bpf") = workspace ++ lit "/src/bpf") as Hbpf by plain_paths.
  rewrite Hebpf in Hst, Hrun. rewrite Hbpf in Hdir, Hrun. split; [done|]. split; [done|]. split; [|done].
  rewrite <- Hrun. f_equal; [destruct release|]; unfold ebpf_bytes_path; plain_paths.
Qed.

Definition willing : XtaskOs unit := {|
  xt_status _ := λ w, (Ok (true, lit "exit status: 0"), w);
  xt_create_dir_all _ := λ w, (Ok tt, w); xt_copy _ _ := λ w, (Ok tt, w) |}.
Lemma build_ebpf_installs_witness :
  ∃ text, xt_status (XtaskOs := willing) (ebpf_build_cmd (lit "/control-plane/microvisor-ebpf") true) tt
    = (Ok (true, text), tt).
Proof.
  destruct (build_ebpf_installs (H := willing) (lit "/control-plane") true tt tt) as (text & [] & ? & ? & Hst & _).
  - exists (lit "/control-plan"), 101%N. vm_compute. split; [reflexivity|]. split; discriminate.
  - vm_compute. reflexivity.
  - exists text. exact Hst.
Defined.
