(* ===== verification/Ipam.v ===== *)
(** * control-plane: the IP address manager (src/control-plane/src/vmm/network.rs, 38-76)

    One atomic 64-bit word and a base address.  [allocate] is a
    compare-exchange loop; its two atomic accesses are two steps of a thread,
    and any number of threads interleave.  The theorems: no address is given
    to two holders under any interleaving, the free set is exact as long as
    the 64 addresses fit below [2^32], a call that is not disturbed returns the
    least free address, and what happens when the addresses do not fit. *)

From S2P Require Import Prelude RustStd.
Local Open Scope Z_scope.

(** ** Machine operations *)

(** [!x] on [u64]. *)
Definition not_u64 (x : Z) : Z := Z.lnot x mod 2 ^ 64.

(** [u64::trailing_zeros]: 64 for zero. *)
Fixpoint trailing_zeros_from (n : nat) (i x : Z) : Z :=
  match n with
  | O => i
  | S n => if Z.testbit x i then i else trailing_zeros_from n (i + 1) x
  end.
Definition trailing_zeros (x : Z) : Z := trailing_zeros_from 64 0 x.

(** ** The manager *)

Record IpAm := mk_ipam { ipam_bits : Z; ipam_base_ip : Z }.

Definition IpAm_new (base_ip : Z) : IpAm := {| ipam_bits := 0; ipam_base_ip := base_ip |}.

Definition set_bits (m : IpAm) (bits : Z) : IpAm :=
  {| ipam_bits := bits; ipam_base_ip := ipam_base_ip m |}.

(** A call of [allocate] between its atomic accesses: about to load, holding
    the word it loaded, or finished. *)
Inductive AllocCall :=
| AtLoad
| AtExchange (current : Z)
| Returned (r : result rstr Z).

Definition no_free_ips : rstr := lit "No free IPs".

(** One atomic access of [allocate] with the local computation after it; the
    [u32] addition wraps, as in the release profile. *)
Definition allocate_step (m : IpAm) (call : AllocCall) : IpAm * AllocCall :=
  match call with
  | AtLoad =>
      let current := ipam_bits m in
      if trailing_zeros (not_u64 current) >=? 64
      then (m, Returned (Err no_free_ips))
      else (m, AtExchange current)
  | AtExchange current =>
      let first_free := trailing_zeros (not_u64 current) in
      let mask := Z.shiftl 1 first_free in
      if ipam_bits m =? current
      then (set_bits m (Z.lor current mask), Returned (Ok (wrap_u32 (ipam_base_ip m + first_free))))
      else (m, AtLoad)
  | Returned r => (m, Returned r)
  end.

(** A call that runs for [n] accesses with no other thread in between. *)
Fixpoint allocate_solo (n : nat) (m : IpAm) (call : AllocCall) : IpAm * AllocCall :=
  match n with
  | O => (m, call)
  | S n => let '(m', call') := allocate_step m call in allocate_solo n m' call'
  end.

Definition allocate (m : IpAm) : IpAm * AllocCall := allocate_solo 2 m AtLoad.

Definition release (ip : Z) (m : IpAm) : IpAm :=
  if ip <? ipam_base_ip m then m else
  let index := ip - ipam_base_ip m in
  if index <? 64
  then set_bits m (Z.land (ipam_bits m) (not_u64 (Z.shiftl 1 index)))
  else m.

(** ** Threads *)

(** A client: it asks for an address, holds it, gives it back. *)
Inductive Client := Idle | Calling (call : AllocCall) | Holding (ip : Z).

Record System := mk_sys { sys_ipam : IpAm; sys_clients : gmap nat Client }.

Inductive sys_step (s : System) : System → Prop :=
| step_call t :
    sys_clients s !! t = Some Idle →
    sys_step s (mk_sys (sys_ipam s) (<[t := Calling AtLoad]> (sys_clients s)))
| step_access t call m' call' :
    sys_clients s !! t = Some (Calling call) →
    allocate_step (sys_ipam s) call = (m', call') →
    sys_step s (mk_sys m' (<[t := Calling call']> (sys_clients s)))
| step_return t ip :
    sys_clients s !! t = Some (Calling (Returned (Ok ip))) →
    sys_step s (mk_sys (sys_ipam s) (<[t := Holding ip]> (sys_clients s)))
| step_fail t e :
    sys_clients s !! t = Some (Calling (Returned (Err e))) →
    sys_step s (mk_sys (sys_ipam s) (<[t := Idle]> (sys_clients s)))
| step_release t ip :
    sys_clients s !! t = Some (Holding ip) →
    sys_step s (mk_sys (release ip (sys_ipam s)) (<[t := Idle]> (sys_clients s))).

Definition sys_init (base_ip : Z) (clients : gset nat) : System :=
  mk_sys (IpAm_new base_ip) (gset_to_gmap Idle clients).

(** The address a client owns: returned to it, or held. *)
Definition owned (c : Client) : option Z :=
  match c with
  | Holding ip => Some ip
  | Calling (Returned (Ok ip)) => Some ip
  | _ => None
  end.

Definition owns (s : System) (t : nat) (ip : Z) : Prop := sys_clients s !! t ≫= owned = Some ip.

(** ** Lemmas on the word *)

Lemma trailing_zeros_from_spec n i x :
  0 ≤ i →
  let r := trailing_zeros_from n i x in
  i ≤ r ≤ i + Z.of_nat n ∧ (r < i + Z.of_nat n → Z.testbit x r = true) ∧
  ∀ j, i ≤ j < r → Z.testbit x j = false.
Proof.
  revert i. induction n as [|n IH]; intros i Hi; cbn [trailing_zeros_from].
  - split_and!; [lia..|]. intros; lia.
  - destruct (Z.testbit x i) eqn:Hb; [split_and!; [lia..|done|intros; lia]|].
    destruct (IH (i + 1) ltac:(lia)) as (H1 & H2 & H3). split_and!; [lia..| |].
    + intros Hr. apply H2. lia.
    + intros j Hj. destruct (decide (j = i)) as [->|]; [done|]. apply H3. lia.
Qed.

Lemma not_u64_bit x i : 0 ≤ i < 64 → Z.testbit (not_u64 x) i = negb (Z.testbit x i).
Proof.
  intros Hi. unfold not_u64. rewrite Z.mod_pow2_bits_low by lia. apply Z.lnot_spec. lia.
Qed.

(** The first free index of a word: free, and everything below is taken. *)
Definition first_free (bits i : Z) : Prop :=
  0 ≤ i < 64 ∧ Z.testbit bits i = false ∧ ∀ j, 0 ≤ j < i → Z.testbit bits j = true.

Lemma trailing_zeros_free x :
  let i := trailing_zeros (not_u64 x) in
  (i < 64 ∧ first_free x i) ∨ (i = 64 ∧ ∀ j, 0 ≤ j < 64 → Z.testbit x j = true).
Proof.
  intros i. destruct (trailing_zeros_from_spec 64 0 (not_u64 x) ltac:(lia)) as (H1 & H2 & H3).
  fold (trailing_zeros (not_u64 x)) in H1, H2, H3. fold i in H1, H2, H3.
  assert (∀ j, 0 ≤ j < i → Z.testbit x j = true) as Hlow.
  { intros j Hj. specialize (H3 j Hj). rewrite not_u64_bit in H3 by lia.
    by destruct (Z.testbit x j). }
  destruct (decide (i < 64)) as [Hlt|]; [left|right].
  - split; [done|]. split; [lia|]. split; [|done].
    specialize (H2 Hlt). rewrite not_u64_bit in H2 by lia. by destruct (Z.testbit x i).
  - split; [lia|]. intros j Hj. apply Hlow. lia.
Qed.

Lemma shiftl_1_bit n i : 0 ≤ n → Z.testbit (Z.shiftl 1 n) i = bool_decide (i = n).
Proof.
  intros Hn. rewrite Z.shiftl_1_l. case_bool_decide as H; [subst; by apply Z.pow2_bits_true|].
  apply Z.pow2_bits_false. lia.
Qed.

Lemma set_bit_spec x n i : 0 ≤ n →
  Z.testbit (Z.lor x (Z.shiftl 1 n)) i = bool_decide (i = n) || Z.testbit x i.
Proof. intros. rewrite Z.lor_spec, shiftl_1_bit by done. by rewrite orb_comm. Qed.

Lemma clear_bit_spec x n i : 0 ≤ n → 0 ≤ i < 64 →
  Z.testbit (Z.land x (not_u64 (Z.shiftl 1 n))) i = negb (bool_decide (i = n)) && Z.testbit x i.
Proof. intros. rewrite Z.land_spec, not_u64_bit, shiftl_1_bit by lia. apply andb_comm. Qed.

(** [allocate_step] on every branch. *)
Lemma allocate_step_spec m call m' call' :
  allocate_step m call = (m', call') →
  (m' = m ∧ ((call = AtLoad ∧ call' = AtExchange (ipam_bits m)) ∨
             (call = AtLoad ∧ call' = Returned (Err no_free_ips) ∧
              ∀ j, 0 ≤ j < 64 → Z.testbit (ipam_bits m) j = true) ∨
             (∃ c, call = AtExchange c ∧ c ≠ ipam_bits m ∧ call' = AtLoad) ∨
             (∃ r, call = Returned r ∧ call' = call))) ∨
  (call = AtExchange (ipam_bits m) ∧ ∃ i, i = trailing_zeros (not_u64 (ipam_bits m)) ∧
     m' = set_bits m (Z.lor (ipam_bits m) (Z.shiftl 1 i)) ∧
     call' = Returned (Ok (wrap_u32 (ipam_base_ip m + i)))).
Proof.
  destruct call as [|c|r]; unfold allocate_step; intros Hs.
  - destruct (trailing_zeros_free (ipam_bits m)) as [[Hlt Hf]|[Heq Hall]].
    + destruct (_ >=? _) eqn:Hge; [lia|]. simplify_eq. naive_solver.
    + rewrite Heq in Hs. cbn in Hs. simplify_eq. left. split; [done|]. right; left. done.
  - destruct (ipam_bits m =? c) eqn:Hc; simplify_eq.
    + apply Z.eqb_eq in Hc as <-. right. split; [done|]. eauto.
    + apply Z.eqb_neq in Hc. left. split; [done|]. naive_solver.
  - simplify_eq. left. split; [done|]. naive_solver.
Qed.

(** A call only reaches its compare-exchange with a word that has a free bit. *)
Definition call_ok (c : Client) : Prop :=
  match c with
  | Calling (AtExchange bits) => trailing_zeros (not_u64 bits) < 64
  | _ => True
  end.

Lemma allocate_step_call_ok m call m' call' :
  allocate_step m call = (m', call') → call_ok (Calling call) → call_ok (Calling call').
Proof.
  unfold allocate_step. destruct call as [|c|r]; intros Hs Hok.
  - destruct (_ >=? 64) eqn:Hge; simplify_eq; [done|]. unfold call_ok. lia.
  - destruct (ipam_bits m =? c); simplify_eq; done.
  - simplify_eq. done.
Qed.

(** ** The invariant *)

(** Index [i] of a manager with this base has address [wrap_u32 (base + i)]. *)
Definition addr (base i : Z) : Z := wrap_u32 (base + i).

Lemma addr_inj base i j : 0 ≤ i < 64 → 0 ≤ j < 64 → addr base i = addr base j → i = j.
Proof. unfold addr, wrap_u32. intros. lia. Qed.

Record sys_inv (base : Z) (s : System) : Prop := {
  inv_base : ipam_base_ip (sys_ipam s) = base;
  inv_calls : ∀ t c, sys_clients s !! t = Some c → call_ok c;
  inv_taken : ∀ t ip, owns s t ip →
    ∃ i, 0 ≤ i < 64 ∧ ip = addr base i ∧ Z.testbit (ipam_bits (sys_ipam s)) i = true;
  inv_unique : ∀ t1 t2 ip, owns s t1 ip → owns s t2 ip → t1 = t2;
}.

(** Every set bit has an owner. *)
Definition no_leak (base : Z) (s : System) : Prop :=
  ∀ i, 0 ≤ i < 64 → Z.testbit (ipam_bits (sys_ipam s)) i = true → ∃ t, owns s t (addr base i).

Lemma owns_insert m s t c t' ip :
  owns (mk_sys m (<[t := c]> (sys_clients s))) t' ip ↔
  (t' = t ∧ owned c = Some ip) ∨ (t' ≠ t ∧ owns s t' ip).
Proof.
  unfold owns. cbn. destruct (decide (t' = t)) as [->|Hne].
  - rewrite lookup_insert_eq. naive_solver.
  - rewrite lookup_insert_ne by done. naive_solver.
Qed.

Lemma owns_client s t c ip : sys_clients s !! t = Some c → owned c = Some ip → owns s t ip.
Proof. intros Hc Ho. unfold owns. by rewrite Hc. Qed.

(** A step that keeps the word and what its client owns keeps everything. *)
Lemma sys_inv_same base s t c c' :
  sys_inv base s → sys_clients s !! t = Some c → owned c' = owned c → call_ok c' →
  sys_inv base (mk_sys (sys_ipam s) (<[t := c']> (sys_clients s))) ∧
  ∀ t' ip, owns (mk_sys (sys_ipam s) (<[t := c']> (sys_clients s))) t' ip ↔ owns s t' ip.
Proof.
  intros [Hb Hc Ht Hu] Hl Ho Hok.
  assert (∀ t' ip, owns (mk_sys (sys_ipam s) (<[t := c']> (sys_clients s))) t' ip ↔ owns s t' ip) as He.
  { intros t' ip. rewrite owns_insert, Ho. unfold owns. split.
    - intros [[-> ?]|[_ ?]]; [by rewrite Hl|done].
    - intros Hs. destruct (decide (t' = t)) as [->|]; [left|by right]. by rewrite Hl in Hs. }
  split; [|exact He]. split; cbn.
  - done.
  - intros t' c1. rewrite lookup_insert_Some. naive_solver.
  - intros t' ip Hown. apply He in Hown. eauto.
  - intros t1 t2 ip H1 H2. apply He in H1, H2. eauto.
Qed.

Lemma sys_inv_acquire base s t i :
  sys_inv base s → sys_clients s !! t = Some (Calling (AtExchange (ipam_bits (sys_ipam s)))) →
  first_free (ipam_bits (sys_ipam s)) i →
  sys_inv base (mk_sys (set_bits (sys_ipam s) (Z.lor (ipam_bits (sys_ipam s)) (Z.shiftl 1 i)))
    (<[t := Calling (Returned (Ok (addr base i)))]> (sys_clients s))).
Proof.
  intros [Hb Hc Ht Hu] Hl (Hi & Hfree & _).
  assert (∀ t', ¬ owns s t' (addr base i)) as Hnone.
  { intros t' (j & Hj & Heq & Hbit)%Ht. apply addr_inj in Heq; [|done..]. by subst; congruence. }
  split; cbn.
  - done.
  - intros t' c1. rewrite lookup_insert_Some. intros [[<- <-]|[_ ?]]; [done|eauto].
  - intros t' ip. rewrite owns_insert. setoid_rewrite set_bit_spec; [|lia].
    intros [[-> [= <-]]|[_ Hown]].
    + exists i. rewrite bool_decide_true; done.
    + destruct (Ht _ _ Hown) as (j & ? & ? & Hbit). exists j. rewrite Hbit, orb_true_r. done.
  - intros t1 t2 ip. rewrite !owns_insert. cbn. naive_solver.
Qed.

Lemma release_bits base m ip i :
  ipam_base_ip m = base → 0 ≤ i < 64 →
  Z.testbit (ipam_bits (release ip m)) i =
  Z.testbit (ipam_bits m) i && negb (bool_decide (ip = base + i)).
Proof.
  intros Hb Hi. unfold release. rewrite Hb.
  destruct (ip <? base) eqn:Hlt; [|destruct (ip - base <? 64) eqn:Hge].
  - rewrite bool_decide_false by lia. by rewrite andb_true_r.
  - cbn. rewrite clear_bit_spec by lia. rewrite andb_comm. f_equal. f_equal.
    apply bool_decide_ext. lia.
  - rewrite bool_decide_false by lia. by rewrite andb_true_r.
Qed.

Lemma release_base m ip : ipam_base_ip (release ip m) = ipam_base_ip m.
Proof.
  unfold release. destruct (ip <? _); [done|]. by destruct (ip - _ <? 64).
Qed.

Lemma sys_inv_release base s t ip :
  sys_inv base s → sys_clients s !! t = Some (Holding ip) →
  sys_inv base (mk_sys (release ip (sys_ipam s)) (<[t := Idle]> (sys_clients s))).
Proof.
  intros [Hb Hc Ht Hu] Hl.
  assert (owns s t ip) as Hown by by eapply owns_client.
  split; cbn.
  - by rewrite release_base.
  - intros t' c1. rewrite lookup_insert_Some. intros [[<- <-]|[_ ?]]; [done|eauto].
  - intros t' ip'. rewrite owns_insert. intros [[-> [=]]|[Hne Hown']].
    destruct (Ht _ _ Hown') as (j & Hj & Heq & Hbit). exists j. split_and!; [lia..|done|].
    rewrite (release_bits base) by done. rewrite Hbit, bool_decide_false; [done|].
    intros Heq'. apply Hne, (Hu _ _ ip'); [done|].
    destruct (Ht _ _ Hown) as (i & Hi & Heq2 & _). unfold addr, wrap_u32 in *.
    replace ip' with ip; [done|]. lia.
  - intros t1 t2 ip'. rewrite !owns_insert. naive_solver.
Qed.

Lemma sys_step_inv base s s' : sys_step s s' → sys_inv base s → sys_inv base s'.
Proof.
  intros Hstep Hinv. pose proof Hinv as [Hb Hc _ _].
  destruct Hstep as [t Hl|t call m' call' Hl Hs|t ip Hl|t e Hl|t ip Hl].
  - by eapply sys_inv_same.
  - pose proof (allocate_step_call_ok _ _ _ _ Hs (Hc _ _ Hl)) as Hok.
    apply allocate_step_spec in Hs as [[-> Hcase]|[-> (i & -> & -> & ->)]].
    + eapply sys_inv_same; [done|done| |done].
      destruct Hcase as [[-> ->]|[(-> & -> & _)|[(? & -> & _ & ->)|(? & -> & ->)]]]; done.
    + rewrite Hb. apply sys_inv_acquire; [done|done|].
      specialize (Hc _ _ Hl). unfold call_ok in Hc.
      destruct (trailing_zeros_free (ipam_bits (sys_ipam s))) as [[_ ?]|[? _]]; [done|lia].
  - by eapply sys_inv_same.
  - by eapply sys_inv_same.
  - by apply sys_inv_release.
Qed.

Lemma sys_init_inv base ts : sys_inv base (sys_init base ts).
Proof.
  assert (∀ t ip, ¬ owns (sys_init base ts) t ip) as Hno.
  { intros t ip. unfold owns. cbn. rewrite lookup_gset_to_gmap. case_guard; naive_solver. }
  split; cbn.
  - done.
  - intros t c. rewrite lookup_gset_to_gmap_Some. by intros [_ <-].
  - intros t ip Hown. by destruct (Hno _ _ Hown).
  - intros t1 t2 ip Hown. by destruct (Hno _ _ Hown).
Qed.

Lemma sys_reachable_inv base ts s : rtc sys_step (sys_init base ts) s → sys_inv base s.
Proof.
  intros H. apply (rtc_ind_r (sys_inv base) (sys_init base ts)) in H; [done|apply sys_init_inv|].
  intros y z _ Hyz Hy. by eapply sys_step_inv.
Qed.

Lemma no_leak_step base s s' :
  0 ≤ base → base + 64 ≤ 2 ^ 32 → sys_inv base s → sys_step s s' → no_leak base s → no_leak base s'.
Proof.
  intros Hb0 Hb1 Hinv Hstep Hn. pose proof Hinv as [Hb Hc Ht Hu].
  assert (∀ i, 0 ≤ i < 64 → addr base i = base + i) as Haddr.
  { intros i Hi. unfold addr, wrap_u32. apply Z.mod_small. lia. }
  destruct Hstep as [t Hl|t call m' call' Hl Hs|t ip Hl|t e Hl|t ip Hl].
  - intros i Hi Hbit. destruct (Hn i Hi Hbit) as [t' Hown]. exists t'.
    eapply sys_inv_same; [done|exact Hl|..]; done.
  - pose proof (allocate_step_call_ok _ _ _ _ Hs (Hc _ _ Hl)) as Hok.
    apply allocate_step_spec in Hs as [[-> Hcase]|[-> (i & -> & -> & ->)]].
    + intros i Hi Hbit. destruct (Hn i Hi Hbit) as [t' Hown]. exists t'.
      eapply sys_inv_same; [done|exact Hl| |exact Hok|exact Hown].
      destruct Hcase as [[-> ->]|[(-> & -> & _)|[(? & -> & _ & ->)|(? & -> & ->)]]]; done.
    + intros j Hj. cbn [sys_ipam set_bits ipam_bits].
      destruct (trailing_zeros_free (ipam_bits (sys_ipam s))) as [[_ (Hi & _)]|[Heq _]];
        [|specialize (Hc _ _ Hl); unfold call_ok in Hc; lia].
      rewrite set_bit_spec by lia. setoid_rewrite owns_insert.
      case_bool_decide as Hji; cbn; intros Hbit.
      * exists t. left. rewrite Hb, Hji. done.
      * destruct (Hn j Hj Hbit) as [t' Hown]. exists t'. right. split; [|done].
        intros ->. unfold owns in Hown. by rewrite Hl in Hown.
  - intros i Hi Hbit. destruct (Hn i Hi Hbit) as [t' Hown]. exists t'.
    eapply sys_inv_same; [done|exact Hl|..]; done.
  - intros i Hi Hbit. destruct (Hn i Hi Hbit) as [t' Hown]. exists t'.
    eapply sys_inv_same; [done|exact Hl|..]; done.
  - intros i Hi. cbn [sys_ipam]. rewrite (release_bits base) by done. intros Hbit.
    apply andb_true_iff in Hbit as [Hbit Hne%negb_true_iff]. case_bool_decide as Hip; [done|].
    destruct (Hn i Hi Hbit) as [t' Hown]. exists t'. rewrite owns_insert. right. split; [|done].
    intros ->. unfold owns in Hown. rewrite Hl in Hown. cbn in Hown. rewrite Haddr in Hown by done.
    congruence.
Qed.

Lemma allocate_cases m :
  (∃ i, first_free (ipam_bits m) i ∧
     allocate m = (set_bits m (Z.lor (ipam_bits m) (Z.shiftl 1 i)),
                   Returned (Ok (addr (ipam_base_ip m) i)))) ∨
  ((∀ j, 0 ≤ j < 64 → Z.testbit (ipam_bits m) j = true) ∧
   allocate m = (m, Returned (Err no_free_ips))).
Proof.
  unfold allocate, allocate_solo. destruct (trailing_zeros_free (ipam_bits m)) as [[Hlt Hf]|[Heq Hall]].
  - left. eexists. split; [exact Hf|]. unfold allocate_step at 1.
    destruct (_ >=? 64) eqn:Hge; [lia|]. unfold allocate_step. by rewrite Z.eqb_refl.
  - right. split; [done|]. unfold allocate_step at 1. by rewrite Heq.
Qed.

Lemma release_undoes_allocate m m' ip :
  0 ≤ ipam_bits m < 2 ^ 64 → 0 ≤ ipam_base_ip m → ipam_base_ip m + 64 ≤ 2 ^ 32 →
  allocate m = (m', Returned (Ok ip)) → release ip m' = m.
Proof.
  intros Hw Hb0 Hb1 Ha. destruct (allocate_cases m) as [(i & (Hi & Hfree & _) & Ha')|[_ Ha']];
    rewrite Ha in Ha'; [|done]. injection Ha' as -> ->.
  assert (addr (ipam_base_ip m) i = ipam_base_ip m + i) as ->
    by (unfold addr, wrap_u32; apply Z.mod_small; lia).
  unfold release. cbn [set_bits ipam_base_ip ipam_bits].
  destruct (_ <? ipam_base_ip m) eqn:H1; [lia|].
  replace (ipam_base_ip m + i - ipam_base_ip m) with i by lia.
  destruct (i <? 64) eqn:H2; [|lia]. destruct m as [bits base]. unfold set_bits. cbn in *. f_equal.
  apply Z.bits_inj'. intros j Hj. rewrite Z.land_spec, set_bit_spec by lia.
  destruct (decide (j < 64)) as [Hlt|Hge].
  - rewrite not_u64_bit, shiftl_1_bit by lia. case_bool_decide; subst; cbn; [done|apply andb_true_r].
  - replace (Z.testbit bits j) with false; [|symmetry; apply (Z.bits_above_log2 bits j)].
    + rewrite bool_decide_false by lia. done.
    + lia.
    + destruct (decide (bits = 0)) as [->|]; [cbn; lia|]. apply Z.log2_lt_pow2; [lia|].
      eapply Z.lt_le_trans; [apply Hw|]. apply Z.pow_le_mono_r; lia.
Qed.

(** ** Theorems *)

(** [C5] No address has two owners.  Any number of clients allocate and
    release concurrently, their atomic accesses interleaved in any order: in
    every state that can be reached, an address returned to or held by one
    client is owned by no other. *)
Theorem ipam_no_double_allocation base clients s t1 t2 ip :
  rtc sys_step (sys_init base clients) s → owns s t1 ip → owns s t2 ip → t1 = t2.
Proof. intros Hr. apply sys_reachable_inv in Hr as [_ _ _ Hu]. apply Hu. Qed.

(** [C25] The free set is exact.  When the 64 addresses fit in a [u32], in
    every state concurrent clients can reach a bit is set exactly if some
    client owns its address: nothing leaks, and [allocate] fails only when 64
    addresses are owned. *)
Theorem ipam_bits_exact base clients s i :
  0 ≤ base → base + 64 ≤ 2 ^ 32 → rtc sys_step (sys_init base clients) s → 0 ≤ i < 64 →
  Z.testbit (ipam_bits (sys_ipam s)) i = true ↔ ∃ t, owns s t (base + i).
Proof.
  intros Hb0 Hb1 Hr Hi.
  assert (addr base i = base + i) as <- by (unfold addr, wrap_u32; apply Z.mod_small; lia).
  assert (no_leak base s) as Hn.
  { apply (rtc_ind_r (no_leak base) (sys_init base clients)) in Hr; [done| |].
    - intros j Hj. cbn. by rewrite Z.testbit_0_l.
    - intros y z Hry Hyz Hy. eapply no_leak_step; [done..| |exact Hyz|exact Hy].
      by eapply sys_reachable_inv. }
  apply sys_reachable_inv in Hr as [_ _ Ht _]. split; [by apply Hn|].
  intros [t (j & Hj & Heq & Hbit)%Ht]. apply addr_inj in Heq; [|done..]. by subst.
Qed.

(** A call of [allocate] that no other access disturbs returns after two
    atomic accesses, with the address of the least free index, marking that
    index and nothing else, or with [No free IPs] and no change exactly when
    all 64 are taken. *)
Theorem allocate_least_free m :
  match allocate m with
  | (m', Returned (Ok ip)) =>
      ∃ i, first_free (ipam_bits m) i ∧ ip = wrap_u32 (ipam_base_ip m + i) ∧
           ipam_base_ip m' = ipam_base_ip m ∧
           ∀ j, Z.testbit (ipam_bits m') j = bool_decide (j = i) || Z.testbit (ipam_bits m) j
  | (m', Returned (Err e)) =>
      e = no_free_ips ∧ m' = m ∧ ∀ j, 0 ≤ j < 64 → Z.testbit (ipam_bits m) j = true
  | _ => False
  end.
Proof.
  destruct (allocate_cases m) as [(i & Hf & ->)|[Hall ->]]; [|done].
  exists i. split_and!; [done..|]. intros j. apply set_bit_spec. destruct Hf; lia.
Qed.

(** Releasing an address that [allocate] returned restores the word, so
    the address can be given out again; this needs the address not to wrap. *)
Theorem release_allocate m m' ip :
  0 ≤ ipam_bits m < 2 ^ 64 → 0 ≤ ipam_base_ip m → ipam_base_ip m + 64 ≤ 2 ^ 32 →
  allocate m = (m', Returned (Ok ip)) → release ip m' = m.
Proof. apply release_undoes_allocate. Qed.

(** A call interrupted anywhere completes within three further accesses
    once it runs undisturbed: the loop cannot spin without another thread
    changing the word. *)
Theorem allocate_obstruction_free m call :
  ∃ m' r, allocate_solo 3 m call = (m', Returned r).
Proof.
  assert (∀ m0 r, allocate_step m0 (Returned r) = (m0, Returned r)) as Hret by done.
  assert (∀ m0, ∃ m1 c1 m2 r, allocate_step m0 AtLoad = (m1, c1) ∧
    allocate_step m1 c1 = (m2, Returned r)) as Hload.
  { intros m0. destruct (allocate_cases m0) as [(i & _ & Ha)|[_ Ha]];
      unfold allocate, allocate_solo in Ha;
      destruct (allocate_step m0 AtLoad) as [m1 c1] eqn:H1;
      destruct (allocate_step m1 c1) as [m2 c2] eqn:H2; simplify_eq; eauto 8. }
  unfold allocate_solo. destruct call as [|c|r].
  - destruct (Hload m) as (m1 & c1 & m2 & r & -> & ->). rewrite Hret. eauto.
  - unfold allocate_step at 1. destruct (ipam_bits m =? c); [rewrite !Hret; eauto|].
    destruct (Hload m) as (m1 & c1 & m2 & r & -> & ->). eauto.
  - rewrite !Hret. eauto.
Qed.

(** With a base address whose range does not fit, an address wraps below
    the base and its release is ignored: the index stays taken. *)
Theorem release_wrapped_leaks :
  let m1 := fst (allocate (IpAm_new (2 ^ 32 - 1))) in
  let m2 := fst (allocate m1) in
  snd (allocate m1) = Returned (Ok 0) ∧ release 0 m2 = m2 ∧ ipam_bits m2 = 3.
Proof. vm_compute. repeat split. Qed.

(** ** Witnesses *)

Module IpamDemo.
(** two clients; the second has been given the base address *)
Definition base : Z := 0x0A000000.
Definition s0 : System := sys_init base {[0%nat; 1%nat]}.
Definition s1 : System := mk_sys (sys_ipam s0) (<[1%nat := Calling AtLoad]> (sys_clients s0)).
Definition s2 : System :=
  mk_sys (sys_ipam s1) (<[1%nat := Calling (AtExchange 0)]> (sys_clients s1)).
Definition s3 : System :=
  mk_sys (mk_ipam 1 base) (<[1%nat := Calling (Returned (Ok base))]> (sys_clients s2)).
Lemma reach : rtc sys_step s0 s3.
Proof.
  eapply rtc_l; [|eapply rtc_l; [|apply rtc_once]].
  - apply (step_call s0 1). reflexivity.
  - apply (step_access s1 1 AtLoad); vm_compute; reflexivity.
  - apply (step_access s2 1 (AtExchange 0)); vm_compute; reflexivity.
Qed.
End IpamDemo.

Lemma ipam_no_double_allocation_witness : 1%nat = 1%nat.
Proof.
  apply (ipam_no_double_allocation IpamDemo.base {[0%nat; 1%nat]} IpamDemo.s3 1 1 IpamDemo.base).
  - exact IpamDemo.reach.
  - reflexivity.
  - reflexivity.
Defined.

Lemma ipam_bits_exact_witness :
  Z.testbit (ipam_bits (sys_ipam IpamDemo.s3)) 0 = true ↔
  ∃ t, owns IpamDemo.s3 t (IpamDemo.base + 0).
Proof.
  apply (ipam_bits_exact IpamDemo.base {[0%nat; 1%nat]}).
  - done.
  - done.
  - exact IpamDemo.reach.
  - lia.
Defined.

Lemma release_allocate_witness : release 0x0A000001 (mk_ipam 3 0x0A000000) = mk_ipam 1 0x0A000000.
Proof.
  apply release_allocate; cbn [ipam_bits ipam_base_ip]; try lia. vm_compute. reflexivity.
Defined.
