(* ===== verification/EbpfNat.v ===== *)
(** * control-plane: the eBPF NAT programs
      (src/control-plane/microvisor-ebpf/src/main.rs, microvisor-common/src/lib.rs)

    A packet is a list of bytes.  aya's [TcContext] and the kernel's checksum
    helpers are a class of operations ([TcContext]) with their documented
    behaviour as a second class ([TcContextOk]): bounds-checked loads and
    stores, and incremental one's-complement checksum updates.  Both
    programs are written out; [nat_rewrite] is their common shape. *)

From S2P Require Import Prelude RustStd.
Local Open Scope Z_scope.

#[export] Instance byte_inhabited : Inhabited byte := populate x00.

(** ** Little-endian words (bpfel) *)

Definition le8 (p : bytes) (off : nat) : Z := byte_to_Z (p !!! off).
Definition le16 (p : bytes) (off : nat) : Z := le8 p off + 256 * le8 p (S off).
Definition le32 (p : bytes) (off : nat) : Z := le16 p off + 65536 * le16 p (2 + off).

Definition le_bytes16 (v : Z) : bytes := [byte_of_Z v; byte_of_Z (v / 256)].
Definition le_bytes32 (v : Z) : bytes := le_bytes16 v ++ le_bytes16 (v / 65536).

(** [u16::from_be], [u32::from_be] on a little-endian target; also [to_be]. *)
Definition swap16 (v : Z) : Z := (v mod 256) * 256 + (v / 256) mod 256.
Definition swap32 (v : Z) : Z := swap16 (v mod 65536) * 65536 + swap16 (v / 65536).

(** ** Constants (lines 16-70) *)

Definition ETH_HDR_LEN : nat := 14.
Definition IP_HDR_LEN : nat := 20.
Definition ETH_PROTO_OFF : nat := 12.
Definition IP_PROTO_OFF : nat := ETH_HDR_LEN + 9.
Definition IP_CSUM_OFF : nat := ETH_HDR_LEN + 10.
Definition IP_SRC_OFF : nat := ETH_HDR_LEN + 12.
Definition IP_DST_OFF : nat := ETH_HDR_LEN + 16.
Definition TCP_CSUM_OFF : nat := ETH_HDR_LEN + IP_HDR_LEN + 16.
Definition UDP_CSUM_OFF : nat := ETH_HDR_LEN + IP_HDR_LEN + 6.
Definition ICMP_CSUM_OFF : nat := ETH_HDR_LEN + IP_HDR_LEN + 2.
Definition ICMP_TYPE_OFF : nat := ETH_HDR_LEN + IP_HDR_LEN.
Definition INNER_IP_OFF : nat := ETH_HDR_LEN + IP_HDR_LEN + 8.
Definition INNER_IP_CSUM_OFF : nat := INNER_IP_OFF + 10.
Definition INNER_IP_SRC_OFF : nat := INNER_IP_OFF + 12.
Definition INNER_IP_DST_OFF : nat := INNER_IP_OFF + 16.
Definition MIN_ICMP_ERROR_LEN : Z := Z.of_nat (INNER_IP_DST_OFF + 4).
Definition ETH_P_IP_NBO : Z := swap16 0x0800.
Definition IPPROTO_TCP : Z := 6.
Definition IPPROTO_UDP : Z := 17.
Definition IPPROTO_ICMP : Z := 1.
Definition ICMP_DEST_UNREACH : Z := 3.
Definition ICMP_TIME_EXCEEDED : Z := 11.
Definition GUEST_IP_NBO : Z := swap32 0xA9FE0102.
Definition METADATA_IP_NBO : Z := swap32 0xA9FEA9FE.
Definition BPF_F_PSEUDO_HDR : Z := 0x10.
Definition BPF_F_MARK_MANGLED_0 : Z := 0x20.
Definition TC_ACT_SHOT : Z := 2.
Definition TC_ACT_PIPE : Z := 3.

(** The map value; one entry, absent until the orchestrator writes it. *)
Record NatConfig := { nc_host_ip : Z; nc_guest_ip : Z; nc_mac : bytes; nc_pad : bytes }.

(** ** The packet helpers *)

Class TcContext := {
  load_u8 : nat → bytes → result unit Z;
  load_u16 : nat → bytes → result unit Z;
  load_u32 : nat → bytes → result unit Z;
  store_u32 : nat → Z → SM bytes unit unit;
  l3_csum_replace : nat → Z → Z → Z → SM bytes unit unit;
  l4_csum_replace : nat → Z → Z → Z → SM bytes unit unit;
}.

(** [p'] is [p] except in the [n] bytes at [off], which are in range. *)
Definition patched (off n : nat) (p p' : bytes) : Prop :=
  length p' = length p ∧ (off + n ≤ length p)%nat ∧
  ∀ i : nat, ¬ (off ≤ i < off + n)%nat → p' !!! i = p !!! i.

(** The checksum field at [off] is updated for a replacement of [from] by
    [to]: congruence modulo [2^16 - 1] is one's-complement arithmetic. *)
Definition csum_updated (off : nat) (from to : Z) (p p' : bytes) : Prop :=
  patched off 2 p p' ∧ le16 p' off mod 65535 = (le16 p off + from - to) mod 65535.

(** The documented behaviour of [bpf_skb_load_bytes], [bpf_skb_store_bytes],
    [bpf_l3_csum_replace] and [bpf_l4_csum_replace]. *)
Class TcContextOk `{TcContext} : Prop := {
  load_u8_ok : ∀ off p, load_u8 off p = if decide (off + 1 ≤ length p)%nat then Ok (le8 p off) else Err tt;
  load_u16_ok : ∀ off p, load_u16 off p = if decide (off + 2 ≤ length p)%nat then Ok (le16 p off) else Err tt;
  load_u32_ok : ∀ off p, load_u32 off p = if decide (off + 4 ≤ length p)%nat then Ok (le32 p off) else Err tt;
  store_u32_ok : ∀ off v p p', 0 ≤ v < 2 ^ 32 → store_u32 off v p = (Ok tt, p') →
    patched off 4 p p' ∧ le32 p' off = v;
  l3_csum_ok : ∀ off from to p p', 0 ≤ from < 2 ^ 32 → 0 ≤ to < 2 ^ 32 →
    l3_csum_replace off from to 4 p = (Ok tt, p') → csum_updated off from to p p';
  l4_csum_ok : ∀ off from to flags p p', 0 ≤ from < 2 ^ 32 → 0 ≤ to < 2 ^ 32 → Z.land flags 15 = 4 →
    Z.testbit flags 5 = false → l4_csum_replace off from to flags p = (Ok tt, p') → csum_updated off from to p p';
  l4_csum_mangled_ok : ∀ off from to flags p p', 0 ≤ from < 2 ^ 32 → 0 ≤ to < 2 ^ 32 →
    Z.land flags 15 = 4 → Z.testbit flags 5 = true → le16 p off ≠ 0 → l4_csum_replace off from to flags p = (Ok tt, p') →
    csum_updated off from to p p' ∧ le16 p' off ≠ 0;
}.

(** The helpers as they behave when the kernel has memory to make the packet
    writable: an access in range succeeds. *)
Class TcReliable `{TcContext} : Prop := {
  store_u32_total : ∀ off v p, (off + 4 ≤ length p)%nat → ∃ p', store_u32 off v p = (Ok tt, p');
  l3_csum_total : ∀ off from to p, (off + 2 ≤ length p)%nat →
    ∃ p', l3_csum_replace off from to 4 p = (Ok tt, p');
  l4_csum_total : ∀ off from to flags p, Z.land flags 15 = 4 → (off + 2 ≤ length p)%nat →
    ∃ p', l4_csum_replace off from to flags p = (Ok tt, p');
}.

(** ** The programs *)

Section Programs.
Context `{TcContext}.
Local Abbreviation M := (SM bytes unit).

(** [ctx.load(off).map_err(|_| ())?]. *)
Definition load (get : bytes → result unit Z) : M Z := λ p, (get p, p).
Definition ctx_len : M Z := λ p, (Ok (Z.of_nat (length p)), p).

Definition try_egress (VM_CONFIG : option NatConfig) : M Z :=
  ethertype ← load (load_u16 ETH_PROTO_OFF);
  if negb (ethertype =? ETH_P_IP_NBO) then mret TC_ACT_PIPE else
  src_ip ← load (load_u32 IP_SRC_OFF);
  dst_ip ← load (load_u32 IP_DST_OFF);
  protocol ← load (load_u8 IP_PROTO_OFF);
  if dst_ip =? METADATA_IP_NBO then mret TC_ACT_SHOT else
  if negb (src_ip =? GUEST_IP_NBO) then mret TC_ACT_SHOT else
  config ← lift (ok_or VM_CONFIG tt);
  let host_ip := nc_host_ip config in
  _ ← store_u32 IP_SRC_OFF host_ip;
  _ ← l3_csum_replace IP_CSUM_OFF src_ip host_ip 4;
  _ ← (if protocol =? IPPROTO_TCP then
         l4_csum_replace TCP_CSUM_OFF src_ip host_ip (Z.lor BPF_F_PSEUDO_HDR 4)
       else if protocol =? IPPROTO_UDP then
         udp_csum ← load (load_u16 UDP_CSUM_OFF);
         if negb (udp_csum =? 0)
         then l4_csum_replace UDP_CSUM_OFF src_ip host_ip
                (Z.lor (Z.lor BPF_F_PSEUDO_HDR BPF_F_MARK_MANGLED_0) 4)
         else mret tt
       else if protocol =? IPPROTO_ICMP then
         icmp_type ← load (load_u8 ICMP_TYPE_OFF);
         len ← ctx_len;
         if ((icmp_type =? ICMP_DEST_UNREACH) || (icmp_type =? ICMP_TIME_EXCEEDED))
            && (len >=? MIN_ICMP_ERROR_LEN)
         then
           inner_dst ← load (load_u32 INNER_IP_DST_OFF);
           if inner_dst =? GUEST_IP_NBO then
             _ ← store_u32 INNER_IP_DST_OFF host_ip;
             _ ← l3_csum_replace INNER_IP_CSUM_OFF inner_dst host_ip 4;
             l4_csum_replace ICMP_CSUM_OFF inner_dst host_ip 4
           else mret tt
         else mret tt
       else mret tt);
  mret TC_ACT_PIPE.

Definition tc_egress (VM_CONFIG : option NatConfig) (p : bytes) : Z * bytes :=
  match try_egress VM_CONFIG p with
  | (Ok action, p') => (action, p')
  | (Err _, p') => (TC_ACT_SHOT, p')
  end.

Definition try_ingress (VM_CONFIG : option NatConfig) : M Z :=
  ethertype ← load (load_u16 ETH_PROTO_OFF);
  if negb (ethertype =? ETH_P_IP_NBO) then mret TC_ACT_PIPE else
  dst_ip ← load (load_u32 IP_DST_OFF);
  config ← lift (ok_or VM_CONFIG tt);
  let host_ip := nc_host_ip config in
  if negb (dst_ip =? host_ip) then mret TC_ACT_PIPE else
  protocol ← load (load_u8 IP_PROTO_OFF);
  _ ← store_u32 IP_DST_OFF GUEST_IP_NBO;
  _ ← l3_csum_replace IP_CSUM_OFF dst_ip GUEST_IP_NBO 4;
  _ ← (if protocol =? IPPROTO_TCP then
         l4_csum_replace TCP_CSUM_OFF dst_ip GUEST_IP_NBO (Z.lor BPF_F_PSEUDO_HDR 4)
       else if protocol =? IPPROTO_UDP then
         udp_csum ← load (load_u16 UDP_CSUM_OFF);
         if negb (udp_csum =? 0)
         then l4_csum_replace UDP_CSUM_OFF dst_ip GUEST_IP_NBO
                (Z.lor (Z.lor BPF_F_PSEUDO_HDR BPF_F_MARK_MANGLED_0) 4)
         else mret tt
       else if protocol =? IPPROTO_ICMP then
         icmp_type ← load (load_u8 ICMP_TYPE_OFF);
         len ← ctx_len;
         if ((icmp_type =? ICMP_DEST_UNREACH) || (icmp_type =? ICMP_TIME_EXCEEDED))
            && (len >=? MIN_ICMP_ERROR_LEN)
         then
           inner_src ← load (load_u32 INNER_IP_SRC_OFF);
           if inner_src =? host_ip then
             _ ← store_u32 INNER_IP_SRC_OFF GUEST_IP_NBO;
             _ ← l3_csum_replace INNER_IP_CSUM_OFF inner_src GUEST_IP_NBO 4;
             l4_csum_replace ICMP_CSUM_OFF inner_src GUEST_IP_NBO 4
           else mret tt
         else mret tt
       else mret tt);
  mret TC_ACT_PIPE.

Definition tc_ingress (VM_CONFIG : option NatConfig) (p : bytes) : Z * bytes :=
  match try_ingress VM_CONFIG p with
  | (Ok action, p') => (action, p')
  | (Err _, p') => (TC_ACT_SHOT, p')
  end.

(** The translation both programs end in: address [old] at [addr_off]
    becomes [new], and so does an embedded [old] at [inner_off]. *)
Definition nat_rewrite (addr_off inner_off : nat) (old new inner_old protocol : Z) : M Z :=
  _ ← store_u32 addr_off new;
  _ ← l3_csum_replace IP_CSUM_OFF old new 4;
  _ ← (if protocol =? IPPROTO_TCP then
         l4_csum_replace TCP_CSUM_OFF old new (Z.lor BPF_F_PSEUDO_HDR 4)
       else if protocol =? IPPROTO_UDP then
         udp_csum ← load (load_u16 UDP_CSUM_OFF);
         if negb (udp_csum =? 0)
         then l4_csum_replace UDP_CSUM_OFF old new
                (Z.lor (Z.lor BPF_F_PSEUDO_HDR BPF_F_MARK_MANGLED_0) 4)
         else mret tt
       else if protocol =? IPPROTO_ICMP then
         icmp_type ← load (load_u8 ICMP_TYPE_OFF);
         len ← ctx_len;
         if ((icmp_type =? ICMP_DEST_UNREACH) || (icmp_type =? ICMP_TIME_EXCEEDED))
            && (len >=? MIN_ICMP_ERROR_LEN)
         then
           inner ← load (load_u32 inner_off);
           if inner =? inner_old then
             _ ← store_u32 inner_off new;
             _ ← l3_csum_replace INNER_IP_CSUM_OFF inner new 4;
             l4_csum_replace ICMP_CSUM_OFF inner new 4
           else mret tt
         else mret tt
       else mret tt);
  mret TC_ACT_PIPE.
End Programs.

(** ** One's-complement sums *)

(** The sum of [n] little-endian words from [off], an odd tail padded with
    zero: a checksummed region is valid when the sum is 0 modulo [2^16 - 1]. *)
Fixpoint sum16 (p : bytes) (off n : nat) : Z :=
  match n with
  | O => 0
  | S n => le16 p off + sum16 p (2 + off) n
  end.

Lemma le16_range p off : 0 ≤ le16 p off < 65536.
Proof.
  unfold le16, le8. pose proof (byte_to_Z_range (p !!! off)).
  pose proof (byte_to_Z_range (p !!! S off)). lia.
Qed.
Lemma le32_range p off : 0 ≤ le32 p off < 2 ^ 32.
Proof.
  unfold le32. pose proof (le16_range p off). pose proof (le16_range p (2 + off)). lia.
Qed.
#[export] Hint Resolve le16_range le32_range : microvisor.

Lemma le16_ext p p' off : p' !!! off = p !!! off → p' !!! S off = p !!! S off → le16 p' off = le16 p off.
Proof. unfold le16, le8. by intros -> ->. Qed.

Lemma le16_patched w n p p' off :
  patched w n p p' → (off + 2 ≤ w ∨ w + n ≤ off)%nat → le16 p' off = le16 p off.
Proof. intros (_ & _ & Hf) Ho. apply le16_ext; apply Hf; lia. Qed.

Lemma le8_patched w n p p' off :
  patched w n p p' → (off < w ∨ w + n ≤ off)%nat → le8 p' off = le8 p off.
Proof. intros (_ & _ & Hf) Ho. unfold le8. by rewrite Hf by lia. Qed.

Lemma le32_patched w n p p' off :
  patched w n p p' → (off + 4 ≤ w ∨ w + n ≤ off)%nat → le32 p' off = le32 p off.
Proof.
  intros Hp Ho. unfold le32. by rewrite !(le16_patched w n p p') by (done || lia).
Qed.

Lemma sum16_out w n p p' off k :
  patched w n p p' → (off + 2 * k ≤ w ∨ w + n ≤ off)%nat → sum16 p' off k = sum16 p off k.
Proof.
  intros Hp. revert off. induction k as [|k IH]; intros off Ho; [done|]. cbn [sum16].
  rewrite (le16_patched w n p p') by (done || lia). rewrite IH by lia. done.
Qed.

(** A patched word inside the region changes the sum by its own change. *)
Lemma sum16_word w j p p' off k :
  patched w 2 p p' → w = (off + 2 * j)%nat → (j < k)%nat →
  sum16 p' off k = sum16 p off k + le16 p' w - le16 p w.
Proof.
  intros Hp. revert off j. induction k as [|k IH]; intros off j Hw Hj; [lia|]. cbn [sum16].
  destruct j as [|j].
  - replace off with w by lia. rewrite (sum16_out w 2 p p') by (done || lia). lia.
  - rewrite (le16_patched w 2 p p') by (done || lia). rewrite (IH _ j) by lia. lia.
Qed.

Lemma sum16_dword w j p p' off k :
  patched w 4 p p' → w = (off + 2 * j)%nat → (S j < k)%nat →
  sum16 p' off k mod 65535 = (sum16 p off k + le32 p' w - le32 p w) mod 65535.
Proof.
  intros Hp. revert off j. induction k as [|k IH]; intros off j Hw Hj; [lia|]. cbn [sum16].
  destruct j as [|j].
  - destruct k as [|k]; [lia|]. cbn [sum16]. replace off with w by lia.
    rewrite (sum16_out w 4 p p') by (done || lia). unfold le32. cbn [plus]. lia.
  - rewrite (le16_patched w 4 p p') by (done || lia). specialize (IH (2 + off)%nat j).
    rewrite <- Z.add_mod_idemp_r, IH by lia. rewrite Z.add_mod_idemp_r by lia. f_equal. lia.
Qed.

(** ** The common translation *)

Section Rewrite.
Context `{TcContextOk}.

Lemma load8_ok off p v p' :
  load (load_u8 off) p = (Ok v, p') → p' = p ∧ v = le8 p off ∧ (off + 1 ≤ length p)%nat.
Proof. unfold load. rewrite load_u8_ok. case_decide; intros; by simplify_eq. Qed.
Lemma load16_ok off p v p' :
  load (load_u16 off) p = (Ok v, p') → p' = p ∧ v = le16 p off ∧ (off + 2 ≤ length p)%nat.
Proof. unfold load. rewrite load_u16_ok. case_decide; intros; by simplify_eq. Qed.
Lemma load32_ok off p v p' :
  load (load_u32 off) p = (Ok v, p') → p' = p ∧ v = le32 p off ∧ (off + 4 ≤ length p)%nat.
Proof. unfold load. rewrite load_u32_ok. case_decide; intros; by simplify_eq. Qed.

(** The packet carries an ICMP error with [old] at [inner_off]. *)
Definition embeds (inner_off : nat) (old : Z) (p : bytes) : bool :=
  ((le8 p ICMP_TYPE_OFF =? ICMP_DEST_UNREACH) || (le8 p ICMP_TYPE_OFF =? ICMP_TIME_EXCEEDED))
  && (Z.of_nat (length p) >=? MIN_ICMP_ERROR_LEN) && (le32 p inner_off =? old).

Definition l4_effect (inner_off : nat) (old new inner_old protocol : Z) (p p' : bytes) : Prop :=
  (protocol = IPPROTO_TCP ∧ csum_updated TCP_CSUM_OFF old new p p') ∨
  (protocol = IPPROTO_UDP ∧ le16 p UDP_CSUM_OFF = 0 ∧ p' = p) ∨
  (protocol = IPPROTO_UDP ∧ le16 p UDP_CSUM_OFF ≠ 0 ∧
    csum_updated UDP_CSUM_OFF old new p p' ∧ le16 p' UDP_CSUM_OFF ≠ 0) ∨
  (protocol = IPPROTO_ICMP ∧ embeds inner_off inner_old p = true ∧
    ∃ p1 p2, patched inner_off 4 p p1 ∧ le32 p1 inner_off = new ∧
      csum_updated INNER_IP_CSUM_OFF inner_old new p1 p2 ∧
      csum_updated ICMP_CSUM_OFF inner_old new p2 p') ∨
  (protocol ≠ IPPROTO_TCP ∧ protocol ≠ IPPROTO_UDP ∧
    (protocol = IPPROTO_ICMP → embeds inner_off inner_old p = false) ∧ p' = p).

Lemma nat_rewrite_spec addr_off inner_off old new inner_old protocol p a p' :
  0 ≤ old < 2 ^ 32 → 0 ≤ new < 2 ^ 32 →
  nat_rewrite addr_off inner_off old new inner_old protocol p = (Ok a, p') →
  a = TC_ACT_PIPE ∧ ∃ p1 p2, patched addr_off 4 p p1 ∧ le32 p1 addr_off = new ∧
    csum_updated IP_CSUM_OFF old new p1 p2 ∧ l4_effect inner_off old new inner_old protocol p2 p'.
Proof.
  intros Hold Hnew Hrun. unfold nat_rewrite in Hrun.
  apply bind_ok in Hrun as ([] & p1 & Hst & Hrun).
  apply store_u32_ok in Hst as [Hp1 Hv1]; [|done].
  apply bind_ok in Hrun as ([] & p2 & Hl3 & Hrun). apply l3_csum_ok in Hl3; [|auto with microvisor..].
  apply bind_ok in Hrun as ([] & p3 & Hl4 & Hrun). injection Hrun as <- <-.
  split; [done|]. exists p1, p2. do 3 (split; [done|]). clear -H0 Hl4 Hold Hnew.
  unfold l4_effect. destruct (protocol =? IPPROTO_TCP) eqn:Htcp.
  { left. split; [lia|]. by apply l4_csum_ok in Hl4. }
  destruct (protocol =? IPPROTO_UDP) eqn:Hudp.
  { apply bind_ok in Hl4 as (c & p4 & Hld & Hl4).
    apply load16_ok in Hld as (-> & -> & _).
    destruct (le16 p2 UDP_CSUM_OFF =? 0) eqn:Hz; cbn [negb] in Hl4.
    - apply ret_ok in Hl4 as [_ ->]. right; left. split_and!; [lia..|done].
    - do 2 right; left. split; [lia|]. split; [lia|].
      apply l4_csum_mangled_ok in Hl4; [done|done|done|done|done|lia]. }
  destruct (protocol =? IPPROTO_ICMP) eqn:Hicmp;
    [|apply ret_ok in Hl4 as [_ ->]; do 4 right; split_and!; [lia..|done]].
  apply bind_ok in Hl4 as (ty & p4 & Hld & Hl4).
  apply load8_ok in Hld as (-> & -> & _).
  apply bind_ok in Hl4 as (len & p4 & Hlen & Hl4). injection Hlen as <- <-.
  destruct (_ && _) eqn:Hc in Hl4;
    [|apply ret_ok in Hl4 as [_ ->]; do 4 right; split_and!; [lia..| |done]; intros _; unfold embeds; by rewrite Hc].
  apply bind_ok in Hl4 as (inner & p4 & Hld & Hl4).
  apply load32_ok in Hld as (-> & -> & _).
  destruct (le32 p2 inner_off =? inner_old) eqn:Hi;
    [|apply ret_ok in Hl4 as [_ ->]; do 4 right; split_and!; [lia..| |done]; intros _; unfold embeds;
      by rewrite Hc, Hi].
  apply bind_ok in Hl4 as ([] & p4 & Hst & Hl4). apply store_u32_ok in Hst as [Hp4 Hv4]; [|done].
  apply bind_ok in Hl4 as ([] & p5 & Hl3 & Hl4). apply l3_csum_ok in Hl3; [|auto with microvisor..].
  apply l4_csum_ok in Hl4; [|auto with microvisor..]. rewrite Z.eqb_eq in Hi. rewrite Hi in *.
  do 3 right; left. split_and!; [lia| |by exists p4, p5].
  unfold embeds. rewrite Hc, Hi. by rewrite Z.eqb_refl.
Qed.

(** What the translation leaves alone. *)
Definition written (addr_off inner_off : nat) (protocol : Z) (i : nat) : Prop :=
  (IP_CSUM_OFF ≤ i < IP_CSUM_OFF + 2)%nat ∨ (addr_off ≤ i < addr_off + 4)%nat ∨
  (protocol = IPPROTO_TCP ∧ (TCP_CSUM_OFF ≤ i < TCP_CSUM_OFF + 2)%nat) ∨
  (protocol = IPPROTO_UDP ∧ (UDP_CSUM_OFF ≤ i < UDP_CSUM_OFF + 2)%nat) ∨
  (protocol = IPPROTO_ICMP ∧
    ((ICMP_CSUM_OFF ≤ i < ICMP_CSUM_OFF + 2)%nat ∨
     (INNER_IP_CSUM_OFF ≤ i < INNER_IP_CSUM_OFF + 2)%nat ∨
     (inner_off ≤ i < inner_off + 4)%nat)).

Lemma sum16_ext p p' off k :
  (∀ i, (off ≤ i < off + 2 * k)%nat → p' !!! i = p !!! i) → sum16 p' off k = sum16 p off k.
Proof.
  revert off. induction k as [|k IH]; intros off He; [done|]. cbn [sum16].
  rewrite (le16_ext p p') by (apply He; lia). rewrite IH; [done|]. intros i Hi. apply He. lia.
Qed.

Lemma le32_ext p p' off :
  (∀ i, (off ≤ i < off + 4)%nat → p' !!! i = p !!! i) → le32 p' off = le32 p off.
Proof. intros He. unfold le32. rewrite !(le16_ext p p'); [done|apply He; lia..]. Qed.

Lemma l4_effect_frame inner_off old new inner_old protocol p p' :
  l4_effect inner_off old new inner_old protocol p p' →
  length p' = length p ∧
  ∀ i, ¬ written 0 inner_off protocol i → (36 ≤ i)%nat → p' !!! i = p !!! i.
Proof.
  unfold l4_effect, csum_updated, patched, written, TCP_CSUM_OFF, UDP_CSUM_OFF, ICMP_CSUM_OFF,
    INNER_IP_CSUM_OFF, IP_CSUM_OFF, INNER_IP_OFF, ETH_HDR_LEN, IP_HDR_LEN.
  intros [(-> & (Hl & _ & Hf) & _)|[(-> & _ & ->)|[(-> & _ & ((Hl & _ & Hf) & _) & _)
    |[(-> & _ & p1 & p2 & (Hl1 & _ & Hf1) & _ & ((Hl2 & _ & Hf2) & _) & (Hl & _ & Hf) & _)
    |(_ & _ & _ & ->)]]]]; (split; [congruence|]); intros i Hw Hi; [..|done].
  - apply Hf. naive_solver lia.
  - done.
  - apply Hf. naive_solver lia.
  - rewrite Hf, Hf2, Hf1; naive_solver lia.
Qed.

Lemma l4_effect_low inner_off old new inner_old protocol p p' :
  (36 ≤ inner_off)%nat → l4_effect inner_off old new inner_old protocol p p' →
  ∀ i, (i < 36)%nat → p' !!! i = p !!! i.
Proof.
  unfold l4_effect, csum_updated, patched, TCP_CSUM_OFF, UDP_CSUM_OFF, ICMP_CSUM_OFF,
    INNER_IP_CSUM_OFF, INNER_IP_OFF, ETH_HDR_LEN, IP_HDR_LEN.
  intros Ho [(-> & (Hl & _ & Hf) & _)|[(-> & _ & ->)|[(-> & _ & ((Hl & _ & Hf) & _) & _)
    |[(-> & _ & p1 & p2 & (Hl1 & _ & Hf1) & _ & ((Hl2 & _ & Hf2) & _) & (Hl & _ & Hf) & _)
    |(_ & _ & _ & ->)]]]] i Hi; [..|done].
  - apply Hf. lia.
  - done.
  - apply Hf. lia.
  - rewrite Hf, Hf2, Hf1; lia || done.
Qed.

Definition pseudo (p : bytes) : Z := le32 p IP_SRC_OFF + le32 p IP_DST_OFF.

(** A translated packet: the outcome of [nat_rewrite] on the fields. *)
Record translated (addr_off inner_off : nat) (old new inner_old protocol : Z) (p p' : bytes) : Prop := {
  tr_length : length p' = length p;
  tr_addr : le32 p' addr_off = new;
  tr_frame : ∀ i, p' !!! i ≠ p !!! i → written addr_off inner_off protocol i;
  tr_header : sum16 p' ETH_HDR_LEN 10 mod 65535 = sum16 p ETH_HDR_LEN 10 mod 65535;
  tr_tcp : protocol = IPPROTO_TCP → ∀ n : nat, (9 ≤ n)%nat →
    (pseudo p' + sum16 p' 34 n) mod 65535 = (pseudo p + sum16 p 34 n) mod 65535;
  tr_udp : protocol = IPPROTO_UDP → le16 p UDP_CSUM_OFF ≠ 0 → le16 p' UDP_CSUM_OFF ≠ 0 ∧
    ∀ n : nat, (4 ≤ n)%nat →
      (pseudo p' + sum16 p' 34 n) mod 65535 = (pseudo p + sum16 p 34 n) mod 65535;
  tr_udp_none : protocol = IPPROTO_UDP → le16 p UDP_CSUM_OFF = 0 →
    ∀ n, sum16 p' 34 n = sum16 p 34 n;
  tr_icmp : protocol = IPPROTO_ICMP → ∀ n : nat, (14 ≤ n)%nat →
    sum16 p' 34 n mod 65535 =
    (sum16 p 34 n + if embeds inner_off inner_old p then inner_old - new else 0) mod 65535;
}.

Lemma csum_updated_sum w j old new p p' off k :
  csum_updated w old new p p' → w = (off + 2 * j)%nat → (j < k)%nat →
  sum16 p' off k mod 65535 = (sum16 p off k + old - new) mod 65535.
Proof. intros [Hp Hc] Hw Hj. rewrite (sum16_word w j p p') by done. lia. Qed.

Lemma embeds_ext inner_off old p p' :
  (34 ≤ inner_off)%nat → length p' = length p → (∀ i, (34 ≤ i)%nat → p' !!! i = p !!! i) →
  embeds inner_off old p' = embeds inner_off old p.
Proof.
  intros Ho Hl He. unfold embeds, le8. rewrite Hl, (le32_ext p p') by (intros; apply He; lia).
  rewrite He; [done|]. unfold ICMP_TYPE_OFF, ETH_HDR_LEN, IP_HDR_LEN. lia.
Qed.

Lemma l4_effect_icmp inner_off old new inner_old p p' n :
  inner_off = INNER_IP_SRC_OFF ∨ inner_off = INNER_IP_DST_OFF →
  l4_effect inner_off old new inner_old IPPROTO_ICMP p p' → (14 ≤ n)%nat →
  sum16 p' 34 n mod 65535 =
  (sum16 p 34 n + if embeds inner_off inner_old p then inner_old - new else 0) mod 65535.
Proof.
  intros Ho Hl Hn. destruct Hl as [[? _]|[[? _]|[[? _]|[(_ & He & p1 & p2 & Hp1 & Hv1 & H2 & H3)
    |(_ & _ & He & ->)]]]]; [discriminate..| |].
  - rewrite He, (csum_updated_sum _ 1 _ _ _ _ _ _ H3) by (done || lia).
    assert (sum16 p2 34 n mod 65535 = (sum16 p1 34 n + inner_old - new) mod 65535) as H2'
      by (apply (csum_updated_sum _ 9 _ _ _ _ _ _ H2); [done|lia]).
    assert (sum16 p1 34 n mod 65535 = (sum16 p 34 n + new - inner_old) mod 65535) as H1'.
    { rewrite <- Hv1. unfold embeds in He.
      assert (le32 p inner_off = inner_old) as <- by lia.
      destruct Ho as [->| ->]; [apply (sum16_dword _ 10)|apply (sum16_dword _ 12)]; done || lia. }
    lia.
  - rewrite He by done. f_equal. lia.
Qed.

Lemma l4_effect_csum inner_off old new inner_old protocol w j (n : nat) p p' :
  (protocol = IPPROTO_TCP ∧ w = TCP_CSUM_OFF ∧ j = 8%nat) ∨
  (protocol = IPPROTO_UDP ∧ w = UDP_CSUM_OFF ∧ j = 3%nat ∧ le16 p w ≠ 0) →
  l4_effect inner_off old new inner_old protocol p p' → (j < n)%nat →
  sum16 p' 34 n mod 65535 = (sum16 p 34 n + old - new) mod 65535.
Proof.
  intros [(-> & -> & ->)|(-> & -> & -> & Hz)]
    [[? H1]|[(? & ? & _)|[(? & _ & H1 & _)|[(? & _)|(? & ? & _)]]]] Hn; try done.
  - by apply (csum_updated_sum _ 8 _ _ _ _ _ _ H1).
  - by apply (csum_updated_sum _ 3 _ _ _ _ _ _ H1).
Qed.

(** The three stages of a translation: the address, the IP checksum, the
    transport checksum. *)
Section Stages.
Context (addr_off inner_off : nat) (new inner_old protocol : Z) (p p1 p2 p' : bytes).
Hypothesis Ho : (addr_off = IP_SRC_OFF ∧ inner_off = INNER_IP_DST_OFF) ∨
                (addr_off = IP_DST_OFF ∧ inner_off = INNER_IP_SRC_OFF).
Hypothesis Hp1 : patched addr_off 4 p p1.
Hypothesis Hv1 : le32 p1 addr_off = new.
Hypothesis Hp2 : csum_updated IP_CSUM_OFF (le32 p addr_off) new p1 p2.
Hypothesis Hl4 : l4_effect inner_off (le32 p addr_off) new inner_old protocol p2 p'.

Lemma stages_off : (addr_off = 26 ∨ addr_off = 30)%nat ∧ (36 ≤ inner_off)%nat.
Proof. destruct Ho as [[-> ->]|[-> ->]]; split; auto; by apply (bool_decide_unpack _). Qed.

(** The IP header after the first two stages is the final one. *)
Lemma stages_low i : (i < 36)%nat → p' !!! i = p2 !!! i.
Proof. apply (l4_effect_low _ _ _ _ _ _ _ (proj2 stages_off) Hl4). Qed.

Lemma stages_head i :
  ¬ (24 ≤ i < 26)%nat → ¬ (addr_off ≤ i < addr_off + 4)%nat → p2 !!! i = p !!! i.
Proof.
  intros Hc Ha. destruct Hp1 as (_ & _ & Hf1), Hp2 as [(_ & _ & Hf2) _].
  rewrite Hf2, Hf1 by (cbn; lia). done.
Qed.

Lemma stages_high i : (34 ≤ i)%nat → p2 !!! i = p !!! i.
Proof. pose proof stages_off. intros. apply stages_head; lia. Qed.

Lemma stages_sum n : sum16 p2 34 n = sum16 p 34 n.
Proof. apply sum16_ext. intros. apply stages_high. lia. Qed.

Lemma stages_length : length p2 = length p ∧ length p' = length p.
Proof.
  destruct Hp1 as (? & _), Hp2 as [(? & _) _], (l4_effect_frame _ _ _ _ _ _ _ Hl4) as [? _].
  split; congruence.
Qed.

Lemma stages_addr : le32 p' addr_off = new.
Proof.
  pose proof stages_off. destruct Hp2 as [(_ & _ & Hf2) _].
  rewrite <- Hv1, (le32_ext p2 p') by (intros; apply stages_low; lia).
  apply le32_ext. intros i Hi. apply Hf2. cbn. lia.
Qed.

Lemma stages_pseudo : pseudo p' = pseudo p + new - le32 p addr_off.
Proof.
  pose proof stages_addr as Haddr. destruct stages_off as [Ha _].
  assert (∀ off, (off = 26 ∨ off = 30)%nat → off ≠ addr_off → le32 p' off = le32 p off) as Hoth.
  { intros off Hoff Hne. apply le32_ext. intros i Hi. rewrite stages_low, stages_head by lia. done. }
  unfold pseudo. change IP_SRC_OFF with 26%nat. change IP_DST_OFF with 30%nat.
  destruct Ha as [Ha|Ha]; rewrite Ha in *;
    [rewrite (Hoth 30%nat) by auto|rewrite (Hoth 26%nat) by auto]; lia.
Qed.

Lemma stages_frame i : p' !!! i ≠ p !!! i → written addr_off inner_off protocol i.
Proof.
  intros Hi. destruct (decide (i < 36)%nat) as [Hlt|Hge].
  - rewrite stages_low in Hi by done. unfold written. change IP_CSUM_OFF with 24%nat in *.
    destruct (decide (24 ≤ i < 26)%nat); [by left|]. right; left.
    destruct (decide (addr_off ≤ i < addr_off + 4)%nat); [done|]. by destruct Hi; apply stages_head.
  - destruct (l4_effect_frame _ _ _ _ _ _ _ Hl4) as [_ Hf3].
    assert (¬ ¬ written 0 inner_off protocol i) as Hw.
    { intros Hn. apply Hi. rewrite Hf3 by (done || lia). apply stages_high. lia. }
    unfold written in *. lia.
Qed.

Lemma stages_header : sum16 p' ETH_HDR_LEN 10 mod 65535 = sum16 p ETH_HDR_LEN 10 mod 65535.
Proof.
  transitivity (sum16 p2 ETH_HDR_LEN 10 mod 65535).
  { f_equal. apply sum16_ext. intros i Hi. apply stages_low. cbn in Hi. lia. }
  rewrite (csum_updated_sum _ 5 _ _ _ _ _ _ Hp2) by (done || lia).
  assert (sum16 p1 ETH_HDR_LEN 10 mod 65535 =
    (sum16 p ETH_HDR_LEN 10 + le32 p1 addr_off - le32 p addr_off) mod 65535) as H1.
  { destruct stages_off as [[Ha|Ha] _]; rewrite Ha in *;
      [apply (sum16_dword _ 6)|apply (sum16_dword _ 8)]; done || lia. }
  rewrite Hv1 in H1. lia.
Qed.

(** A transport checksum over the pseudo-header is kept. *)
Lemma stages_transport w j (n : nat) :
  (protocol = IPPROTO_TCP ∧ w = TCP_CSUM_OFF ∧ j = 8%nat) ∨
  (protocol = IPPROTO_UDP ∧ w = UDP_CSUM_OFF ∧ j = 3%nat ∧ le16 p2 w ≠ 0) → (j < n)%nat →
  (pseudo p' + sum16 p' 34 n) mod 65535 = (pseudo p + sum16 p 34 n) mod 65535.
Proof.
  intros Hw Hn. rewrite stages_pseudo, <- (stages_sum n).
  pose proof (l4_effect_csum _ _ _ _ _ _ _ n _ _ Hw Hl4 Hn). lia.
Qed.

Lemma stages_udp : le16 p2 UDP_CSUM_OFF = le16 p UDP_CSUM_OFF.
Proof. apply le16_ext; apply stages_high; by apply (bool_decide_unpack _). Qed.
End Stages.

Lemma nat_translated addr_off inner_off new inner_old protocol p a p' :
  (addr_off = IP_SRC_OFF ∧ inner_off = INNER_IP_DST_OFF) ∨
  (addr_off = IP_DST_OFF ∧ inner_off = INNER_IP_SRC_OFF) →
  0 ≤ new < 2 ^ 32 →
  nat_rewrite addr_off inner_off (le32 p addr_off) new inner_old protocol p = (Ok a, p') →
  a = TC_ACT_PIPE ∧ translated addr_off inner_off (le32 p addr_off) new inner_old protocol p p'.
Proof.
  intros Ho Hnew Hrun.
  apply nat_rewrite_spec in Hrun as (-> & p1 & p2 & Hp1 & Hv1 & Hp2 & Hl4); [|auto with microvisor..].
  assert (∀ n, sum16 p2 34 n = sum16 p 34 n) as Hsum by (intros n; by eapply stages_sum).
  assert (le16 p2 UDP_CSUM_OFF = le16 p UDP_CSUM_OFF) as Hudp by by eapply stages_udp.
  split; [done|]. split.
  - by eapply stages_length.
  - by eapply stages_addr.
  - intros i. by eapply stages_frame.
  - by eapply stages_header.
  - intros -> n Hn. eapply stages_transport; eauto 6.
  - intros -> Hz. rewrite <- Hudp in Hz. split.
    + destruct Hl4 as [[? _]|[(_ & ? & _)|[(_ & _ & _ & ?)|[(? & _)|(_ & ? & _)]]]];
        first [discriminate|congruence].
    + intros n Hn. eapply stages_transport; eauto 8.
  - intros -> Hz n. rewrite <- Hudp in Hz. rewrite <- Hsum.
    destruct Hl4 as [[? _]|[(_ & _ & ->)|[(_ & ? & _)|[(? & _)|(_ & ? & _)]]]];
      first [discriminate|congruence].
  - intros -> n Hn. destruct (stages_length _ _ _ _ _ _ _ _ _ Hp1 Hp2 Hl4) as [Hlen _].
    rewrite <- Hsum, <- (embeds_ext inner_off inner_old p p2); [|..|exact Hlen|].
    + eapply l4_effect_icmp; [|exact Hl4|done]. destruct Ho as [[_ ->]|[_ ->]]; auto.
    + destruct Ho as [[_ ->]|[_ ->]]; by apply (bool_decide_unpack _).
    + intros i Hi. by eapply stages_high.
Qed.
End Rewrite.

(** ** The kernel's helpers: a model of the interface *)

Module KernelHelpers.
(** [csum_add]: 32-bit addition with end-around carry. *)
Definition csum_add (a b : Z) : Z := if a + b >=? 2 ^ 32 then a + b - 2 ^ 32 + 1 else a + b.
Definition not32 (a : Z) : Z := 2 ^ 32 - 1 - a.
(** [csum_fold]: to 16 bits, complemented. *)
Definition csum_fold (s : Z) : Z :=
  let s1 := s mod 65536 + s / 65536 in
  65535 - (s1 mod 65536 + s1 / 65536).
(** [csum_replace4]. *)
Definition csum_replace4 (c from to : Z) : Z :=
  csum_fold (csum_add (csum_add (not32 c) (not32 (wrap_u32 from))) (wrap_u32 to)).

Definition put (off : nat) (bs : bytes) : SM bytes unit unit := λ p,
  if decide (off + length bs ≤ length p)%nat then (Ok tt, list_inserts off bs p) else (Err tt, p).
Definition get (n : nat) (f : bytes → nat → Z) (off : nat) (p : bytes) : result unit Z :=
  if decide (off + n ≤ length p)%nat then Ok (f p off) else Err tt.

#[export] Instance kernel_tc : TcContext := {|
  load_u8 := get 1 le8;
  load_u16 := get 2 le16;
  load_u32 := get 4 le32;
  store_u32 off v := put off (le_bytes32 v);
  l3_csum_replace off from to flags := λ p,
    if flags =? 4 then put off (le_bytes16 (csum_replace4 (le16 p off) from to)) p else (Err tt, p);
  l4_csum_replace off from to flags := λ p,
    if Z.land flags 15 =? 4 then
      if Z.testbit flags 5 && (le16 p off =? 0) then (Ok tt, p) else
      let c := csum_replace4 (le16 p off) from to in
      put off (le_bytes16 (if Z.testbit flags 5 && (c =? 0) then 65535 else c)) p
    else (Err tt, p);
|}.

Lemma csum_add_spec a b : 0 ≤ a < 2 ^ 32 → 0 ≤ b < 2 ^ 32 →
  0 ≤ csum_add a b < 2 ^ 32 ∧ csum_add a b mod 65535 = (a + b) mod 65535.
Proof. intros. unfold csum_add. destruct (_ >=? _) eqn:?; lia. Qed.

Lemma csum_fold_spec s : 0 ≤ s < 2 ^ 32 →
  0 ≤ csum_fold s < 65536 ∧ csum_fold s mod 65535 = (- s) mod 65535.
Proof. intros. unfold csum_fold. lia. Qed.

Lemma csum_replace4_spec c from to : 0 ≤ c < 65536 →
  0 ≤ csum_replace4 c from to < 65536 ∧
  csum_replace4 c from to mod 65535 = (c + wrap_u32 from - wrap_u32 to) mod 65535.
Proof.
  intros Hc. unfold csum_replace4.
  assert (0 ≤ wrap_u32 from < 2 ^ 32) as Hf by (unfold wrap_u32; lia).
  assert (0 ≤ wrap_u32 to < 2 ^ 32) as Ht by (unfold wrap_u32; lia).
  generalize dependent (wrap_u32 from). generalize dependent (wrap_u32 to). intros t Ht f Hf.
  destruct (csum_add_spec (not32 c) (not32 f)) as [H1 H2]; [unfold not32; lia..|].
  destruct (csum_add_spec _ t H1 Ht) as [H3 H4].
  destruct (csum_fold_spec _ H3) as [H5 H6]. split; [done|]. rewrite H6. unfold not32 in *. lia.
Qed.

Lemma list_inserts_total (off : nat) (bs p : bytes) i :
  (off + length bs ≤ length p)%nat →
  list_inserts off bs p !!! i =
  if decide (off ≤ i < off + length bs)%nat then bs !!! (i - off)%nat else p !!! i.
Proof.
  intros Hl. rewrite !list_lookup_total_alt. case_decide.
  - by rewrite list_lookup_inserts by lia.
  - destruct (decide (i < off)%nat).
    + by rewrite list_lookup_inserts_lt by lia.
    + by rewrite list_lookup_inserts_ge by lia.
Qed.

Lemma put_ok off bs p p' : put off bs p = (Ok tt, p') →
  patched off (length bs) p p' ∧ ∀ i, (i < length bs)%nat → p' !!! (off + i)%nat = bs !!! i.
Proof.
  unfold put. case_decide as Hl; [|done]. intros [= <-]. split.
  - split; [apply length_inserts|]. split; [done|]. intros i Hi.
    by rewrite list_inserts_total, decide_False by done.
  - intros i Hi. rewrite list_inserts_total, decide_True by lia. f_equal. lia.
Qed.

Lemma put16_ok off v p p' : 0 ≤ v < 65536 → put off (le_bytes16 v) p = (Ok tt, p') →
  patched off 2 p p' ∧ le16 p' off = v.
Proof.
  intros Hv [Hp Hb]%put_ok. split; [done|]. unfold le16, le8.
  pose proof (Hb 0%nat ltac:(cbn; lia)) as H0. pose proof (Hb 1%nat ltac:(cbn; lia)) as H1.
  rewrite Nat.add_0_r in H0. rewrite Nat.add_1_r in H1. rewrite H0, H1. cbn.
  rewrite !byte_to_of_Z. lia.
Qed.

#[export] Instance kernel_tc_ok : TcContextOk.
Proof.
  split.
  - done.
  - done.
  - done.
  - intros off v p p' Hv [Hp Hb]%put_ok. split; [done|]. unfold le32, le16, le8.
    pose proof (Hb 0%nat ltac:(cbn; lia)) as H0. pose proof (Hb 1%nat ltac:(cbn; lia)) as H1.
    pose proof (Hb 2%nat ltac:(cbn; lia)) as H2. pose proof (Hb 3%nat ltac:(cbn; lia)) as H3.
    replace (off + 0)%nat with off in H0 by lia. replace (off + 1)%nat with (S off) in H1 by lia.
    replace (off + 2)%nat with (2 + off)%nat in H2 by lia.
    replace (off + 3)%nat with (S (2 + off)) in H3 by lia.
    rewrite H0, H1, H2, H3. cbn. rewrite !byte_to_of_Z. lia.
  - intros off from to p p' Hfr Hto Hrun. cbn in Hrun.
    destruct (csum_replace4_spec (le16 p off) from to (le16_range p off)) as [Hr Hm].
    apply put16_ok in Hrun as [Hp Hv]; [|done]. split; [done|]. rewrite Hv, Hm.
    unfold wrap_u32. lia.
  - intros off from to flags p p' Hfr Hto Hf Hmm Hrun. cbn [l4_csum_replace kernel_tc] in Hrun.
    rewrite Hf, Hmm in Hrun. cbn [Z.eqb Pos.eqb andb] in Hrun.
    destruct (csum_replace4_spec (le16 p off) from to (le16_range p off)) as [Hr Hm].
    apply put16_ok in Hrun as [Hp Hv]; [|done]. split; [done|]. rewrite Hv, Hm.
    unfold wrap_u32. lia.
  - intros off from to flags p p' Hfr Hto Hf Hmm Hz Hrun. cbn [l4_csum_replace kernel_tc] in Hrun.
    rewrite Hf, Hmm in Hrun. cbn [Z.eqb Pos.eqb andb] in Hrun.
    rewrite (proj2 (Z.eqb_neq _ _) Hz) in Hrun.
    destruct (csum_replace4_spec (le16 p off) from to (le16_range p off)) as [Hr Hm].
    destruct (csum_replace4 (le16 p off) from to =? 0) eqn:Hc;
      (apply put16_ok in Hrun as [Hp Hv]; [|lia]);
      (split; [split; [done|]; rewrite Hv; unfold wrap_u32 in *; lia|lia]).
Qed.

#[export] Instance kernel_tc_reliable : TcReliable.
Proof.
  split.
  - intros off v p Hl. cbn. unfold put. rewrite decide_True by done. eauto.
  - intros off from to p Hl. cbn. unfold put. rewrite decide_True by done. eauto.
  - intros off from to flags p Hf Hl. cbn [l4_csum_replace kernel_tc]. rewrite Hf.
    cbn [Z.eqb Pos.eqb]. destruct (_ && _); [eauto|]. unfold put.
    rewrite decide_True by done. eauto.
Qed.
End KernelHelpers.
