(* ===== verification/EbpfTheorems.v ===== *)
(** * control-plane: the eBPF NAT theorems

    What leaves and enters a guest: which packets are forwarded, which bytes
    change, that the IP, TCP and UDP checksums stay valid, and that the ICMP
    checksum of a translated error message does not. *)

From S2P Require Import Prelude RustStd EbpfNat.
Local Open Scope Z_scope.

Definition config_ok (cfg : option NatConfig) : Prop :=
  ∀ c, cfg = Some c → 0 ≤ nc_host_ip c < 2 ^ 32.

Section Programs.
Context `{TcContextOk}.

Lemma guest_ip_range : 0 ≤ GUEST_IP_NBO < 2 ^ 32.
Proof. done. Qed.

(** The verdict is one of two. *)
Definition verdict (m : SM bytes unit Z) : Prop :=
  ∀ p a p', m p = (Ok a, p') → a = TC_ACT_PIPE ∨ a = TC_ACT_SHOT.

Lemma verdict_ret a : a = TC_ACT_PIPE ∨ a = TC_ACT_SHOT → verdict (mret a).
Proof. by intros Ha p b p' [-> _]%ret_ok. Qed.
Lemma verdict_bind {A} (m : SM bytes unit A) f : (∀ x, verdict (f x)) → verdict (m ≫= f).
Proof. intros Hf p a p' (x & q & _ & Hx)%bind_ok. by apply Hf in Hx. Qed.
Lemma verdict_if (b : bool) m1 m2 : verdict m1 → verdict m2 → verdict (if b then m1 else m2).
Proof. by destruct b. Qed.

Lemma try_egress_verdict cfg : verdict (try_egress cfg).
Proof.
  unfold try_egress.
  repeat first [apply verdict_bind; intros ?|apply verdict_if|apply verdict_ret; by auto].
Qed.

(** A packet [tc_egress] lets through was not IPv4, or passed both guards and
    is the translation of what came in. *)
Lemma egress_inv cfg p p' :
  config_ok cfg → tc_egress cfg p = (TC_ACT_PIPE, p') →
  (le16 p ETH_PROTO_OFF ≠ ETH_P_IP_NBO ∧ p' = p) ∨
  (le16 p ETH_PROTO_OFF = ETH_P_IP_NBO ∧ le32 p IP_SRC_OFF = GUEST_IP_NBO ∧
   le32 p IP_DST_OFF ≠ METADATA_IP_NBO ∧ ∃ c, cfg = Some c ∧
   translated IP_SRC_OFF INNER_IP_DST_OFF GUEST_IP_NBO (nc_host_ip c) GUEST_IP_NBO
     (le8 p IP_PROTO_OFF) p p').
Proof.
  intros Hcfg. unfold tc_egress. destruct (try_egress cfg p) as [[a|e] q] eqn:Hrun; [|done].
  intros [= -> ->]. unfold try_egress in Hrun.
  apply bind_ok in Hrun as (et & q & Hld & Hrun). apply load16_ok in Hld as (-> & -> & _).
  destruct (le16 p ETH_PROTO_OFF =? ETH_P_IP_NBO) eqn:Het; cbn [negb] in Hrun;
    [|apply ret_ok in Hrun as [_ ->]; left; split; [lia|done]].
  apply bind_ok in Hrun as (src & q & Hld & Hrun). apply load32_ok in Hld as (-> & -> & _).
  apply bind_ok in Hrun as (dst & q & Hld & Hrun). apply load32_ok in Hld as (-> & -> & _).
  apply bind_ok in Hrun as (pr & q & Hld & Hrun). apply load8_ok in Hld as (-> & -> & _).
  destruct (le32 p IP_DST_OFF =? METADATA_IP_NBO) eqn:Hd; [by apply ret_ok in Hrun as [? _]|].
  destruct (le32 p IP_SRC_OFF =? GUEST_IP_NBO) eqn:Hs; cbn [negb] in Hrun;
    [|by apply ret_ok in Hrun as [? _]].
  apply bind_ok in Hrun as (c & q & Hc & Hrun). destruct cfg as [c'|]; [|done].
  injection Hc as <- <-. right. split; [lia|]. split; [lia|]. split; [lia|]. exists c'.
  split; [done|]. rewrite Z.eqb_eq in Hs. rewrite <- Hs at 1.
  eapply (nat_translated IP_SRC_OFF INNER_IP_DST_OFF); [by left|by apply Hcfg|exact Hrun].
Qed.

Lemma ingress_inv cfg p p' :
  config_ok cfg → tc_ingress cfg p = (TC_ACT_PIPE, p') →
  (le16 p ETH_PROTO_OFF ≠ ETH_P_IP_NBO ∧ p' = p) ∨
  (le16 p ETH_PROTO_OFF = ETH_P_IP_NBO ∧ ∃ c, cfg = Some c ∧
   ((le32 p IP_DST_OFF ≠ nc_host_ip c ∧ p' = p) ∨
    (le32 p IP_DST_OFF = nc_host_ip c ∧
     translated IP_DST_OFF INNER_IP_SRC_OFF (nc_host_ip c) GUEST_IP_NBO (nc_host_ip c)
       (le8 p IP_PROTO_OFF) p p'))).
Proof.
  intros Hcfg. unfold tc_ingress. destruct (try_ingress cfg p) as [[a|e] q] eqn:Hrun; [|done].
  intros [= -> ->]. unfold try_ingress in Hrun.
  apply bind_ok in Hrun as (et & q & Hld & Hrun). apply load16_ok in Hld as (-> & -> & _).
  destruct (le16 p ETH_PROTO_OFF =? ETH_P_IP_NBO) eqn:Het; cbn [negb] in Hrun;
    [|apply ret_ok in Hrun as [_ ->]; left; split; [lia|done]].
  right. split; [lia|].
  apply bind_ok in Hrun as (dst & q & Hld & Hrun). apply load32_ok in Hld as (-> & -> & _).
  apply bind_ok in Hrun as (c & q & Hc & Hrun). destruct cfg as [c'|]; [|done].
  injection Hc as <- <-. exists c'. split; [done|].
  destruct (le32 p IP_DST_OFF =? nc_host_ip c') eqn:Hd; cbn [negb] in Hrun;
    [|apply ret_ok in Hrun as [_ ->]; left; split; [lia|done]].
  right. split; [lia|].
  apply bind_ok in Hrun as (pr & q & Hld & Hrun). apply load8_ok in Hld as (-> & -> & _).
  rewrite Z.eqb_eq in Hd. rewrite <- Hd at 1.
  eapply (nat_translated IP_DST_OFF INNER_IP_SRC_OFF); [by right|done|exact Hrun].
Qed.

(** What the translation leaves alone, byte by byte. *)
Lemma translated_same addr_off inner_off old new inner_old protocol p p' i :
  translated addr_off inner_off old new inner_old protocol p p' →
  ¬ written addr_off inner_off protocol i → p' !!! i = p !!! i.
Proof.
  intros Ht Hn. destruct (decide (p' !!! i = p !!! i)) as [|Hne]; [done|].
  by apply (tr_frame _ _ _ _ _ _ _ _ Ht) in Hne.
Qed.

Lemma translated_dst inner_off old new inner_old protocol p p' :
  (34 ≤ inner_off)%nat →
  translated IP_SRC_OFF inner_off old new inner_old protocol p p' →
  le32 p' IP_DST_OFF = le32 p IP_DST_OFF.
Proof.
  intros Ho Ht. apply le32_ext. intros i Hi. eapply translated_same; [done|].
  unfold written. change IP_DST_OFF with 30%nat in Hi. cbn. lia.
Qed.

(** [C3] What a guest can send, if [tc_egress] is given what it sends.  Every
    packet [tc_egress] does not drop is
    either not IPv4, and unchanged, or carried the guest's own source address
    and a destination other than the metadata endpoint; it leaves with the
    host address as its source, the same destination and the same length.
    Whatever cannot be parsed, or has no configuration, is dropped. *)
Theorem egress_forwards_only_guest cfg p action p' :
  config_ok cfg → tc_egress cfg p = (action, p') → action ≠ TC_ACT_SHOT →
  action = TC_ACT_PIPE ∧ length p' = length p ∧
  ((le16 p ETH_PROTO_OFF ≠ ETH_P_IP_NBO ∧ p' = p) ∨
   (le16 p ETH_PROTO_OFF = ETH_P_IP_NBO ∧ le32 p IP_SRC_OFF = GUEST_IP_NBO ∧
    le32 p IP_DST_OFF ≠ METADATA_IP_NBO ∧ ∃ c, cfg = Some c ∧
    le32 p' IP_SRC_OFF = nc_host_ip c ∧ le32 p' IP_DST_OFF = le32 p IP_DST_OFF)).
Proof.
  intros Hcfg Hrun Hns.
  assert (action = TC_ACT_PIPE) as ->.
  { unfold tc_egress in Hrun. destruct (try_egress cfg p) as [[a|e] q] eqn:Hm; [|congruence].
    simplify_eq. by destruct (try_egress_verdict _ _ _ _ Hm). }
  split; [done|].
  destruct (egress_inv _ _ _ Hcfg Hrun) as [[? ->]|(He & Hs & Hd & c & -> & Ht)]; [auto|].
  split; [apply Ht|]. right. split; [done|]. split; [done|]. split; [done|]. exists c.
  split; [done|]. split; [apply Ht|]. eapply translated_dst; [|exact Ht].
  by apply (bool_decide_unpack _).
Qed.

(** [C13] Forwarding keeps packets valid.  For an IPv4 packet that [tc_egress]
    forwards, with the 20-byte header the code assumes, the one's-complement sums of the IP header, of a TCP segment with
    its pseudo-header and of a UDP datagram with its pseudo-header are what
    they were, so valid checksums stay valid; an absent UDP checksum stays
    absent and a present one never becomes the absent value 0. *)
Theorem egress_checksums cfg p p' :
  config_ok cfg → tc_egress cfg p = (TC_ACT_PIPE, p') → le16 p ETH_PROTO_OFF = ETH_P_IP_NBO →
  sum16 p' ETH_HDR_LEN 10 mod 65535 = sum16 p ETH_HDR_LEN 10 mod 65535 ∧
  (le8 p IP_PROTO_OFF = IPPROTO_TCP → ∀ n : nat, (9 ≤ n)%nat →
     (pseudo p' + sum16 p' 34 n) mod 65535 = (pseudo p + sum16 p 34 n) mod 65535) ∧
  (le8 p IP_PROTO_OFF = IPPROTO_UDP → le16 p UDP_CSUM_OFF ≠ 0 →
     le16 p' UDP_CSUM_OFF ≠ 0 ∧ ∀ n : nat, (4 ≤ n)%nat →
     (pseudo p' + sum16 p' 34 n) mod 65535 = (pseudo p + sum16 p 34 n) mod 65535) ∧
  (le8 p IP_PROTO_OFF = IPPROTO_UDP → le16 p UDP_CSUM_OFF = 0 → ∀ n, sum16 p' 34 n = sum16 p 34 n).
Proof.
  intros Hcfg Hrun Hip.
  destruct (egress_inv _ _ _ Hcfg Hrun) as [[? _]|(_ & _ & _ & c & _ & Ht)]; [done|].
  destruct Ht as [_ _ _ Hh Htcp Hudp Hnone _]. split; [done|]. split; [done|]. split; done.
Qed.

(** [C23] What reaches a guest.  A packet [tc_ingress] lets through is
    unchanged if it is not IPv4 or not addressed to this VM; otherwise its
    destination becomes the guest's address, its source is kept, and the IP,
    TCP and UDP sums are what they were. *)
Theorem ingress_delivers cfg p p' :
  config_ok cfg → tc_ingress cfg p = (TC_ACT_PIPE, p') → p' ≠ p →
  ∃ c, cfg = Some c ∧ le16 p ETH_PROTO_OFF = ETH_P_IP_NBO ∧
    le32 p IP_DST_OFF = nc_host_ip c ∧ le32 p' IP_DST_OFF = GUEST_IP_NBO ∧
    le32 p' IP_SRC_OFF = le32 p IP_SRC_OFF ∧
    sum16 p' ETH_HDR_LEN 10 mod 65535 = sum16 p ETH_HDR_LEN 10 mod 65535 ∧
    (le8 p IP_PROTO_OFF = IPPROTO_TCP → ∀ n : nat, (9 ≤ n)%nat →
       (pseudo p' + sum16 p' 34 n) mod 65535 = (pseudo p + sum16 p 34 n) mod 65535) ∧
    (le8 p IP_PROTO_OFF = IPPROTO_UDP → le16 p UDP_CSUM_OFF ≠ 0 →
       le16 p' UDP_CSUM_OFF ≠ 0 ∧ ∀ n : nat, (4 ≤ n)%nat →
       (pseudo p' + sum16 p' 34 n) mod 65535 = (pseudo p + sum16 p 34 n) mod 65535).
Proof.
  intros Hcfg Hrun Hne.
  destruct (ingress_inv _ _ _ Hcfg Hrun) as [[_ ?]|(Hip & c & -> & [[_ ?]|[Hd Ht]])]; [done..|].
  exists c. split; [done|]. split; [done|]. split; [done|]. split; [apply Ht|]. split.
  { apply le32_ext. intros i Hi. eapply translated_same; [exact Ht|].
    unfold written. change IP_SRC_OFF with 26%nat in Hi. cbn. lia. }
  destruct Ht as [_ _ _ Hh Htcp Hudp _ _]. done.
Qed.

(** Only the translated fields change: every byte of a forwarded packet
    outside the IP checksum, the source address, the checksum of the
    transport in use and, for ICMP, the embedded header's checksum and
    destination, is what the guest sent. *)
Theorem egress_frame cfg p p' i :
  config_ok cfg → tc_egress cfg p = (TC_ACT_PIPE, p') → p' !!! i ≠ p !!! i →
  written IP_SRC_OFF INNER_IP_DST_OFF (le8 p IP_PROTO_OFF) i.
Proof.
  intros Hcfg Hrun Hi.
  destruct (egress_inv _ _ _ Hcfg Hrun) as [[_ ->]|(_ & _ & _ & c & _ & Ht)]; [done|].
  by apply Ht.
Qed.

(** The ICMP checksum of a translated error message is broken: the
    embedded header's own checksum already absorbs the address change, yet the
    outer checksum is adjusted for it as well, so the sum over the ICMP
    message is off by the difference of the two addresses, and a valid
    message becomes invalid unless they agree modulo [2^16 - 1]. *)
Theorem egress_icmp_error_checksum_off cfg c p p' n :
  config_ok cfg → cfg = Some c → tc_egress cfg p = (TC_ACT_PIPE, p') →
  le16 p ETH_PROTO_OFF = ETH_P_IP_NBO → le8 p IP_PROTO_OFF = IPPROTO_ICMP →
  embeds INNER_IP_DST_OFF GUEST_IP_NBO p = true → (14 ≤ n)%nat →
  sum16 p' 34 n mod 65535 = (sum16 p 34 n + GUEST_IP_NBO - nc_host_ip c) mod 65535.
Proof.
  intros Hcfg -> Hrun Hip Hpr He Hn.
  destruct (egress_inv _ _ _ Hcfg Hrun) as [[? _]|(_ & _ & _ & c' & [= <-] & Ht)]; [done|].
  rewrite Hpr in Ht. rewrite (tr_icmp _ _ _ _ _ _ _ _ Ht) by done. rewrite He. f_equal. lia.
Qed.

(** The length the program needs to see of each kind of packet. *)
Definition min_len (protocol : Z) : nat :=
  if protocol =? IPPROTO_TCP then 52 else if protocol =? IPPROTO_UDP then 42
  else if protocol =? IPPROTO_ICMP then 35 else 34.

Context `{Hrel : !TcReliable}.

Lemma nat_rewrite_total addr_off inner_off old new inner_old protocol p :
  (addr_off + 4 ≤ 34)%nat → (inner_off + 4 ≤ 62)%nat → 0 ≤ old < 2 ^ 32 → 0 ≤ new < 2 ^ 32 →
  (min_len protocol ≤ length p)%nat →
  ∃ p', nat_rewrite addr_off inner_off old new inner_old protocol p = (Ok TC_ACT_PIPE, p').
Proof.
  intros Ha Hi Hold Hnew Hlen.
  assert (34 ≤ length p)%nat as H34 by (unfold min_len in Hlen; repeat case_match; lia).
  unfold nat_rewrite, mbind, SM_bind.
  destruct (store_u32_total addr_off new p) as [p1 H1]; [lia|]. rewrite H1.
  apply store_u32_ok in H1 as [(Hl1 & _) _]; [|done].
  destruct (l3_csum_total IP_CSUM_OFF old new p1) as [p2 H2]; [cbn; lia|]. rewrite H2.
  apply l3_csum_ok in H2 as [(Hl2 & _) _]; [|done..]. unfold min_len in Hlen.
  assert (length p2 = length p) as Hl by congruence. clear Hl1 Hl2.
  destruct (protocol =? IPPROTO_TCP).
  { destruct (l4_csum_total TCP_CSUM_OFF old new (Z.lor BPF_F_PSEUDO_HDR 4) p2) as [p3 ->];
      [done|cbn; lia|]. cbn. eauto. }
  destruct (protocol =? IPPROTO_UDP).
  { unfold load. rewrite load_u16_ok, decide_True by (cbn; lia). destruct (negb _); [|cbn; eauto].
    destruct (l4_csum_total UDP_CSUM_OFF old new
      (Z.lor (Z.lor BPF_F_PSEUDO_HDR BPF_F_MARK_MANGLED_0) 4) p2) as [p3 ->]; [done|cbn; lia|].
    cbn. eauto. }
  destruct (protocol =? IPPROTO_ICMP); [|cbn; eauto].
  unfold load, ctx_len. rewrite load_u8_ok, decide_True by (cbn; lia).
  destruct (_ && _) eqn:Hc; [|cbn; eauto].
  assert (62 ≤ length p2)%nat as H62.
  { apply andb_true_iff in Hc as [_ Hc]. change MIN_ICMP_ERROR_LEN with 62 in Hc. lia. }
  rewrite load_u32_ok, decide_True by lia. destruct (_ =? inner_old); [|cbn; eauto].
  destruct (store_u32_total inner_off new p2) as [p3 H3]; [lia|]. rewrite H3.
  apply store_u32_ok in H3 as [(Hl3 & _) _]; [|done].
  destruct (l3_csum_total INNER_IP_CSUM_OFF (le32 p2 inner_off) new p3) as [p4 H4]; [cbn; lia|].
  rewrite H4. apply l3_csum_ok in H4 as [(Hl4 & _) _]; [|auto with microvisor..].
  destruct (l4_csum_total ICMP_CSUM_OFF (le32 p2 inner_off) new 4 p4) as [p5 ->]; [done|cbn; lia|].
  cbn. eauto.
Qed.

(** The lengths, once for both programs. *)
Lemma min_len_ip protocol (p : bytes) : (min_len protocol ≤ length p)%nat → (34 ≤ length p)%nat.
Proof. unfold min_len. repeat case_match; lia. Qed.

Ltac do_load ok := unfold mbind at 1, SM_bind at 1, load at 1; rewrite ok, decide_True by (cbn; lia).

Lemma egress_total c p :
  config_ok (Some c) → le16 p ETH_PROTO_OFF = ETH_P_IP_NBO → le32 p IP_SRC_OFF = GUEST_IP_NBO →
  le32 p IP_DST_OFF ≠ METADATA_IP_NBO → (min_len (le8 p IP_PROTO_OFF) ≤ length p)%nat →
  ∃ p', tc_egress (Some c) p = (TC_ACT_PIPE, p').
Proof.
  intros Hcfg Hip Hs Hd Hlen. pose proof (min_len_ip _ _ Hlen) as H34.
  destruct (nat_rewrite_total IP_SRC_OFF INNER_IP_DST_OFF (le32 p IP_SRC_OFF) (nc_host_ip c)
    GUEST_IP_NBO (le8 p IP_PROTO_OFF) p) as [p' Hp'];
    [by apply (bool_decide_unpack _)..|auto with microvisor|by apply Hcfg|done|].
  exists p'. unfold tc_egress, try_egress. do_load load_u16_ok. rewrite Hip, Z.eqb_refl. cbn [negb].
  do_load load_u32_ok. do_load load_u32_ok. do_load load_u8_ok.
  rewrite (proj2 (Z.eqb_neq _ _) Hd), (proj2 (Z.eqb_eq _ _) Hs). cbn [negb].
  unfold mbind at 1, SM_bind at 1, lift, ok_or.
  change (match nat_rewrite IP_SRC_OFF INNER_IP_DST_OFF (le32 p IP_SRC_OFF) (nc_host_ip c)
    GUEST_IP_NBO (le8 p IP_PROTO_OFF) p with
    | (Ok action, p') => (action, p') | (Err _, p') => (TC_ACT_SHOT, p') end = (TC_ACT_PIPE, p')).
  by rewrite Hp'.
Qed.

Lemma ingress_total c p :
  config_ok (Some c) → le16 p ETH_PROTO_OFF = ETH_P_IP_NBO → le32 p IP_DST_OFF = nc_host_ip c →
  (min_len (le8 p IP_PROTO_OFF) ≤ length p)%nat →
  ∃ p', tc_ingress (Some c) p = (TC_ACT_PIPE, p').
Proof.
  intros Hcfg Hip Hd Hlen. pose proof (min_len_ip _ _ Hlen) as H34.
  destruct (nat_rewrite_total IP_DST_OFF INNER_IP_SRC_OFF (le32 p IP_DST_OFF) GUEST_IP_NBO
    (nc_host_ip c) (le8 p IP_PROTO_OFF) p) as [p' Hp'];
    [by apply (bool_decide_unpack _)..|auto with microvisor|apply guest_ip_range|done|].
  exists p'. unfold tc_ingress, try_ingress. do_load load_u16_ok. rewrite Hip, Z.eqb_refl. cbn [negb].
  do_load load_u32_ok. unfold mbind at 1, SM_bind at 1, lift, ok_or.
  rewrite (proj2 (Z.eqb_eq _ _) Hd). cbn [negb]. do_load load_u8_ok.
  change (match nat_rewrite IP_DST_OFF INNER_IP_SRC_OFF (le32 p IP_DST_OFF) GUEST_IP_NBO
    (nc_host_ip c) (le8 p IP_PROTO_OFF) p with
    | (Ok action, p') => (action, p') | (Err _, p') => (TC_ACT_SHOT, p') end = (TC_ACT_PIPE, p')).
  by rewrite Hp'.
Qed.


(** [C24] Address translation is transparent.  A packet of the guest, complete
    and for a permitted destination, is forwarded as some [q]; and every
    complete IPv4 packet addressed to [q]'s source is let through by
    [tc_ingress] with the guest's original address as its destination, its
    sender and its length unchanged, and its TCP sum as it was. *)
Theorem nat_reply_reaches_guest c p :
  config_ok (Some c) → le16 p ETH_PROTO_OFF = ETH_P_IP_NBO → le32 p IP_SRC_OFF = GUEST_IP_NBO →
  le32 p IP_DST_OFF ≠ METADATA_IP_NBO → (min_len (le8 p IP_PROTO_OFF) ≤ length p)%nat →
  ∃ q, tc_egress (Some c) p = (TC_ACT_PIPE, q) ∧
  ∀ r, le16 r ETH_PROTO_OFF = ETH_P_IP_NBO → le32 r IP_DST_OFF = le32 q IP_SRC_OFF →
    (min_len (le8 r IP_PROTO_OFF) ≤ length r)%nat →
    ∃ r', tc_ingress (Some c) r = (TC_ACT_PIPE, r') ∧ length r' = length r ∧
      le32 r' IP_DST_OFF = le32 p IP_SRC_OFF ∧ le32 r' IP_SRC_OFF = le32 r IP_SRC_OFF ∧
      (le8 r IP_PROTO_OFF = IPPROTO_TCP → ∀ n : nat, (9 ≤ n)%nat →
         (pseudo r' + sum16 r' 34 n) mod 65535 = (pseudo r + sum16 r 34 n) mod 65535).
Proof.
  intros Hcfg Hip Hs Hd Hlen. destruct (egress_total c p Hcfg Hip Hs Hd Hlen) as [q Hq]. exists q.
  split; [done|]. intros r Hrip Hrd Hrlen.
  destruct (egress_inv _ _ _ Hcfg Hq) as [[? _]|(_ & _ & _ & c1 & [= <-] & Ht)]; [done|].
  assert (le32 r IP_DST_OFF = nc_host_ip c) as Hhost by (rewrite Hrd; apply Ht).
  destruct (ingress_total c r Hcfg Hrip Hhost Hrlen) as [r' Hr']. exists r'. split; [done|].
  destruct (ingress_inv _ _ _ Hcfg Hr') as [[? _]|(_ & c2 & [= <-] & [[? _]|[_ Ht']])]; [done..|].
  rewrite Hs. split_and!; [apply Ht'|apply Ht'| |apply Ht'].
  apply le32_ext. intros i Hi. eapply translated_same; [exact Ht'|].
  unfold written. change IP_SRC_OFF with 26%nat in Hi. cbn. lia.
Qed.
End Programs.

(** ** Witnesses *)

Module NatDemo.
Import KernelHelpers.
Definition packet (l : list Z) : bytes := map byte_of_Z l.
(** a SYN from the guest (169.254.1.2) to 8.8.8.8, port 80 *)
Definition syn : bytes := packet
  [0; 0; 0; 0; 0; 0; 0; 0; 0; 0; 0; 0; 8; 0; 69; 0; 0; 40; 0; 1; 0; 0; 64; 6; 191; 191;
  169; 254; 1; 2; 8; 8; 8; 8; 48; 57; 0; 80; 0; 0; 0; 1; 0; 0; 0; 0; 80; 2; 4; 0; 192;
  72; 0; 0].
(** the answer, addressed to the host address 10.0.0.0 *)
Definition syn_ack : bytes := packet
  [0; 0; 0; 0; 0; 0; 0; 0; 0; 0; 0; 0; 8; 0; 69; 0; 0; 40; 0; 1; 0; 0; 64; 6; 96; 192;
  8; 8; 8; 8; 10; 0; 0; 0; 0; 80; 48; 57; 0; 0; 0; 1; 0; 0; 0; 2; 80; 18; 4; 0; 97; 55;
  0; 0].
(** an ICMP port-unreachable from the guest to 8.8.8.8, about a datagram it
    received; all its checksums are valid *)
Definition unreachable : bytes := packet
  [0; 0; 0; 0; 0; 0; 0; 0; 0; 0; 0; 0; 8; 0; 69; 0; 0; 48; 0; 1; 0; 0; 64; 1; 191; 188;
  169; 254; 1; 2; 8; 8; 8; 8; 3; 3; 252; 252; 0; 0; 0; 0; 69; 0; 0; 28; 0; 1; 0; 0; 64;
  17; 191; 192; 8; 8; 8; 8; 169; 254; 1; 2].
Definition config : NatConfig :=
  {| nc_host_ip := swap32 0x0A000000; nc_guest_ip := GUEST_IP_NBO;
     nc_mac := repeat x00 6; nc_pad := repeat x00 2 |}.
Lemma config_is_ok : config_ok (Some config).
Proof. by intros c [= <-]. Qed.
End NatDemo.
Import NatDemo KernelHelpers.

Lemma egress_forwards_only_guest_witness :
  TC_ACT_PIPE = TC_ACT_PIPE ∧ length (snd (tc_egress (Some config) syn)) = length syn.
Proof.
  destruct (egress_forwards_only_guest (Some config) syn TC_ACT_PIPE
    (snd (tc_egress (Some config) syn)) config_is_ok) as (Ha & Hl & _).
  - vm_compute. reflexivity.
  - discriminate.
  - split; [exact Ha|exact Hl].
Defined.

Lemma egress_checksums_witness :
  sum16 (snd (tc_egress (Some config) syn)) ETH_HDR_LEN 10 mod 65535 =
  sum16 syn ETH_HDR_LEN 10 mod 65535.
Proof.
  apply (egress_checksums (Some config) syn _ config_is_ok); vm_compute; reflexivity.
Defined.

Lemma ingress_delivers_witness :
  ∃ c, Some config = Some c ∧ le32 (snd (tc_ingress (Some config) syn_ack)) IP_DST_OFF = GUEST_IP_NBO.
Proof.
  destruct (ingress_delivers (Some config) syn_ack (snd (tc_ingress (Some config) syn_ack)) config_is_ok)
    as (c & Hc & _ & _ & Hd & _).
  - vm_compute. reflexivity.
  - vm_compute. discriminate.
  - exists c. split; [exact Hc|exact Hd].
Defined.

Lemma nat_reply_reaches_guest_witness :
  ∃ r', tc_ingress (Some config) syn_ack = (TC_ACT_PIPE, r') ∧ le32 r' IP_DST_OFF = le32 syn IP_SRC_OFF.
Proof.
  destruct (nat_reply_reaches_guest config syn config_is_ok) as (q & Hq & Hreply);
    try (vm_compute; reflexivity); try (vm_compute; discriminate).
  - apply (bool_decide_unpack _). vm_compute. exact I.
  - assert (q = snd (tc_egress (Some config) syn)) as -> by (rewrite Hq; reflexivity).
    destruct (Hreply syn_ack) as (r' & Hr' & _ & Hd & _); try (vm_compute; reflexivity).
    + apply (bool_decide_unpack _). vm_compute. exact I.
    + exists r'. split; [exact Hr'|exact Hd].
Defined.

Lemma egress_frame_witness : written IP_SRC_OFF INNER_IP_DST_OFF (le8 syn IP_PROTO_OFF) 26.
Proof.
  apply (egress_frame (Some config) syn (snd (tc_egress (Some config) syn)) 26 config_is_ok);
    vm_compute; [reflexivity|discriminate].
Defined.

Lemma egress_icmp_error_checksum_off_witness :
  sum16 unreachable 34 14 mod 65535 = 0 ∧
  sum16 (snd (tc_egress (Some config) unreachable)) 34 14 mod 65535 ≠ 0.
Proof.
  split; [vm_compute; reflexivity|].
  rewrite (egress_icmp_error_checksum_off (Some config) config unreachable
    (snd (tc_egress (Some config) unreachable)) 14 config_is_ok); try (vm_compute; reflexivity).
  vm_compute. discriminate.
Defined.

