(* ===== verification/Host.v ===== *)
(** * control-plane: the host

    The orchestrator is sequential code over an operating system it does not
    control.  A system call is a value of [Sys]; the host is a parameter that
    answers each call, given every call made before it with its answer
    ([HostEnv]), so a theorem for every [HostEnv] is a theorem for every
    behaviour of the host, faults at any point included.  What the calls
    acquire and release is read off the log: [acquires] and [releases] say it
    event by event, [held] for a whole log. *)

From S2P Require Import Prelude RustStd EbpfNat.

(** ** System calls *)

Inductive TcDirection := TcEgress | TcIngress.

Inductive Sys :=
(* processes: [Command::status], [Command::output], [Command::spawn], [Child::kill];
   a spawned child that asks for a signal on its parent's death does so in
   [pre_exec], whose failure is the failure of [spawn] *)
| SysStatus (prog : rstr) (args : list rstr)
| SysOutput (prog : rstr) (args : list rstr)
| SysSpawn (prog : rstr) (args : list rstr) (pdeathsig : option N)
| SysKill (pid : N)
(* the file system *)
| SysStat (path : rstr)
| SysCanonicalize (path : rstr)
| SysReadDir (path : rstr)
| SysReadFile (path : rstr)
| SysCreateDir (path : rstr)
| SysCreateDirAll (path : rstr)
| SysRemoveDir (path : rstr)
| SysRemoveDirAll (path : rstr)
| SysWrite (path data : rstr)
| SysAppendLine (path data : rstr)
| SysHardLink (src dst : rstr)
| SysCopy (src dst : rstr)
| SysRdev (path : rstr)
| SysMknod (path : rstr) (rdev : N)
| SysChown (path : rstr) (uid gid : N)
(* network devices, by interface name as the kernel reads it *)
| SysOpenTun
| SysTunSetIff (name : bytes)
| SysTunSetPersist (name : bytes) (on : bool)
| SysSocket
| SysGetIfFlags (name : bytes)
| SysSetIfFlags (name : bytes) (flags : Z)
(* eBPF, through aya *)
| SysBpfLoad
| SysBpfFindMap
| SysBpfMapAsArray
| SysBpfSetConfig (config : NatConfig)
| SysTcAddClsact (ifname : rstr)
| SysBpfFindProgram (name : rstr)
| SysBpfProgramAsTc (name : rstr)
| SysBpfLoadProgram (name : rstr)
| SysBpfAttach (name ifname : rstr) (dir : TcDirection)
| SysBpfDrop
(* the VMM's API socket and the clock, in milliseconds *)
| SysElapsed
| SysSleep (ms : N)
| SysConnect (path : rstr)
| SysSend (data : bytes)
| SysRecv (limit : nat)
| SysDeadline (ms : N).

Definition sys_ret (c : Sys) : Type :=
  match c with
  | SysStatus _ _ => N               (* exit status *)
  | SysOutput _ _ => N * rstr        (* exit status and stderr *)
  | SysSpawn _ _ _ => N                (* pid *)
  | SysCanonicalize _ => rstr
  | SysReadDir _ => list rstr
  | SysReadFile _ => rstr
  | SysRdev _ => N
  | SysGetIfFlags _ => Z
  | SysElapsed => N
  | SysRecv _ => bytes
  | _ => unit
  end.

(** A call and its answer; an I/O error is known by its text. *)
Definition Event : Type := {c : Sys & result rstr (sys_ret c)}.
Definition Log : Type := list Event.

Class HostEnv := host_answer : Log → ∀ c : Sys, result rstr (sys_ret c).

Definition ev (c : Sys) (r : result rstr (sys_ret c)) : Event := existT c r.

Section Calls.
Context `{HostEnv}.

Definition sys (c : Sys) : SM Log rstr (sys_ret c) := λ log,
  let r := host_answer log c in (r, log ++ [ev c r]).

(** [Path::exists]: an error counts as absent. *)
Definition path_exists (path : rstr) : SM Log rstr bool :=
  r ← attempt (sys (SysStat path));
  mret (match r with Ok _ => true | Err _ => false end).

(** [Command::status()?] followed by the test for success. *)
Definition command (prog : rstr) (args : list rstr) (failure : rstr) : SM Log rstr unit :=
  status ← sys (SysStatus prog args);
  if negb (status =? 0)%N then throw failure else mret tt.
End Calls.

(** ** Traces *)

Lemma traces_sys `{HostEnv} c (Q : result rstr (sys_ret c) → Log → Prop) :
  (∀ r, Q r [ev c r]) → traces (sys c) Q.
Proof. intros HQ log r log' [= <- <-]. eauto. Qed.

(** Every call a function makes, with its answer, satisfies [F]. *)
Section Every.
Context `{HostEnv} (F : Event → Prop).

Definition every {A} (m : SM Log rstr A) : Prop := traces m (λ _ new, Forall F new).

Lemma every_ret {A} (a : A) : every (mret a).
Proof. by apply traces_ret. Qed.
Lemma every_throw {A} e : every (throw e : SM Log rstr A).
Proof. by apply traces_throw. Qed.
Lemma every_lift {A} (x : result rstr A) : every (lift x).
Proof. by apply traces_lift. Qed.
Lemma every_sys c : (∀ r, F (ev c r)) → every (sys c).
Proof. intros HF. apply traces_sys. intros r. by constructor. Qed.
Lemma every_bind {A B} (m : SM Log rstr A) (f : A → SM Log rstr B) :
  every m → (∀ a, every (f a)) → every (m ≫= f).
Proof.
  intros Hm Hf. apply traces_bind. eapply traces_mono; [|exact Hm].
  intros [a|e] new Hnew; [|done]. eapply traces_mono; [|apply Hf].
  intros r new' Hnew'. by apply Forall_app.
Qed.
Lemma every_lift_bind {A B} (x : result rstr A) (f : A → SM Log rstr B) :
  (∀ a, x = Ok a → every (f a)) → every (lift x ≫= f).
Proof. intros Hf. apply traces_bind, traces_lift. destruct x as [a|e]; [by apply Hf|done]. Qed.
Lemma every_attempt {A} (m : SM Log rstr A) : every m → every (attempt m : SM Log rstr _).
Proof.
  intros Hm log r log' Hrun. unfold attempt in Hrun. destruct (m log) as [r1 log1] eqn:Hm1.
  simplify_eq. eauto.
Qed.
Lemma every_map_err {A} f (m : SM Log rstr A) : every m → every (SM_map_err f m : SM Log rstr A).
Proof.
  intros Hm log r log' Hrun. unfold SM_map_err in Hrun. destruct (m log) as [r1 log1] eqn:Hm1.
  simplify_eq. destruct (Hm _ _ _ Hm1) as (new & ? & ?). eauto.
Qed.
End Every.

(** Walk through a function; what is left are the calls [F] says something
    about. *)
Ltac every_step :=
  match goal with
  | |- every _ (mret _) => apply every_ret
  | |- every _ (throw _) => apply every_throw
  | |- every _ (lift _) => apply every_lift
  | |- every _ (lift _ ≫= _) => apply every_lift_bind; intros ? ?
  | |- every _ (_ ≫= _) => apply every_bind; [|intros ?]
  | |- every _ (attempt _) => apply every_attempt
  | |- every _ (SM_map_err _ _) => apply every_map_err
  | |- every _ (match ?b with _ => _ end) => destruct b
  | |- every _ (sys ?c) => refine (every_sys _ c _)
  end.
