(* ===== verification/HostDemo.v ===== *)
(** * control-plane: concrete hosts

    A host on which every call succeeds with a plain answer, and one on which
    chosen calls fail; for the witnesses. *)

From S2P Require Import Prelude RustStd EbpfNat Host.

Definition plain_answer (c : Sys) : sys_ret c :=
  match c with
  | SysStatus _ _ => 0%N
  | SysOutput _ _ => (0%N, [])
  | SysSpawn _ _ _ => 4242%N
  | SysCanonicalize p => p
  | SysReadDir _ => []
  | SysReadFile _ => lit "0,4"
  | SysRdev _ => 64768%N
  | SysGetIfFlags _ => 0%Z
  | SysElapsed => 0%N
  | SysRecv _ => as_bytes (lit "HTTP/1.1 204 No Content" ++ [13; 10]%N)
  | _ => tt
  end.

(** The calls selected by [fails] return an error. *)
Definition host_failing (fails : Sys → bool) : HostEnv := λ _ c,
  if fails c then Err (lit "fault") else Ok (plain_answer c).

Definition good_host : HostEnv := host_failing (λ _, false).
