(* ===== verification/Storage.v ===== *)
(** * control-plane: thin-provisioned storage (src/control-plane/src/vmm/storage.rs)

    Snapshots through [dmsetup] and the metadata drive through [fallocate] and
    [mke2fs], as sequences of system calls.  [SyscallAuditor::spawn_blocking]
    runs its closure and returns its result. *)

From S2P Require Import Prelude RustStd Host.

Record StorageManager := mk_storage { pool_name : rstr; next_device_id : N }.

Definition StorageManager_new (pool : rstr) : StorageManager :=
  {| pool_name := pool; next_device_id := 100 |}.

Definition dmsetup : rstr := lit "dmsetup".

Definition create_snap_args (pool : rstr) (id base : N) : list rstr :=
  [lit "message"; pool; lit "0"; lit "create_snap " ++ dec id ++ lit " " ++ dec base].
Definition dm_create_args (name : rstr) : list rstr := [lit "create"; name; lit "--notable"].
Definition dm_load_args (pool name : rstr) (id : N) : list rstr :=
  [lit "load"; name; lit "--table";
   lit "0 20971520 thin /dev/mapper/" ++ pool ++ lit " " ++ dec id].
Definition dm_resume_args (name : rstr) : list rstr := [lit "resume"; name].
Definition dm_remove_args (name : rstr) : list rstr := [lit "remove"; name].
Definition delete_args (pool : rstr) (id : N) : list rstr :=
  [lit "message"; pool; lit "0"; lit "delete " ++ dec id].

Lemma create_snap_args_inj pool id base pool' id' base' :
  create_snap_args pool id base = create_snap_args pool' id' base' → pool = pool' ∧ id = id'.
Proof.
  unfold create_snap_args. intros Heq. injection Heq as Hp Hm. split; [done|].
  apply (digits_sep_inj _ _ _ _ 32%N) in Hm as [Hm _]; [by apply (inj dec) in Hm| |apply dec_digits..].
  unfold is_digit. lia.
Qed.

Section Storage.
Context `{HostEnv}.

(** The blocking closure of [create_snapshot]. *)
Definition dm_snapshot_create (pool name : rstr) (id base : N) : SM Log rstr rstr :=
  _ ← command dmsetup (create_snap_args pool id base) (lit "dm_target_msg failed");
  _ ← command dmsetup (dm_create_args name) (lit "dm_dev_create failed");
  _ ← command dmsetup (dm_load_args pool name id) (lit "dm_table_load failed");
  _ ← command dmsetup (dm_resume_args name) (lit "dm_dev_resume failed");
  mret (lit "/dev/mapper/" ++ name).

(** [fetch_add] on the [AtomicU32] wraps. *)
Definition create_snapshot (base_image_internal_id : N) (snapshot_name : rstr)
  : SM (StorageManager * Log) rstr (rstr * N) := λ '(sto, log),
  let snapshot_internal_id := next_device_id sto in
  let sto' := {| pool_name := pool_name sto;
                 next_device_id := ((snapshot_internal_id + 1) mod 2 ^ 32)%N |} in
  match dm_snapshot_create (pool_name sto) snapshot_name snapshot_internal_id
          base_image_internal_id log with
  | (Ok device_path, log') => (Ok (device_path, snapshot_internal_id), (sto', log'))
  | (Err e, log') => (Err e, (sto', log'))
  end.

Definition delete_snapshot (sto : StorageManager) (snapshot_name : rstr) (snapshot_internal_id : N)
  : SM Log rstr unit :=
  _ ← command dmsetup (dm_remove_args snapshot_name) (lit "dm_dev_remove failed");
  command dmsetup (delete_args (pool_name sto) snapshot_internal_id)
    (lit "dm_target_msg delete failed").

(** [Command::output()?] followed by the test for success. *)
Definition output_command (prog : rstr) (args : list rstr) (failure : rstr) : SM Log rstr unit :=
  out ← sys (SysOutput prog args);
  if negb (fst out =? 0)%N then throw (failure ++ snd out) else mret tt.

Definition MetadataDrive_create (path staging_dir : rstr) : SM Log rstr rstr :=
  _ ← output_command (lit "fallocate") [lit "-l"; lit "1M"; path] (lit "fallocate failed: ");
  _ ← output_command (lit "mke2fs")
        [lit "-t"; lit "ext4"; lit "-L"; lit "METADATA"; lit "-d"; staging_dir; path]
        (lit "mke2fs failed: ");
  mret path.
End Storage.
