(* ===== verification/Cgroup.v ===== *)
(** * control-plane: cgroups, CPU sets and NUMA nodes (src/control-plane/src/vmm/cgroup.rs)

    The cgroup directory of a VM and its limits, the two CPU-set allocators,
    and the NUMA node string. *)

From S2P Require Import Prelude RustStd Host.

(** ** Components *)

Record VmCgroup := mk_cgroup { cg_path : rstr; cg_id : rstr }.

Section Cgroup.
Context `{HostEnv}.

Definition get_mems_string (sysfs_root requested_node : rstr) : SM Log rstr rstr :=
  let nodes_dir := join sysfs_root (lit "devices/system/node") in
  present ← path_exists nodes_dir;
  node_count ← (if (present : bool) then
                  entries ← sys (SysReadDir nodes_dir);
                  mret (length (filter (λ name, starts_with name (lit "node") = true) entries))
                else mret 0);
  if (node_count <=? 1) then mret (lit "0") else mret requested_node.

Definition NaiveCpusetAllocator_allocate_cpus (request_cpus : rstr) : SM Log rstr rstr :=
  mret request_cpus.

Definition siblings_path (sysfs_root : rstr) (cpu : N) : rstr :=
  join sysfs_root (lit "devices/system/cpu/cpu" ++ dec cpu ++ lit "/topology/thread_siblings_list").

Definition discover_smt_siblings (sysfs_root requested_cpus : rstr) : SM Log rstr (list N) :=
  full_set ← for_each (split_on comma requested_cpus) (∅ : gset N) (λ cpu_str full_set,
    if bool_decide (cpu_str = []) then mret full_set else
    cpu ← lift (parse_u32 cpu_str);
    siblings ← sys (SysReadFile (siblings_path sysfs_root cpu));
    for_each (split_on comma (trim siblings)) full_set (λ sibling full_set,
      sibling_id ← lift (parse_u32 sibling);
      mret ({[sibling_id]} ∪ full_set)));
  mret (sort_by N.compare (elements full_set)).

Definition SiblingAwareCpusetAllocator_allocate_cpus (sysfs_root request_cpus : rstr)
  : SM Log rstr rstr :=
  siblings ← discover_smt_siblings sysfs_root request_cpus;
  mret (join_with [comma] (map dec siblings)).

Definition CgroupManager_new (root : rstr) : SM Log rstr rstr :=
  present ← path_exists root;
  _ ← (if negb present then sys (SysCreateDirAll root) else mret tt);
  mret root.

Definition create_vm_cgroup (root_path vm_id : rstr) : SM Log rstr VmCgroup :=
  let path := join root_path (lit "vm-" ++ vm_id) in
  present ← path_exists path;
  _ ← (if negb present then sys (SysCreateDir path) else mret tt);
  mret {| cg_path := path; cg_id := vm_id |}.

Definition set_cpuset (cg : VmCgroup) (cpus mems : rstr) : SM Log rstr unit :=
  _ ← sys (SysWrite (join (cg_path cg) (lit "cpuset.cpus")) cpus);
  sys (SysWrite (join (cg_path cg) (lit "cpuset.mems")) mems).

Definition set_memory_limit (cg : VmCgroup) (max_bytes : N) : SM Log rstr unit :=
  _ ← sys (SysWrite (join (cg_path cg) (lit "memory.max")) (dec max_bytes));
  sys (SysWrite (join (cg_path cg) (lit "memory.swap.max")) (lit "0")).

Definition add_process (cg : VmCgroup) (pid : N) : SM Log rstr unit :=
  sys (SysAppendLine (join (cg_path cg) (lit "cgroup.procs")) (dec pid)).

Definition VmCgroup_delete (cg : VmCgroup) : SM Log rstr unit :=
  present ← path_exists (cg_path cg);
  if (present : bool) then sys (SysRemoveDir (cg_path cg)) else mret tt.
End Cgroup.
