(* ===== verification/Tap.v ===== *)
(** * control-plane: TAP devices and the eBPF loader
      (src/control-plane/src/vmm/network.rs, 82-285)

    The kernel reads at most [IFNAMSIZ - 1] bytes of an interface name; the
    loader hands names over as they are. *)

From S2P Require Import Prelude RustStd EbpfNat Host.

Definition IFNAMSIZ : nat := 16.
Definition IFF_UP : Z := 1.

(** The name in an [ifreq]: cut off at [IFNAMSIZ - 1] bytes. *)
Definition ifr_name (name : rstr) : bytes :=
  take (Nat.min (length (as_bytes name)) (IFNAMSIZ - 1)) (as_bytes name).

Section Tap.
Context `{HostEnv}.

Definition set_interface_up (name : rstr) : SM Log rstr unit :=
  _ ← sys SysSocket;
  flags ← sys (SysGetIfFlags (ifr_name name));
  sys (SysSetIfFlags (ifr_name name) (Z.lor flags IFF_UP)).

(** Returns the device's name. *)
Definition TapDevice_create (name : rstr) : SM Log rstr rstr :=
  _ ← sys SysOpenTun;
  _ ← sys (SysTunSetIff (ifr_name name));
  _ ← sys (SysTunSetPersist (ifr_name name) true);
  _ ← set_interface_up name;
  mret name.

(** [Drop]: every failure is ignored. *)
Definition TapDevice_drop (name : rstr) : SM Log rstr unit :=
  opened ← attempt (sys SysOpenTun);
  match opened with
  | Err _ => mret tt
  | Ok _ =>
      r ← attempt (sys (SysTunSetIff (ifr_name name)));
      match r with
      | Err _ => mret tt
      | Ok _ => _ ← attempt (sys (SysTunSetPersist (ifr_name name) false)); mret tt
      end
  end.

Definition nat_config (host_ip : Z) : NatConfig :=
  {| nc_host_ip := swap32 host_ip;
     nc_guest_ip := swap32 0xA9FE0102;
     nc_mac := repeat x00 6;
     nc_pad := repeat x00 2 |}.

Definition prefix_err {A} (prefix : rstr) (m : SM Log rstr A) : SM Log rstr A :=
  SM_map_err (λ e, prefix ++ e) m.

Definition attach_program (name tap_name not_found load_failed attach_failed : rstr)
    (dir : TcDirection) : SM Log rstr unit :=
  _ ← SM_map_err (λ _, not_found) (sys (SysBpfFindProgram name));
  _ ← prefix_err (lit "program type: ") (sys (SysBpfProgramAsTc name));
  _ ← prefix_err load_failed (sys (SysBpfLoadProgram name));
  prefix_err attach_failed (sys (SysBpfAttach name tap_name dir)).

(** The work on the loaded object; dropping it on an error detaches what is
    attached.  The code attaches [tc_egress] to the egress hook of the TAP and
    takes that for the packets that leave the guest; for the kernel it is the
    hook of what the host sends into the TAP. *)
Definition configure_nat (tap_name : rstr) (host_ip : Z) : SM Log rstr unit :=
  _ ← SM_map_err (λ _, lit "VM_CONFIG map not found") (sys SysBpfFindMap);
  _ ← prefix_err (lit "array map: ") (sys SysBpfMapAsArray);
  _ ← prefix_err (lit "map set: ") (sys (SysBpfSetConfig (nat_config host_ip)));
  _ ← attempt (sys (SysTcAddClsact tap_name));
  _ ← attach_program (lit "tc_egress") tap_name (lit "tc_egress not found")
        (lit "egress load: ") (lit "egress attach: ") TcEgress;
  attach_program (lit "tc_ingress") tap_name (lit "tc_ingress not found")
    (lit "ingress load: ") (lit "ingress attach: ") TcIngress.

Definition EbpfProgram_drop : SM Log rstr unit :=
  _ ← attempt (sys SysBpfDrop); mret tt.

Definition load_nat_program (tap_name : rstr) (host_ip : Z) : SM Log rstr unit :=
  _ ← prefix_err (lit "aya load: ") (sys SysBpfLoad);
  r ← attempt (configure_nat tap_name host_ip);
  match r with
  | Ok _ => mret tt
  | Err e => _ ← EbpfProgram_drop; throw e
  end.
End Tap.
