(* ===== verification/FcApi.v ===== *)
(** * control-plane: the Firecracker API client (src/control-plane/src/vmm/firecracker_api.rs)

    One PUT per call over the VMM's socket: the request text, the status line
    of the answer, the deadline.  [serde_json] is a parameter ([ApiJson]). *)

From S2P Require Import Prelude RustStd Host Cgroup.

Definition REQUEST_TIMEOUT : N := 100.
Definition SOCKET_POLL_INTERVAL : N := 10.
Definition SOCKET_READY_TIMEOUT : N := 5000.

Record MachineConfig := { mc_vcpu_count : N; mc_mem_size_mib : N; mc_smt : bool }.
Record BootSource := { bs_kernel_image_path : rstr; bs_boot_args : rstr }.
Record Drive := { dr_drive_id : rstr; dr_path_on_host : rstr; dr_is_root_device : bool;
                  dr_is_read_only : bool }.
Record NetworkInterface := { ni_iface_id : rstr; ni_host_dev_name : rstr }.
Record InstanceAction := { ia_action_type : rstr }.

Inductive ApiBody :=
| BMachineConfig (b : MachineConfig)
| BBootSource (b : BootSource)
| BDrive (b : Drive)
| BNetworkInterface (b : NetworkInterface)
| BInstanceAction (b : InstanceAction).

(** [serde_json::to_vec] on a request body. *)
Class ApiJson := api_to_vec : ApiBody → result rstr bytes.

(** ** The answer *)

Definition parse_status (response : rstr) : option N :=
  line ← head (lines response);
  code ← split_whitespace line !! 1;
  res_ok (parse_u16 code).

Definition request_text (path : rstr) (len : nat) : rstr :=
  lit "PUT " ++ path ++ lit " HTTP/1.1" ++ [13; 10]%N ++ lit "Host: localhost" ++ [13; 10]%N
  ++ lit "Content-Type: application/json" ++ [13; 10]%N
  ++ lit "Content-Length: " ++ dec (N.of_nat len) ++ [13; 10]%N
  ++ lit "Connection: close" ++ [13; 10; 13; 10]%N.

Section Api.
Context `{HostEnv, ApiJson}.

(** The polling loop, [fuel] iterations at most; an empty error stands for
    running out of fuel.  The code's loop is bounded by the clock alone: under a
    host whose clock stands still it does not end, and the empty error is what
    the model says instead.  With a clock that advances while the loop sleeps
    the fuel is never used up ([wait_for_socket_ends]). *)
Fixpoint wait_loop (fuel : nat) (socket_path : rstr) : SM Log rstr unit :=
  match fuel with
  | 0 => throw []
  | S fuel =>
      present ← path_exists socket_path;
      if (present : bool) then mret tt else
      elapsed ← sys SysElapsed;
      if (SOCKET_READY_TIMEOUT <=? elapsed)%N
      then throw (lit "Firecracker socket " ++ [34%N] ++ socket_path ++ [34%N]
              ++ lit " did not appear within 5s")
      else
        _ ← sys (SysSleep SOCKET_POLL_INTERVAL);
        wait_loop fuel socket_path
  end.

(** Enough for a clock that advances at least [SOCKET_POLL_INTERVAL] a sleep. *)
Definition wait_fuel : nat := 502.

Definition wait_for_socket (socket_path : rstr) : SM Log rstr unit :=
  wait_loop wait_fuel socket_path.

Definition send_request (socket_path : rstr) (headers body : bytes) : SM Log rstr unit :=
  _ ← sys (SysConnect socket_path);
  _ ← sys (SysSend headers);
  _ ← sys (SysSend body);
  buf ← sys (SysRecv (Pos.to_nat 512));
  response ← lift (ok_or (from_utf8 buf) (lit "non-UTF-8 HTTP response"));
  status ← lift (ok_or (parse_status response) (lit "unparseable HTTP response: " ++ response));
  if negb ((200 <=? status)%N && (status <? 300)%N)
  then throw (lit "Firecracker API returned HTTP " ++ dec status ++ lit ": " ++ response)
  else mret tt.

(** [timeout]: past the deadline the result is dropped. *)
Definition put (socket_path path : rstr) (body : ApiBody) : SM Log rstr unit :=
  body_bytes ← lift (api_to_vec body);
  r ← attempt (send_request socket_path (as_bytes (request_text path (length body_bytes))) body_bytes);
  _ ← SM_map_err (λ _, lit "Firecracker API PUT " ++ path ++ lit " exceeded 100ms")
        (sys (SysDeadline REQUEST_TIMEOUT));
  lift r.

Definition put_machine_config (sock : rstr) (cfg : MachineConfig) : SM Log rstr unit :=
  put sock (lit "/machine-config") (BMachineConfig cfg).
Definition put_boot_source (sock : rstr) (src : BootSource) : SM Log rstr unit :=
  put sock (lit "/boot-source") (BBootSource src).
Definition put_drive (sock : rstr) (drive : Drive) : SM Log rstr unit :=
  put sock (lit "/drives/" ++ dr_drive_id drive) (BDrive drive).
Definition put_network_interface (sock : rstr) (iface : NetworkInterface) : SM Log rstr unit :=
  put sock (lit "/network-interfaces/" ++ ni_iface_id iface) (BNetworkInterface iface).
Definition instance_start (sock : rstr) : SM Log rstr unit :=
  put sock (lit "/actions") (BInstanceAction {| ia_action_type := lit "InstanceStart" |}).
End Api.
