(* ===== verification/DeviceTheorems.v ===== *)
(** * control-plane: theorems on the device functions

    The Firecracker client (status line, bounded wait) and the CPU-set
    allocator. *)

From S2P Require Import Prelude RustStd EbpfNat Host HostDemo Storage Cgroup Tap FcApi.
Local Open Scope N_scope.

(** ** The status line *)

Definition crlf : rstr := [13; 10].

(** The client reads the status an HTTP server wrote: for every status
    code and every reason phrase without line breaks, the status line followed
    by anything parses to the code. *)
Theorem parse_status_line code reason rest :
  code < 65536 → Forall (λ c, c ≠ 10 ∧ c ≠ 13) reason →
  parse_status (lit "HTTP/1.1 " ++ dec code ++ [32] ++ reason ++ crlf ++ rest) = Some code.
Proof.
  intros Hcode Hreason.
  set (line := lit "HTTP/1.1" ++ 32 :: dec code ++ 32 :: reason).
  assert (Forall (λ c, c ≠ 10 ∧ c ≠ 13) line) as Hline.
  { apply Forall_app. split; [repeat constructor; done|]. constructor; [done|].
    apply Forall_app. split; [|by constructor].
    eapply Forall_impl; [apply dec_digits|]. unfold is_digit. lia. }
  replace (lit "HTTP/1.1 " ++ dec code ++ [32] ++ reason ++ crlf ++ rest)
    with ((line ++ [13]) ++ 10 :: rest).
  2: { unfold line, crlf. change (lit "HTTP/1.1 ") with (lit "HTTP/1.1" ++ [32]).
       by rewrite <- !app_assoc; cbn; rewrite <- !app_assoc. }
  unfold parse_status. rewrite lines_head by (eapply Forall_impl; [exact Hline|]; by intros x []).
  change (Some line ≫= λ l, split_whitespace l !! 1%nat ≫= λ code, res_ok (parse_u16 code))
    with (split_whitespace line !! 1%nat ≫= λ code, res_ok (parse_u16 code)).
  unfold line. rewrite split_word; [|done|repeat constructor]. destruct (dec_cons code) as (d & ds & Hd & _).
  rewrite split_word; [|by rewrite Hd|].
  - cbn. unfold parse_u16. by rewrite parse_uint_dec by lia.
  - eapply Forall_impl; [apply dec_digits|]. unfold is_digit, is_whitespace. intros x Hx. lia.
Qed.

Section Client.
Context `{HostEnv, ApiJson}.

(** A request counts as accepted only on a 2xx answer: when [put]
    succeeds, the body was serialised, the request with its length and the
    body were sent on the socket, and the bytes received parse to a status
    from 200 to 299. *)
Theorem put_accepts_only_2xx sock path body log log' :
  put sock path body log = (Ok tt, log') →
  ∃ bs buf response status,
    api_to_vec body = Ok bs ∧ from_utf8 buf = Some response ∧
    parse_status response = Some status ∧ 200 ≤ status < 300 ∧
    log' = log ++ [ev (SysConnect sock) (Ok tt);
                   ev (SysSend (as_bytes (request_text path (length bs)))) (Ok tt);
                   ev (SysSend bs) (Ok tt); ev (SysRecv (Pos.to_nat 512)) (Ok buf);
                   ev (SysDeadline REQUEST_TIMEOUT) (Ok tt)].
Proof.
  assert (∀ c (l l' : Log) a, sys c l = (Ok a, l') → l' = l ++ [ev c (Ok a)]) as Hsys.
  { intros c l l' a. unfold sys. destruct (host_answer l c); congruence. }
  unfold put. intros Hrun. apply bind_ok in Hrun as (bs & l0 & Hb & Hrun).
  unfold lift in Hb. injection Hb as Hb ->.
  apply bind_ok in Hrun as (r & l1 & Hsend & Hrun).
  apply bind_ok in Hrun as ([] & l2 & Hdl & Hrun). unfold lift in Hrun. injection Hrun as -> ->.
  unfold attempt in Hsend. destruct (send_request _ _ _ _) as [r1 l3] eqn:Hs. simplify_eq.
  unfold SM_map_err in Hdl. destruct (sys (SysDeadline REQUEST_TIMEOUT) l1) as [[[]|] l4] eqn:Hd;
    [|done]. cbn in Hdl. simplify_eq. apply Hsys in Hd as ->.
  unfold send_request in Hs.
  apply bind_ok in Hs as ([] & k1 & H1 & Hs). apply Hsys in H1 as ->.
  apply bind_ok in Hs as ([] & k2 & H2 & Hs). apply Hsys in H2 as ->.
  apply bind_ok in Hs as ([] & k3 & H3 & Hs). apply Hsys in H3 as ->.
  apply bind_ok in Hs as (buf & k4 & H4 & Hs). apply (Hsys (SysRecv _)) in H4 as ->.
  apply bind_ok in Hs as (response & k5 & H5 & Hs). unfold lift, ok_or in H5.
  destruct (from_utf8 buf) as [resp|] eqn:Hu; [|done]. simplify_eq.
  apply bind_ok in Hs as (status & k6 & H6 & Hs). unfold lift, ok_or in H6.
  destruct (parse_status response) as [st|] eqn:Hp; [|done]. simplify_eq.
  destruct (_ && _) eqn:Hrange in Hs; cbn [negb] in Hs; [|done]. apply ret_ok in Hs as [_ ->].
  exists bs, buf, response, status. split_and!; try done; [lia|lia|].
  by rewrite <- !app_assoc.
Qed.

(** ** The wait for the socket *)

Definition is_sleep (e : Event) : bool :=
  match projT1 e with SysSleep _ => true | _ => false end.
Definition sleeps (l : Log) : N := N.of_nat (length (List.filter is_sleep l)).

(** A clock that started at [start] and moves on at least
    [SOCKET_POLL_INTERVAL] with every sleep. *)
Definition clock_runs (start : Log) : Prop :=
  (∀ l, ∃ t, host_answer (start ++ l) SysElapsed = Ok t ∧ SOCKET_POLL_INTERVAL * sleeps l ≤ t) ∧
  (∀ l ms, host_answer (start ++ l) (SysSleep ms) = Ok tt).

Lemma sleeps_snoc l e : sleeps (l ++ [e]) = sleeps l + (if is_sleep e then 1 else 0).
Proof.
  unfold sleeps. rewrite List.filter_app, length_app. cbn. destruct (is_sleep e); cbn; lia.
Qed.

Lemma wait_loop_ends start sock fuel l :
  clock_runs start → sleeps l ≤ 500 → 501 ≤ sleeps l + N.of_nat fuel →
  ∃ r log', wait_loop fuel sock (start ++ l) = (r, log') ∧ r ≠ Err [].
Proof.
  intros [Hclock Hsleep]. revert l. induction fuel as [|fuel IH]; intros l Hl Hf; [lia|].
  cbn [wait_loop]. unfold path_exists, attempt, mbind, SM_bind, mret, SM_ret, sys.
  set (st := host_answer (start ++ l) (SysStat sock)). rewrite <- app_assoc.
  set (l1 := l ++ [ev (SysStat sock) st]).
  assert (sleeps l1 = sleeps l) as Hl1 by (unfold l1; rewrite sleeps_snoc; cbn; lia).
  destruct st as [[]|e]; [by eexists _, _|].
  destruct (Hclock l1) as (t & Ht & Hmin). rewrite Ht.
  rewrite <- app_assoc. set (l2 := l1 ++ [ev SysElapsed (Ok t)]).
  assert (sleeps l2 = sleeps l) as Hl2 by (unfold l2; rewrite sleeps_snoc; cbn; lia).
  unfold SOCKET_READY_TIMEOUT, SOCKET_POLL_INTERVAL in *.
  destruct (5000 <=? t) eqn:Hge; [by eexists _, _|].
  rewrite Hsleep, <- app_assoc. apply IH; rewrite sleeps_snoc; cbn; lia.
Qed.

(** The wait for the VMM's socket ends by itself: with a clock that
    advances at least one poll interval per sleep, the 502 iterations the
    model allows are never used up, so [wait_for_socket] returns success or
    the timeout error, whatever the file system answers. *)
Theorem wait_for_socket_ends start sock :
  clock_runs start →
  ∃ r log', wait_for_socket sock start = (r, log') ∧ r ≠ Err [].
Proof.
  intros Hc. destruct (wait_loop_ends start sock wait_fuel [] Hc) as (r & log' & Hrun & Hr).
  - by apply (bool_decide_unpack _).
  - by apply (bool_decide_unpack _).
  - rewrite app_nil_r in Hrun. eauto.
Qed.
End Client.

(** ** SMT siblings *)

Section Siblings.
Context `{HostEnv}.
Context (root : rstr) (files : rstr → result rstr rstr).
(** sysfs does not change while it is read *)
Hypothesis sysfs_stable : ∀ log p, host_answer log (SysReadFile p) = files p.

(** [x] is named in the sibling list of CPU text [cpu_str]. *)
Definition sibling_of (cpu_str : rstr) (x : N) : Prop :=
  cpu_str ≠ [] ∧ ∃ cpu text sib, parse_u32 cpu_str = Ok cpu ∧
    files (siblings_path root cpu) = Ok text ∧
    sib ∈ split_on comma (trim text) ∧ parse_u32 sib = Ok x.

Lemma collect_siblings text (set0 set1 : gset N) (log log' : Log) :
  for_each (S := Log) (E := rstr) (split_on comma (trim text)) set0 (λ sibling full_set,
    sibling_id ← lift (parse_u32 sibling); mret ({[sibling_id]} ∪ full_set)) log = (Ok set1, log') →
  ∀ x, x ∈ set1 ↔ x ∈ set0 ∨ ∃ sib, sib ∈ split_on comma (trim text) ∧ parse_u32 sib = Ok x.
Proof.
  intros Hrun. refine (for_each_inv
    (λ seen acc (_ : Log), ∀ x, x ∈ acc ↔ x ∈ set0 ∨ ∃ sib, sib ∈ seen ∧ parse_u32 sib = Ok x)
    _ _ _ _ _ _ _ _ Hrun); [|set_solver].
  clear Hrun. intros seen sib acc l acc' l' HI _ Hb. apply bind_ok in Hb as (id & l1 & Hp & Hb).
  unfold lift in Hp. apply ret_ok in Hb as [-> _].
  assert (parse_u32 sib = Ok id) as Hid by congruence.
  intros x. rewrite elem_of_union, elem_of_singleton, HI. split.
  - intros [->|[?|(s & ? & ?)]]; [right; exists sib|by left|right; exists s];
      rewrite elem_of_app, list_elem_of_singleton; auto.
  - intros [?|(s & Hs & Hx)]; [by auto|]. apply elem_of_app in Hs as [?|Hs]; [by eauto|].
    apply list_elem_of_singleton in Hs as ->. left. congruence.
Qed.

(** The sibling-aware allocator pins exactly the requested cores'
    hardware threads: when it succeeds, the result is sorted, has no
    duplicates, and contains a CPU if and only if some requested CPU's
    sibling list names it. *)
Theorem discover_smt_siblings_spec requested log res log' :
  discover_smt_siblings root requested log = (Ok res, log') →
  StronglySorted N.le res ∧ NoDup res ∧
  ∀ x, x ∈ res ↔ ∃ cpu_str, cpu_str ∈ split_on comma requested ∧ sibling_of cpu_str x.
Proof.
  unfold discover_smt_siblings. intros Hrun. apply bind_ok in Hrun as (full & l1 & Hloop & Hrun).
  apply ret_ok in Hrun as [-> _].
  assert (∀ x, x ∈ full ↔ ∃ cpu_str, cpu_str ∈ split_on comma requested ∧ sibling_of cpu_str x) as Hfull.
  { refine (for_each_inv (λ seen acc (_ : Log), ∀ x, x ∈ acc ↔ ∃ c, c ∈ seen ∧ sibling_of c x)
      _ _ _ _ _ _ _ _ Hloop); [|set_solver].
    clear Hloop. intros seen c acc l acc' l' HI _ Hb. case_bool_decide as Hc.
    - apply ret_ok in Hb as [-> _]. intros x. rewrite HI. split.
      + intros (c' & ? & ?). exists c'. rewrite elem_of_app. auto.
      + intros (c' & Hin & Hs). apply elem_of_app in Hin as [?|Hin]; [by eauto|].
        apply list_elem_of_singleton in Hin as ->. by destruct Hs.
    - apply bind_ok in Hb as (cpu & k1 & Hp & Hb). unfold lift in Hp.
      apply bind_ok in Hb as (text & k2 & Hf & Hb). unfold sys in Hf. rewrite sysfs_stable in Hf.
      assert (files (siblings_path root cpu) = Ok text) as Hfile by congruence.
      assert (parse_u32 c = Ok cpu) as Hcpu by congruence.
      intros x. rewrite (collect_siblings _ _ _ _ _ Hb), HI. split.
      + intros [(c' & ? & ?)|(sib & ? & ?)]; [exists c'|exists c]; rewrite elem_of_app; [by auto|].
        split; [by rewrite list_elem_of_singleton; auto|]. split; [done|]. by exists cpu, text, sib.
      + intros (c' & Hin & Hs). apply elem_of_app in Hin as [?|Hin]; [by eauto|]. right.
        apply list_elem_of_singleton in Hin as ->. destruct Hs as (_ & cpu' & text' & sib & Hcpu' & Hfile' & ? & ?). exists sib.
        rewrite Hcpu in Hcpu'. injection Hcpu' as <-. rewrite Hfile in Hfile'. injection Hfile' as <-.
        done. }
  split_and!.
  - apply sort_by_sorted.
    + intros a b c. lia.
    + intros a b Hc. rewrite N.compare_lt_iff in Hc. lia.
    + intros a b Hc. rewrite N.compare_lt_iff in Hc. lia.
  - rewrite sort_by_perm. apply NoDup_elements.
  - intros x. rewrite sort_by_perm, elem_of_elements. apply Hfull.
Qed.
End Siblings.

(** A sibling list in range notation, the form the kernel uses for
    adjacent threads, is refused: on a host where CPU 0's list reads [0-1] the
    allocator fails. *)
Theorem sibling_range_rejected :
  let h : HostEnv := λ _ c, match c return result rstr (sys_ret c) with
                            | SysReadFile _ => Ok (lit "0-1")
                            | _ => Err []
                            end in
  fst (SiblingAwareCpusetAllocator_allocate_cpus (lit "/sys") (lit "0") []) =
    Err (lit "invalid digit found in string").
Proof. vm_compute. reflexivity. Qed.

(** ** Witnesses *)

#[local] Existing Instance good_host.

Lemma parse_status_line_witness :
  parse_status (lit "HTTP/1.1 " ++ dec 204 ++ [32] ++ lit "No Content" ++ crlf ++ []) = Some 204.
Proof.
  apply parse_status_line; [done|]. repeat constructor; discriminate.
Defined.

Definition empty_json : ApiJson := λ _, Ok [].

Lemma put_accepts_only_2xx_witness :
  ∃ bs buf response status, empty_json (BInstanceAction {| ia_action_type := [] |}) = Ok bs ∧
    from_utf8 buf = Some response ∧ parse_status response = Some status ∧ 200 ≤ status < 300.
Proof.
  destruct (put_accepts_only_2xx (H0 := empty_json) (lit "/s") (lit "/actions")
    (BInstanceAction {| ia_action_type := [] |}) []
    (snd (put (H0 := empty_json) (lit "/s") (lit "/actions") (BInstanceAction {| ia_action_type := [] |}) [])))
    as (bs & buf & response & status & H1 & H2 & H3 & H4 & _).
  - apply run_eq. vm_compute. reflexivity.
  - exists bs, buf, response, status. split; [exact H1|]. split; [exact H2|]. split; [exact H3|exact H4].
Defined.

(** A clock that follows the sleeps, and no socket. *)
Definition ticking_host : HostEnv := λ log c,
  match c return result rstr (sys_ret c) with
  | SysElapsed => Ok (10 * sleeps log)
  | SysSleep _ => Ok tt
  | _ => Err []
  end.

Lemma wait_for_socket_ends_witness :
  ∃ r log', wait_for_socket (H := ticking_host) (lit "/s") [] = (r, log') ∧ r ≠ Err [].
Proof.
  apply (wait_for_socket_ends (H := ticking_host) []). split.
  - intros l. eexists. split; [reflexivity|]. cbn [app]. unfold SOCKET_POLL_INTERVAL. lia.
  - reflexivity.
Defined.

Lemma discover_smt_siblings_spec_witness :
  StronglySorted N.le [0; 4] ∧ NoDup [0; 4].
Proof.
  destruct (discover_smt_siblings_spec (lit "/sys") (λ _, Ok (lit "0,4")) (λ _ _, eq_refl)
    (lit "4") [] [0; 4] (snd (discover_smt_siblings (lit "/sys") (lit "4") []))) as (Hs & Hn & _).
  - apply run_eq. vm_compute. reflexivity.
  - split; [exact Hs|exact Hn].
Defined.
