(* ===== verification/Provision.v ===== *)
(** * control-plane: provisioning a VM (src/control-plane/src/vmm/mod.rs)

    [provision_vm] acquires the resources of a VM step by step, recording the
    ones without a destructor in a [ProvisioningContext]; [launch_vm] runs
    [cleanup] on that context when provisioning fails.  The state is the host's
    log with the shared managers, the context and the lifecycle machine; the
    destructors of the TAP device and the eBPF object run where Rust runs
    them, when [provision_vm] returns an error. *)

From S2P Require Import Prelude RustStd VmState Ipam EbpfNat Host Storage Cgroup Tap FcApi.

Record VmConfig := {
  vc_id : rstr; vc_session_id : N; vc_cpu_count : N; vc_mem_size_mib : N;
  vc_vcpu_cores : rstr; vc_numa_node : rstr; vc_base_image : rstr;
}.

Record Vm := {
  vm_config : VmConfig; vm_cgroup : VmCgroup; vm_rootfs : rstr; vm_tap : rstr;
  vm_host_ip : Z; vm_jail_dir : rstr; vm_process : option N;
}.

(** The immutable part of the orchestrator. *)
Record Orchestrator := {
  or_cgroup_root : rstr; or_jailer_path : rstr; or_firecracker_path : rstr; or_kernel_path : rstr;
  or_chroot_base_dir : rstr; or_jailer_uid : N; or_jailer_gid : N;
}.

(** What launches share: the host, the storage manager and the address
    manager. *)
Record Machine := { ma_log : Log; ma_storage : StorageManager; ma_ipam : IpAm }.

Record ProvisioningContext := {
  cx_session_id : N; cx_vm_id : rstr;
  cx_snapshot_name : option rstr; cx_snapshot_internal_id : option N;
  cx_host_ip : option Z; cx_cgroup : option VmCgroup;
  cx_jail_dir : option rstr; cx_process : option N;
}.

Definition ProvisioningContext_new (session_id : N) (vm_id : rstr) : ProvisioningContext :=
  {| cx_session_id := session_id; cx_vm_id := vm_id; cx_snapshot_name := None;
     cx_snapshot_internal_id := None; cx_host_ip := None; cx_cgroup := None;
     cx_jail_dir := None; cx_process := None |}.

Definition cx_set_snapshot (name : option rstr) (id : option N) (c : ProvisioningContext) :=
  {| cx_session_id := cx_session_id c; cx_vm_id := cx_vm_id c; cx_snapshot_name := name;
     cx_snapshot_internal_id := id; cx_host_ip := cx_host_ip c; cx_cgroup := cx_cgroup c;
     cx_jail_dir := cx_jail_dir c; cx_process := cx_process c |}.
Definition cx_set_host_ip (ip : option Z) (c : ProvisioningContext) :=
  {| cx_session_id := cx_session_id c; cx_vm_id := cx_vm_id c;
     cx_snapshot_name := cx_snapshot_name c; cx_snapshot_internal_id := cx_snapshot_internal_id c;
     cx_host_ip := ip; cx_cgroup := cx_cgroup c; cx_jail_dir := cx_jail_dir c;
     cx_process := cx_process c |}.
Definition cx_set_cgroup (cg : option VmCgroup) (c : ProvisioningContext) :=
  {| cx_session_id := cx_session_id c; cx_vm_id := cx_vm_id c;
     cx_snapshot_name := cx_snapshot_name c; cx_snapshot_internal_id := cx_snapshot_internal_id c;
     cx_host_ip := cx_host_ip c; cx_cgroup := cg; cx_jail_dir := cx_jail_dir c;
     cx_process := cx_process c |}.
Definition cx_set_jail_dir (d : option rstr) (c : ProvisioningContext) :=
  {| cx_session_id := cx_session_id c; cx_vm_id := cx_vm_id c;
     cx_snapshot_name := cx_snapshot_name c; cx_snapshot_internal_id := cx_snapshot_internal_id c;
     cx_host_ip := cx_host_ip c; cx_cgroup := cx_cgroup c; cx_jail_dir := d;
     cx_process := cx_process c |}.
Definition cx_set_process (p : option N) (c : ProvisioningContext) :=
  {| cx_session_id := cx_session_id c; cx_vm_id := cx_vm_id c;
     cx_snapshot_name := cx_snapshot_name c; cx_snapshot_internal_id := cx_snapshot_internal_id c;
     cx_host_ip := cx_host_ip c; cx_cgroup := cx_cgroup c; cx_jail_dir := cx_jail_dir c;
     cx_process := p |}.

(** The state of one [launch_vm]. *)
Record Prov := mk_prov { pv_machine : Machine; pv_ctx : ProvisioningContext; pv_sm : VmStateMachine }.

Definition pv_log (s : Prov) : Log := ma_log (pv_machine s).
Definition set_log (log : Log) (s : Prov) : Prov :=
  mk_prov {| ma_log := log; ma_storage := ma_storage (pv_machine s); ma_ipam := ma_ipam (pv_machine s) |}
    (pv_ctx s) (pv_sm s).

Local Abbreviation P := (SM Prov OrchestratorError).

(** [.map_err(|e| OrchestratorError::new(session_id, sm.current_state(), e.to_string()))?] on a
    call to the host. *)
Definition host {A} (m : SM Log rstr A) : P A := λ s,
  match m (pv_log s) with
  | (Ok a, log) => (Ok a, set_log log s)
  | (Err e, log) =>
      (Err (OrchestratorError_new (sm_session_id (pv_sm s)) (current_state (pv_sm s)) e), set_log log s)
  end.

(** The same on a call to the storage manager. *)
Definition storage {A} (m : SM (StorageManager * Log) rstr A) : P A := λ s,
  let back sto log := mk_prov {| ma_log := log; ma_storage := sto; ma_ipam := ma_ipam (pv_machine s) |}
                        (pv_ctx s) (pv_sm s) in
  match m (ma_storage (pv_machine s), pv_log s) with
  | (Ok a, (sto, log)) => (Ok a, back sto log)
  | (Err e, (sto, log)) =>
      (Err (OrchestratorError_new (sm_session_id (pv_sm s)) (current_state (pv_sm s)) e), back sto log)
  end.

Definition transition (next : VmState) : P unit := λ s,
  match transition_to next (pv_sm s) with
  | (Ok _, sm) => (Ok tt, mk_prov (pv_machine s) (pv_ctx s) sm)
  | (Err e, sm) =>
      (Err (OrchestratorError_new (sm_session_id sm) (current_state sm) e),
       mk_prov (pv_machine s) (pv_ctx s) sm)
  end.

(** [self.ipam.allocate()], with no other launch between its atomic accesses.
    Launches that share the address manager interleave in [Ipam.sys_step], where
    the properties of the bitmap are proved for every interleaving. *)
Definition ipam_allocate : P Z := λ s,
  let '(m, call) := allocate (ma_ipam (pv_machine s)) in
  let s' := mk_prov {| ma_log := pv_log s; ma_storage := ma_storage (pv_machine s); ma_ipam := m |}
              (pv_ctx s) (pv_sm s) in
  match call with
  | Returned (Ok ip) => (Ok ip, s')
  | Returned (Err e) =>
      (Err (OrchestratorError_new (sm_session_id (pv_sm s)) (current_state (pv_sm s)) e), s')
  | _ => (Err (OrchestratorError_new (sm_session_id (pv_sm s)) (current_state (pv_sm s)) []), s')
  end.

Definition ipam_release (ip : Z) : P unit := λ s,
  (Ok tt, mk_prov {| ma_log := pv_log s; ma_storage := ma_storage (pv_machine s);
                     ma_ipam := release ip (ma_ipam (pv_machine s)) |} (pv_ctx s) (pv_sm s)).

Definition update_ctx (f : ProvisioningContext → ProvisioningContext) : P unit := λ s,
  (Ok tt, mk_prov (pv_machine s) (f (pv_ctx s)) (pv_sm s)).
Definition get_ctx : P ProvisioningContext := λ s, (Ok (pv_ctx s), s).
Definition get_storage : P StorageManager := λ s, (Ok (ma_storage (pv_machine s)), s).

(** A local with a destructor: it runs when the rest of the body fails, and the
    value moves out when it succeeds. *)
Definition scoped {A} (drop : SM Log rstr unit) (body : P A) : P A := λ s,
  match body s with
  | (Ok a, s') => (Ok a, s')
  | (Err e, s') => (Err e, set_log (snd (drop (pv_log s'))) s')
  end.

(** [CString::new]: no interior NUL. *)
Definition cstring (s : rstr) : result rstr rstr :=
  match list_find (λ c, c = 0%N) s with
  | Some (i, _) => Err (lit "nul byte found in provided data at position: " ++ dec (N.of_nat i))
  | None => Ok s
  end.

(** [mem_size_mib as u64 * 1024 * 1024]. *)
Definition mem_bytes (mib : N) : N := (((mib * 1024) mod 2 ^ 64) * 1024) mod 2 ^ 64.

(** [Orchestrator::new]: the immutable part with the managers it starts from.
    The order of the fallible calls is the order of the fields. *)
Definition Orchestrator_new `{HostEnv} (cgroup_root pool_name : rstr) (base_ip : Z)
    (jailer_path firecracker_path kernel_path chroot_base_dir : rstr) (jailer_uid jailer_gid : N)
  : SM Log rstr (Orchestrator * StorageManager * IpAm) :=
  cgroup_manager ← CgroupManager_new cgroup_root;
  jailer ← sys (SysCanonicalize jailer_path);
  firecracker ← sys (SysCanonicalize firecracker_path);
  kernel ← sys (SysCanonicalize kernel_path);
  mret ({| or_cgroup_root := cgroup_manager; or_jailer_path := jailer;
           or_firecracker_path := firecracker; or_kernel_path := kernel;
           or_chroot_base_dir := chroot_base_dir; or_jailer_uid := jailer_uid;
           or_jailer_gid := jailer_gid |},
        StorageManager_new pool_name, IpAm_new base_ip).

Definition SIGKILL : N := 9.

Section Provision.
Context `{HostEnv, ApiJson} (o : Orchestrator).

Definition setup_jail (jail_dir rootfs_dev : rstr) : SM Log rstr unit :=
  stale ← path_exists jail_dir;
  _ ← (if (stale : bool) then sys (SysRemoveDirAll jail_dir) else mret tt);
  _ ← sys (SysCreateDirAll (join jail_dir (lit "run")));
  _ ← sys (SysCreateDirAll (join jail_dir (lit "dev")));
  let kernel_dest := join jail_dir (lit "vmlinux") in
  linked ← attempt (sys (SysHardLink (or_kernel_path o) kernel_dest));
  _ ← (match linked with
       | Ok _ => mret tt
       | Err _ => sys (SysCopy (or_kernel_path o) kernel_dest)
       end);
  rdev ← sys (SysRdev rootfs_dev);
  c_path ← lift (cstring (join jail_dir (lit "dev/rootfs")));
  _ ← sys (SysMknod c_path rdev);
  sys (SysChown c_path (or_jailer_uid o) (or_jailer_gid o)).

Definition jailer_args (config : VmConfig) (cpus mems : rstr) (mem_max : N) : list rstr :=
  [lit "--exec-file"; or_firecracker_path o; lit "--id"; vc_id config;
   lit "--uid"; dec (or_jailer_uid o); lit "--gid"; dec (or_jailer_gid o);
   lit "--cgroup-version"; lit "2";
   lit "--cgroup"; lit "cpuset.cpus=" ++ cpus;
   lit "--cgroup"; lit "cpuset.mems=" ++ mems;
   lit "--cgroup"; lit "memory.max=" ++ dec mem_max;
   lit "--chroot-base-dir"; or_chroot_base_dir o; lit "--";
   lit "--api-sock"; lit "/run/firecracker.socket"].

Definition jail_dir_of (config : VmConfig) : rstr :=
  join (join (join (or_chroot_base_dir o) (lit "firecracker")) (vc_id config)) (lit "root").

(** Step 3: the cgroup and its limits (lines 150-169). *)
Definition provision_cgroup (config : VmConfig) : P (rstr * rstr) :=
  _ ← transition InitializingCgroup;
  cgroup ← host (create_vm_cgroup (or_cgroup_root o) (vc_id config));
  _ ← update_ctx (cx_set_cgroup (Some cgroup));
  allocated_cpus ← host (NaiveCpusetAllocator_allocate_cpus (vc_vcpu_cores config));
  allocated_mems ← host (get_mems_string (lit "/sys") (vc_numa_node config));
  _ ← host (set_cpuset cgroup allocated_cpus allocated_mems);
  _ ← host (set_memory_limit cgroup (mem_bytes (vc_mem_size_mib config)));
  mret (allocated_cpus, allocated_mems).

(** Step 4: the jail and the VMM process (lines 171-224); the child asks for
    [SIGKILL] when the orchestrator dies (lines 211-218). *)
Definition launch_vmm (config : VmConfig) (rootfs : rstr) (limits : rstr * rstr) : P unit :=
  _ ← transition LaunchingVMM;
  let jail_dir := jail_dir_of config in
  _ ← update_ctx (cx_set_jail_dir (Some jail_dir));
  _ ← host (setup_jail jail_dir rootfs);
  child ← host (sys (SysSpawn (or_jailer_path o)
            (jailer_args config (fst limits) (snd limits) (mem_bytes (vc_mem_size_mib config)))
            (Some SIGKILL)));
  update_ctx (cx_set_process (Some child)).

(** Step 5: configuration and boot over the API (lines 226-301). *)
Definition configure_vmm (config : VmConfig) (tap_name : rstr) : P unit :=
  _ ← transition ConfiguringVMM;
  let jail_dir := jail_dir_of config in
  let sock := join jail_dir (lit "run/firecracker.socket") in
  _ ← host (wait_for_socket sock);
  _ ← host (put_machine_config sock {| mc_vcpu_count := vc_cpu_count config;
              mc_mem_size_mib := vc_mem_size_mib config; mc_smt := false |});
  _ ← host (put_boot_source sock {| bs_kernel_image_path := lit "/vmlinux";
              bs_boot_args := lit "console=ttyS0 reboot=k panic=1 pci=off nomodules" |});
  _ ← host (put_drive sock {| dr_drive_id := lit "rootfs"; dr_path_on_host := lit "/dev/rootfs";
              dr_is_root_device := true; dr_is_read_only := false |});
  let metadata_host_path := join jail_dir (lit "metadata.ext4") in
  let staging_dir := join jail_dir (lit "metadata-staging") in
  _ ← host (sys (SysCreateDirAll staging_dir));
  _ ← host (MetadataDrive_create metadata_host_path staging_dir);
  c_meta ← host (lift (cstring metadata_host_path));
  _ ← host (sys (SysChown c_meta (or_jailer_uid o) (or_jailer_gid o)));
  _ ← host (put_drive sock {| dr_drive_id := lit "metadata"; dr_path_on_host := lit "/metadata.ext4";
              dr_is_root_device := false; dr_is_read_only := false |});
  _ ← host (put_network_interface sock {| ni_iface_id := lit "eth0"; ni_host_dev_name := tap_name |});
  _ ← host (instance_start sock);
  transition Running.

Definition provision_vm (config : VmConfig) : P Vm :=
  _ ← transition ProvisioningStorage;
  snapshot ← storage (create_snapshot 1 (vc_id config));
  let '(rootfs, snapshot_id) := snapshot in
  _ ← update_ctx (cx_set_snapshot (Some (vc_id config)) (Some snapshot_id));
  _ ← transition ConfiguringNetwork;
  let tap_name := lit "tap-" ++ vc_id config in
  tap ← host (TapDevice_create tap_name);
  scoped (TapDevice_drop tap) (
    host_ip ← ipam_allocate;
    _ ← update_ctx (cx_set_host_ip (Some host_ip));
    _ ← host (load_nat_program tap_name host_ip);
    scoped EbpfProgram_drop (
      limits ← provision_cgroup config;
      _ ← launch_vmm config rootfs limits;
      _ ← configure_vmm config tap_name;
      ctx ← get_ctx;
      match cx_cgroup ctx with
      | Some cgroup =>
          _ ← update_ctx (λ c, cx_set_cgroup None (cx_set_process None c));
          mret {| vm_config := config; vm_cgroup := cgroup; vm_rootfs := rootfs; vm_tap := tap;
                  vm_host_ip := host_ip; vm_jail_dir := jail_dir_of config;
                  vm_process := cx_process ctx |}
      | None => λ s, (Err (OrchestratorError_new 0 Pending (lit "cgroup was set above")), s)
      end)).

Definition cleanup : P unit :=
  ctx ← get_ctx;
  sto ← get_storage;
  _ ← update_ctx (cx_set_process None);
  _ ← (match cx_process ctx with
       | Some child => r ← attempt (host (sys (SysKill child))); mret tt
       | None => mret tt
       end);
  _ ← update_ctx (cx_set_cgroup None);
  _ ← (match cx_cgroup ctx with
       | Some cgroup => r ← attempt (host (VmCgroup_delete cgroup)); mret tt
       | None => mret tt
       end);
  _ ← update_ctx (cx_set_host_ip None);
  _ ← (match cx_host_ip ctx with Some ip => ipam_release ip | None => mret tt end);
  _ ← update_ctx (cx_set_snapshot None None);
  _ ← (match cx_snapshot_name ctx, cx_snapshot_internal_id ctx with
       | Some name, Some id => r ← attempt (host (delete_snapshot sto name id)); mret tt
       | _, _ => mret tt
       end);
  _ ← update_ctx (cx_set_jail_dir None);
  match cx_jail_dir ctx with
  | Some jail_dir => r ← attempt (host (sys (SysRemoveDirAll jail_dir))); mret tt
  | None => mret tt
  end.

Definition launch_vm (config : VmConfig) : SM Machine OrchestratorError Vm := λ ma,
  let start := mk_prov ma (ProvisioningContext_new (vc_session_id config) (vc_id config))
                 (VmStateMachine_new (vc_session_id config)) in
  match provision_vm config start with
  | (Ok vm, s) => (Ok vm, pv_machine s)
  | (Err e, s) => (Err e, pv_machine (snd (cleanup s)))
  end.
End Provision.
