(* ===== verification/Resources.v ===== *)
(** * control-plane: what system calls acquire and release

    The resources a launch takes from the host, which events acquire and
    release them, when a log holds one; and for every device function, what it
    can acquire.  [only S m] is the workhorse: every event of [m] acquires
    resources of [S] at most. *)

From S2P Require Import Prelude RustStd EbpfNat Host Storage Cgroup Tap FcApi Provision.

Inductive Resource :=
| RThin (pool : rstr) (id : N)   (* an entry of the thin pool's metadata *)
| RDm (name : rstr)              (* a device-mapper device *)
| RPath (path : rstr)            (* a file, directory or device node *)
| RProc (pid : N)
| RTap (name : bytes)            (* a persistent TAP interface *)
| RBpf.                          (* the loaded eBPF object *)

Definition inside (d p : rstr) : Prop := p = d ∨ ∃ rel, p = d ++ lit "/" ++ rel.

Definition fallocate_args (path : rstr) : list rstr := [lit "-l"; lit "1M"; path].

(** What a call takes, or may have taken: [create_dir_all] makes every missing
    directory of its path, also when it fails on the way, and a copy or an
    allocation that fails can leave its file behind. *)
Definition acquires (e : Event) (x : Resource) : Prop :=
  let 'existT c r := e in
  match c as c return result rstr (sys_ret c) → Prop with
  | SysStatus prog args => λ r, r = Ok 0%N ∧ prog = dmsetup ∧
      ((∃ pool id base, args = create_snap_args pool id base ∧ x = RThin pool id) ∨
       (∃ name, args = dm_create_args name ∧ x = RDm name))
  | SysOutput prog args => λ _,
      prog = lit "fallocate" ∧ ∃ p, args = fallocate_args p ∧ x = RPath p
  | SysSpawn _ _ _ => λ r, ∃ pid, r = Ok pid ∧ x = RProc pid
  | SysCreateDir p => λ r, r = Ok tt ∧ x = RPath p
  | SysCreateDirAll p => λ _, ∃ q, inside q p ∧ x = RPath q
  | SysHardLink _ p => λ r, r = Ok tt ∧ x = RPath p
  | SysCopy _ p => λ _, x = RPath p
  | SysMknod p _ => λ r, r = Ok tt ∧ x = RPath p
  | SysTunSetPersist n true => λ r, r = Ok tt ∧ x = RTap n
  | SysBpfLoad => λ r, r = Ok tt ∧ x = RBpf
  | _ => λ _, False
  end r.

Definition releases (e : Event) (x : Resource) : Prop :=
  let 'existT c r := e in
  match c as c return result rstr (sys_ret c) → Prop with
  | SysStatus prog args => λ r, r = Ok 0%N ∧ prog = dmsetup ∧
      ((∃ pool id, args = delete_args pool id ∧ x = RThin pool id) ∨
       (∃ name, args = dm_remove_args name ∧ x = RDm name))
  | SysRemoveDir p => λ r, r = Ok tt ∧ x = RPath p
  | SysRemoveDirAll d => λ r, r = Ok tt ∧ ∃ p, inside d p ∧ x = RPath p
  | SysKill pid => λ r, r = Ok tt ∧ x = RProc pid
  | SysTunSetPersist n false => λ r, r = Ok tt ∧ x = RTap n
  | SysBpfDrop => λ r, r = Ok tt ∧ x = RBpf
  | _ => λ _, False
  end r.

(** A call that would give the resource back, or without which it is not given
    back, and that failed.  A directory [stat] does not find is taken to be
    gone; the pool entry of a device stays when the device cannot be removed. *)
Definition refuses (e : Event) (x : Resource) : Prop :=
  let 'existT c r := e in
  match c as c return result rstr (sys_ret c) → Prop with
  | SysStatus prog args => λ r, r ≠ Ok 0%N ∧ prog = dmsetup ∧
      ((∃ pool id, args = delete_args pool id ∧ x = RThin pool id) ∨
       (∃ name, args = dm_remove_args name ∧ (x = RDm name ∨ ∃ pool id, x = RThin pool id)))
  | SysStat p => λ r, r ≠ Ok tt ∧ x = RPath p
  | SysRemoveDir p => λ r, r ≠ Ok tt ∧ x = RPath p
  | SysRemoveDirAll d => λ r, r ≠ Ok tt ∧ ∃ p, inside d p ∧ x = RPath p
  | SysKill pid => λ r, r ≠ Ok tt ∧ x = RProc pid
  | SysOpenTun => λ r, r ≠ Ok tt ∧ ∃ n, x = RTap n
  | SysTunSetIff n => λ r, r ≠ Ok tt ∧ x = RTap n
  | SysTunSetPersist n false => λ r, r ≠ Ok tt ∧ x = RTap n
  | SysBpfDrop => λ r, r ≠ Ok tt ∧ x = RBpf
  | _ => λ _, False
  end r.

(** Acquired, and not released since. *)
Definition held (log : Log) (x : Resource) : Prop :=
  ∃ l1 e l2, log = l1 ++ e :: l2 ∧ acquires e x ∧ ∀ e', e' ∈ l2 → ¬ releases e' x.

(** Held when the host refused to take it back, and not acquired again since. *)
Definition stuck (log : Log) (x : Resource) : Prop :=
  ∃ l1 e l2, log = l1 ++ e :: l2 ∧ held l1 x ∧ refuses e x ∧ ∀ e', e' ∈ l2 → ¬ acquires e' x.

(** The event acquires resources of [S] at most. *)
Definition takes (S : Resource → Prop) (e : Event) : Prop := ∀ x, acquires e x → S x.
Definition only_in (S : Resource → Prop) (log : Log) : Prop := Forall (takes S) log.

Definition nothing : Resource → Prop := λ _, False.

Lemma held_app l1 l2 x : held (l1 ++ l2) x → held l1 x ∨ held l2 x.
Proof.
  intros (a & e & b & Heq & Hacq & Hrel).
  apply app_eq_inv in Heq as [(k & -> & Heq)|(k & -> & ->)].
  - destruct k as [|e' k]; cbn in Heq.
    + right. exists [], e, b. done.
    + injection Heq as <- ->. left. exists a, e, k. split_and!; [done|done|].
      intros e' He. apply Hrel. set_solver.
  - right. exists k, e, b. done.
Qed.

Lemma held_suffix l1 l2 x : held l2 x → held (l1 ++ l2) x.
Proof.
  intros (a & e & b & -> & ? & ?). exists (l1 ++ a), e, b. by rewrite <- app_assoc.
Qed.

Lemma only_in_elem S log e x : only_in S log → e ∈ log → acquires e x → S x.
Proof. intros Ho He. exact (proj1 (Forall_forall _ _) Ho e He x). Qed.

Lemma only_in_held S log x : only_in S log → held log x → S x.
Proof. intros Ho (a & e & b & -> & Hacq & _). apply (only_in_elem _ _ e _ Ho); [set_solver|done]. Qed.

Lemma held_app_only l1 l2 x : only_in nothing l2 → held (l1 ++ l2) x → held l1 x.
Proof. intros Ho [?|Hh]%held_app; [done|]. by apply (only_in_held _ _ _ Ho) in Hh. Qed.

(** A release with nothing acquired after it. *)
Lemma held_released l1 e l2 x : releases e x → only_in nothing l2 → (¬ acquires e x) → ¬ held (l1 ++ e :: l2) x.
Proof.
  intros Hrel Ho Hna (a & e0 & b & Heq & Hacq & Hn).
  apply app_eq_inv in Heq as [(k & -> & Heq)|(k & -> & Heq)].
  - destruct k as [|e' k]; cbn in Heq; injection Heq as -> ->; [done|].
    apply (Hn e); [set_solver|done].
  - destruct k as [|e' k]; cbn in Heq; injection Heq as -> ->; [done|].
    apply (only_in_elem _ _ e0 x Ho); [set_solver|done].
Qed.

Lemma stuck_app l1 l2 x : stuck l1 x → only_in nothing l2 → stuck (l1 ++ l2) x.
Proof.
  intros (a & e & b & -> & Hh & Hr & Hn) Ho. exists a, e, (b ++ l2). rewrite <- app_assoc.
  split_and!; [done..|]. intros e' [?|He]%elem_of_app; [auto|]. intros Hacq. by apply (only_in_elem _ _ e' x Ho He).
Qed.

(** A call that releases the resource or fails to. *)
Definition settles (e : Event) (x : Resource) : Prop := releases e x ∨ refuses e x.

(** What is held although a call settled it is stuck. *)
Lemma held_settled acc new e x :
  only_in nothing new → e ∈ new → settles e x → held (acc ++ new) x → stuck (acc ++ new) x.
Proof.
  intros Ho He Hset (l1 & e0 & l2 & Heq & Hacq & Hn).
  apply app_eq_inv in Heq as [(k & -> & Heq)|(k & -> & ->)].
  - destruct k as [|e' k]; cbn in Heq.
    { subst. destruct (only_in_elem _ _ e0 x Ho); [set_solver|done]. }
    injection Heq as -> ->. destruct Hset as [Hrel|Hr]; [destruct (Hn e); [set_solver|done]|].
    apply list_elem_of_split in He as (n1 & n2 & ->). exists ((l1 ++ e' :: k) ++ n1), e, n2.
    split; [by rewrite <- !app_assoc|]. split_and!.
    + exists l1, e', (k ++ n1). rewrite <- app_assoc. split_and!; [done..|]. intros e1 He1. apply Hn. set_solver.
    + done.
    + intros e1 He1 Ha. apply (only_in_elem _ _ e1 x Ho); [set_solver|done].
  - destruct (only_in_elem _ _ e0 x Ho); [set_solver|done].
Qed.

Lemma only_in_app S l1 l2 : only_in S l1 → only_in S l2 → only_in S (l1 ++ l2).
Proof. intros. by apply Forall_app. Qed.

Lemma only_in_nil S : only_in S [].
Proof. constructor. Qed.

Lemma only_in_mono (S S' : Resource → Prop) log : (∀ x, S x → S' x) → only_in S log → only_in S' log.
Proof. intros HS Ho. eapply Forall_impl; [exact Ho|]. intros e He x Hacq. auto. Qed.

Lemma only_in_one (S : Resource → Prop) e : (∀ x, acquires e x → S x) → only_in S [e].
Proof. intros HS. by constructor. Qed.

(** ** What a function can acquire *)

Section Only.
Context `{HostEnv}.
Implicit Types (S : Resource → Prop).

Definition only S {A} (m : SM Log rstr A) : Prop := every (takes S) m.

Lemma only_ret S {A} (a : A) : only S (mret a).
Proof. apply every_ret. Qed.
Lemma only_lift S {A} (x : result rstr A) : only S (lift x).
Proof. apply every_lift. Qed.
Lemma only_sys S c : (∀ r x, acquires (ev c r) x → S x) → only S (sys c).
Proof. exact (every_sys (takes S) c). Qed.
Lemma only_mono S S' {A} (m : SM Log rstr A) : (∀ x, S x → S' x) → only S m → only S' m.
Proof. intros HS. apply traces_mono. intros r new. by apply only_in_mono. Qed.
End Only.

(** Walk through a function; what is left are the calls that acquire
    something. *)
Ltac only_step :=
  unfold only; every_step; try (by intros ? ? []); try change (every (takes ?S) ?m) with (only S m).
Ltac only_tac := repeat only_step.

(** ** The device functions *)

Section Devices.
Context `{HostEnv, ApiJson}.

Lemma only_path_exists S path : only S (path_exists path).
Proof. unfold path_exists. only_tac. Qed.

Lemma only_command S prog args failure :
  (∀ r x, acquires (ev (SysStatus prog args) r) x → S x) → only S (command prog args failure).
Proof. intros HS. unfold command. only_tac. exact HS. Qed.

Lemma only_output S prog args failure :
  (∀ r x, acquires (ev (SysOutput prog args) r) x → S x) → only S (output_command prog args failure).
Proof. intros HS. unfold output_command. only_tac. exact HS. Qed.

(** The commands that acquire nothing. *)
Lemma acquires_status prog args r x :
  acquires (ev (SysStatus prog args) r) x →
  (∃ pool id base, args = create_snap_args pool id base ∧ x = RThin pool id) ∨
  (∃ name, args = dm_create_args name ∧ x = RDm name).
Proof. by intros (_ & _ & ?). Qed.

Lemma dm_load_quiet pool name id r x :
  ¬ acquires (ev (SysStatus dmsetup (dm_load_args pool name id)) r) x.
Proof. by intros [(? & ? & ? & [=] & _)|(? & [=] & _)]%acquires_status. Qed.
Lemma dm_resume_quiet name r x : ¬ acquires (ev (SysStatus dmsetup (dm_resume_args name)) r) x.
Proof. by intros [(? & ? & ? & [=] & _)|(? & [=] & _)]%acquires_status. Qed.
Lemma dm_remove_quiet name r x : ¬ acquires (ev (SysStatus dmsetup (dm_remove_args name)) r) x.
Proof. by intros [(? & ? & ? & [=] & _)|(? & [=] & _)]%acquires_status. Qed.
Lemma delete_quiet pool id r x : ¬ acquires (ev (SysStatus dmsetup (delete_args pool id)) r) x.
Proof. by intros [(? & ? & ? & [=] & _)|(? & [=] & _)]%acquires_status. Qed.

Lemma only_snapshot pool name id base :
  only (λ x, x = RThin pool id ∨ x = RDm name) (dm_snapshot_create pool name id base).
Proof.
  unfold dm_snapshot_create. only_tac.
  - apply only_command. intros r x [(p & i & b & Heq & ->)|(n & Heq & ->)]%acquires_status.
    + apply create_snap_args_inj in Heq as [-> ->]. by left.
    + done.
  - apply only_command. intros r x [(p & i & b & Heq & ->)|(n & Heq & ->)]%acquires_status.
    + done.
    + injection Heq as <-. by right.
  - apply only_command. by intros r x ?%dm_load_quiet.
  - apply only_command. by intros r x ?%dm_resume_quiet.
Qed.

Lemma only_delete_snapshot sto name id : only nothing (delete_snapshot sto name id).
Proof.
  unfold delete_snapshot. only_tac.
  - apply only_command. by intros r x ?%dm_remove_quiet.
  - apply only_command. by intros r x ?%delete_quiet.
Qed.

Lemma only_metadata path staging :
  only (λ x, x = RPath path) (MetadataDrive_create path staging).
Proof.
  unfold MetadataDrive_create. only_tac; apply only_output.
  - by intros r x (_ & p & [= <-] & ->).
  - intros r x (Hp & _). discriminate Hp.
Qed.

Lemma only_tap name : only (λ x, x = RTap (ifr_name name)) (TapDevice_create name).
Proof. unfold TapDevice_create, set_interface_up. only_tac. Qed.

Lemma only_tap_drop name : only nothing (TapDevice_drop name).
Proof. unfold TapDevice_drop. only_tac. Qed.

Lemma only_configure_nat name ip : only nothing (configure_nat name ip).
Proof. unfold configure_nat, attach_program, prefix_err. only_tac. Qed.

Lemma only_ebpf_drop : only nothing EbpfProgram_drop.
Proof. unfold EbpfProgram_drop. only_tac. Qed.

Lemma only_get_mems root node : only nothing (get_mems_string root node).
Proof. unfold get_mems_string. only_tac. apply only_path_exists. Qed.

Lemma only_set_cpuset cg cpus mems : only nothing (set_cpuset cg cpus mems).
Proof. unfold set_cpuset. only_tac. Qed.

Lemma only_set_memory cg n : only nothing (set_memory_limit cg n).
Proof. unfold set_memory_limit. only_tac. Qed.

Lemma only_cgroup_delete cg : only nothing (VmCgroup_delete cg).
Proof. unfold VmCgroup_delete. only_tac. apply only_path_exists. Qed.

Lemma only_wait fuel sock : only nothing (wait_loop fuel sock).
Proof.
  induction fuel as [|fuel IH]; cbn [wait_loop]; only_tac; try apply only_path_exists; exact IH.
Qed.

Lemma only_put sock path body : only nothing (put sock path body).
Proof. unfold put, send_request. only_tac. Qed.

(** Creating the cgroup takes its directory, or nothing when it fails. *)
Lemma traces_create_cgroup root id :
  traces (create_vm_cgroup root id) (λ r new,
    match r with
    | Ok cg => only_in (λ x, x = RPath (cg_path cg)) new
    | Err _ => only_in nothing new
    end).
Proof.
  unfold create_vm_cgroup. apply traces_bind. eapply traces_mono; [|apply (only_path_exists nothing)].
  intros [present|e] new Hnew; [|done].
  assert (∀ S, only_in S new) as Hany by (intros S; by eapply only_in_mono; [|exact Hnew]).
  apply traces_bind. destruct present; cbn [negb].
  - apply traces_ret, traces_ret. rewrite !app_nil_r. apply Hany.
  - refine (traces_sys (SysCreateDir _) _ _). intros [[]|e].
    + apply traces_ret. rewrite app_nil_r. apply only_in_app; [apply Hany|].
      apply only_in_one. by intros x [_ ->].
    + apply only_in_app; [apply Hany|]. apply only_in_one. by intros x [? _].
Qed.

(** Paths below a jail, whose last component is [root]. *)
Lemma join_below b rel :
  starts_with rel (lit "/") = false → join (b ++ lit "root") rel = b ++ lit "root" ++ lit "/" ++ rel.
Proof.
  intros Hrel. unfold join. rewrite Hrel.
  rewrite bool_decide_false by (by destruct b).
  replace (ends_with (b ++ lit "root") (lit "/")) with false; [cbn [orb]; by rewrite <- app_assoc|].
  symmetry. apply not_true_iff_false. rewrite ends_with_true. intros [t Ht].
  change (lit "root") with (lit "roo" ++ lit "t") in Ht. rewrite app_assoc in Ht.
  by apply app_inj_2 in Ht as [_ ?].
Qed.

Lemma cstring_ok s t : cstring s = Ok t → t = s.
Proof. unfold cstring. destruct (list_find _ s) as [[]|]; congruence. Qed.

(** A directory on the way to a path below [d] is below [d] or on the way to
    [d]. *)
Lemma inside_split q d rel : inside q (d ++ lit "/" ++ rel) → inside d q ∨ inside q d.
Proof.
  intros [<-|[r Hr]]; [left; right; eauto|].
  apply app_eq_inv in Hr as [(k & -> & Hk)|(k & -> & Hk)].
  - right. destruct k as [|c k]; [left; by rewrite app_nil_r|]. injection Hk as Hc _. right. exists k. by subst c.
  - left. destruct k as [|c k]; [left; by rewrite app_nil_r|]. injection Hk as Hc _. right. exists k. by subst c.
Qed.

Lemma only_setup_jail o b rootfs :
  let jail := b ++ lit "root" in
  only (λ x, ∃ p, x = RPath p ∧ (inside jail p ∨ inside p jail)) (setup_jail o jail rootfs).
Proof.
  intros jail. assert (∀ rel, starts_with rel (lit "/") = false → join jail rel = jail ++ lit "/" ++ rel) as Hjoin.
  { intros rel Hrel. unfold jail. rewrite join_below by done. by rewrite <- app_assoc. }
  assert (∀ rel, starts_with rel (lit "/") = false → inside jail (join jail rel)) as Hin.
  { intros rel Hrel. right. exists rel. unfold jail. rewrite join_below by done. by rewrite <- app_assoc. }
  unfold setup_jail. only_tac; try (apply only_path_exists);
    try (intros r x (q & Hq & ->); rewrite Hjoin in Hq by done; eauto using inside_split);
    try (intros r x [_ ->]; eexists; split; [done|]; left; apply Hin; reflexivity);
    try (intros r x ->; eexists; split; [done|]; left; apply Hin; reflexivity).
  match goal with Hc : cstring _ = Ok _ |- _ => apply cstring_ok in Hc as -> end.
  intros r x [_ ->]. eexists. split; [done|]. left. by apply Hin.
Qed.

Lemma traces_load_nat_only name ip : only (λ x, x = RBpf) (load_nat_program name ip).
Proof.
  unfold load_nat_program, prefix_err. only_tac.
  - eapply only_mono; [|apply only_configure_nat]. by intros x [].
  - eapply only_mono; [|apply only_ebpf_drop]. by intros x [].
Qed.
End Devices.
