(* ===== verification/ProvisionLogic.v ===== *)
(** * control-plane: reasoning about provisioning

    [triple]: from a state whose acquired resources are all recorded in the
    context or covered by a destructor in scope, a step ends in such a state,
    or fails leaving nothing uncovered but what [leak] lists for the failing
    stage.  The rules follow the monad; [provision_triple] is the whole of
    [provision_vm], [cleanup_releases] is [cleanup]. *)

From S2P Require Import Prelude RustStd VmState Ipam EbpfNat Host Storage Cgroup Tap FcApi Provision Resources.

(** What the context lets [cleanup] give back. *)
Definition owned (pool : rstr) (c : ProvisioningContext) (x : Resource) : Prop :=
  match x with
  | RThin p id => p = pool ∧ cx_snapshot_internal_id c = Some id ∧ is_Some (cx_snapshot_name c)
  | RDm name => cx_snapshot_name c = Some name ∧ is_Some (cx_snapshot_internal_id c)
  | RPath p => (∃ cg, cx_cgroup c = Some cg ∧ cg_path cg = p) ∨
               (∃ d, cx_jail_dir c = Some d ∧ inside d p)
  | RProc pid => cx_process c = Some pid
  | RTap _ | RBpf => False
  end.

(** What a failure in each stage can leave behind: the snapshot and its device
    when creating them fails half way, the TAP device when bringing it up
    fails. *)
Definition leak (st : VmState) (x : Resource) : Prop :=
  match st, x with
  | ProvisioningStorage, (RThin _ _ | RDm _) => True
  | ConfiguringNetwork, RTap _ => True
  | _, _ => False
  end.

(** ** Giving back *)

Section Frees.
Context `{HostEnv}.

(** [m] acquires nothing and makes, for every resource of [S], a call that
    releases it or that fails. *)
Definition frees (S : Resource → Prop) {A} (m : SM Log rstr A) : Prop :=
  traces m (λ _ new, only_in nothing new ∧ ∀ x, S x → ∃ e, e ∈ new ∧ settles e x).

Lemma frees_ret {A} (a : A) : frees nothing (mret a).
Proof. apply traces_ret. split; [apply only_in_nil|by intros x []]. Qed.

Lemma frees_mono (S S' : Resource → Prop) {A} (m : SM Log rstr A) :
  (∀ x, S' x → S x) → frees S m → frees S' m.
Proof. intros HS. apply traces_mono. intros r new [? ?]. eauto. Qed.

(** One call. *)
Lemma frees_sys S c : (∀ r, takes nothing (ev c r)) → (∀ r x, S x → settles (ev c r) x) → frees S (sys c).
Proof.
  intros Ho Hs. apply traces_sys. intros r. split; [apply only_in_one, Ho|].
  intros x Hx. eexists. split; [left|auto].
Qed.

(** A call whose failure leaves the rest undone. *)
Lemma frees_first {A} (S S1 : Resource → Prop) c (f : result rstr (sys_ret c) → SM Log rstr A) :
  (∀ r, takes nothing (ev c r)) →
  (∀ r, (∀ x, S x → settles (ev c r) x) ∧ only nothing (f r) ∨ (∀ x, S x → settles (ev c r) x ∨ S1 x) ∧ frees S1 (f r)) →
  frees S (r ← attempt (sys c); f r).
Proof.
  intros Ho Hf log r log' Hrun. unfold mbind, SM_bind, attempt, sys in Hrun.
  set (r0 := host_answer log c) in *. destruct (Hf r0) as [[Hs Hq]|[Hs Hq]];
    destruct (Hq _ _ _ Hrun) as (new & -> & Hnew); exists ([ev c r0] ++ new); rewrite app_assoc; (split; [done|]).
  - split; [by apply only_in_app; [apply only_in_one, Ho|]|].
    intros x Hx. eexists. split; [left|auto].
  - destruct Hnew as [Hnew Hset]. split; [by apply only_in_app; [apply only_in_one, Ho|]|].
    intros x Hx. destruct (Hs x Hx) as [?|H1]; [eexists; split; [left|done]|].
    destruct (Hset x H1) as (e & ? & ?). exists e. split; [by right|done].
Qed.

(** One call after the other, whatever the first returns. *)
Definition both (m1 m2 : SM Log rstr unit) : SM Log rstr unit :=
  _ ← attempt m1; _ ← attempt m2; mret tt.

Lemma frees_seq (S1 S2 : Resource → Prop) m1 m2 :
  frees S1 m1 → frees S2 m2 → frees (λ x, S1 x ∨ S2 x) (both m1 m2).
Proof.
  intros H1 H2 log r log' Hrun. unfold both, mbind, SM_bind, attempt in Hrun.
  destruct (m1 log) as [r1 log1] eqn:Hm1. destruct (m2 log1) as [r2 log2] eqn:Hm2.
  injection Hrun as <- <-.
  destruct (H1 _ _ _ Hm1) as (n1 & -> & Ho1 & Hf1). destruct (H2 _ _ _ Hm2) as (n2 & -> & Ho2 & Hf2).
  exists (n1 ++ n2). rewrite app_assoc. split_and!; [done|by apply only_in_app|].
  intros x [Hx|Hx]; [destruct (Hf1 x Hx) as (e & ? & ?)|destruct (Hf2 x Hx) as (e & ? & ?)]; exists e;
    rewrite elem_of_app; auto.
Qed.

Lemma sys_run c log : sys c log = (host_answer log c, log ++ [ev c (host_answer log c)]).
Proof. done. Qed.

Lemma frees_kill pid : frees (λ x, x = RProc pid) (sys (SysKill pid)).
Proof. refine (frees_sys _ (SysKill pid) _ _); [by intros r x []|]. intros [[]|e] x ->; [by left|by right]. Qed.

Lemma frees_tree d : frees (λ x, ∃ p, x = RPath p ∧ inside d p) (sys (SysRemoveDirAll d)).
Proof.
  refine (frees_sys _ (SysRemoveDirAll d) _ _); [by intros r x []|].
  intros [[]|e] x (p & -> & Hp); [left|right]; cbn; eauto.
Qed.

Lemma frees_cgroup cg : frees (λ x, x = RPath (cg_path cg)) (VmCgroup_delete cg).
Proof.
  intros log r log' Hrun. unfold VmCgroup_delete, path_exists, mbind, SM_bind, attempt in Hrun.
  rewrite sys_run in Hrun. destruct (host_answer log _) as [[]|e] eqn:Hs in Hrun; cbn in Hrun;
    injection Hrun as _ <-; rewrite <- ?app_assoc; (eexists; split; [reflexivity|]).
  - split; [repeat constructor; by intros x []|]. intros x ->. eexists. split; [right; left|].
    match goal with |- settles (ev _ ?r) _ => destruct r as [[]|e2] end; [by left|by right].
  - split; [repeat constructor; by intros x []|]. intros x ->. eexists. split; [left|]. by right.
Qed.

Lemma frees_snapshot sto name id :
  frees (λ x, x = RDm name ∨ x = RThin (pool_name sto) id) (delete_snapshot sto name id).
Proof.
  intros log r log' Hrun. destruct (only_delete_snapshot _ _ _ _ _ _ Hrun) as (new & -> & Ho).
  exists new. split_and!; [done|done|]. intros x Hx.
  unfold delete_snapshot, command, mbind, SM_bind in Hrun. rewrite sys_run in Hrun.
  set (args := dm_remove_args name) in *. set (e1 := ev (SysStatus dmsetup args) _) in Hrun.
  assert (host_answer log (SysStatus dmsetup args) = Ok 0%N ∨ settles e1 x ∧ e1 ∈ new) as [H1|[? ?]]; [| |by eauto].
  { destruct (host_answer log (SysStatus dmsetup args)) as [st|msg] eqn:Ha.
    - destruct st as [|st]; [by left|right]. cbn in Hrun. injection Hrun as _ Hn.
      apply app_inv_head in Hn as <-. split; [|left]. right. split; [done|].
      split; [done|]. right. exists name. split; [done|]. destruct Hx as [->| ->]; eauto.
    - right. injection Hrun as _ Hn. apply app_inv_head in Hn as <-. split; [|left]. right.
      split; [done|]. split; [done|]. right. exists name. split; [done|]. destruct Hx as [->| ->]; eauto. }
  subst e1. rewrite H1 in Hrun. cbn -[sys] in Hrun. rewrite sys_run in Hrun.
  set (log1 := log ++ [_]) in Hrun. set (c2 := SysStatus dmsetup (delete_args (pool_name sto) id)) in *.
  assert (new = [ev (SysStatus dmsetup args) (Ok 0%N); ev c2 (host_answer log1 c2)]) as ->.
  { apply (app_inv_head log). destruct (host_answer log1 c2) as [st|msg]; cbn in Hrun;
      [destruct (negb _)|]; injection Hrun as _ <-; unfold log1; by rewrite <- app_assoc. }
  destruct Hx as [->| ->].
  - eexists. split; [left|]. left. split; [done|]. split; [done|]. right. eauto.
  - eexists. split; [right; left|]. clear Hrun Ho. destruct (host_answer log1 c2) as [[|st]|msg];
      [left|right..]; (split; [done|]; split; [done|]; left; eauto).
Qed.

Lemma frees_tap name : frees (λ x, x = RTap (ifr_name name)) (TapDevice_drop name).
Proof.
  unfold TapDevice_drop. refine (frees_first _ (λ x, x = RTap (ifr_name name)) SysOpenTun _ _ _); [by intros r x []|].
  intros [[]|e]; [right|left; split; [intros x ->; right; cbn; eauto|apply only_ret]]. split; [by auto|].
  refine (frees_first _ (λ x, x = RTap (ifr_name name)) (SysTunSetIff (ifr_name name)) _ _ _); [by intros r x []|].
  intros [[]|e]; [right|left; split; [intros x ->; by right|apply only_ret]]. split; [by auto|].
  refine (frees_first _ nothing (SysTunSetPersist (ifr_name name) false) _ _ _); [by intros r x []|].
  intros [[]|e]; left; (split; [intros x ->; by (left + right)|apply only_ret]).
Qed.

Lemma frees_bpf : frees (λ x, x = RBpf) EbpfProgram_drop.
Proof.
  unfold EbpfProgram_drop. refine (frees_first _ nothing SysBpfDrop _ _ _); [by intros r x []|].
  intros [[]|e]; left; (split; [intros x ->; by (left + right)|apply only_ret]).
Qed.
End Frees.

(** ** Steps *)

Section Logic.
Context `{HostEnv, ApiJson}.
Context (pool : rstr) (ipam0 : IpAm).
Local Abbreviation P := (SM Prov OrchestratorError).

(** The pool does not change, and the context knows the address taken. *)
Definition Inv (s : Prov) : Prop :=
  pool_name (ma_storage (pv_machine s)) = pool ∧
  match cx_host_ip (pv_ctx s) with
  | None => ma_ipam (pv_machine s) = ipam0
  | Some ip => allocate ipam0 = (ma_ipam (pv_machine s), Returned (Ok ip))
  end.

Definition good (Y : Resource → Prop) (acc : Log) (s : Prov) : Prop :=
  ∀ x, held acc x → owned pool (pv_ctx s) x ∨ Y x.

Definition triple {A} (R Y : Resource → Prop) (C : Prov → Prop) (m : P A) (Y' : A → Resource → Prop) (C' : A → Prov → Prop) : Prop :=
  ∀ base acc s r s', pv_log s = base ++ acc → C s → good Y acc s → m s = (r, s') →
  ∃ acc', pv_log s' = base ++ acc' ∧
  match r with
  | Ok a => C' a s' ∧ good (Y' a) acc' s'
  | Err e => Inv s' ∧ good (λ x, R x ∨ leak (oe_state e) x ∨ stuck acc' x) acc' s'
  end.

Lemma triple_ret {A} R Y C (a : A) : triple R Y C (mret a) (λ _, Y) (λ b s, b = a ∧ C s).
Proof. intros base acc s r s' Hl HC HY [= <- <-]. eauto. Qed.

Lemma triple_bind {A B} R Y C (m : P A) (f : A → P B) Y' C' Y'' C'' :
  triple R Y C m Y' C' → (∀ a, triple R (Y' a) (C' a) (f a) Y'' C'') →
  triple R Y C (m ≫= f) Y'' C''.
Proof.
  intros Hm Hf base acc s r s' Hl HC HY Hrun. unfold mbind, SM_bind in Hrun.
  destruct (m s) as [[a|e] s1] eqn:Hm1.
  - destruct (Hm _ _ _ _ _ Hl HC HY Hm1) as (acc1 & Hl1 & HC1 & HY1). eapply Hf; eauto.
  - simplify_eq. by eapply (Hm _ _ _ _ _ Hl HC HY Hm1).
Qed.

(** [C] speaks about everything but the log. *)
Definition logless (C : Prov → Prop) : Prop := ∀ s log, C s → C (set_log log s) ∧ Inv s.

(** A call to the host: its trace decides. *)
Lemma triple_host {A} R Y C (m : SM Log rstr A) T Y' (C' : A → Prov → Prop) :
  logless C → traces m T →
  (∀ s acc a new, C s → good Y acc s → T (Ok a) new → C' a s ∧ good (Y' a) (acc ++ new) s) →
  (∀ s log a, C' a s → C' a (set_log log s)) →
  (∀ s acc e new, C s → good Y acc s → T (Err e) new →
     good (λ x, R x ∨ leak (sm_state (pv_sm s)) x ∨ stuck (acc ++ new) x) (acc ++ new) s) →
  triple R Y C (host m) Y' C'.
Proof.
  intros HCl Hm Hok Hl' Herr base acc s r s' Hl HC HY Hrun. unfold host in Hrun.
  destruct (m (pv_log s)) as [[a|e] log] eqn:Hm1;
    destruct (Hm _ _ _ Hm1) as (new & -> & HT); simplify_eq; exists (acc ++ new);
    (split; [cbn; by rewrite Hl, app_assoc|]).
  - destruct (Hok s acc a new HC HY HT). auto.
  - destruct (HCl s [] HC) as [_ HI]. split; [exact HI|]. exact (Herr s acc e new HC HY HT).
Qed.

(** A call that acquires only what is already covered. *)
Lemma triple_host_only {A} R S C (m : SM Log rstr A) :
  logless C → only S m → (∀ s x, C s → S x → owned pool (pv_ctx s) x ∨ R x) →
  triple R R C (host m) (λ _, R) (λ _, C).
Proof.
  intros HCl Hm HS.
  assert (∀ s acc new, C s → good R acc s → only_in S new → good R (acc ++ new) s) as Hg.
  { intros s acc new HC HY Ho x [Hx|Hx]%held_app; [auto|].
    apply (HS s); [done|]. by eapply only_in_held. }
  eapply triple_host; [done|exact Hm|eauto| |].
  - intros s log a HC. by apply HCl.
  - intros s acc e new HC HY HT x Hx. edestruct (Hg s acc new) as [?|?]; eauto.
Qed.

Lemma triple_quiet {A} R C (m : SM Log rstr A) :
  logless C → only nothing m → triple R R C (host m) (λ _, R) (λ _, C).
Proof. intros HCl Hm. eapply triple_host_only; [exact HCl|exact Hm|]. by intros s x _ []. Qed.

Lemma triple_update R Y Y' C C' f :
  (∀ s, C s → C' (mk_prov (pv_machine s) (f (pv_ctx s)) (pv_sm s))) →
  (∀ s x, C s → owned pool (pv_ctx s) x ∨ Y x → owned pool (f (pv_ctx s)) x ∨ Y' x) →
  triple R Y C (update_ctx f) (λ _, Y') (λ _, C').
Proof.
  intros HC' HY' base acc s r s' Hl HC HY [= <- <-]. exists acc. split; [done|]. split; [auto|].
  intros x Hx. apply HY'; auto.
Qed.

Lemma triple_transition R C C' next :
  (∀ s, C s → Inv s) →
  (∀ s, C s → C' (mk_prov (pv_machine s) (pv_ctx s) (mk_sm next (sm_session_id (pv_sm s))))) →
  triple R R C (transition next) (λ _, R) (λ _, C').
Proof.
  intros HI HC' base acc s r s' Hl HC HY Hrun. unfold transition in Hrun.
  destruct (transition_to next (pv_sm s)) as [[[]|e] sm] eqn:Ht; simplify_eq;
    exists acc; (split; [done|]).
  - apply transition_to_ok in Ht as [_ ->]. split; [auto|exact HY].
  - split; [exact (HI s HC)|]. intros x Hx. destruct (HY x Hx); auto.
Qed.

(** A destructor in scope covers its resource: it is released, or the host
    refuses. *)
Lemma triple_scoped {A} R (x : Resource) Y C (drop : SM Log rstr unit) (body : P A) Y' C' :
  frees (λ z, z = x) drop →
  triple (λ z, R z ∨ z = x) Y C body Y' C' →
  triple R Y C (scoped drop body) Y' C'.
Proof.
  intros Hrel Hbody base acc s r s' Hl HC HY Hrun. unfold scoped in Hrun.
  destruct (body s) as [[a|e] s1] eqn:Hb;
    destruct (Hbody _ _ _ _ _ Hl HC HY Hb) as (acc1 & Hl1 & Hpost); simplify_eq; [eauto|].
  destruct Hpost as [HI Hg].
  destruct (drop (pv_log s1)) as [rd logd] eqn:Hd.
  destruct (Hrel _ _ _ Hd) as (new & -> & Hnew & Hset). exists (acc1 ++ new).
  split; [cbn; by rewrite Hl1, app_assoc|]. split; [exact HI|].
  intros z Hz. pose proof (held_app_only _ _ _ Hnew Hz) as Hz1.
  destruct (Hg z Hz1) as [?|[[?| ->]|[?|Hst]]]; [by left|by auto| |by auto|].
  - right; right; right. destruct (Hset x eq_refl) as (e1 & He1 & ?). by eapply held_settled.
  - right; right; right. by apply stuck_app.
Qed.
End Logic.

(** ** [cleanup] *)

Section Cleanup.
Context `{HostEnv}.
Local Abbreviation P := (SM Prov OrchestratorError).

(** The calls [cleanup] makes, in its order. *)
Definition opt_call {A} (o : option A) (m : A → SM Log rstr unit) : SM Log rstr unit :=
  match o with Some a => m a | None => mret tt end.

Definition snapshot_of (c : ProvisioningContext) : option (rstr * N) :=
  match cx_snapshot_name c, cx_snapshot_internal_id c with
  | Some name, Some id => Some (name, id)
  | _, _ => None
  end.

Definition cleanup_calls (sto : StorageManager) (c : ProvisioningContext) : SM Log rstr unit :=
  both (both (both (opt_call (cx_process c) (λ pid, sys (SysKill pid)))
                   (opt_call (cx_cgroup c) VmCgroup_delete))
             (opt_call (snapshot_of c) (λ '(name, id), delete_snapshot sto name id)))
       (opt_call (cx_jail_dir c) (λ d, sys (SysRemoveDirAll d))).

Lemma frees_opt {A} (o : option A) (m : A → SM Log rstr unit) S :
  (∀ a, frees (S a) (m a)) → frees (λ x, ∃ a, o = Some a ∧ S a x) (opt_call o m).
Proof.
  intros Hm. destruct o as [a|]; cbn.
  - eapply frees_mono; [|apply Hm]. by intros x (? & [= <-] & ?).
  - eapply frees_mono; [|apply frees_ret]. by intros x (? & [=] & _).
Qed.

Lemma cleanup_calls_free sto c : frees (owned (pool_name sto) c) (cleanup_calls sto c).
Proof.
  eapply frees_mono; [|apply frees_seq; [apply frees_seq; [apply frees_seq|]|]].
  2: apply (frees_opt _ _ (λ pid x, x = RProc pid)), frees_kill.
  2: apply (frees_opt _ _ (λ cg x, x = RPath (cg_path cg))), frees_cgroup.
  2: { apply (frees_opt _ _ (λ s x, x = RDm (fst s) ∨ x = RThin (pool_name sto) (snd s))).
       intros [name id]. apply frees_snapshot. }
  2: apply (frees_opt _ _ (λ d x, ∃ p, x = RPath p ∧ inside d p)), frees_tree.
  intros [p id|name|p|pid|n|]; cbn; [| | | |done|done].
  - intros (-> & Hid & [name Hn]). left; right. exists (name, id). unfold snapshot_of.
    rewrite Hid, Hn. auto.
  - intros (Hn & [id Hid]). left; right. exists (name, id). unfold snapshot_of.
    rewrite Hid, Hn. auto.
  - intros [(cg & -> & <-)|(d & -> & Hp)]; [left; left; right; eauto|right; eauto].
  - intros ->. left; left; left. eauto.
Qed.

Lemma cleanup_calls_only sto c : only nothing (cleanup_calls sto c).
Proof.
  unfold cleanup_calls, both, opt_call. only_tac.
  - apply only_cgroup_delete.
  - apply only_delete_snapshot.
Qed.

Lemma both_log m1 m2 log : snd (both m1 m2 log) = snd (m2 (snd (m1 log))).
Proof.
  unfold both, mbind, SM_bind, attempt. destruct (m1 log) as [r1 log1]. cbn.
  by destruct (m2 log1).
Qed.

(** An ignored call of [cleanup]. *)
Lemma run_ignored {A} (o : option A) (m : A → SM Log rstr unit) (f : P unit) s :
  f = match o with
      | Some a => r ← attempt (host (m a)); mret tt
      | None => mret tt
      end →
  f s = (Ok tt, set_log (snd (opt_call o m (pv_log s))) s).
Proof.
  intros ->. destruct o as [a|]; cbn.
  - unfold mbind, SM_bind, attempt, host. by destruct (m a (pv_log s)) as [[]].
  - by destruct s as [[] ? ?].
Qed.

Lemma cleanup_spec s :
  let c := pv_ctx s in let s' := snd (cleanup s) in
  pv_log s' = snd (cleanup_calls (ma_storage (pv_machine s)) c (pv_log s)) ∧
  ma_ipam (pv_machine s') =
    match cx_host_ip c with
    | Some ip => release ip (ma_ipam (pv_machine s))
    | None => ma_ipam (pv_machine s)
    end ∧
  pv_ctx s' = ProvisioningContext_new (cx_session_id c) (cx_vm_id c).
Proof.
  destruct s as [[log sto ipam] [sid vid name id ip cg jail proc] sm].
  unfold cleanup. cbn [pv_ctx pv_machine ma_storage cx_session_id cx_vm_id].
  unfold mbind, SM_bind, get_ctx, get_storage, update_ctx. cbn [cx_process cx_cgroup pv_ctx].
  rewrite (run_ignored proc (λ pid, sys (SysKill pid))) by done.
  rewrite (run_ignored cg VmCgroup_delete) by done.
  cbn [cx_host_ip cx_snapshot_name cx_snapshot_internal_id cx_jail_dir].
  set (log1 := snd (opt_call proc _ _)). set (log2 := snd (opt_call cg _ _)).
  assert (∀ (f : P unit), f = match ip with Some ip => ipam_release ip | None => mret tt end →
    ∀ s, f s = (Ok tt, mk_prov {| ma_log := pv_log s; ma_storage := ma_storage (pv_machine s);
      ma_ipam := match ip with Some ip => release ip (ma_ipam (pv_machine s))
                 | None => ma_ipam (pv_machine s) end |} (pv_ctx s) (pv_sm s))) as Hip.
  { intros f -> s. destruct ip; [done|]. by destruct s as [[] ? ?]. }
  rewrite (Hip _ eq_refl).
  rewrite (run_ignored (match name, id with Some n, Some i => Some (n, i) | _, _ => None end)
    (λ '(name, id), delete_snapshot sto name id)) by (by destruct name, id).
  rewrite (run_ignored jail (λ d, sys (SysRemoveDirAll d))) by done.
  cbn [snd]. split_and!; [|by destruct ip|done].
  unfold cleanup_calls. rewrite !both_log. done.
Qed.
End Cleanup.
