(* ===== verification/ProvisionTheorems.v ===== *)
(** * control-plane: the provisioning theorems

    A failed launch gives back everything it took, at whatever point and for
    whatever reason the host made it fail; what can stay behind is named: what
    the host refused to take back, and what the code does not give back. *)

From S2P Require Import Prelude RustStd VmState Ipam EbpfNat Host HostDemo Storage Cgroup Tap FcApi DeviceTheorems Provision Resources ProvisionLogic.

(** The directories above the jail, which [create_dir_all] makes on the way to
    it and nothing removes. *)
Definition above_jail (o : Orchestrator) (config : VmConfig) (x : Resource) : Prop :=
  ∃ p, x = RPath p ∧ inside p (jail_dir_of o config) ∧ p ≠ jail_dir_of o config.

Section Provisioning.
Context `{HostEnv, ApiJson}.
Context (pool : rstr) (ipam0 : IpAm) (o : Orchestrator) (config : VmConfig).
Local Abbreviation P := (SM Prov OrchestratorError).
Local Abbreviation triple := (triple pool ipam0).
Local Abbreviation Inv := (Inv pool ipam0).
Local Abbreviation owned := (owned pool).
Local Abbreviation above := (above_jail o config).

(** How far provisioning has come, by the context's fields. *)
Definition stage (hip : bool) (st : VmState) (snap : option (rstr * N)) (cg : option VmCgroup)
    (jail : option rstr) (proc : option N) (s : Prov) : Prop :=
  Inv s ∧ (hip = false → cx_host_ip (pv_ctx s) = None) ∧ sm_state (pv_sm s) = st ∧
  cx_snapshot_name (pv_ctx s) = fst <$> snap ∧ cx_snapshot_internal_id (pv_ctx s) = snd <$> snap ∧
  cx_cgroup (pv_ctx s) = cg ∧ cx_jail_dir (pv_ctx s) = jail ∧ cx_process (pv_ctx s) = proc.

Lemma stage_logless hip st snap cg jail proc : logless pool ipam0 (stage hip st snap cg jail proc).
Proof. intros s log Hs. split; [exact Hs|apply Hs]. Qed.

Lemma stage_transition R hip st next snap cg jail proc :
  triple R R (stage hip st snap cg jail proc) (transition next) (λ _, R)
    (λ _, stage hip next snap cg jail proc).
Proof.
  apply triple_transition; [by intros s []|]. intros s (HI & Hh & _ & Hrest). split; [exact HI|]. done.
Qed.

Lemma stage_quiet {A} R hip st snap cg jail proc (m : SM Log rstr A) :
  only nothing m →
  triple R R (stage hip st snap cg jail proc) (host m) (λ _, R) (λ _, stage hip st snap cg jail proc).
Proof. apply triple_quiet, stage_logless. Qed.

(** Storage *)
Lemma stage_storage :
  triple above above (stage false ProvisioningStorage None None None None)
    (storage (create_snapshot 1 (vc_id config)))
    (λ r x, above x ∨ x = RThin pool (snd r) ∨ x = RDm (vc_id config))
    (λ _, stage false ProvisioningStorage None None None None).
Proof.
  intros base acc s r s' Hl (HI & Hhip & Hst & Hrest) HY Hrun. unfold storage, create_snapshot in Hrun.
  set (sto := ma_storage (pv_machine s)) in *.
  assert (pool_name sto = pool) as Hpool by apply HI. rewrite Hpool in Hrun.
  assert (∀ acc0 new, good pool above acc0 s →
    only_in (λ x, x = RThin pool (next_device_id sto) ∨ x = RDm (vc_id config)) new →
    ∀ x, held (acc0 ++ new) x → owned (pv_ctx s) x ∨ above x ∨ x = RThin pool (next_device_id sto) ∨
                                x = RDm (vc_id config)) as Hg.
  { intros acc0 new Hacc Ho x [Hx|Hx]%held_app.
    - destruct (Hacc x Hx) as [?|?]; auto.
    - right; right. by eapply (only_in_held _ _ _ Ho). }
  destruct (dm_snapshot_create pool _ _ 1 (pv_log s)) as [[path|e] log] eqn:Hd;
    destruct (only_snapshot _ _ _ _ _ _ _ Hd) as (new & -> & Ho); simplify_eq;
    exists (acc ++ new); (split; [cbn; by rewrite Hl, app_assoc|]).
  - split; [|exact (Hg acc new HY Ho)]. split; [|done]. destruct HI as [_ HI]. split; [reflexivity|exact HI].
  - split; [destruct HI as [_ HI]; split; [reflexivity|exact HI]|].
    intros x Hx. destruct (Hg acc new HY Ho x Hx) as [?|[?|[-> | ->]]]; [by left|by right; left|..];
      right; right; left; change (oe_state _) with (sm_state (pv_sm s)); by rewrite Hst.
Qed.

Lemma stage_set_snapshot hip st (r : rstr * N) :
  triple above (λ x, above x ∨ x = RThin pool (snd r) ∨ x = RDm (vc_id config)) (stage hip st None None None None)
    (update_ctx (cx_set_snapshot (Some (vc_id config)) (Some (snd r))))
    (λ _, above) (λ _, stage hip st (Some (vc_id config, snd r)) None None None).
Proof.
  apply triple_update.
  - by intros s (HI & Hh & Hst & Hn & Hi & Hc & Hj & Hp).
  - intros s x (HI & Hh & Hst & Hn & Hi & Hc & Hj & Hp) [Hx|[Hx|[-> | ->]]]; [|by right|left; cbn; by eauto..]. left.
    destruct x; cbn in *; rewrite ?Hn, ?Hi in Hx; cbn in Hx; naive_solver.
Qed.

(** The TAP device *)
Definition tap_name : rstr := lit "tap-" ++ vc_id config.
Definition with_tap (x : Resource) : Prop := above x ∨ x = RTap (ifr_name tap_name).
Definition with_bpf (x : Resource) : Prop := with_tap x ∨ x = RBpf.

Lemma traces_tap :
  traces (TapDevice_create tap_name) (λ r new,
    only_in (λ x, x = RTap (ifr_name tap_name)) new ∧ ∀ a, r = Ok a → a = tap_name).
Proof.
  intros log r log' Hrun. destruct (only_tap _ _ _ _ Hrun) as (new & -> & Ho).
  exists new. split_and!; [done|done|]. intros a ->. unfold TapDevice_create in Hrun.
  do 4 apply bind_ok in Hrun as (? & ? & _ & Hrun). by apply ret_ok in Hrun as [-> _].
Qed.

Lemma stage_tap snap :
  triple above above (stage false ConfiguringNetwork snap None None None)
    (host (TapDevice_create tap_name)) (λ _, with_tap)
    (λ a s, a = tap_name ∧ stage false ConfiguringNetwork snap None None None s).
Proof.
  eapply triple_host; [apply stage_logless|exact traces_tap|..].
  - intros s acc a new HC HY [Ho Ha]. split; [by auto|]. intros x [Hx|Hx]%held_app.
    + destruct (HY x Hx) as [?|?]; [by left|by right; left].
    + right; right. by eapply (only_in_held _ _ _ Ho).
  - intros s log a [-> HC]. split; [done|]. exact HC.
  - intros s acc e new HC HY [Ho _] x [Hx|Hx]%held_app.
    + destruct (HY x Hx) as [?|?]; [by left|by right; left].
    + apply (only_in_held _ _ _ Ho) in Hx as ->. right; right; left. destruct HC as (_ & _ & -> & _). done.
Qed.

(** The address *)
Lemma stage_ip R st snap cg jail proc {A} (k : Z → P A) Y' C' :
  (∀ ip, triple R R (stage true st snap cg jail proc) (k ip) Y' C') →
  triple R R (stage false st snap cg jail proc)
    (ip ← ipam_allocate; _ ← update_ctx (cx_set_host_ip (Some ip)); k ip) Y' C'.
Proof.
  intros Hk base acc s r s' Hl (HI & Hnone & Hst & Hrest) HY Hrun. specialize (Hnone eq_refl).
  destruct HI as [Hpool HI]. rewrite Hnone in HI.
  unfold mbind, SM_bind, ipam_allocate in Hrun. rewrite HI in Hrun.
  destruct (allocate_cases ipam0) as [(i & _ & Ha)|[_ Ha]]; rewrite Ha in Hrun.
  - eapply Hk in Hrun; [exact Hrun|exact Hl| |exact HY].
    split; [|done]. split; [exact Hpool|]. cbn. exact Ha.
  - simplify_eq. exists acc. split; [exact Hl|]. split.
    + split; [exact Hpool|]. cbn. by rewrite Hnone.
    + intros x Hx. destruct (HY x Hx); auto.
Qed.

(** The eBPF object: a failed load leaves nothing, or drops what it loaded. *)
Lemma traces_load_nat name ip :
  traces (load_nat_program name ip) (λ r new,
    only_in (λ x, x = RBpf) new ∧
    match r with
    | Ok _ => True
    | Err _ => only_in nothing new ∨
        ∃ n1 n2 e, new = n1 ++ n2 ∧ only_in nothing n2 ∧ e ∈ n2 ∧ settles e RBpf
    end).
Proof.
  intros log r log' Hrun. unfold load_nat_program, prefix_err, SM_map_err, mbind, SM_bind in Hrun.
  rewrite sys_run in Hrun. destruct (host_answer log SysBpfLoad) as [[]|e] eqn:Hload; cbn -[sys] in Hrun.
  - unfold attempt in Hrun. set (log1 := log ++ [ev SysBpfLoad (Ok tt)]) in *.
    destruct (configure_nat name ip log1) as [[[]|e] log2] eqn:Hc;
      destruct (only_configure_nat _ _ _ _ _ Hc) as (new & -> & Ho); subst log1;
      (assert (only_in (λ x, x = RBpf) ([ev SysBpfLoad (Ok tt)] ++ new)) as Hb;
       [apply only_in_app; [apply only_in_one; by intros x [_ ->]|by eapply only_in_mono; [|exact Ho]]|]).
    + injection Hrun as <- <-. exists ([ev SysBpfLoad (Ok tt)] ++ new). by rewrite app_assoc.
    + destruct (EbpfProgram_drop _) as [rd logd] eqn:Hd in Hrun.
      destruct (frees_bpf _ _ _ Hd) as (nd & -> & Hq & Hset).
      assert (r = Err e ∧ log' = ((log ++ [ev SysBpfLoad (Ok tt)]) ++ new) ++ nd) as [-> ->].
      { unfold EbpfProgram_drop, mbind, SM_bind, attempt in Hd. rewrite sys_run in Hd. cbn in Hd.
        injection Hd as <- Hd. injection Hrun as <- <-. done. }
      exists (([ev SysBpfLoad (Ok tt)] ++ new) ++ nd). split; [by rewrite !app_assoc|]. split.
      * apply only_in_app; [exact Hb|]. by eapply only_in_mono; [|exact Hq].
      * right. destruct (Hset RBpf eq_refl) as (e1 & ? & ?). by eexists _, nd, e1.
  - simplify_eq. eexists. split; [reflexivity|].
    split; [|left]; apply only_in_one; by intros x [? _].
Qed.

Lemma stage_load_nat ip snap :
  triple with_tap with_tap (stage true ConfiguringNetwork snap None None None)
    (host (load_nat_program tap_name ip)) (λ _, with_bpf)
    (λ _, stage true ConfiguringNetwork snap None None None).
Proof.
  eapply triple_host; [apply stage_logless|apply traces_load_nat|..].
  - intros s acc a new HC HY [Ho _]. split; [exact HC|]. intros x [Hx|Hx]%held_app.
    + destruct (HY x Hx) as [?|?]; [by left|by right; left].
    + right; right. by eapply (only_in_held _ _ _ Ho).
  - intros s log a HC. exact HC.
  - intros s acc e new HC HY [Ho Hr] x Hx.
    assert (held acc x ∨ stuck (acc ++ new) x) as [Hacc|?]; [|destruct (HY x Hacc); auto|auto].
    destruct Hr as [Hq|(n1 & n2 & e1 & -> & Hq & Hin & Hset)]; [left; by eapply held_app_only|].
    pose proof Hx as [?|Hn]%held_app; [by left|right]. apply (only_in_held _ _ _ Ho) in Hn as ->.
    rewrite app_assoc in *. by eapply held_settled.
Qed.

(** The cgroup *)
Lemma stage_cgroup snap :
  triple with_bpf with_bpf (stage true ConfiguringNetwork snap None None None)
    (provision_cgroup o config) (λ _, with_bpf)
    (λ _ s, ∃ cg, stage true InitializingCgroup snap (Some cg) None None s).
Proof.
  unfold provision_cgroup. eapply triple_bind; [apply stage_transition|]. intros u; cbv beta; clear u.
  eapply triple_bind with (Y' := λ cg x, with_bpf x ∨ x = RPath (cg_path cg))
    (C' := λ _, stage true InitializingCgroup snap None None None).
  { eapply triple_host; [apply stage_logless|apply traces_create_cgroup|..].
    - intros s acc cg new HC HY Ho. split; [exact HC|]. intros x [Hx|Hx]%held_app.
      + destruct (HY x Hx) as [?|?]; auto.
      + right; right. by eapply (only_in_held _ _ _ Ho).
    - intros s log ? HC. exact HC.
    - intros s acc e new HC HY Ho x Hx. apply held_app_only in Hx; [|exact Ho].
      destruct (HY x Hx) as [?|?]; auto. }
  intros cg. eapply triple_bind with (Y' := λ _, with_bpf)
    (C' := λ _, stage true InitializingCgroup snap (Some cg) None None).
  { apply triple_update.
    - by intros s (HI & Hh & Hst & Hn & Hi & Hc & Hj & Hp).
    - intros s x (HI & Hh & Hst & Hn & Hi & Hc & Hj & Hp) [Hx|[Hx| ->]]; [|by auto|left; cbn; eauto].
      left. destruct x; cbn in *; rewrite ?Hc in Hx; naive_solver. }
  intros u; cbv beta; clear u. eapply triple_bind; [apply stage_quiet, only_ret|]. intros cpus; cbv beta.
  eapply triple_bind; [apply stage_quiet, only_get_mems|]. intros mems; cbv beta.
  eapply triple_bind; [apply stage_quiet, only_set_cpuset|]. intros u; cbv beta; clear u.
  eapply triple_bind; [apply stage_quiet, only_set_memory|]. intros u; cbv beta; clear u.
  intros base acc s r s' Hl HC HY [= <- <-]. eauto 6.
Qed.

(** The jail and the VMM *)
Lemma jail_dir_root : ∃ b, jail_dir_of o config = b ++ lit "root".
Proof.
  unfold jail_dir_of. generalize (join (join (or_chroot_base_dir o) (lit "firecracker")) (vc_id config)).
  intros d. unfold join. change (starts_with (lit "root") (lit "/")) with false. cbv iota.
  destruct (bool_decide (d = []) || ends_with d (lit "/")); [by eexists|].
  exists (d ++ lit "/"). by rewrite <- app_assoc.
Qed.

Lemma stage_inside {A} R hip st snap cg d proc (m : SM Log rstr A) :
  only (λ x, (∃ p, x = RPath p ∧ inside d p) ∨ R x) m →
  triple R R (stage hip st snap cg (Some d) proc) (host m) (λ _, R)
    (λ _, stage hip st snap cg (Some d) proc).
Proof.
  intros Ho. eapply triple_host_only; [apply stage_logless|exact Ho|].
  intros s x (_ & _ & _ & _ & _ & _ & Hj & _) [(p & -> & Hp)|?]; [|by right]. left; right. eauto.
Qed.

(** Below the jail or above it. *)
Lemma beside_jail x :
  (∃ p, x = RPath p ∧ (inside (jail_dir_of o config) p ∨ inside p (jail_dir_of o config))) →
  (∃ p, x = RPath p ∧ inside (jail_dir_of o config) p) ∨ with_bpf x.
Proof.
  intros (p & -> & [Hp|Hp]); [left; eauto|]. destruct (decide (p = jail_dir_of o config)) as [->|Hne].
  - left. eexists. split; [done|by left].
  - right; left; left. by exists p.
Qed.

Lemma stage_launch snap cg rootfs limits :
  triple with_bpf with_bpf (stage true InitializingCgroup snap (Some cg) None None)
    (launch_vmm o config rootfs limits) (λ _, with_bpf)
    (λ _ s, ∃ pid, stage true LaunchingVMM snap (Some cg) (Some (jail_dir_of o config)) (Some pid) s).
Proof.
  unfold launch_vmm. eapply triple_bind; [apply stage_transition|]. intros u; cbv beta; clear u.
  eapply triple_bind with (Y' := λ _, with_bpf)
    (C' := λ _, stage true LaunchingVMM snap (Some cg) (Some (jail_dir_of o config)) None).
  { apply triple_update.
    - by intros s (HI & Hh & Hst & Hn & Hi & Hc & Hj & Hp).
    - intros s x (HI & Hh & Hst & Hn & Hi & Hc & Hj & Hp) [Hx|Hx]; [|by auto].
      left. destruct x; cbn in *; rewrite ?Hj in Hx; naive_solver. }
  intros u; cbv beta; clear u. eapply triple_bind.
  { apply stage_inside. eapply only_mono; [apply beside_jail|].
    destruct jail_dir_root as [b ->]. apply only_setup_jail. }
  intros u; cbv beta; clear u. eapply triple_bind with (Y' := λ pid x, with_bpf x ∨ x = RProc pid)
    (C' := λ _, stage true LaunchingVMM snap (Some cg) (Some (jail_dir_of o config)) None).
  { eapply triple_host with (T := λ r new, new = [ev (SysSpawn _ _ _) r]); [apply stage_logless| |..].
    - by refine (traces_sys _ _ _).
    - intros s acc pid new HC HY ->. split; [exact HC|]. intros x [Hx|Hx]%held_app.
      + destruct (HY x Hx) as [?|?]; auto.
      + right; right. refine (only_in_held (λ x, x = RProc pid) _ _ _ Hx).
        apply only_in_one. by intros y (? & [= <-] & ->).
    - intros s log ? HC. exact HC.
    - intros s acc e new HC HY -> x Hx. apply held_app_only in Hx.
      + destruct (HY x Hx) as [?|?]; auto.
      + apply only_in_one. by intros y (? & [=] & _). }
  intros pid. eapply triple_update.
  - intros s (HI & Hh & Hst & Hn & Hi & Hc & Hj & Hp). by exists pid.
  - intros s x (HI & Hh & Hst & Hn & Hi & Hc & Hj & Hp) [Hx|[Hx| ->]]; [|by auto|by left].
    left. destruct x; cbn in *; rewrite ?Hp in Hx; naive_solver.
Qed.

(** Configuration and boot *)
Lemma stage_configure snap cg pid name :
  triple with_bpf with_bpf
    (stage true LaunchingVMM snap (Some cg) (Some (jail_dir_of o config)) (Some pid))
    (configure_vmm o config name) (λ _, with_bpf)
    (λ _, stage true Running snap (Some cg) (Some (jail_dir_of o config)) (Some pid)).
Proof.
  destruct jail_dir_root as [b Hb].
  assert (∀ rel, starts_with rel (lit "/") = false →
    inside (jail_dir_of o config) (join (jail_dir_of o config) rel)) as Hin.
  { intros rel Hrel. right. exists rel. rewrite Hb, join_below by done. by rewrite <- app_assoc. }
  unfold configure_vmm. eapply triple_bind; [apply stage_transition|].
  intros u; cbv beta; clear u. eapply triple_bind; [apply stage_quiet, only_wait|].
  do 3 (intros u; cbv beta; clear u; eapply triple_bind; [apply stage_quiet, only_put|]).
  intros u; cbv beta; clear u. eapply triple_bind.
  { apply stage_inside. refine (only_sys _ (SysCreateDirAll _) _).
    intros r x (q & Hq & ->). apply beside_jail. eexists. split; [done|].
    apply (inside_split _ _ (lit "metadata-staging")). rewrite Hb in *. rewrite join_below in Hq by done.
    by rewrite <- app_assoc. }
  intros u; cbv beta; clear u. eapply triple_bind.
  { apply stage_inside. eapply only_mono; [|apply only_metadata]. intros x ->.
    left. eexists. split; [done|]. by apply Hin. }
  intros u; cbv beta; clear u. eapply triple_bind; [apply stage_quiet, only_lift|].
  intros c; cbv beta. eapply triple_bind; [apply stage_quiet, (only_sys _ (SysChown c _ _)); by intros ? ? []|].
  do 3 (intros u; cbv beta; clear u; eapply triple_bind; [apply stage_quiet, only_put|]).
  intros u; cbv beta; clear u. apply stage_transition.
Qed.

Lemma stage_finish {A} snap cg jail proc (k : ProvisioningContext → VmCgroup → A) (e : P A) :
  triple with_bpf with_bpf (stage true Running snap (Some cg) jail proc)
    (ctx ← get_ctx;
     match cx_cgroup ctx with
     | Some cgroup =>
         _ ← update_ctx (λ c, cx_set_cgroup None (cx_set_process None c));
         mret (k ctx cgroup)
     | None => e
     end) (λ _ _, True) (λ _ _, True).
Proof.
  intros base acc s r s' Hl (_ & _ & _ & _ & _ & Hcg & _) HY Hrun.
  unfold mbind at 1, SM_bind at 1, get_ctx in Hrun. rewrite Hcg in Hrun.
  injection Hrun as <- <-. exists acc. split; [exact Hl|]. split; [done|]. intros x _. by right.
Qed.

Lemma provision_triple :
  triple above above (stage false Pending None None None None) (provision_vm o config)
    (λ _ _, True) (λ _ _, True).
Proof.
  unfold provision_vm. eapply triple_bind; [apply stage_transition|]. intros u; cbv beta; clear u.
  eapply triple_bind; [apply stage_storage|]. intros [rootfs id]. cbv beta.
  eapply triple_bind; [apply (stage_set_snapshot false ProvisioningStorage (rootfs, id))|].
  intros u; cbv beta; clear u. eapply triple_bind; [apply stage_transition|].
  intros u; cbv beta; clear u. eapply triple_bind; [apply stage_tap|]. intros tap. cbv beta.
  intros base acc s r s' Hl [-> Hs] HY. revert base acc s r s' Hl Hs HY.
  apply (triple_scoped pool ipam0 above (RTap (ifr_name tap_name))); [apply frees_tap|].
  apply stage_ip. intros ip. eapply triple_bind; [apply stage_load_nat|]. intros u; cbv beta; clear u.
  apply (triple_scoped pool ipam0 with_tap RBpf); [apply frees_bpf|].
  eapply triple_bind; [apply stage_cgroup|]. intros limits. cbv beta.
  intros base acc s r s' Hl [cg Hs] HY. revert base acc s r s' Hl Hs HY.
  eapply triple_bind; [apply stage_launch|]. intros u; cbv beta; clear u.
  intros base acc s r s' Hl [pid Hs] HY. revert base acc s r s' Hl Hs HY.
  eapply triple_bind; [apply stage_configure|]. intros u; cbv beta; clear u.
  apply stage_finish.
Qed.
End Provisioning.

Section Claims.
Context `{HostEnv, ApiJson}.

(** A failed launch: the state [cleanup] starts from. *)
Lemma launch_err_inv (o : Orchestrator) config ma e ma' :
  launch_vm o config ma = (Err e, ma') →
  let pool := pool_name (ma_storage ma) in
  ∃ s acc, pv_log s = ma_log ma ++ acc ∧ Inv pool (ma_ipam ma) s ∧
    good pool (λ x, above_jail o config x ∨ leak (oe_state e) x ∨ stuck acc x) acc s ∧ ma' = pv_machine (snd (cleanup s)).
Proof.
  intros Hrun pool. unfold launch_vm in Hrun.
  destruct (provision_vm o config _) as [[vm|e1] s] eqn:Hp; simplify_eq.
  eapply (provision_triple pool (ma_ipam ma) o config (ma_log ma) []) in Hp
    as (acc & Hl & HI & Hg); [by eauto 8|..].
  - by rewrite app_nil_r.
  - by split_and!.
  - intros x (l1 & ? & ? & Heq & _). by destruct l1.
Qed.


(** [C15] A failed launch returns its address: when the addresses fit in a
    [u32] and no other launch changes the address manager meanwhile, it is
    exactly what it was before the launch, wherever the launch failed and
    whatever other clean-up calls fail. *)
Theorem launch_vm_restores_ipam (o : Orchestrator) config ma e ma' :
  (0 ≤ ipam_bits (ma_ipam ma) < 2 ^ 64)%Z → (0 ≤ ipam_base_ip (ma_ipam ma))%Z →
  (ipam_base_ip (ma_ipam ma) + 64 ≤ 2 ^ 32)%Z →
  launch_vm o config ma = (Err e, ma') → ma_ipam ma' = ma_ipam ma.
Proof.
  intros Hw Hb0 Hb1 (s & acc & _ & [_ HI] & _ & ->)%launch_err_inv.
  destruct (cleanup_spec s) as (_ & Hip & _). rewrite Hip.
  destruct (cx_host_ip (pv_ctx s)) as [ip|]; [|done]. by apply release_undoes_allocate.
Qed.
End Claims.

(** ** Concrete launches *)

Module LaunchDemo.
Definition orch : Orchestrator :=
  {| or_cgroup_root := lit "/sys/fs/cgroup/orchestrator"; or_jailer_path := lit "/bin/jailer";
     or_firecracker_path := lit "/bin/firecracker"; or_kernel_path := lit "/vmlinux";
     or_chroot_base_dir := lit "/srv/jailer"; or_jailer_uid := 1000; or_jailer_gid := 1000 |}%N.
Definition config : VmConfig :=
  {| vc_id := lit "vm-test-001"; vc_session_id := 1; vc_cpu_count := 1; vc_mem_size_mib := 256;
     vc_vcpu_cores := lit "0"; vc_numa_node := lit "0"; vc_base_image := [] |}%N.
Definition start : Machine :=
  {| ma_log := []; ma_storage := StorageManager_new (lit "thin-pool-0");
     ma_ipam := IpAm_new 0x0A000001 |}.
(** [launch_vm] on a host where the selected calls fail *)
Abbreviation launch fails := (launch_vm (H := host_failing fails) (H0 := empty_json) orch config start).

Definition no_spawn (c : Sys) : bool := match c with SysSpawn _ _ _ => true | _ => false end.
Definition no_socket (c : Sys) : bool := match c with SysSocket => true | _ => false end.
Definition no_dm_create (c : Sys) : bool :=
  match c with SysStatus _ args => bool_decide (args = dm_create_args (lit "vm-test-001")) | _ => false end.

Lemma no_spawn_fails :
  launch no_spawn =
  (Err {| oe_session_id := 1; oe_state := LaunchingVMM; oe_message := lit "fault" |},
   snd (launch no_spawn)).
Proof. apply run_eq. vm_compute. reflexivity. Qed.
End LaunchDemo.


Lemma launch_vm_restores_ipam_witness :
  ma_ipam (snd (LaunchDemo.launch LaunchDemo.no_spawn)) = IpAm_new 0x0A000001.
Proof.
  apply (launch_vm_restores_ipam (H := host_failing LaunchDemo.no_spawn) (H0 := empty_json)
    LaunchDemo.orch LaunchDemo.config LaunchDemo.start
    {| oe_session_id := 1; oe_state := LaunchingVMM; oe_message := lit "fault" |}).
  - cbn. lia.
  - cbn. lia.
  - cbn. lia.
  - exact LaunchDemo.no_spawn_fails.
Defined.

(** A snapshot that fails half way is leaked: when [dmsetup create] fails
    after the snapshot message succeeded, the launch reports an error in the
    storage stage and the thin-pool entry stays, the context never having
    learned of it. *)
Theorem failed_snapshot_leaks :
  let run := LaunchDemo.launch LaunchDemo.no_dm_create in
  fst run = Err {| oe_session_id := 1; oe_state := ProvisioningStorage; oe_message := lit "fault" |} ∧
  held (ma_log (snd run)) (RThin (lit "thin-pool-0") 100).
Proof.
  split; [vm_compute; reflexivity|].
  eexists [], _, [_]. split; [vm_compute; reflexivity|]. split.
  - split; [reflexivity|]. split; [reflexivity|]. left.
    exists (lit "thin-pool-0"), 100%N, 1%N. split; [vm_compute; reflexivity|reflexivity].
  - intros e' ->%list_elem_of_singleton. by intros (? & _).
Qed.

(** A TAP device that cannot be brought up is leaked: it was already made
    persistent, and no value with a destructor exists yet. *)
Theorem failed_tap_leaks :
  let run := LaunchDemo.launch LaunchDemo.no_socket in
  fst run = Err {| oe_session_id := 1; oe_state := ConfiguringNetwork; oe_message := lit "fault" |} ∧
  held (ma_log (snd run)) (RTap (as_bytes (lit "tap-vm-test-001"))).
Proof.
  split; [vm_compute; reflexivity|].
  eexists [_; _; _; _; _; _], _, [_; _; _]. split; [vm_compute; reflexivity|]. split.
  - split; reflexivity.
  - intros e'. rewrite !elem_of_cons, elem_of_nil. intros [->|[->|[->|[]]]]; [by intros []|..];
      by intros (_ & _ & [(? & ? & _ & [=])|(? & _ & [=])]).
Qed.

(** The directories above the jail stay: [cleanup] removes
    [<chroot>/firecracker/<id>/root], and [<chroot>/firecracker/<id>], which the
    launch made on the way, is left. *)
Theorem failed_launch_leaves_directory :
  let run := LaunchDemo.launch LaunchDemo.no_spawn in
  fst run = Err {| oe_session_id := 1; oe_state := LaunchingVMM; oe_message := lit "fault" |} ∧
  held (ma_log (snd run)) (RPath (lit "/srv/jailer/firecracker/vm-test-001")).
Proof.
  split; [vm_compute; reflexivity|].
  pose (is_mkdir := λ e : Event, match projT1 e with SysCreateDirAll _ => true | _ => false end).
  set (log := ma_log (snd (LaunchDemo.launch LaunchDemo.no_spawn))).
  destruct (list_find (λ e, is_mkdir e = true) log) as [[i e]|] eqn:Hf; [|vm_compute in Hf; discriminate Hf].
  exists (take i log), e, (drop (S i) log).
  split; [symmetry; apply take_drop_middle; by apply list_find_Some in Hf as [? _]|].
  vm_compute in Hf. injection Hf as <- <-. split.
  - exists (lit "/srv/jailer/firecracker/vm-test-001"). split; [right; by exists (lit "root/run")|done].
  - intros e' He'. vm_compute in He'.
    repeat (apply elem_of_cons in He' as [->|He']; [first [by intros []|by intros (_ & p & [Hp|[rel Hp]] & [= <-])
      |by intros (_ & _ & [(? & ? & _ & [=])|(? & _ & [=])])|by intros [_ [=]]]|]).
    by apply elem_of_nil in He'.
Qed.
