(* ===== verification/IsolationTheorems.v ===== *)
(** * control-plane: isolation comes first

    The VMM process is only started once everything that confines it is in
    place, and still is.  [stands log e]: the event [e] is in the log and
    nothing after it undid it; [records m e]: whenever [m] succeeds, [e] stands
    in the calls it made; [chain] threads such facts, and the absence of an
    earlier start, through [provision_vm]. *)

From S2P Require Import Prelude RustStd VmState Ipam EbpfNat Host HostDemo Storage Cgroup Tap FcApi DeviceTheorems Provision Resources ProvisionLogic ProvisionTheorems.

(** ** What stays in force *)

(** The later call takes back, or replaces, what the earlier one did. *)
Definition undoes (before after : Event) : Prop :=
  match projT1 before, projT1 after with
  | SysTunSetPersist _ _, SysTunSetPersist _ _ => True
  | (SysBpfLoad | SysBpfSetConfig _ | SysBpfAttach _ _ _), SysBpfDrop => True
  | SysBpfSetConfig _, SysBpfSetConfig _ => True
  | SysBpfAttach _ _ _, SysTunSetPersist _ _ => True
  | SysWrite p _, SysWrite q _ => p = q
  | SysWrite p _, SysRemoveDir d => inside d p
  | SysChown p _ _, SysChown q _ _ => p = q
  | SysChown p _ _, SysRemoveDirAll d => inside d p
  | _, _ => False
  end.

Definition stands (log : Log) (e : Event) : Prop :=
  ∃ l1 l2, log = l1 ++ e :: l2 ∧ ∀ e', e' ∈ l2 → ¬ undoes e e'.

Definition standing (L : list Event) (log : Log) : Prop := ∀ e, e ∈ L → stands log e.

(** The event undoes nothing of [L]. *)
Definition harmless (L : list Event) (e' : Event) : Prop := Forall (λ e, ¬ undoes e e') L.
Definition no_spawn (e : Event) : Prop := ∀ prog args sig, projT1 e ≠ SysSpawn prog args sig.
Definition quiet (L : list Event) (e : Event) : Prop := no_spawn e ∧ harmless L e.

Lemma stands_app l1 l2 e : stands l1 e → Forall (λ e', ¬ undoes e e') l2 → stands (l1 ++ l2) e.
Proof.
  intros (a & b & -> & Hb) Hl. exists a, (b ++ l2). rewrite <- app_assoc. split; [done|].
  intros e' [?|?]%elem_of_app; [auto|]. by apply (proj1 (Forall_forall _ _) Hl).
Qed.

Lemma stands_suffix l1 l2 e : stands l2 e → stands (l1 ++ l2) e.
Proof. intros (a & b & -> & Hb). exists (l1 ++ a), b. by rewrite <- app_assoc. Qed.

Lemma standing_app L log new : standing L log → Forall (harmless L) new → standing L (log ++ new).
Proof.
  intros HL Hn e He. apply stands_app; [by apply HL|]. eapply Forall_impl; [exact Hn|].
  intros e' Hq. exact (proj1 (Forall_forall _ _) Hq e He).
Qed.

Lemma standing_union L L' log : standing L log → standing L' log → standing (L ++ L') log.
Proof. intros HL HL' e [?|?]%elem_of_app; auto. Qed.

Section Records.
Context `{HostEnv, ApiJson}.

Definition records {A} (m : SM Log rstr A) (e : Event) : Prop :=
  traces m (λ r new, ∀ a, r = Ok a → stands new e).
Definition anything : Event → Prop := λ _, True.

Lemma records_sys c e : (∀ a, e = ev c (Ok a)) → records (sys c) e.
Proof.
  intros He. apply traces_sys. intros r a ->. rewrite (He a). exists [], []. split; [done|]. by intros ? []%elem_of_nil.
Qed.

Lemma records_l {A B} (m : SM Log rstr A) (f : A → SM Log rstr B) e :
  records m e → (∀ a, every (λ e', ¬ undoes e e') (f a)) → records (m ≫= f) e.
Proof.
  intros Hm Hf. apply traces_bind. eapply traces_mono; [|exact Hm].
  intros [a|msg] new Hnew; [|done]. eapply traces_mono; [|apply Hf].
  intros r new' Hq b ->. apply stands_app; eauto.
Qed.

Lemma records_r {A B} (m : SM Log rstr A) (f : A → SM Log rstr B) e :
  every anything m → (∀ a, records (f a) e) → records (m ≫= f) e.
Proof.
  intros Hm Hf. apply traces_bind. eapply traces_mono; [|exact Hm].
  intros [a|msg] new _; [|done]. eapply traces_mono; [|apply Hf].
  intros r new' Hnew' b ->. apply stands_suffix. eauto.
Qed.

Lemma records_lift {A B} (x : result rstr A) (f : A → SM Log rstr B) e :
  (∀ a, x = Ok a → records (f a) e) → records (lift x ≫= f) e.
Proof. intros Hf. apply traces_bind, traces_lift. destruct x as [a|msg]; [by apply Hf|done]. Qed.

Lemma records_map_err {A} f (m : SM Log rstr A) e : records m e → records (SM_map_err f m) e.
Proof.
  intros Hm log r log' Hrun. unfold SM_map_err in Hrun. destruct (m log) as [r1 log1] eqn:Hm1.
  destruct (Hm _ _ _ Hm1) as (new & -> & Hnew). injection Hrun as <- <-. exists new.
  split; [done|]. destruct r1; naive_solver.
Qed.
End Records.

Ltac every_tac := repeat every_step; try (by intros); try (by intros ? []).
Ltac rec_here := apply records_l; [|intros ?; every_tac].
Ltac rec_next := apply records_r; [every_tac|intros ?].
Ltac rec_sys := first [apply records_map_err|idtac];
  match goal with |- records (sys ?c) _ => refine (records_sys c _ _); by intros [] end.

Lemma join_inj d x y :
  starts_with x (lit "/") = false → starts_with y (lit "/") = false → join d x = join d y → x = y.
Proof.
  intros Hx Hy. unfold join. rewrite Hx, Hy. destruct (_ || _); intros Heq.
  - by apply app_inv_head in Heq.
  - by apply app_inv_head, app_inv_head in Heq.
Qed.

Section Facts.
Context `{HostEnv, ApiJson}.

Definition cpu_limits (cg cpus mems : rstr) : list Event :=
  [ev (SysWrite (join cg (lit "cpuset.cpus")) cpus) (Ok tt);
   ev (SysWrite (join cg (lit "cpuset.mems")) mems) (Ok tt)].
Definition mem_limits (cg : rstr) (n : N) : list Event :=
  [ev (SysWrite (join cg (lit "memory.max")) (dec n)) (Ok tt);
   ev (SysWrite (join cg (lit "memory.swap.max")) (lit "0")) (Ok tt)].

Lemma set_cpuset_records cg cpus mems e :
  e ∈ cpu_limits (cg_path cg) cpus mems → records (set_cpuset cg cpus mems) e.
Proof.
  unfold set_cpuset, cpu_limits. rewrite !elem_of_cons. intros [->|[->|[]%elem_of_nil]].
  - rec_here; [rec_sys|]. intros r Heq%join_inj; done.
  - rec_next. rec_sys.
Qed.

Lemma set_memory_records cg n e : e ∈ mem_limits (cg_path cg) n → records (set_memory_limit cg n) e.
Proof.
  unfold set_memory_limit, mem_limits. rewrite !elem_of_cons. intros [->|[->|[]%elem_of_nil]].
  - rec_here; [rec_sys|]. intros r Heq%join_inj; done.
  - rec_next. rec_sys.
Qed.

Lemma tap_records name :
  records (TapDevice_create name) (ev (SysTunSetPersist (ifr_name name) true) (Ok tt)).
Proof. unfold TapDevice_create, set_interface_up. do 2 rec_next. rec_here. rec_sys. Qed.

Definition filters (name : rstr) (ip : Z) : list Event :=
  [ev (SysBpfSetConfig (nat_config ip)) (Ok tt);
   ev (SysBpfAttach (lit "tc_egress") name TcEgress) (Ok tt);
   ev (SysBpfAttach (lit "tc_ingress") name TcIngress) (Ok tt)].

Lemma configure_nat_records name ip e : e ∈ filters name ip → records (configure_nat name ip) e.
Proof.
  unfold configure_nat, attach_program, prefix_err, filters. rewrite !elem_of_cons.
  intros [->|[->|[->|[]%elem_of_nil]]].
  - do 2 rec_next. rec_here. rec_sys.
  - do 4 rec_next. rec_here. do 3 rec_next. rec_sys.
  - do 5 rec_next. do 3 rec_next. rec_sys.
Qed.

Lemma load_nat_records name ip e :
  records (configure_nat name ip) e → records (load_nat_program name ip) e.
Proof.
  intros Hc. unfold load_nat_program, prefix_err.
  apply records_r; [every_tac|intros ?]. intros log r log' Hrun.
  unfold mbind, SM_bind, attempt in Hrun.
  destruct (configure_nat name ip log) as [[[]|msg] log1] eqn:Hcf;
    destruct (Hc _ _ _ Hcf) as (new & -> & Hnew).
  - injection Hrun as <- <-. exists new. split; [done|]. intros ? _. by apply (Hnew tt).
  - unfold EbpfProgram_drop, throw, mbind, SM_bind, attempt in Hrun. rewrite sys_run in Hrun.
    injection Hrun as <- <-. eexists. rewrite <- app_assoc. split; [reflexivity|]. done.
Qed.

(** The last step of the jail: the rootfs node handed to the VMM's user. *)
Lemma setup_jail_records o jail rootfs :
  records (setup_jail o jail rootfs)
    (ev (SysChown (join jail (lit "dev/rootfs")) (or_jailer_uid o) (or_jailer_gid o)) (Ok tt)).
Proof.
  unfold setup_jail, path_exists. do 7 rec_next.
  apply records_lift; intros c ->%cstring_ok. rec_next. rec_sys.
Qed.

(** What a successful call returns. *)
Definition returns {A} (m : SM Log rstr A) (V : A → Prop) : Prop :=
  ∀ log a log', m log = (Ok a, log') → V a.

Lemma create_cgroup_returns root id :
  returns (create_vm_cgroup root id) (λ cg, cg_path cg = join root (lit "vm-" ++ id)).
Proof.
  intros log cg log' Hrun. unfold create_vm_cgroup in Hrun.
  do 2 apply bind_ok in Hrun as (? & ? & _ & Hrun). by apply ret_ok in Hrun as [-> _].
Qed.

Lemma get_mems_returns root node : returns (get_mems_string root node) (λ m, m = lit "0" ∨ m = node).
Proof.
  intros log m log' Hrun. unfold get_mems_string in Hrun.
  do 2 apply bind_ok in Hrun as (? & ? & _ & Hrun). case_match; apply ret_ok in Hrun as [-> _]; auto.
Qed.
End Facts.

(** ** The order of a launch *)

(** Two consecutive arguments. *)
Definition passes (args : list rstr) (flag value : rstr) : Prop :=
  ∃ a b, args = a ++ [flag; value] ++ b.

(** The calls that confine the VMM of [config]: its interface, the NAT
    configuration and both packet filters, the limits of its cgroup, and the
    jail. *)
Definition confinement (o : Orchestrator) (config : VmConfig) (ip : Z) (mems : rstr) : list Event :=
  let tap := lit "tap-" ++ vc_id config in
  let cg := join (or_cgroup_root o) (lit "vm-" ++ vc_id config) in
  [ev (SysTunSetPersist (ifr_name tap) true) (Ok tt)] ++ filters tap ip ++
  cpu_limits cg (vc_vcpu_cores config) mems ++ mem_limits cg (mem_bytes (vc_mem_size_mib config)) ++
  [ev (SysChown (join (jail_dir_of o config) (lit "dev/rootfs")) (or_jailer_uid o) (or_jailer_gid o)) (Ok tt)].

(** The start of a process after [pre], given the address manager before the
    launch: it is the jailer, which dies with the orchestrator and is told
    the limits, the user and the jail; and the calls of [confinement] stand,
    for the address that was allocated. *)
Definition isolated (o : Orchestrator) (config : VmConfig) (ipam : IpAm) (pre : Log)
    (prog : rstr) (args : list rstr) (sig : option N) : Prop :=
  prog = or_jailer_path o ∧ sig = Some SIGKILL ∧
  ∃ ip mems, (∃ m', allocate ipam = (m', Returned (Ok ip))) ∧
    (mems = lit "0" ∨ mems = vc_numa_node config) ∧
    standing (confinement o config ip mems) pre ∧
    passes args (lit "--cgroup") (lit "cpuset.cpus=" ++ vc_vcpu_cores config) ∧
    passes args (lit "--cgroup") (lit "cpuset.mems=" ++ mems) ∧
    passes args (lit "--cgroup") (lit "memory.max=" ++ dec (mem_bytes (vc_mem_size_mib config))) ∧
    passes args (lit "--uid") (dec (or_jailer_uid o)) ∧
    passes args (lit "--gid") (dec (or_jailer_gid o)) ∧
    passes args (lit "--id") (vc_id config) ∧
    passes args (lit "--chroot-base-dir") (or_chroot_base_dir o).

Section Order.
Context `{HostEnv, ApiJson} (o : Orchestrator) (config : VmConfig) (ipam0 : IpAm).
Local Abbreviation P := (SM Prov OrchestratorError).
Local Abbreviation ipam s := (ma_ipam (pv_machine s)).
Local Abbreviation isolated := (isolated o config ipam0).

(** Every process start in the log comes after the isolation. *)
Definition safe (acc : Log) : Prop :=
  ∀ pre prog args sig r post, acc = pre ++ ev (SysSpawn prog args sig) r :: post → isolated pre prog args sig.

Lemma safe_app acc new : safe acc → Forall no_spawn new → safe (acc ++ new).
Proof.
  intros Hs Ho pre prog args sig r post Heq.
  assert (ev (SysSpawn prog args sig) r ∉ new) as Hn.
  { intros Hin. by apply (proj1 (Forall_forall _ _) Ho _ Hin prog args sig). }
  apply app_eq_inv in Heq as [(k & -> & Heq)|(k & -> & ->)].
  - destruct k as [|e' k]; cbn in Heq; [subst; destruct Hn; left|].
    injection Heq as <- ->. by eapply (Hs pre _ _ _ _ k).
  - destruct Hn. apply elem_of_app. right. left.
Qed.

(** [chain F m F']: [m] keeps the log safe and, from facts [F] about the calls
    made so far and the address manager, establishes [F'] when it succeeds. *)
Definition chain {A} (F : Log → IpAm → Prop) (m : P A) (F' : A → Log → IpAm → Prop) : Prop :=
  ∀ base acc s r s', pv_log s = base ++ acc → safe acc → F acc (ipam s) → m s = (r, s') →
  ∃ acc', pv_log s' = base ++ acc' ∧ safe acc' ∧ ∀ a, r = Ok a → F' a acc' (ipam s').

Lemma chain_bind {A B} F (m : P A) (f : A → P B) F' F'' :
  chain F m F' → (∀ a, chain (F' a) (f a) F'') → chain F (m ≫= f) F''.
Proof.
  intros Hm Hf base acc s r s' Hl Hs HF Hrun. unfold mbind, SM_bind in Hrun.
  destruct (m s) as [[a|e] s1] eqn:Hm1;
    destruct (Hm _ _ _ _ _ Hl Hs HF Hm1) as (acc1 & Hl1 & Hs1 & HF1).
  - eapply Hf; eauto.
  - simplify_eq. exists acc1. split_and!; [done|done|]. by intros a [=].
Qed.

(** A fact about a value, known from here on. *)
Lemma chain_pure {A} (V : Prop) F (m : P A) F' : (V → chain F m F') → chain (λ acc i, V ∧ F acc i) m F'.
Proof. intros Hm base acc s r s' Hl Hs [HV HF]. exact (Hm HV base acc s r s' Hl Hs HF). Qed.

Lemma chain_mono {A} F (m : P A) (F1 F2 : A → Log → IpAm → Prop) :
  (∀ a acc i, F1 a acc i → F2 a acc i) → chain F m F1 → chain F m F2.
Proof.
  intros HF Hm base acc s r s' Hl Hs H1 Hrun.
  destruct (Hm _ _ _ _ _ Hl Hs H1 Hrun) as (acc' & ? & ? & ?). eauto 8.
Qed.

(** A step that makes no call. *)
Lemma chain_silent {A} F (m : P A) :
  (∀ s r s', m s = (r, s') → pv_log s' = pv_log s ∧ ipam s' = ipam s) → chain F m (λ _, F).
Proof.
  intros Hm base acc s r s' Hl Hs HF Hrun. apply Hm in Hrun as [Hrun Hi]. exists acc.
  by rewrite Hrun, Hi.
Qed.

Lemma chain_ret {A} F (a : A) : chain F (mret a) (λ b acc i, b = a ∧ F acc i).
Proof. intros base acc s r s' Hl Hs HF [= <- <-]. exists acc. split_and!; [done..|]. by intros b [= <-]. Qed.

(** The calls of [L] stand, and the address manager is as [I] says. *)
Definition facts (L : list Event) (I : IpAm → Prop) (acc : Log) (i : IpAm) : Prop := standing L acc ∧ I i.

Lemma chain_host {A} L L' I (m : SM Log rstr A) V :
  every (quiet L) m → (∀ e, e ∈ L' → records m e) → returns m V →
  chain (facts L I) (host m) (λ a acc i, V a ∧ facts (L ++ L') I acc i).
Proof.
  intros Hm HL HV base acc s r s' Hl Hs [H1 HI] Hrun. unfold host in Hrun.
  destruct (m (pv_log s)) as [r1 log1] eqn:Hm1. destruct (Hm _ _ _ Hm1) as (new & -> & Ho).
  exists (acc ++ new).
  assert (pv_log s' = (pv_log s ++ new) ∧ ipam s' = ipam s) as [-> ->] by (by destruct r1; simplify_eq).
  split; [by rewrite Hl, app_assoc|].
  split; [apply safe_app; [done|]; eapply Forall_impl; [exact Ho|]; by intros e []|].
  intros a ->. assert (r1 = Ok a) as -> by (by destruct r1; simplify_eq).
  split; [by eapply HV|]. split; [|done]. apply standing_union.
  - apply standing_app; [done|]. eapply Forall_impl; [exact Ho|]. by intros e [].
  - intros e He. destruct (HL e He _ _ _ Hm1) as (new' & Heq & Hin). apply app_inv_head in Heq as <-.
    apply stands_suffix. by eapply Hin.
Qed.

(** A call of which nothing is needed later. *)
Lemma chain_quiet {A} L I (m : SM Log rstr A) :
  every (quiet L) m → chain (facts L I) (host m) (λ _, facts L I).
Proof.
  intros Hm. eapply chain_mono; [|apply (chain_host L [] I m (λ _, True)); [done|by intros e []%elem_of_nil|done]].
  intros a acc i [_ Hf]. by rewrite app_nil_r in Hf.
Qed.

Lemma chain_scoped {A} F drop (body : P A) F' :
  every no_spawn drop → chain F body F' → chain F (scoped drop body) F'.
Proof.
  intros Hd Hb base acc s r s' Hl Hs HF Hrun. unfold scoped in Hrun.
  destruct (body s) as [[a|e] s1] eqn:Hb1;
    destruct (Hb _ _ _ _ _ Hl Hs HF Hb1) as (acc1 & Hl1 & Hs1 & HF1); simplify_eq; [eauto|].
  destruct (drop (pv_log s1)) as [rd logd] eqn:Hdr. destruct (Hd _ _ _ Hdr) as (new & -> & Ho).
  exists (acc1 ++ new). split; [cbn; by rewrite Hl1, app_assoc|]. split; [by apply safe_app|].
  by intros a [=].
Qed.

Lemma silent_transition next s r s' :
  transition next s = (r, s') → pv_log s' = pv_log s ∧ ipam s' = ipam s.
Proof. unfold transition. destruct (transition_to _ _) as [[] ?]; intros; by simplify_eq. Qed.
Lemma silent_update f s r s' : update_ctx f s = (r, s') → pv_log s' = pv_log s ∧ ipam s' = ipam s.
Proof. by intros [= <- <-]. Qed.
(** Each call of a function is quiet, by the kind of the call. *)
Ltac quiet_call := intros ?; split; [by intros ? ? ?|repeat (constructor; [intros Hu; cbn in Hu; try done; by apply join_inj in Hu|]); constructor].
Ltac quiet_tac := repeat every_step; try quiet_call.

(** What has been established when the network is set up, when the limits are
    set, and when the jail is ready. *)
Local Abbreviation tap := (lit "tap-" ++ vc_id config).
Local Abbreviation cg := (join (or_cgroup_root o) (lit "vm-" ++ vc_id config)).
Definition networked (ip : Z) : list Event := [ev (SysTunSetPersist (ifr_name tap) true) (Ok tt)] ++ filters tap ip.
Definition limited (ip : Z) (mems : rstr) : list Event :=
  (networked ip ++ cpu_limits cg (vc_vcpu_cores config) mems) ++ mem_limits cg (mem_bytes (vc_mem_size_mib config)).
Definition allocated (ip : Z) (_ : IpAm) : Prop := ∃ m', allocate ipam0 = (m', Returned (Ok ip)).

Lemma chain_cgroup ip :
  chain (facts (networked ip) (allocated ip)) (provision_cgroup o config)
    (λ lim acc i, (fst lim = vc_vcpu_cores config ∧ (snd lim = lit "0" ∨ snd lim = vc_numa_node config)) ∧
       facts (limited ip (snd lim)) (allocated ip) acc i).
Proof.
  unfold provision_cgroup. eapply chain_bind; [apply chain_silent, silent_transition|].
  intros u; cbv beta; clear u. eapply chain_bind.
  { eapply (chain_host _ [] _ _ _); [|by intros e []%elem_of_nil|apply create_cgroup_returns].
    unfold create_vm_cgroup, path_exists. quiet_tac. }
  intros [path id]. cbv beta. rewrite app_nil_r. cbn [cg_path]. apply chain_pure. intros ->.
  eapply chain_bind; [apply chain_silent, silent_update|].
  intros u; cbv beta; clear u. eapply chain_bind.
  { apply (chain_host _ [] _ _ (λ c, c = vc_vcpu_cores config)); [apply every_ret|by intros e []%elem_of_nil|].
    by intros log a log' [-> _]%ret_ok. }
  intros cpus. cbv beta. rewrite app_nil_r. apply chain_pure. intros ->. eapply chain_bind.
  { eapply (chain_host _ [] _ _ _); [|by intros e []%elem_of_nil|apply get_mems_returns].
    unfold get_mems_string, path_exists. quiet_tac. }
  intros mems. cbv beta. rewrite app_nil_r. apply chain_pure. intros Hmems. eapply chain_bind.
  { eapply (chain_host _ _ _ _ (λ _, True)); [|apply set_cpuset_records|done]. unfold set_cpuset. quiet_tac. }
  intros u; cbv beta; clear u. apply chain_pure. intros _. eapply chain_bind.
  { eapply (chain_host _ _ _ _ (λ _, True)); [|apply set_memory_records|done]. unfold set_memory_limit. quiet_tac. }
  intros u; cbv beta; clear u. apply chain_pure. intros _. eapply chain_mono; [|apply chain_ret].
  by intros lim acc i [-> Hf].
Qed.

Lemma jailer_args_pass cpus mems n flag value :
  (flag, value) ∈ [(lit "--cgroup", lit "cpuset.cpus=" ++ cpus); (lit "--cgroup", lit "cpuset.mems=" ++ mems);
    (lit "--cgroup", lit "memory.max=" ++ dec n); (lit "--uid", dec (or_jailer_uid o));
    (lit "--gid", dec (or_jailer_gid o)); (lit "--id", vc_id config);
    (lit "--chroot-base-dir", or_chroot_base_dir o)] →
  passes (jailer_args o config cpus mems n) flag value.
Proof.
  intros Hin. assert (∀ k, take 2 (drop k (jailer_args o config cpus mems n)) = [flag; value] →
    passes (jailer_args o config cpus mems n) flag value) as Hat.
  { intros k Hk. exists (take k (jailer_args o config cpus mems n)), (drop 2 (drop k (jailer_args o config cpus mems n))).
    by rewrite <- Hk, !take_drop. }
  repeat (apply elem_of_cons in Hin as [[= -> ->]|Hin]);
    [exact (Hat 10 eq_refl)|exact (Hat 12 eq_refl)|exact (Hat 14 eq_refl)|exact (Hat 4 eq_refl)
    |exact (Hat 6 eq_refl)|exact (Hat 2 eq_refl)|exact (Hat 16 eq_refl)|by apply elem_of_nil in Hin].
Qed.

Lemma chain_launch ip rootfs lim :
  fst lim = vc_vcpu_cores config → snd lim = lit "0" ∨ snd lim = vc_numa_node config →
  chain (facts (limited ip (snd lim)) (allocated ip)) (launch_vmm o config rootfs lim) (λ _, facts [] (λ _, True)).
Proof.
  intros Hcpus Hmems. unfold launch_vmm. eapply chain_bind; [apply chain_silent, silent_transition|].
  intros u; cbv beta; clear u. eapply chain_bind; [apply chain_silent, silent_update|].
  intros u; cbv beta; clear u. eapply chain_bind.
  { eapply (chain_host _ [_] _ _ (λ _, True)); [| |done].
    - unfold setup_jail, path_exists. quiet_tac.
    - intros e ->%list_elem_of_singleton. apply setup_jail_records. }
  intros u; cbv beta; clear u. apply chain_pure. intros _. eapply chain_bind with (F' := λ _, facts [] (λ _, True));
    [|intros pid; apply chain_silent, silent_update].
  intros base acc s r s' Hl Hs [Hst Hip] Hrun. unfold host in Hrun.
  rewrite sys_run in Hrun. set (e := ev (SysSpawn _ _ _) _) in Hrun. exists (acc ++ [e]).
  assert (pv_log s' = pv_log s ++ [e]) as -> by (destruct (host_answer _ _); by simplify_eq).
  split; [by rewrite Hl, app_assoc|]. split; [|split; [by intros ? []%elem_of_nil|done]].
  intros pre prog args sig ans post Heq. destruct post as [|e'' post] using rev_ind.
  - apply app_inj_tail in Heq as [<- Heq]. unfold e, ev in Heq. injection Heq as <- <- <- _.
    split_and!; [done..|]. exists ip, (snd lim). split_and!; [exact Hip|done|..].
    { intros e0 He0. apply Hst. revert He0. unfold limited, networked, confinement. rewrite <- !app_assoc. done. }
    all: rewrite <- ?Hcpus; apply jailer_args_pass; rewrite !elem_of_cons; tauto.
  - rewrite app_comm_cons, app_assoc in Heq. apply app_inj_tail in Heq as [-> _].
    by eapply Hs.
Qed.

Lemma chain_configure name :
  chain (facts [] (λ _, True)) (configure_vmm o config name) (λ _, facts [] (λ _, True)).
Proof.
  assert (∀ sock path body, every (quiet []) (put sock path body)) as Hput
    by (intros; unfold put, send_request; quiet_tac).
  assert (∀ fuel sock, every (quiet []) (wait_loop fuel sock)) as Hwait.
  { induction fuel as [|fuel IH]; intros sock; cbn [wait_loop]; unfold path_exists; quiet_tac; apply IH. }
  unfold configure_vmm. eapply chain_bind; [apply chain_silent, silent_transition|].
  intros u; cbv beta; clear u. eapply chain_bind; [apply chain_quiet, Hwait|].
  do 3 (intros u; cbv beta; clear u; eapply chain_bind; [apply chain_quiet, Hput|]).
  intros u; cbv beta; clear u. eapply chain_bind; [apply chain_quiet; quiet_tac|].
  intros u; cbv beta; clear u. eapply chain_bind;
    [apply chain_quiet; unfold MetadataDrive_create, output_command; quiet_tac|].
  intros u; cbv beta; clear u. eapply chain_bind; [apply chain_quiet, every_lift|].
  intros c; cbv beta. eapply chain_bind; [apply chain_quiet; quiet_tac|].
  do 3 (intros u; cbv beta; clear u; eapply chain_bind; [apply chain_quiet, Hput|]).
  intros u; cbv beta; clear u. apply chain_silent, silent_transition.
Qed.

Lemma chain_allocate L :
  chain (facts L (λ i, i = ipam0)) ipam_allocate (λ ip, facts L (allocated ip)).
Proof.
  intros base acc s r s' Hl Hs [Hst Hi] Hrun. unfold ipam_allocate in Hrun.
  destruct (allocate (ipam s)) as [m call] eqn:Ha. exists acc.
  assert (pv_log s' = pv_log s) as -> by (destruct call as [| |[]]; by simplify_eq).
  split_and!; [done..|]. intros ip ->. split; [done|]. exists m. rewrite <- Hi, Ha.
  destruct call as [| |[]]; by simplify_eq.
Qed.

Lemma chain_storage name :
  chain (λ _ i, i = ipam0) (storage (create_snapshot 1 name)) (λ _, facts [] (λ i, i = ipam0)).
Proof.
  intros base acc s r s' Hl Hs Hi Hrun. unfold storage, create_snapshot in Hrun.
  destruct (dm_snapshot_create _ _ _ _ _) as [r1 log1] eqn:Hd.
  assert (every no_spawn (dm_snapshot_create (pool_name (ma_storage (pv_machine s))) name
    (next_device_id (ma_storage (pv_machine s))) 1)) as Hq.
  { unfold dm_snapshot_create, command. repeat every_step; by intros ? ? ? ?. }
  destruct (Hq _ _ _ Hd) as (new & -> & Ho). exists (acc ++ new).
  assert (pv_log s' = pv_log s ++ new ∧ ipam s' = ipam s) as [-> ->] by (destruct r1; by simplify_eq).
  split; [by rewrite Hl, app_assoc|]. split; [by apply safe_app|].
  intros a _. split; [by intros ? []%elem_of_nil|done].
Qed.

Lemma chain_provision : chain (λ _ i, i = ipam0) (provision_vm o config) (λ _ _ _, True).
Proof.
  unfold provision_vm. eapply chain_bind; [apply chain_silent, silent_transition|].
  intros u; cbv beta; clear u. eapply chain_bind; [apply chain_storage|].
  intros [rootfs id]. cbv beta. eapply chain_bind; [apply chain_silent, silent_update|].
  intros u; cbv beta; clear u. eapply chain_bind; [apply chain_silent, silent_transition|].
  intros u; cbv beta; clear u. eapply chain_bind.
  { eapply (chain_host _ [_] _ _ (λ _, True)); [| |done].
    - unfold TapDevice_create, set_interface_up. quiet_tac.
    - intros e ->%list_elem_of_singleton. apply tap_records. }
  intros t. cbv beta. apply chain_pure. intros _.
  apply chain_scoped; [unfold TapDevice_drop; repeat every_step; by intros ? ? ? ?|].
  eapply chain_bind; [apply chain_allocate|]. intros ip. cbv beta.
  eapply chain_bind; [apply chain_silent, silent_update|].
  intros u; cbv beta; clear u. eapply chain_bind.
  { eapply (chain_host _ (filters tap ip) _ _ (λ _, True)); [| |done].
    - unfold load_nat_program, configure_nat, attach_program, EbpfProgram_drop, prefix_err. quiet_tac.
    - intros e He. by apply load_nat_records, configure_nat_records. }
  intros u; cbv beta; clear u. apply chain_pure. intros _.
  apply chain_scoped; [unfold EbpfProgram_drop; repeat every_step; by intros ? ? ? ?|].
  eapply chain_bind; [apply chain_cgroup|]. intros lim. cbv beta. apply chain_pure. intros [Hc Hm].
  eapply chain_bind; [by apply chain_launch|]. intros u; cbv beta; clear u.
  eapply chain_bind; [apply chain_configure|]. intros u; cbv beta; clear u.
  eapply chain_mono; [|apply (chain_silent (facts [] (λ _, True)))].
  - done.
  - intros s r s'. unfold mbind at 1, SM_bind at 1, get_ctx.
    destruct (cx_cgroup (pv_ctx s)); by intros [= <- <-].
Qed.
End Order.

Section Claims.
Context `{HostEnv, ApiJson}.

Lemma cleanup_calls_quiet sto c : every no_spawn (cleanup_calls sto c).
Proof.
  unfold cleanup_calls, both, opt_call, VmCgroup_delete, delete_snapshot, command, path_exists.
  repeat every_step; by intros ? ? ? ?.
Qed.

(** [C6] The VMM never runs unconfined.  In every launch, successful or not
    and whatever the host answers, a process is started only as the jailer,
    to be killed with the orchestrator, with the CPU, memory-node and memory
    limits of the VM, the jail's user and directory among its arguments; and
    before it, with nothing undone since: the TAP interface was made, the NAT
    configuration for the address that was allocated was written, both packet
    filters were attached to the interface, the same limits were set in the
    VM's cgroup, and the jail was finished, each of these calls having
    succeeded. *)
Theorem vmm_starts_isolated (o : Orchestrator) config ma r ma' calls pre prog args sig ans post :
  launch_vm o config ma = (r, ma') → ma_log ma' = ma_log ma ++ calls →
  calls = pre ++ ev (SysSpawn prog args sig) ans :: post →
  isolated o config (ma_ipam ma) pre prog args sig.
Proof.
  intros Hrun Hcalls Heq. unfold launch_vm in Hrun.
  destruct (provision_vm o config _) as [r1 s] eqn:Hp.
  eapply (chain_provision o config (ma_ipam ma) (ma_log ma) []) in Hp as (acc & Hl & Hs & _);
    [|by rewrite app_nil_r|by intros [] ? ? ? ? ? [=]|done].
  assert (∃ new, ma_log ma' = ma_log ma ++ acc ++ new ∧ Forall no_spawn new) as (new & Hl' & Ho).
  { destruct r1 as [vm|e1]; simplify_eq.
    - exists []. rewrite app_nil_r. split; [exact Hl|constructor].
    - destruct (cleanup_spec s) as (Hlog & _). fold (pv_log (snd (cleanup s))). rewrite Hlog.
      destruct (cleanup_calls _ _ (pv_log s)) as [rc logc] eqn:Hc.
      destruct (cleanup_calls_quiet _ _ _ _ _ Hc) as (new & -> & Ho). exists new.
      rewrite Hl, <- app_assoc. done. }
  rewrite Hl' in Hcalls. apply app_inv_head in Hcalls. rewrite <- Hcalls in Heq.
  by eapply (safe_app o config (ma_ipam ma) acc new Hs Ho).
Qed.
End Claims.

(** ** Long names *)

(** No interface has a name of more than 15 bytes, so there is none of such a
    name to attach a program to. *)
Class KernelNames `{HostEnv} : Prop := attach_unknown : ∀ log prog ifname dir,
  (15 < length (as_bytes ifname))%nat → ∃ e, host_answer log (SysBpfAttach prog ifname dir) = Err e.

Section Names.
Context `{HostEnv, ApiJson} `{!KernelNames}.

Lemma attach_fails prog name nf lf af dir log r log' :
  (15 < length (as_bytes name))%nat → attach_program prog name nf lf af dir log = (r, log') → ∃ e, r = Err e.
Proof.
  intros Hlen Hrun. destruct r as [[]|e]; [|by eauto]. exfalso. unfold attach_program, prefix_err in Hrun.
  do 3 apply bind_ok in Hrun as (? & ? & _ & Hrun). unfold SM_map_err in Hrun. rewrite sys_run in Hrun.
  match type of Hrun with context [host_answer ?l ?c] => destruct (attach_unknown l prog name dir Hlen) as [e He] end.
  rewrite He in Hrun. discriminate Hrun.
Qed.

Lemma load_nat_fails name ip log r log' :
  (15 < length (as_bytes name))%nat → load_nat_program name ip log = (r, log') → ∃ e, r = Err e.
Proof.
  intros Hlen Hrun. destruct r as [[]|e]; [|by eauto]. exfalso. unfold load_nat_program in Hrun.
  apply bind_ok in Hrun as ([] & l1 & _ & Hrun). apply bind_ok in Hrun as (res & l2 & Hc & Hrun).
  unfold attempt in Hc. destruct (configure_nat name ip l1) as [r1 l3] eqn:Hcf. injection Hc as <- ->.
  destruct r1 as [[]|e].
  - unfold configure_nat in Hcf. do 4 apply bind_ok in Hcf as (? & ? & _ & Hcf).
    apply bind_ok in Hcf as (? & ? & Ha & _). by apply attach_fails in Ha as [e [=]].
  - by apply bind_ok in Hrun as (? & ? & _ & Hrun).
Qed.

(** [C39] The kernel cuts the name of the TAP device after 15 bytes, and the
    loader asks for the full name: a machine whose id has more than 11 bytes
    is never launched.  Whatever else the host answers, [launch_vm] fails on
    it. *)
Theorem long_vm_id_rejected (o : Orchestrator) config ma r ma' :
  (11 < length (as_bytes (vc_id config)))%nat → launch_vm o config ma = (r, ma') → ∃ e, r = Err e.
Proof.
  intros Hlen Hrun. destruct r as [vm|e]; [|by eauto]. exfalso. unfold launch_vm in Hrun.
  destruct (provision_vm o config _) as [[vm1|e1] s] eqn:Hp; [|done]. clear Hrun.
  unfold provision_vm in Hp. apply bind_ok in Hp as ([] & s1 & _ & Hp).
  apply bind_ok in Hp as ([rootfs id] & s2 & _ & Hp). do 2 apply bind_ok in Hp as (? & ? & _ & Hp).
  apply bind_ok in Hp as (t & s3 & _ & Hp). unfold scoped at 1 in Hp.
  match type of Hp with context [match ?m with _ => _ end] => destruct m as [[v|e] s4] eqn:Hb end; [|done].
  do 2 apply bind_ok in Hb as (? & ? & _ & Hb). apply bind_ok in Hb as ([] & s5 & Hl & _).
  unfold host in Hl. destruct (load_nat_program _ _ _) as [rl ll] eqn:Hload.
  apply load_nat_fails in Hload as [e ->]; [done|].
  rewrite as_bytes_app, length_app. change (length (as_bytes (lit "tap-"))) with 4%nat. lia.
Qed.
End Names.

(** A host that knows no interface of a long name, and a machine with a long
    id. *)
Definition named_host : HostEnv := λ log c,
  match c return result rstr (sys_ret c) with
  | SysBpfAttach prog ifname dir =>
      if (15 <? length (as_bytes ifname))%nat then Err (lit "No such device") else Ok tt
  | c => host_failing (λ _, false) log c
  end.

Lemma named_host_names : KernelNames (H := named_host).
Proof.
  intros log prog ifname dir Hl. exists (lit "No such device"). unfold host_answer, named_host.
  destruct (Nat.ltb_spec 15 (length (as_bytes ifname))); [done|lia].
Qed.

Definition long_config : VmConfig :=
  {| vc_id := lit "vm-test-0001"; vc_session_id := 1; vc_cpu_count := 1; vc_mem_size_mib := 256;
     vc_vcpu_cores := lit "0"; vc_numa_node := lit "0"; vc_base_image := [] |}%N.

Lemma long_vm_id_rejected_witness :
  (∃ vm, fst (launch_vm (H := named_host) (H0 := empty_json) LaunchDemo.orch LaunchDemo.config LaunchDemo.start) = Ok vm) ∧
  ∃ e, fst (launch_vm (H := named_host) (H0 := empty_json) LaunchDemo.orch long_config LaunchDemo.start) = Err e.
Proof.
  split; [eexists; vm_compute; reflexivity|].
  apply (long_vm_id_rejected (H := named_host) (H0 := empty_json) (H1 := named_host_names)
    LaunchDemo.orch long_config LaunchDemo.start _
    (snd (launch_vm (H := named_host) (H0 := empty_json) LaunchDemo.orch long_config LaunchDemo.start))).
  - apply (bool_decide_unpack _). vm_compute. exact I.
  - apply surjective_pairing.
Defined.

Lemma vmm_starts_isolated_witness :
  ∃ pre prog args sig, isolated LaunchDemo.orch LaunchDemo.config (IpAm_new 0x0A000001) pre prog args sig.
Proof.
  pose (run := LaunchDemo.launch (λ _, false)).
  pose (is_spawn := λ e : Event, match projT1 e with SysSpawn _ _ _ => true | _ => false end).
  assert (∃ pre prog args sig ans post, ma_log (snd run) = pre ++ ev (SysSpawn prog args sig) ans :: post)
    as (pre & prog & args & sig & ans & post & Heq).
  { destruct (list_find (λ e, is_spawn e = true) (ma_log (snd run))) as [[i e]|] eqn:Hf;
      [|vm_compute in Hf; discriminate Hf].
    apply list_find_Some in Hf as (Hi & He & _). destruct e as [c ans]. destruct c; try discriminate He.
    exists (take i (ma_log (snd run))), prog, args, pdeathsig, ans, (drop (S i) (ma_log (snd run))).
    symmetry. by apply take_drop_middle. }
  exists pre, prog, args, sig.
  refine (vmm_starts_isolated (H := host_failing (λ _, false)) (H0 := empty_json)
    LaunchDemo.orch LaunchDemo.config LaunchDemo.start (fst run) (snd run) (ma_log (snd run))
    pre prog args sig ans post _ _ Heq).
  - apply surjective_pairing.
  - reflexivity.
Defined.
