(* ===== verification/ControlMain.v ===== *)
(** * control-plane: the program (src/control-plane/src/main.rs)

    [main] starts an orchestrator, launches one VM and waits for Ctrl-C.
    Returning from [main] drops the [Vm]: the TAP device and the eBPF object
    have destructors, the snapshot, the cgroup, the jail directory and the
    process do not. *)

From S2P Require Import Prelude RustStd VmState Ipam EbpfNat Host HostDemo Storage Cgroup Tap FcApi DeviceTheorems Provision Resources ProvisionLogic ProvisionTheorems.

Definition cgroup_root : rstr := lit "/sys/fs/cgroup/orchestrator".
Definition thin_pool : rstr := lit "thin-pool-0".
Definition base_ip : Z := 0x0A000001.

Definition test_config : VmConfig :=
  {| vc_id := lit "vm-test-001"; vc_session_id := 1; vc_cpu_count := 1; vc_mem_size_mib := 256;
     vc_vcpu_cores := lit "0"; vc_numa_node := lit "0";
     vc_base_image := lit "resources/browser-rootfs.ext4" |}%N.

Section Main.
Context `{HostEnv, ApiJson}.

(** Dropping a [Vm]: its fields in the order of their declaration. *)
Definition Vm_drop (vm : Vm) : SM Log rstr unit :=
  _ ← TapDevice_drop (vm_tap vm);
  EbpfProgram_drop.

(** Launch the VM and wait for Ctrl-C (lines 53-75); [ctrl_c]: how the wait
    ends.  The VM is dropped either way. *)
Definition run_test_vm (ctrl_c : result rstr unit) (parts : Orchestrator * StorageManager * IpAm)
  : SM Log rstr unit := λ log,
  let '(orchestrator, storage_manager, ipam) := parts in
  match launch_vm orchestrator test_config {| ma_log := log; ma_storage := storage_manager; ma_ipam := ipam |} with
  | (Ok vm, ma) => (ctrl_c, snd (Vm_drop vm (ma_log ma)))
  | (Err e, ma) => (Err (OrchestratorError_fmt e), ma_log ma)
  end.

(** [exporter]: what building the span exporter answers. *)
Definition main (exporter ctrl_c : result rstr unit) : SM Log rstr unit :=
  _ ← lift exporter;
  parts ← Orchestrator_new cgroup_root thin_pool base_ip (lit "./bin/jailer") (lit "./bin/firecracker")
            (lit "./resources/vmlinux") (lit "/srv/jailer") 1000 1000;
  run_test_vm ctrl_c parts.
End Main.

(** ** What a launched VM keeps *)

(** Thin-pool entries, device-mapper devices and processes. *)
Definition durable (x : Resource) : Prop :=
  match x with RThin _ _ | RDm _ | RProc _ => True | _ => False end.

(** The event releases none of them. *)
Definition spares (e : Event) : Prop := ∀ x, durable x → ¬ releases e x.

Lemma held_spared log new x : durable x → Forall spares new → held log x → held (log ++ new) x.
Proof.
  intros Hd Hn (l1 & e & l2 & -> & Hacq & Hl2). exists l1, e, (l2 ++ new).
  split; [by rewrite <- app_assoc|]. split; [done|]. intros e' [He|He]%elem_of_app; [by apply Hl2|].
  rewrite Forall_forall in Hn. by apply Hn.
Qed.

Section Spares.
Context `{HostEnv, ApiJson}.
Local Abbreviation P := (SM Prov OrchestratorError).

Ltac spare_tac :=
  repeat every_step;
  try (intros r x Hd Hr; cbn in Hr; destruct x; naive_solver).

Lemma spares_path_exists p : every spares (path_exists p).
Proof. unfold path_exists. spare_tac. Qed.
Lemma spares_output prog args failure : every spares (output_command prog args failure).
Proof. unfold output_command. spare_tac. Qed.
Lemma spares_tap name : every spares (TapDevice_create name).
Proof. unfold TapDevice_create, set_interface_up. spare_tac. Qed.
Lemma spares_tap_drop name : every spares (TapDevice_drop name).
Proof. unfold TapDevice_drop. spare_tac. Qed.
Lemma spares_ebpf_drop : every spares EbpfProgram_drop.
Proof. unfold EbpfProgram_drop. spare_tac. Qed.
Lemma spares_load_nat name ip : every spares (load_nat_program name ip).
Proof. unfold load_nat_program, configure_nat, attach_program, prefix_err, EbpfProgram_drop. spare_tac. Qed.
Lemma spares_create_cgroup root id : every spares (create_vm_cgroup root id).
Proof. unfold create_vm_cgroup. spare_tac; apply spares_path_exists. Qed.
Lemma spares_get_mems root node : every spares (get_mems_string root node).
Proof. unfold get_mems_string. spare_tac; apply spares_path_exists. Qed.
Lemma spares_set_cpuset cg cpus mems : every spares (set_cpuset cg cpus mems).
Proof. unfold set_cpuset. spare_tac. Qed.
Lemma spares_set_memory cg n : every spares (set_memory_limit cg n).
Proof. unfold set_memory_limit. spare_tac. Qed.
Lemma spares_setup_jail o d dev : every spares (setup_jail o d dev).
Proof. unfold setup_jail. spare_tac; apply spares_path_exists. Qed.
Lemma spares_wait fuel sock : every spares (wait_loop fuel sock).
Proof. induction fuel as [|fuel IH]; cbn [wait_loop]; spare_tac; try apply spares_path_exists; exact IH. Qed.
Lemma spares_put sock path body : every spares (put sock path body).
Proof. unfold put, send_request. spare_tac. Qed.
Lemma spares_metadata path staging : every spares (MetadataDrive_create path staging).
Proof. unfold MetadataDrive_create. spare_tac; apply spares_output. Qed.
Lemma spares_new root pool ip j f k c u g : every spares (Orchestrator_new root pool ip j f k c u g).
Proof. unfold Orchestrator_new, CgroupManager_new. spare_tac; apply spares_path_exists. Qed.
Lemma spares_drop vm : every spares (Vm_drop vm).
Proof. unfold Vm_drop. spare_tac; [apply spares_tap_drop|apply spares_ebpf_drop]. Qed.
End Spares.

(** ** The launch *)

(** From [s] to [s'] nothing durable was released. *)
Definition grown (s s' : Prov) : Prop := ∃ new, pv_log s' = pv_log s ++ new ∧ Forall spares new.

#[local] Instance grown_preorder : PreOrder grown.
Proof.
  split.
  - intros s. exists []. by rewrite app_nil_r.
  - intros s1 s2 s3 (n1 & H1 & F1) (n2 & H2 & F2). exists (n1 ++ n2). rewrite H2, H1, app_assoc.
    split; [done|]. by apply Forall_app.
Qed.

Lemma grown_same s s' : pv_log s' = pv_log s → grown s s'.
Proof. intros Heq. exists []. by rewrite app_nil_r. Qed.

Lemma grown_held s s' x : durable x → grown s s' → held (pv_log s) x → held (pv_log s') x.
Proof. intros Hd (new & -> & Hn). by apply held_spared. Qed.

(** [m] keeps the context's process and the durable resources. *)
Definition steady {A} (m : SM Prov OrchestratorError A) : Prop := ∀ s r s', m s = (r, s') →
  cx_process (pv_ctx s') = cx_process (pv_ctx s) ∧ grown s s'.

Section Steady.
Context `{HostEnv, ApiJson}.
Local Abbreviation P := (SM Prov OrchestratorError).

Lemma steady_ret {A} (a : A) : steady (mret a : P A).
Proof. by intros s r s' [= <- <-]. Qed.

Lemma steady_bind {A B} (m : P A) (f : A → P B) : steady m → (∀ a, steady (f a)) → steady (m ≫= f).
Proof.
  intros Hm Hf s r s' Hrun. unfold mbind, SM_bind in Hrun. destruct (m s) as [[a|e] s1] eqn:H1.
  - destruct (Hm _ _ _ H1) as [Hp1 Hg1]. destruct (Hf a _ _ _ Hrun) as [Hp2 Hg2].
    split; [congruence|]. by etrans.
  - simplify_eq. by eapply Hm.
Qed.

Lemma steady_transition next : steady (transition next).
Proof.
  intros s r s' Hrun. unfold transition in Hrun.
  destruct (transition_to next (pv_sm s)) as [[[]|e] sm]; simplify_eq; (split; [done|]); by apply grown_same.
Qed.

Lemma steady_host {A} (m : SM Log rstr A) : every spares m → steady (host m).
Proof.
  intros Hm s r s' Hrun. unfold host in Hrun. destruct (m (pv_log s)) as [[a|e] log] eqn:H1; simplify_eq;
    destruct (Hm _ _ _ H1) as (new & -> & Hn); (split; [done|]); by exists new.
Qed.

Lemma steady_update f : (∀ c, cx_process (f c) = cx_process c) → steady (update_ctx f).
Proof. intros Hf s r s' [= <- <-]. split; [apply Hf|by apply grown_same]. Qed.

Lemma steady_allocate : steady ipam_allocate.
Proof.
  intros s r s' Hrun. unfold ipam_allocate in Hrun.
  destruct (allocate _) as [m [|?|[ip|e]]]; simplify_eq; (split; [done|]); by apply grown_same.
Qed.

(** The stages. *)
Ltac steady_tac :=
  repeat match goal with
  | |- steady (mret _) => apply steady_ret
  | |- steady (_ ≫= _) => apply steady_bind; [|intros ?]
  | |- steady (transition _) => apply steady_transition
  | |- steady (update_ctx _) => apply steady_update; done
  | |- steady (host (lift _)) => apply steady_host, every_lift
  | |- steady (host _) => apply steady_host
  end.

Lemma steady_cgroup o config : steady (provision_cgroup o config).
Proof.
  unfold provision_cgroup. steady_tac; [apply spares_create_cgroup|apply every_ret|apply spares_get_mems|
    apply spares_set_cpuset|apply spares_set_memory].
Qed.

Lemma steady_configure o config tap : steady (configure_vmm o config tap).
Proof.
  unfold configure_vmm, put_machine_config, put_boot_source, put_drive, put_network_interface, instance_start, wait_for_socket.
  steady_tac; try apply spares_put; try apply spares_wait; try apply spares_metadata.
  all: refine (every_sys _ _ _); intros r x Hd Hr; cbn in Hr; destruct x; naive_solver.
Qed.

(** Starting the VMM records a process the host runs. *)
Lemma launch_holds o config rootfs limits s s' :
  launch_vmm o config rootfs limits s = (Ok tt, s') →
  grown s s' ∧ ∃ pid, cx_process (pv_ctx s') = Some pid ∧ held (pv_log s') (RProc pid).
Proof.
  intros Hrun. unfold launch_vmm in Hrun.
  apply bind_ok in Hrun as (? & s1 & H1%steady_transition & Hrun).
  apply bind_ok in Hrun as (? & s2 & H2%steady_update & Hrun); [|done].
  apply bind_ok in Hrun as (? & s3 & H3%(steady_host _ (spares_setup_jail _ _ _)) & Hrun).
  apply bind_ok in Hrun as (pid & s4 & H4 & [= <-]).
  set (args := jailer_args _ _ _ _ _) in H4. unfold host, sys in H4.
  destruct (host_answer _ _) as [pid'|] eqn:Ha; [|done]. injection H4 as -> <-.
  destruct H1 as [_ H1], H2 as [_ H2], H3 as [_ H3]. split.
  - rewrite H1, H2, H3. exists [ev (SysSpawn (or_jailer_path o) args (Some SIGKILL)) (Ok pid)].
    split; [done|]. constructor; [|done]. by intros y Hd [].
  - exists pid. split; [done|]. exists (pv_log s3), (ev (SysSpawn (or_jailer_path o) args (Some SIGKILL)) (Ok pid)), [].
    split; [done|]. split; [by exists pid|]. by intros e' ?%not_elem_of_nil.
Qed.

Lemma command_ok prog args failure log log' :
  command prog args failure log = (Ok tt, log') → log' = log ++ [ev (SysStatus prog args) (Ok 0%N)].
Proof.
  intros (status & l1 & Hs & Hrun)%bind_ok. unfold sys in Hs. destruct (host_answer _ _) as [st|]; [|done].
  injection Hs as -> <-. destruct (status =? 0)%N eqn:Hst; [|done]. injection Hrun as <-.
  by apply N.eqb_eq in Hst as ->.
Qed.

(** A snapshot is a thin-pool entry and a device. *)
Lemma snapshot_holds pool name id base log path log' :
  dm_snapshot_create pool name id base log = (Ok path, log') → held log' (RThin pool id) ∧ held log' (RDm name).
Proof.
  intros Hrun. unfold dm_snapshot_create in Hrun.
  apply bind_ok in Hrun as ([] & l1 & H1%command_ok & Hrun).
  apply bind_ok in Hrun as ([] & l2 & H2%command_ok & Hrun).
  apply bind_ok in Hrun as ([] & l3 & H3%command_ok & Hrun).
  apply bind_ok in Hrun as ([] & l4 & H4%command_ok & [= <- <-]). subst l4 l3 l2 l1.
  assert (∀ args, (∀ p i, args ≠ delete_args p i) → (∀ n, args ≠ dm_remove_args n) →
    spares (ev (SysStatus dmsetup args) (Ok 0%N))) as Hsp.
  { intros args Hd Hr x _ (_ & _ & [(p & i & Heq & _)|(n & Heq & _)]); [by apply Hd in Heq|by apply Hr in Heq]. }
  assert (∀ l args x, acquires (ev (SysStatus dmsetup args) (Ok 0%N)) x →
    held (l ++ [ev (SysStatus dmsetup args) (Ok 0%N)]) x) as Hlast.
  { intros l args x Hx. eexists l, _, []. split; [done|]. split; [done|]. by intros e' ?%not_elem_of_nil. }
  assert (∀ p n i, Forall spares [ev (SysStatus dmsetup (dm_load_args p n i)) (Ok 0%N)]) as Hload
    by (intros; constructor; [apply Hsp; by intros ?|done]).
  assert (∀ n, Forall spares [ev (SysStatus dmsetup (dm_resume_args n)) (Ok 0%N)]) as Hresume
    by (intros; constructor; [apply Hsp; by intros ?|done]).
  assert (∀ n, Forall spares [ev (SysStatus dmsetup (dm_create_args n)) (Ok 0%N)]) as Hcreate
    by (intros; constructor; [apply Hsp; by intros ?|done]).
  split; (apply held_spared; [done|apply Hresume|]); (apply held_spared; [done|apply Hload|]).
  - apply held_spared; [done|apply Hcreate|]. apply Hlast. split; [done|]. split; [done|]. left. eauto.
  - apply Hlast. split; [done|]. split; [done|]. right. eauto.
Qed.

Lemma storage_holds base name s path id s' :
  storage (create_snapshot base name) s = (Ok (path, id), s') →
  let sto := ma_storage (pv_machine s) in
  held (pv_log s') (RThin (pool_name sto) (next_device_id sto)) ∧ held (pv_log s') (RDm name).
Proof.
  intros Hrun sto. unfold storage, create_snapshot in Hrun. fold sto in Hrun.
  destruct (dm_snapshot_create _ _ _ _ _) as [[p|] log2] eqn:Hsnap; [|done].
  injection Hrun as _ _ <-. exact (snapshot_holds _ _ _ _ _ _ _ Hsnap).
Qed.

Lemma scoped_ok {A} drop (body : P A) s a s' : scoped drop body s = (Ok a, s') → body s = (Ok a, s').
Proof. unfold scoped. by destruct (body s) as [[]]. Qed.

(** A launched VM: its snapshot and its process. *)
Definition vm_holds (pool : rstr) (id : N) (name : rstr) (vm : Vm) (log : Log) : Prop :=
  held log (RThin pool id) ∧ held log (RDm name) ∧ ∃ pid, vm_process vm = Some pid ∧ held log (RProc pid).

Lemma provision_holds o config s vm s' :
  provision_vm o config s = (Ok vm, s') →
  let sto := ma_storage (pv_machine s) in
  vm_holds (pool_name sto) (next_device_id sto) (vc_id config) vm (pv_log s').
Proof.
  intros Hrun sto. unfold provision_vm in Hrun.
  apply bind_ok in Hrun as (? & s1 & H1 & Hrun).
  assert (ma_storage (pv_machine s1) = sto) as Hsto.
  { unfold transition in H1. destruct (transition_to _ _) as [[[]|] ?]; by simplify_eq. }
  apply bind_ok in Hrun as ([rootfs id] & s2 & H2 & Hrun).
  apply storage_holds in H2 as [Hthin Hdm]. rewrite Hsto in Hthin.
  apply bind_ok in Hrun as (? & s3 & H3%steady_update & Hrun); [|done].
  apply bind_ok in Hrun as (? & s4 & H4%steady_transition & Hrun).
  apply bind_ok in Hrun as (tap & s5 & H5%(steady_host _ (spares_tap _)) & Hrun). apply scoped_ok in Hrun.
  apply bind_ok in Hrun as (ip & s6 & H6%steady_allocate & Hrun).
  apply bind_ok in Hrun as (? & s7 & H7%steady_update & Hrun); [|done].
  apply bind_ok in Hrun as (? & s8 & H8%(steady_host _ (spares_load_nat _ _)) & Hrun). apply scoped_ok in Hrun.
  apply bind_ok in Hrun as (limits & s9 & H9%steady_cgroup & Hrun).
  apply bind_ok in Hrun as ([] & s10 & (Hg & pid & Hpid & Hproc)%launch_holds & Hrun).
  apply bind_ok in Hrun as ([] & s11 & H11%steady_configure & Hrun).
  apply bind_ok in Hrun as (ctx & s12 & [= <- <-] & Hrun).
  destruct H3 as [_ H3], H4 as [_ H4], H5 as [_ H5], H6 as [_ H6], H7 as [_ H7], H8 as [_ H8], H9 as [_ H9], H11 as [Hp H11].
  assert (grown s2 s11) as Hall by (by rewrite H3, H4, H5, H6, H7, H8, H9, Hg, H11).
  destruct (cx_cgroup (pv_ctx s11)) as [cg|]; [|done].
  apply bind_ok in Hrun as (? & s13 & [= _ <-] & [= <- <-]).
  assert (∀ x, durable x → held (pv_log s2) x → held (pv_log s11) x) as Hkeep by (intros; by eapply grown_held).
  split; [by apply Hkeep|]. split; [by apply Hkeep|]. exists pid. cbn. split; [congruence|].
  by eapply (grown_held s10).
Qed.

(** ** Shutting down *)

Lemma every_held {A} (m : SM Log rstr A) log x :
  every spares m → durable x → held log x → held (snd (m log)) x.
Proof.
  intros Hm Hd Hh. destruct (Hm log (fst (m log)) (snd (m log)) (surjective_pairing _)) as (new & -> & Hn).
  by apply held_spared.
Qed.

Lemma new_parts root pool ip j f k c u g log parts log' :
  Orchestrator_new root pool ip j f k c u g log = (Ok parts, log') →
  snd (fst parts) = StorageManager_new pool.
Proof.
  intros Hrun. unfold Orchestrator_new in Hrun. do 4 apply bind_ok in Hrun as (? & ? & _ & Hrun). by injection Hrun as <- _.
Qed.

(** Ctrl-C stops the program, not the VM.  When [main] returns after the
    signal it has released neither the VM's process nor its thin snapshot
    with the device: they have no destructor, and nothing calls a teardown. *)
Theorem shutdown_leaves_vm exporter ctrl_c log log' :
  main exporter ctrl_c log = (Ok tt, log') →
  held log' (RThin thin_pool 100) ∧ held log' (RDm (vc_id test_config)) ∧ ∃ pid, held log' (RProc pid).
Proof.
  intros Hrun. unfold main in Hrun. apply bind_ok in Hrun as (? & l1 & _ & Hrun).
  apply bind_ok in Hrun as ([[o sto] ipam] & l2 & Hnew%new_parts & Hrun). cbn in Hnew. subst sto.
  unfold run_test_vm in Hrun. destruct (launch_vm _ _ _) as [[vm|e] ma] eqn:Hl; [|done]. injection Hrun as _ <-.
  unfold launch_vm in Hl. destruct (provision_vm _ _ _) as [[vm'|e] s'] eqn:Hp; [|done]. injection Hl as -> <-.
  destruct (provision_holds _ _ _ _ _ Hp) as (Ht & Hd & pid & _ & Hpr).
  split; [|split]; [| |exists pid]; (apply every_held; [apply spares_drop|done|done]).
Qed.

(** dm-thin refuses to create a device whose id is taken. *)
Class ThinPool : Prop := thin_exclusive : ∀ log pool id base,
  held log (RThin pool id) → host_answer log (SysStatus dmsetup (create_snap_args pool id base)) ≠ Ok 0%N.

Lemma snapshot_taken `{!ThinPool} base name s :
  let sto := ma_storage (pv_machine s) in
  held (pv_log s) (RThin (pool_name sto) (next_device_id sto)) →
  ∃ msg s', storage (create_snapshot base name) s =
    (Err (OrchestratorError_new (sm_session_id (pv_sm s)) (current_state (pv_sm s)) msg), s').
Proof.
  intros sto Hh. pose proof (thin_exclusive (pv_log s) _ _ base Hh) as Hex.
  unfold storage, create_snapshot, dm_snapshot_create. fold sto.
  assert (∃ msg log', command dmsetup (create_snap_args (pool_name sto) (next_device_id sto) base)
    (lit "dm_target_msg failed") (pv_log s) = (Err msg, log')) as (msg & log' & Hcmd).
  { unfold command, mbind, SM_bind, sys. destruct (host_answer (pv_log s) _) as [st|e]; [|eauto].
    destruct (st =? 0)%N eqn:Hst; cbn [negb]; [by apply N.eqb_eq in Hst as ->|eauto]. }
  rewrite (bind_run _ _ _ _ _ Hcmd). eauto.
Qed.

Lemma launch_taken `{!ThinPool} o config ma :
  held (ma_log ma) (RThin (pool_name (ma_storage ma)) (next_device_id (ma_storage ma))) →
  ∃ msg ma', launch_vm o config ma =
    (Err (OrchestratorError_new (vc_session_id config) ProvisioningStorage msg), ma').
Proof.
  intros Hh. unfold launch_vm. set (s := mk_prov ma _ _).
  set (s1 := mk_prov ma (pv_ctx s) {| sm_state := ProvisioningStorage; sm_session_id := vc_session_id config |}).
  destruct (snapshot_taken 1 (vc_id config) s1 Hh) as (msg & s' & Hsnap).
  unfold provision_vm. rewrite (bind_run (transition ProvisioningStorage) _ s (Ok tt) s1) by done.
  rewrite (bind_run _ _ _ _ _ Hsnap). eauto.
Qed.

(** [C32] The program cannot be started again.  Device ids count from 100 in every
    process and the snapshot of the last run is still there: after a run that
    was stopped with Ctrl-C, whatever else happened on the host short of
    deleting that snapshot, every later run fails before it starts a VM. *)
Theorem restart_fails `{!ThinPool} exporter ctrl_c log log1 between exporter' ctrl_c' :
  main exporter ctrl_c log = (Ok tt, log1) → Forall spares between →
  ∃ e log2, main exporter' ctrl_c' (log1 ++ between) = (Err e, log2).
Proof.
  intros Hrun Hb. apply shutdown_leaves_vm in Hrun as [Hthin _].
  apply (held_spared _ between) in Hthin; [|done..].
  unfold main, mbind, SM_bind, lift. destruct exporter' as [[]|e]; [|eauto].
  destruct (Orchestrator_new _ _ _ _ _ _ _ _ _ _) as [[[[o sto] ipam]|e] l2] eqn:Hnew; [|eauto].
  pose proof (new_parts _ _ _ _ _ _ _ _ _ _ _ _ Hnew) as Hsto. cbn in Hsto. subst sto.
  destruct (spares_new _ _ _ _ _ _ _ _ _ _ _ _ Hnew) as (n2 & -> & Hn2).
  apply (held_spared _ n2) in Hthin; [|done..]. unfold run_test_vm.
  destruct (launch_taken o test_config {| ma_log := (log1 ++ between) ++ n2; ma_storage := StorageManager_new thin_pool; ma_ipam := ipam |} Hthin)
    as (msg & ma' & ->). eauto.
Qed.
End Steady.

(** ** A host with a thin pool *)

Module MainDemo.
(** A [create_snap] message. *)
Definition is_create (args : list rstr) : bool :=
  match args with [_; _; _; msg] => starts_with msg (lit "create_snap ") | _ => false end.
Definition created (e : Event) : bool :=
  let 'existT c r := e in
  match c as c return result rstr (sys_ret c) → bool with
  | SysStatus _ args => λ r, is_create args && match r with Ok 0%N => true | _ => false end
  | _ => λ _, false
  end r.
(** Every call succeeds, but the pool has room for one snapshot. *)
Definition thin_host : HostEnv := λ log c,
  match c as c return result rstr (sys_ret c) with
  | SysStatus prog args => if is_create args && existsb created log then Ok 1%N else Ok 0%N
  | c => Ok (plain_answer c)
  end.
#[export] Existing Instances thin_host empty_json.

Lemma create_is_create pool id base : is_create (create_snap_args pool id base) = true.
Proof. apply starts_with_true. by eexists. Qed.

Lemma thin_host_pool : ThinPool (H := thin_host).
Proof.
  intros log pool id base (l1 & e & l2 & -> & Hacq & _). unfold host_answer, thin_host.
  rewrite create_is_create. cbn [andb].
  replace (existsb created (l1 ++ e :: l2)) with true; [done|]. symmetry. apply existsb_exists. exists e.
  split; [apply in_app_iff; right; by left|].
  destruct e as [c r]. destruct c; cbn in Hacq; try (by repeat case_match; naive_solver).
Qed.
#[export] Existing Instance thin_host_pool.

Lemma first_run : fst (main (Ok tt) (Ok tt) []) = Ok tt.
Proof. vm_compute. reflexivity. Qed.

Lemma shutdown_leaves_vm_witness : ∃ pid, held (snd (main (Ok tt) (Ok tt) [])) (RProc pid).
Proof. apply (shutdown_leaves_vm (Ok tt) (Ok tt) [] _ (run_eq _ _ _ first_run)). Defined.

Lemma restart_fails_witness :
  ∃ e log2, main (Ok tt) (Ok tt) (snd (main (Ok tt) (Ok tt) []) ++ [ev SysSocket (Ok tt)]) = (Err e, log2).
Proof.
  apply (restart_fails (Ok tt) (Ok tt) [] _ [ev SysSocket (Ok tt)] (Ok tt) (Ok tt) (run_eq _ _ _ first_run)).
  constructor; [by intros x Hd []|constructor].
Defined.
End MainDemo.
