(* ===== verification/ControlTests.v ===== *)
(** * control-plane: the repository's tests
      (src/control-plane/src/main.rs, 77-249; src/control-plane/src/vmm/firecracker_api.rs, 197-340)

    Each test of the control plane run on the model: the test's set-up as a
    host, its calls, and its assertions as a boolean. *)

From S2P Require Import Prelude RustStd VmState Ipam EbpfNat Host HostDemo Storage Cgroup Tap FcApi DeviceTheorems.

Definition res_is_err {E A} (r : result E A) : bool := match r with Ok _ => false | Err _ => true end.
Definition res_is_ok {E A} (r : result E A) : bool := negb (res_is_err r).
(** [r.unwrap() == a]. *)
Definition unwraps_to {E A} `{EqDecision A} (r : result E A) (a : A) : bool :=
  match r with Ok x => bool_decide (x = a) | Err _ => false end.
(** [str::contains]. *)
Fixpoint contains (s t : rstr) : bool :=
  starts_with s t || match s with [] => false | _ :: s' => contains s' t end.

Fixpoint assoc {A} (k : rstr) (l : list (rstr * A)) : option A :=
  match l with
  | [] => None
  | (k', a) :: l => if bool_decide (k' = k) then Some a else assoc k l
  end.

(** ** main.rs *)

Definition test_state_machine_transitions (session_id : N) : bool :=
  let sm := VmStateMachine_new session_id in
  let '(r1, sm1) := transition_to ProvisioningStorage sm in
  let '(r2, sm2) := transition_to ConfiguringNetwork sm1 in
  let '(r3, _) := transition_to Running sm2 in
  bool_decide (current_state sm = Pending) && res_is_ok r1 && res_is_ok r2 && res_is_err r3.

(** A host where these paths exist and these files can be read; everything
    else succeeds. *)
Definition files_host (present : list rstr) (dirs : list (rstr * list rstr)) (files : list (rstr * rstr)) : HostEnv :=
  λ log c,
  match c as c return result rstr (sys_ret c) with
  | SysStat p => if bool_decide (p ∈ present) then Ok tt else Err (lit "No such file or directory")
  | SysReadDir p => ok_or (assoc p dirs) (lit "No such file or directory")
  | SysReadFile p => ok_or (assoc p files) (lit "No such file or directory")
  | c => Ok (plain_answer c)
  end.

(** The cgroup root exists, the VM's directory is created. *)
Definition test_cgroup_creation : bool :=
  let env := files_host [lit "/tmp/t"] [] [] in
  let '(manager, log) := CgroupManager_new (H := env) (lit "/tmp/t") [] in
  let '(cgroup, log') := create_vm_cgroup (H := env) (lit "/tmp/t") (lit "test-vm") log in
  unwraps_to manager (lit "/tmp/t") &&
  match cgroup with
  | Ok cg => bool_decide (cg_path cg = lit "/tmp/t/vm-test-vm") &&
      match last log' with
      | Some (existT (SysCreateDir p) _) => bool_decide (p = cg_path cg)
      | _ => false
      end
  | Err _ => false
  end.

Definition test_naive_cpuset_allocator : bool :=
  unwraps_to (fst (NaiveCpusetAllocator_allocate_cpus (lit "0,1") [])) (lit "0,1") &&
  unwraps_to (fst (NaiveCpusetAllocator_allocate_cpus (lit "2") [])) (lit "2").

Definition sibling_files (sysfs : rstr) : list (rstr * rstr) :=
  [(siblings_path sysfs 0, lit "0,4" ++ [10%N]); (siblings_path sysfs 4, lit "0,4" ++ [10%N]);
   (siblings_path sysfs 1, lit "1,5" ++ [10%N]); (siblings_path sysfs 5, lit "1,5" ++ [10%N])].
Definition allocate_siblings (files : list (rstr * rstr)) (cpus : rstr) : result rstr rstr :=
  fst (SiblingAwareCpusetAllocator_allocate_cpus (H := files_host [] [] files) (lit "/tmp/t") cpus []).
Definition test_sibling_aware_cpuset_allocator : bool :=
  unwraps_to (allocate_siblings (sibling_files (lit "/tmp/t")) (lit "0")) (lit "0,4") &&
  unwraps_to (allocate_siblings (sibling_files (lit "/tmp/t")) (lit "0,1")) (lit "0,1,4,5") &&
  unwraps_to (allocate_siblings (sibling_files (lit "/tmp/t")) (lit "4")) (lit "0,4").
Definition test_cpuset_allocator_edge_cases : bool :=
  res_is_err (allocate_siblings [] (lit "99")) && res_is_err (allocate_siblings [] (lit "abc")) &&
  unwraps_to (allocate_siblings [] (lit "")) (lit "").

Definition test_numa_topology_single_node : bool :=
  let nodes := lit "/tmp/t/devices/system/node" in
  unwraps_to (fst (get_mems_string (H := files_host [nodes] [(nodes, [lit "node0"])] []) (lit "/tmp/t") (lit "1") []))
    (lit "0").

Definition test_metadata_drive_create : bool :=
  let '(drive, log) := MetadataDrive_create (H := good_host) (lit "/tmp/t/metadata.img") (lit "/tmp/t/staging") [] in
  unwraps_to drive (lit "/tmp/t/metadata.img") &&
  match head log with
  | Some (existT (SysOutput prog args) _) =>
      bool_decide (prog = lit "fallocate") && bool_decide (args = [lit "-l"; lit "1M"; lit "/tmp/t/metadata.img"])
  | _ => false
  end.

(** One call of [allocate], undisturbed. *)
Definition allocated (m : IpAm) : option Z * IpAm :=
  let '(m', call) := allocate m in
  (match call with Returned (Ok ip) => Some ip | _ => None end, m').
Fixpoint allocate_each (n : nat) (m : IpAm) : list (option Z) * IpAm :=
  match n with
  | 0 => ([], m)
  | S n => let '(ip, m1) := allocated m in let '(ips, m2) := allocate_each n m1 in (ip :: ips, m2)
  end.
Definition test_ipam_allocation_exhaustive : bool :=
  let '(ips, m1) := allocate_each 64 (IpAm_new 0x0A000000) in
  bool_decide (ips = (λ i, Some (0x0A000000 + Z.of_nat i)%Z) <$> seq 0 64) &&
  bool_decide (fst (allocated m1) = None) &&
  bool_decide (fst (allocated (release (0x0A000000 + 10) m1)) = Some (0x0A000000 + 10)%Z).
Definition test_ipam_release_out_of_bounds : bool :=
  let '(ip, m1) := allocated (IpAm_new 0x0A000000) in
  bool_decide (fst (allocated (release 0x0B000000 m1)) = Z.add 1 <$> ip).

(** Without the privilege, creating a TAP device fails with the system's error. *)
Definition test_tap_device_name : bool :=
  match fst (TapDevice_create (H := host_failing (λ c, match c with SysOpenTun => true | _ => false end)) (lit "test-tap-0") []) with
  | Err e => bool_decide (e = lit "fault")
  | Ok _ => false
  end.

Definition control_plane_tests : list bool :=
  [test_state_machine_transitions 7; test_cgroup_creation; test_naive_cpuset_allocator;
   test_sibling_aware_cpuset_allocator; test_cpuset_allocator_edge_cases; test_numa_topology_single_node;
   test_metadata_drive_create; test_ipam_allocation_exhaustive; test_ipam_release_out_of_bounds; test_tap_device_name].
Example control_plane_tests_pass : forallb id control_plane_tests = true.
Proof. vm_compute. reflexivity. Qed.

(** ** firecracker_api.rs *)

(** Bodies of two bytes. *)
Definition test_json : ApiJson := λ _, Ok (as_bytes (lit "{}")).
(** A server that answers every request with this status line. *)
Definition server_host (status_line : rstr) : HostEnv := λ _ c,
  match c as c return result rstr (sys_ret c) with
  | SysRecv _ => Ok (as_bytes (status_line ++ [13; 10; 13; 10]%N))
  | c => Ok (plain_answer c)
  end.

(** What was sent. *)
Fixpoint sent (log : Log) : bytes :=
  match log with
  | [] => []
  | existT (SysSend data) _ :: log => data ++ sent log
  | _ :: log => sent log
  end.

Definition content_length (req : rstr) : N :=
  default 0%N (
    line ← List.find (λ l, starts_with (to_lowercase l) (lit "content-length:")) (lines req);
    value ← split_on 58 line !! 1;
    res_ok (parse_uint (2 ^ 64 - 1) (trim value))).

(** The assertions of the fake server on the request it reads. *)
Definition fake_firecracker (expected_path : rstr) (log : Log) : bool :=
  match from_utf8 (sent log) with
  | Some req => starts_with req (lit "PUT") && contains req expected_path && contains req (lit "application/json") &&
                (0 <? content_length req)%N
  | None => false
  end.

Definition sock : rstr := lit "/tmp/t/firecracker.socket".
Section Accepting.
#[local] Existing Instance test_json.
#[local] Instance accepting : HostEnv := server_host (lit "HTTP/1.1 204 No Content").

Definition served (expected_path : rstr) (m : SM Log rstr unit) : bool :=
  let '(r, log) := m [] in res_is_ok r && fake_firecracker expected_path log.

Definition test_put_machine_config : bool :=
  served (lit "/machine-config")
    (put_machine_config sock {| mc_vcpu_count := 2; mc_mem_size_mib := 512; mc_smt := false |}%N).
Definition test_put_boot_source : bool :=
  served (lit "/boot-source")
    (put_boot_source sock {| bs_kernel_image_path := lit "/vmlinux";
       bs_boot_args := lit "console=ttyS0 reboot=k panic=1 pci=off nomodules" |}).
Definition test_put_drive : bool :=
  served (lit "/drives/rootfs")
    (put_drive sock {| dr_drive_id := lit "rootfs"; dr_path_on_host := lit "/dev/rootfs";
       dr_is_root_device := true; dr_is_read_only := false |}).
Definition test_put_network_interface : bool :=
  served (lit "/network-interfaces/eth0")
    (put_network_interface sock {| ni_iface_id := lit "eth0"; ni_host_dev_name := lit "tap-vm0" |}).
Definition test_instance_start : bool := served (lit "/actions") (instance_start sock).
Definition test_wait_for_socket_already_exists : bool := res_is_ok (fst (wait_for_socket sock [])).
End Accepting.

Definition test_api_error_response_propagates : bool :=
  match fst (put_machine_config (H := server_host (lit "HTTP/1.1 400 Bad Request")) (H0 := test_json) sock
               {| mc_vcpu_count := 1; mc_mem_size_mib := 128; mc_smt := false |}%N []) with
  | Err e => contains e (lit "400")
  | Ok _ => false
  end.

Definition firecracker_api_tests : list bool :=
  [test_put_machine_config; test_put_boot_source; test_put_drive; test_put_network_interface; test_instance_start;
   test_api_error_response_propagates; test_wait_for_socket_already_exists].
Example firecracker_api_tests_pass : forallb id firecracker_api_tests = true.
Proof. vm_compute. reflexivity. Qed.
