(* ===== verification/BuildTypes.v ===== *)
(** * build-system: data types and interfaces
      (src/build-system/src/types.rs, src/build-system/src/traits.rs)

    The build graph, layer metadata and release manifest, and the five traits
    the orchestrator is written against, as classes over a state [W] of the
    outside world.  [BuildOs] is what the crate calls of the standard library
    and of [walkdir], [chrono], [hostname] and [uuid]: the file system,
    processes, clock and host name. *)

From S2P Require Import Prelude RustStd.

(** A call that did not return normally: an [anyhow::Error], known by its
    message, or a panic, which unwinds through every caller. *)
Inductive Failure := Error (msg : rstr) | Panic (msg : rstr).

(** ** types.rs *)

Inductive InputHash := mk_InputHash (s : rstr).
Inductive OutputHash := mk_OutputHash (s : rstr).
Definition input_text (h : InputHash) : rstr := let 'mk_InputHash s := h in s.
Definition output_text (h : OutputHash) : rstr := let 'mk_OutputHash s := h in s.

#[export] Instance InputHash_eqdec : EqDecision InputHash.
Proof. solve_decision. Defined.
#[export] Instance OutputHash_eqdec : EqDecision OutputHash.
Proof. solve_decision. Defined.
#[export] Instance InputHash_count : Countable InputHash.
Proof. refine (inj_countable' input_text mk_InputHash _). by intros []. Defined.
#[export] Instance OutputHash_count : Countable OutputHash.
Proof. refine (inj_countable' output_text mk_OutputHash _). by intros []. Defined.

Record LayerArtifacts := {
  la_deploy_artifact : rstr; la_build_cache_artifact : rstr; la_output_hash : OutputHash;
}.

Record LayerMetadata := {
  ld_input_hash : InputHash; ld_output_hash : OutputHash; ld_parent_input_hash : option InputHash;
  ld_size_bytes : N; ld_size_compressed_bytes : N; ld_build_timestamp : N;
  ld_builder_version : rstr; ld_build_host : rstr;
}.

Record BuildMetadata := {
  bd_dockerfile_hash : rstr; bd_build_timestamp : N; bd_builder_version : rstr; bd_build_host : rstr;
}.

Record ManifestLayer := {
  mf_name : rstr; mf_order : N; mf_input_hash : InputHash; mf_output_hash : OutputHash;
  mf_size_bytes : N; mf_size_compressed_bytes : N; mf_parent_input_hash : option InputHash;
}.

Record ReleaseManifest := {
  rl_schema_version : rstr; rl_manifest_id : rstr; rl_build_metadata : BuildMetadata;
  rl_layers : list ManifestLayer; rl_workload_metadata : gmap rstr rstr;
}.

Record ParsedStage := {
  ps_name : rstr; ps_parent_name : option rstr; ps_layer_name : rstr; ps_order : N;
  ps_instructions : list rstr;
}.

Record ReleaseMetadata := { rs_layer_order : list rstr; rs_workload_meta : gmap rstr rstr }.
Record BuildGraph := { bg_stages : list ParsedStage; bg_release_meta : ReleaseMetadata }.

(** ** traits.rs *)

Record SolveRequest := {
  sr_stage_name : rstr; sr_dockerfile_path : rstr; sr_context_path : rstr;
  sr_parent_cache_override : option (rstr * rstr); sr_export_dir : rstr;
}.

Inductive ArtifactFormat := Deploy | BuildCache.

Class BuildEngine (W : Type) := solve_stage : SolveRequest → SM W Failure rstr.

Class LayerFormat (W : Type) := {
  pack : rstr → rstr → SM W Failure LayerArtifacts;
  unpack_for_build : rstr → rstr → SM W Failure unit;
}.

Class StoreClient (W : Type) := {
  client_resolve : InputHash → SM W Failure (option OutputHash);
  client_pull : OutputHash → ArtifactFormat → rstr → SM W Failure LayerMetadata;
  client_publish_layer : LayerArtifacts → LayerMetadata → SM W Failure unit;
  client_publish_manifest : ReleaseManifest → SM W Failure rstr;
}.

Class DockerfileParser (W : Type) := parse : rstr → SM W Failure BuildGraph.

Class Hasher := compute_input_hash : ParsedStage → option InputHash → InputHash.

(** ** The operating system *)

(** One entry of a [WalkDir]. *)
Record WalkEntry := { we_is_file : bool; we_len : result Failure N }.

Class BuildOs (W : Type) := {
  (** [std::fs::read] *)
  fs_read : rstr → SM W Failure bytes;
  (** [std::fs::metadata(path)?.len()]; [Path::exists] tests for its success *)
  fs_len : rstr → SM W Failure N;
  fs_create_dir_all : rstr → SM W Failure unit;
  fs_remove_dir_all : rstr → SM W Failure unit;
  fs_remove_file : rstr → SM W Failure unit;
  (** the entries a [WalkDir] yields *)
  walkdir : rstr → W → list (result Failure WalkEntry) * W;
  (** [File::open], then what the successive [read] calls with a buffer of
      this size return, up to the end of the file or a failure *)
  file_reads : rstr → N → SM W Failure (list bytes * result Failure unit);
  (** [tokio::fs::File]: create or truncate, append, flush *)
  file_create : rstr → SM W Failure unit;
  file_write_all : rstr → bytes → SM W Failure unit;
  file_flush : rstr → SM W Failure unit;
  (** [Command::new(prog).args(args).status()], whether it was a success *)
  cmd_status : rstr → list rstr → SM W Failure bool;
  (** [chrono::Utc::now().timestamp()], milliseconds of [SystemTime::now()] *)
  clock_secs : W → Z * W;
  clock_millis : W → N * W;
  (** [hostname::get()?.to_string_lossy()] *)
  hostname : SM W Failure rstr;
  (** [Uuid::new_v4().to_string()] *)
  uuid_v4 : W → rstr * W;
}.

(** A call that cannot fail. *)
Definition total {W A} (f : W → A * W) : SM W Failure A := λ w, let '(a, w') := f w in (Ok a, w').

(** [as u64]. *)
Definition as_u64 (z : Z) : N := Z.to_N (z `mod` 2 ^ 64)%Z.
