(* ===== verification/BuildHasher.v ===== *)
(** * build-system: content addressing (src/build-system/src/hasher.rs)

    The input hash of a stage is the SHA-256 of its parent's hash and its
    normalised instructions; the output hash is that of a file.  The lemmas
    read the hashed bytes back: the separators make them unambiguous. *)

From S2P Require Import Prelude RustStd AsyncIo StoreTypes BuildTypes.

(** [Sha256::digest]; several [update] calls digest the concatenation. *)
Class Sha256 := sha256_digest : bytes → arr32.

Definition hash_sign : N := 35.
Definition newline : N := 10.

Definition normalize_instruction (instr : rstr) : rstr :=
  join_with (lit " ") (split_whitespace (up_to hash_sign instr)).

(** What is fed to the hasher. *)
Definition input_preimage (stage : ParsedStage) (parent_hash : option InputHash) : bytes :=
  match parent_hash with Some h => as_bytes (input_text h) | None => [] end ++ [x00] ++
  mjoin (map (λ instr,
    let normalized := normalize_instruction instr in
    if bool_decide (normalized = []) then [] else as_bytes normalized ++ [x0a]) (ps_instructions stage)).

Section Hashing.
Context `{Hex, Sha256}.

#[export] Instance RealHasher : Hasher := λ stage parent_hash,
  mk_InputHash (hex_encode (arr_bytes (sha256_digest (input_preimage stage parent_hash)))).

Definition compute_output_hash `{BuildOs W} (path : rstr) : SM W Failure OutputHash :=
  '(chunks, ending) ← file_reads path 8192;
  _ ← lift ending;
  mret (mk_OutputHash (hex_encode (arr_bytes (sha256_digest (mjoin chunks))))).
End Hashing.

(** ** Reading the preimage back *)

Lemma mjoin_cons {A} (l : list A) (ls : list (list A)) : mjoin (l :: ls) = l ++ mjoin ls.
Proof. done. Qed.

(** The instructions that count: normalised, the empty ones dropped. *)
Definition canonical (stage : ParsedStage) : list rstr :=
  filter (λ n, n ≠ []) (map normalize_instruction (ps_instructions stage)).

Definition parent_text (parent : option InputHash) : rstr := from_option input_text [] parent.

(** The hashed bytes as text. *)
Definition preimage_text (parent : option InputHash) (lines : list rstr) : rstr :=
  parent_text parent ++ [0%N] ++ mjoin (map (λ n, n ++ [newline]) lines).

Lemma input_preimage_text stage parent :
  input_preimage stage parent = as_bytes (preimage_text parent (canonical stage)).
Proof.
  unfold input_preimage, preimage_text, canonical. rewrite !as_bytes_app. f_equal; [by destruct parent|].
  change (as_bytes [0%N]) with [x00]. f_equal.
  induction (ps_instructions stage) as [|i l IH]; [done|].
  cbn [map]. rewrite filter_cons, mjoin_cons, IH.
  destruct (decide (normalize_instruction i = [])) as [Hn|Hn];
    [rewrite bool_decide_true, decide_False by (done || tauto)
    |rewrite bool_decide_false, decide_True by done]; [done|].
  cbn [map]. by rewrite mjoin_cons, !as_bytes_app.
Qed.

(** ** Characters of a normalised instruction *)

Lemma up_to_forall P c s : Forall P s → Forall P (up_to c s).
Proof. induction 1 as [|d s Hd _ IH]; cbn; [done|]. case_match; auto. Qed.

Lemma split_whitespace_forall P s :
  Forall P s → Forall (Forall (λ c, P c ∧ is_whitespace c = false)) (split_whitespace s).
Proof.
  induction 1 as [|c s Hc Hs IH]; cbn; [done|]. destruct (is_whitespace c) eqn:Hw; [done|].
  destruct s as [|d s]; [by repeat constructor|].
  destruct (is_whitespace d) eqn:Hd; [by repeat constructor|].
  destruct (split_whitespace (d :: s)) as [|p ps]; [by repeat constructor|].
  inversion IH; subst. by repeat constructor.
Qed.

Lemma join_with_forall (P : N → Prop) sep l :
  Forall P sep → Forall (Forall P) l → Forall P (join_with sep l).
Proof.
  intros Hs. induction 1 as [|p l Hp Hl IH]; cbn; [done|]. destruct l; [done|].
  rewrite !Forall_app. auto.
Qed.

Lemma normalize_chars P instr :
  P 32%N → Forall P instr →
  Forall (λ c, P c ∧ c ≠ newline) (normalize_instruction instr).
Proof.
  intros Hsp Hi. apply join_with_forall; [by repeat constructor|].
  eapply Forall_impl; [apply split_whitespace_forall, (up_to_forall P), Hi|].
  intros w Hw. eapply Forall_impl; [exact Hw|]. intros c [Hc Hn]. split; [done|]. by intros ->.
Qed.

(** A stage whose instructions are Rust strings. *)
Definition scalar_stage (stage : ParsedStage) : Prop :=
  Forall (Forall (λ c, is_scalar c = true)) (ps_instructions stage).

Lemma canonical_lines stage :
  scalar_stage stage →
  Forall (Forall (λ c, is_scalar c = true ∧ c ≠ newline)) (canonical stage).
Proof.
  intros Hs. unfold canonical. apply Forall_forall. intros n Hn.
  apply list_elem_of_filter in Hn as [_ Hn]. apply list_elem_of_fmap in Hn as (i & -> & Hi).
  apply normalize_chars; [done|]. by eapply (proj1 (Forall_forall _ _)) in Hs.
Qed.

(** ** Unambiguity *)

Lemma as_bytes_inj s t :
  Forall (λ c, is_scalar c = true) s → Forall (λ c, is_scalar c = true) t →
  as_bytes s = as_bytes t → s = t.
Proof.
  intros Hs Ht Heq. pose proof (from_utf8_as_bytes s Hs) as Hd. rewrite Heq in Hd.
  rewrite from_utf8_as_bytes in Hd by done. congruence.
Qed.

(** Two texts that end at the first separator. *)
Lemma sep_inj (c : N) a b u v :
  c ∉ a → c ∉ b → a ++ c :: u = b ++ c :: v → a = b ∧ u = v.
Proof.
  revert b. induction a as [|x a IH]; intros [|y b] Ha Hb Heq; cbn in Heq; simplify_eq.
  - done.
  - destruct Hb. left.
  - destruct Ha. left.
  - apply not_elem_of_cons in Ha as [_ Ha]. apply not_elem_of_cons in Hb as [_ Hb].
    by destruct (IH b Ha Hb) as [-> ->].
Qed.

Lemma lines_inj l m :
  Forall (λ n, newline ∉ n) l → Forall (λ n, newline ∉ n) m →
  mjoin (map (λ n, n ++ [newline]) l) = mjoin (map (λ n, n ++ [newline]) m) → l = m.
Proof.
  intros Hl. revert m. induction Hl as [|x l Hx _ IH]; intros m Hm; destruct Hm as [|y m Hy Hm].
  - done.
  - cbn. intros Heq%(f_equal length). rewrite !length_app in Heq. cbn in Heq. lia.
  - cbn. intros Heq%(f_equal length). rewrite !length_app in Heq. cbn in Heq. lia.
  - cbn [map]. rewrite !mjoin_cons, <- !app_assoc. intros Heq.
    apply sep_inj in Heq as [-> Heq]; [|done..]. f_equal. by apply IH.
Qed.

(** A parent hash as [hex::encode] writes it, or none. *)
Definition hex_parent (parent : option InputHash) : Prop :=
  match parent with
  | Some h => input_text h ≠ [] ∧ Forall (λ c, hex_digit c = true) (input_text h)
  | None => True
  end.

Lemma hex_parent_text parent :
  hex_parent parent → Forall (λ c, is_scalar c = true ∧ c ≠ 0%N) (parent_text parent).
Proof.
  destruct parent as [h|]; [|done]. intros [_ Hd]. eapply Forall_impl; [exact Hd|].
  intros c Hc. unfold hex_digit, is_scalar in *. lia.
Qed.

Lemma hex_parent_inj p q :
  hex_parent p → hex_parent q → parent_text p = parent_text q → p = q.
Proof.
  destruct p as [[s]|], q as [[t]|]; cbn; [|naive_solver..]. by intros _ _ ->.
Qed.

Lemma preimage_text_inj p q l m :
  hex_parent p → hex_parent q →
  Forall (λ n, newline ∉ n) l → Forall (λ n, newline ∉ n) m →
  preimage_text p l = preimage_text q m → p = q ∧ l = m.
Proof.
  intros Hp Hq Hl Hm Heq.
  assert (∀ r, hex_parent r → 0%N ∉ parent_text r) as Hz.
  { intros r Hr Hin. eapply (proj1 (Forall_forall _ _)) in Hin; [|by apply hex_parent_text]. naive_solver. }
  apply sep_inj in Heq as [Ht Hls]; [|by apply Hz..].
  split; [by apply hex_parent_inj|]. by apply lines_inj.
Qed.

(** The hashed bytes determine the parent hash and the canonical definition. *)
Lemma input_preimage_inj s t p q :
  scalar_stage s → scalar_stage t → hex_parent p → hex_parent q →
  input_preimage s p = input_preimage t q → p = q ∧ canonical s = canonical t.
Proof.
  intros Hs Ht Hp Hq. rewrite !input_preimage_text. intros Heq.
  assert (∀ st, scalar_stage st → Forall (λ n, newline ∉ n) (canonical st)) as Hnl.
  { intros st Hst. eapply Forall_impl; [by apply canonical_lines|]. intros n Hn Hin.
    by eapply (proj1 (Forall_forall _ _)) in Hn as [_ Hne]; [apply Hne|]. }
  assert (∀ st r, scalar_stage st → hex_parent r →
    Forall (λ c, is_scalar c = true) (preimage_text r (canonical st))) as Hsc.
  { intros st r Hst Hr. unfold preimage_text. apply Forall_app. split.
    { eapply Forall_impl; [by apply hex_parent_text|]. naive_solver. }
    constructor; [done|]. apply Forall_forall. intros c Hc.
    apply list_elem_of_join in Hc as (n & Hc & Hn). apply list_elem_of_fmap in Hn as (l & -> & Hl).
    apply canonical_lines in Hst. eapply (proj1 (Forall_forall _ _)) in Hst; [|exact Hl].
    apply elem_of_app in Hc as [Hc|Hc]; [|by apply list_elem_of_singleton in Hc as ->].
    by eapply (proj1 (Forall_forall _ _)) in Hst as [? _]. }
  apply as_bytes_inj in Heq; [|auto..]. apply preimage_text_inj in Heq; auto.
Qed.
