(* ===== verification/BuildParser.v ===== *)
(** * build-system: the Dockerfile parser (src/build-system/src/parser.rs)

    One pass over the lines with the stages closed so far, the open stage and
    the release metadata as state.  Indexing past the end of the words of a
    [FROM] line is the one panic of the parser and is a result of its own. *)

From S2P Require Import Prelude RustStd BuildTypes.

Definition dquote : N := 34.
Definition equals : N := 61.
Definition comma_char : N := 44.

Definition parse_label (line : rstr) : option (rstr * rstr) :=
  let line := trim (trim_start_matches (lit "LABEL") line) in
  match split_at_char equals line with
  | Some (before, after) => Some (trim before, trim_matches dquote (trim after))
  | None => None
  end.

(** The state of the pass. *)
Record PState := {
  pa_stages : list ParsedStage;
  pa_current : option ParsedStage;
  pa_release : option ReleaseMetadata;
}.

Definition closed (st : PState) : list ParsedStage :=
  pa_stages st ++ match pa_current st with Some stage => [stage] | None => [] end.

(** A [FROM] line (lines 21-53). *)
Definition parse_from (line : rstr) (st : PState) : result Failure PState :=
  let stages := closed st in
  let parts := split_whitespace line in
  let name :=
    match parts !! 2, parts !! 3 with
    | Some kw, Some name =>
        if bool_decide (to_uppercase kw = lit "AS") then name
        else lit "stage_" ++ dec (N.of_nat (length stages))
    | _, _ => lit "stage_" ++ dec (N.of_nat (length stages))
    end in
  parent_name ←
    (if bool_decide (stages = []) then mret None
     else match parts !! 1 with
          | None => Err (Panic (lit "index out of bounds"))
          | Some image =>
              if bool_decide (to_lowercase image = lit "scratch") then mret None
              else mret (ps_name ∘ snd <$> list_find (λ s, ps_name s = image) stages)
          end);
  mret {| pa_stages := stages;
          pa_current := Some {| ps_name := name; ps_parent_name := parent_name; ps_layer_name := [];
                                ps_order := 0; ps_instructions := [line] |};
          pa_release := pa_release st |}.

Definition push_instruction (line : rstr) (stage : ParsedStage) : ParsedStage :=
  {| ps_name := ps_name stage; ps_parent_name := ps_parent_name stage;
     ps_layer_name := ps_layer_name stage; ps_order := ps_order stage;
     ps_instructions := ps_instructions stage ++ [line] |}.
Definition set_layer_name (name : rstr) (stage : ParsedStage) : ParsedStage :=
  {| ps_name := ps_name stage; ps_parent_name := ps_parent_name stage;
     ps_layer_name := name; ps_order := ps_order stage; ps_instructions := ps_instructions stage |}.
Definition set_order (order : N) (stage : ParsedStage) : ParsedStage :=
  {| ps_name := ps_name stage; ps_parent_name := ps_parent_name stage;
     ps_layer_name := ps_layer_name stage; ps_order := order;
     ps_instructions := ps_instructions stage |}.

(** What a [LABEL] line does to the open stage (lines 55-69). *)
Definition label_stage (line : rstr) (stage : ParsedStage) : result Failure ParsedStage :=
  let stage := push_instruction line stage in
  match parse_label line with
  | Some (key, value) =>
      if bool_decide (key = lit "steel.layer") then mret (set_layer_name value stage)
      else if bool_decide (key = lit "steel.layer.order") then
        order ← map_err Error (parse_u32 value);
        mret (set_order order stage)
      else mret stage
  | None => mret stage
  end.

(** What it does to the release metadata (lines 71-89). *)
Definition label_release (line : rstr) (release : option ReleaseMetadata) : option ReleaseMetadata :=
  match parse_label line with
  | Some (key, value) =>
      if starts_with key (lit "steel.release") || starts_with key (lit "steel.meta") then
        let meta := default {| rs_layer_order := []; rs_workload_meta := ∅ |} release in
        Some (if bool_decide (key = lit "steel.release.layers")
              then {| rs_layer_order := map trim (split_on comma_char value);
                      rs_workload_meta := rs_workload_meta meta |}
              else if starts_with key (lit "steel.meta.")
              then {| rs_layer_order := rs_layer_order meta;
                      rs_workload_meta :=
                        <[trim_start_matches (lit "steel.meta.") key := value]> (rs_workload_meta meta) |}
              else meta)
      else release
  | None => release
  end.

Definition with_current (current : option ParsedStage) (release : option ReleaseMetadata)
    (st : PState) : PState :=
  {| pa_stages := pa_stages st; pa_current := current; pa_release := release |}.

Definition parse_line (raw : rstr) (st : PState) : result Failure PState :=
  let line := trim raw in
  if bool_decide (line = []) || starts_with line (lit "#") then mret st
  else if starts_with (to_uppercase line) (lit "FROM") then parse_from line st
  else if starts_with (to_uppercase line) (lit "LABEL") then
    current ← match pa_current st with
              | Some stage => stage' ← label_stage line stage; mret (Some stage')
              | None => mret None
              end;
    mret (with_current current (label_release line (pa_release st)) st)
  else mret (with_current (push_instruction line <$> pa_current st) (pa_release st) st).

Fixpoint parse_lines (ls : list rstr) (st : PState) : result Failure PState :=
  match ls with
  | [] => mret st
  | l :: ls => st' ← parse_line l st; parse_lines ls st'
  end.

(** ** Validation *)

(** [.filter(..).map(|s| (s.layer_name, s)).collect()]: the last stage of a
    name stays. *)
Definition layer_stages (stages : list ParsedStage) : gmap rstr ParsedStage :=
  foldl (λ m s, if bool_decide (ps_layer_name s = []) then m else <[ps_layer_name s := s]> m) ∅ stages.

Fixpoint check_orders (i : nat) (orders : list N) : result Failure unit :=
  match orders with
  | [] => mret tt
  | order :: rest =>
      if bool_decide (order ≠ (N.of_nat i mod 2 ^ 32)%N)
      then Err (Error (lit "Layer orders must be contiguous starting from 0, found gap or wrong start at "
                       ++ dec order))
      else check_orders (S i) rest
  end.

Fixpoint check_layers (defined : gmap rstr ParsedStage) (names : list rstr) : result Failure unit :=
  match names with
  | [] => mret tt
  | layer_name :: rest =>
      if bool_decide (is_Some (defined !! layer_name)) then check_layers defined rest
      else Err (Error (lit "Layer " ++ layer_name ++
                       lit " referenced in release but not defined in any stage"))
  end.

Definition validate_graph (stages : list ParsedStage) (meta : ReleaseMetadata) : result Failure unit :=
  let layer_stages := layer_stages stages in
  _ ← check_layers layer_stages (rs_layer_order meta);
  check_orders 0 (sort_by N.compare (ps_order ∘ snd <$> map_to_list layer_stages)).

(** [parse] on the text of the file. *)
Definition parse_content (content : rstr) : result Failure BuildGraph :=
  st ← parse_lines (lines content) {| pa_stages := []; pa_current := None; pa_release := None |};
  let stages := closed st in
  release_meta ← ok_or (pa_release st) (Error (lit "Missing steel.release=" ++ [dquote] ++ lit "true"
                                              ++ [dquote] ++ lit " label"));
  _ ← validate_graph stages release_meta;
  mret {| bg_stages := stages; bg_release_meta := release_meta |}.

#[export] Instance RealDockerfileParser `{BuildOs W} : DockerfileParser W := λ dockerfile,
  data ← fs_read dockerfile;
  content ← lift (ok_or (from_utf8 data) (Error (lit "stream did not contain valid UTF-8")));
  lift (parse_content content).

(** ** Parents come first *)

(** Every parent is the name of an earlier stage. *)
Definition parents_first (stages : list ParsedStage) : Prop :=
  ∀ before s after p, stages = before ++ s :: after → ps_parent_name s = Some p →
    p ∈ map ps_name before.

Lemma parents_first_snoc stages s :
  parents_first stages → (∀ p, ps_parent_name s = Some p → p ∈ map ps_name stages) →
  parents_first (stages ++ [s]).
Proof.
  intros Hl Hs before t after p Heq Hp. destruct after as [|u after _] using rev_ind.
  - apply app_inj_tail in Heq as [-> ->]. by apply Hs.
  - rewrite app_comm_cons, app_assoc in Heq. apply app_inj_tail in Heq as [Heq _].
    by eapply Hl.
Qed.

Lemma parents_first_init stages s : parents_first (stages ++ [s]) → parents_first stages.
Proof.
  intros Hl before t after p -> Hp. eapply (Hl before t (after ++ [s])); [|done].
  by rewrite <- app_assoc.
Qed.

(** Only the last stage changes, and neither its name nor its parent. *)
Lemma parents_first_last stages s t :
  ps_parent_name t = ps_parent_name s → parents_first (stages ++ [s]) → parents_first (stages ++ [t]).
Proof.
  intros Hp Hl. apply parents_first_snoc; [by eapply parents_first_init|].
  intros p. rewrite Hp. by eapply (Hl stages s []).
Qed.

Lemma label_stage_parent line s s' : label_stage line s = Ok s' → ps_parent_name s' = ps_parent_name s.
Proof.
  unfold label_stage. destruct (parse_label line) as [[k v]|]; [|by intros [= <-]].
  case_bool_decide; [by intros [= <-]|]. case_bool_decide; [|by intros [= <-]].
  destruct (parse_u32 v); [|done]. by intros [= <-].
Qed.

Lemma parse_from_parent line st st' :
  parents_first (closed st) → parse_from line st = Ok st' → parents_first (closed st').
Proof.
  intros Hl. unfold parse_from. destruct (bool_decide (closed st = [])) eqn:He.
  - intros [= <-]. by apply parents_first_snoc.
  - destruct (split_whitespace line !! 1) as [image|]; [|done].
    destruct (bool_decide (to_lowercase image = lit "scratch")).
    + intros [= <-]. by apply parents_first_snoc.
    + intros [= <-]. apply parents_first_snoc; [done|]. cbn. intros p Hp.
      apply fmap_Some in Hp as ([i s] & Hf & ->). apply list_find_Some in Hf as (Hs & _ & _).
      apply list_elem_of_fmap. exists s. split; [done|]. by eapply list_elem_of_lookup_2.
Qed.

Lemma parse_line_parents raw st st' :
  parents_first (closed st) → parse_line raw st = Ok st' → parents_first (closed st').
Proof.
  intros Hl. unfold parse_line. case_match; [by intros [= <-]|]. case_match; [by apply parse_from_parent|].
  destruct st as [stages [s|] rel]; unfold closed, with_current in *; cbn in *.
  - case_match; [|intros [= <-]; by apply (parents_first_last _ s)].
    destruct (label_stage (trim raw) s) as [s'|] eqn:Hs; [|done]. intros [= <-].
    apply (parents_first_last _ s); [|exact Hl]. by eapply label_stage_parent.
  - case_match; by intros [= <-].
Qed.

Lemma parse_lines_parents ls st st' :
  parents_first (closed st) → parse_lines ls st = Ok st' → parents_first (closed st').
Proof.
  revert st. induction ls as [|l ls IH]; intros st Hl; cbn; [by intros [= <-]|].
  destruct (parse_line l st) as [st1|] eqn:H1; [|done]. apply IH. by eapply parse_line_parents.
Qed.

(** ** Layers *)

Lemma layer_stages_snoc stages s :
  layer_stages (stages ++ [s]) =
  if bool_decide (ps_layer_name s = []) then layer_stages stages
  else <[ps_layer_name s := s]> (layer_stages stages).
Proof. unfold layer_stages. by rewrite foldl_app. Qed.

Lemma layer_stages_elem stages n s :
  layer_stages stages !! n = Some s → s ∈ stages ∧ ps_layer_name s = n ∧ n ≠ [].
Proof.
  induction stages as [|t stages IH] using rev_ind.
  { change (layer_stages []) with (∅ : gmap rstr ParsedStage). by rewrite lookup_empty. }
  rewrite layer_stages_snoc, elem_of_app. case_bool_decide as Ht; [naive_solver|].
  rewrite lookup_insert_Some. intros [[<- <-]|[_ Hs]]; [|naive_solver].
  split; [right; by apply list_elem_of_singleton|done].
Qed.

Lemma layer_stages_defined stages s :
  s ∈ stages → ps_layer_name s ≠ [] → is_Some (layer_stages stages !! ps_layer_name s).
Proof.
  induction stages as [|t stages IH] using rev_ind; [by intros ?%not_elem_of_nil|].
  rewrite layer_stages_snoc, elem_of_app, list_elem_of_singleton. intros [Hs| ->] Hn.
  - case_bool_decide; [auto|]. rewrite lookup_insert_is_Some'. auto.
  - rewrite bool_decide_false by done. by rewrite lookup_insert_eq.
Qed.

Lemma check_layers_ok defined names :
  check_layers defined names = Ok tt ↔ Forall (λ n, is_Some (defined !! n)) names.
Proof.
  induction names as [|n names IH]; cbn; [by split; [constructor|]|]. rewrite Forall_cons, <- IH.
  case_bool_decide; split; intros; naive_solver.
Qed.

Lemma check_orders_ok i orders :
  check_orders i orders = Ok tt ↔
  orders = map (λ j, N.of_nat j mod 2 ^ 32)%N (seq i (length orders)).
Proof.
  revert i. induction orders as [|o orders IH]; intros i; cbn [check_orders length seq map]; [done|].
  case_bool_decide as Ho; [split; [done|]; intros Heq; injection Heq; tauto|].
  rewrite IH. assert (o = N.of_nat i mod 2 ^ 32)%N as <- by (apply dec_stable; tauto).
  split; [by intros <-|congruence].
Qed.

Lemma small_orders n :
  (N.of_nat n ≤ 2 ^ 32)%N →
  map (λ j, N.of_nat j mod 2 ^ 32)%N (seq 0 n) = map N.of_nat (seq 0 n).
Proof.
  intros Hn. apply map_ext_in. intros j Hj. apply in_seq in Hj. apply N.mod_small. lia.
Qed.

Definition layer_orders (stages : list ParsedStage) : list N :=
  ps_order ∘ snd <$> map_to_list (layer_stages stages).

Lemma validate_graph_ok stages meta :
  validate_graph stages meta = Ok tt ↔
  Forall (λ n, is_Some (layer_stages stages !! n)) (rs_layer_order meta) ∧
  sort_by N.compare (layer_orders stages) =
    map (λ j, N.of_nat j mod 2 ^ 32)%N (seq 0 (size (layer_stages stages))).
Proof.
  unfold validate_graph. rewrite <- check_layers_ok.
  assert (length (sort_by N.compare (layer_orders stages)) = size (layer_stages stages)) as Hlen.
  { rewrite sort_by_perm. unfold layer_orders. by rewrite length_fmap, length_map_to_list. }
  rewrite <- Hlen, <- check_orders_ok. unfold layer_orders.
  destruct (check_layers _ _) as [[]|e]; cbn; naive_solver.
Qed.

(** ** Panics *)

(** A [FROM] line names an image. *)
Definition from_operand (raw : rstr) : Prop :=
  starts_with (to_uppercase (trim raw)) (lit "FROM") = true →
  2 ≤ length (split_whitespace (trim raw)).

Definition panics {A} (r : result Failure A) : Prop := ∃ m, r = Err (Panic m).

Lemma label_stage_no_panic line s : ¬ panics (label_stage line s).
Proof.
  intros [m Hm]. unfold label_stage in Hm. destruct (parse_label line) as [[k v]|]; [|done].
  case_bool_decide; [done|]. case_bool_decide; [|done]. by destruct (parse_u32 v).
Qed.

Lemma parse_line_no_panic raw st : from_operand raw → ¬ panics (parse_line raw st).
Proof.
  intros Hop [m Hm]. unfold parse_line in Hm. case_match; [done|].
  destruct (starts_with (to_uppercase (trim raw)) (lit "FROM")) eqn:Hf.
  - unfold parse_from in Hm. specialize (Hop Hf). destruct (bool_decide (closed st = [])); [done|].
    destruct (split_whitespace (trim raw) !! 1) as [image|] eqn:Hi;
      [|apply lookup_ge_None in Hi; lia].
    by destruct (bool_decide (to_lowercase image = lit "scratch")).
  - case_match; [|done]. destruct (pa_current st) as [s|]; [|done].
    destruct (label_stage (trim raw) s) as [s'|e] eqn:Hs; [done|].
    cbn in Hm. simplify_eq. by apply (label_stage_no_panic (trim raw) s); exists m.
Qed.

Lemma parse_lines_no_panic ls st : Forall from_operand ls → ¬ panics (parse_lines ls st).
Proof.
  intros Hls. revert st. induction Hls as [|l ls Hl _ IH]; intros st; [by intros [m ?]|].
  cbn. pose proof (parse_line_no_panic l st Hl) as Hp.
  destruct (parse_line l st) as [st'|e]; [apply IH|]. intros [m Hm]. apply Hp. by exists m.
Qed.

Lemma validate_no_panic stages meta : ¬ panics (validate_graph stages meta).
Proof.
  assert (∀ i l, ¬ panics (check_orders i l)) as Ho.
  { intros i l. revert i. induction l as [|o l IH]; intros i [m Hm]; cbn in Hm; [done|].
    case_bool_decide; [done|]. by apply (IH (S i)); exists m. }
  assert (∀ d l, ¬ panics (check_layers d l)) as Hl.
  { intros d l. induction l as [|n l IH]; intros [m Hm]; cbn in Hm; [done|].
    case_bool_decide; [|done]. by apply IH; exists m. }
  intros [m Hm]. unfold validate_graph in Hm.
  destruct (check_layers _ _) as [[]|e] eqn:Hc; cbn in Hm.
  - by eapply Ho; exists m.
  - simplify_eq. by eapply Hl; exists m.
Qed.
