(* ===== verification/BuildOrchestrator.v ===== *)
(** * build-system: the build loop (src/build-system/src/orchestrator.rs)

    [build] over the five interfaces: parse, execute the stages in order with
    the store as a cache, assemble the manifest, publish it. *)

From S2P Require Import Prelude RustStd AsyncIo StoreTypes BuildTypes BuildHasher.

Record StageResult := {
  st_input_hash : InputHash; st_output_hash : OutputHash; st_was_cache_hit : bool;
}.

(** [env!("CARGO_PKG_VERSION")]. *)
Definition CARGO_PKG_VERSION : rstr := lit "0.1.0".

(** [total_size += len] over the files (src/build-system/src/converter.rs). *)
Fixpoint sum_files (entries : list (result Failure WalkEntry)) (total_size : N) : result Failure N :=
  match entries with
  | [] => mret total_size
  | entry :: rest =>
      entry ← entry;
      if we_is_file entry then
        len ← we_len entry;
        sum_files rest ((total_size + len) mod 2 ^ 64)%N
      else sum_files rest total_size
  end.

Definition get_dir_size `{BuildOs W} (path : rstr) : SM W Failure N :=
  entries ← total (walkdir path);
  lift (sum_files entries 0).

(** The result maps of the loop. *)
Definition Results : Type := gmap rstr StageResult * gmap rstr LayerMetadata.

Section Build.
Context {W : Type} `{BuildOs W, DockerfileParser W, Hasher, BuildEngine W, LayerFormat W, StoreClient W}.
Context `{Hex, Sha256} (scratch_dir : rstr).
Local Abbreviation M := (SM W Failure).

(** [Path::exists]. *)
Definition path_present (path : rstr) : M bool :=
  r ← attempt (fs_len path);
  mret (match (r : result Failure N) with Ok _ => true | Err _ => false end).

(** The directory a stage is built in (lines 89-101). *)
Definition fresh_stage_dir (stage : ParsedStage) : M rstr :=
  let stage_dir := join scratch_dir (ps_name stage) in
  present ← path_present stage_dir;
  if (present : bool) then
    removed ← attempt (fs_remove_dir_all stage_dir);
    match (removed : result Failure unit) with
    | Ok _ => mret stage_dir
    | Err _ =>
        now ← total clock_millis;
        mret (join scratch_dir (ps_name stage ++ lit "-" ++ dec now))
    end
  else mret stage_dir.

(** The parent's build cache, when the parent was not built in this session
    (lines 110-133). *)
Definition parent_override (stage_results : gmap rstr StageResult) (stage_dir : rstr)
    (stage : ParsedStage) : M (option (rstr * rstr)) :=
  match ps_parent_name stage with
  | Some parent_name =>
      parent_res ← lift (ok_or (stage_results !! parent_name) (Error (lit "Parent result missing")));
      if st_was_cache_hit parent_res then
        let oci_dir := join stage_dir (lit "parent_oci") in
        _ ← fs_create_dir_all oci_dir;
        _ ← client_pull (st_output_hash parent_res) BuildCache oci_dir;
        _ ← unpack_for_build (join oci_dir (lit "layer.oci.tar.zst")) oci_dir;
        mret (Some (parent_name, oci_dir))
      else mret None
  | None => mret None
  end.

(** [SolveRequest] of a stage. *)
Definition solve_request (dockerfile : rstr) (stage : ParsedStage)
    (override : option (rstr * rstr)) (rootfs_dir : rstr) : SolveRequest :=
  {| sr_stage_name := ps_name stage; sr_dockerfile_path := dockerfile;
     sr_context_path := default (lit ".") (path_parent dockerfile);
     sr_parent_cache_override := override; sr_export_dir := rootfs_dir |}.

(** A cache miss: build, pack and publish the stage (lines 88-161). *)
Definition build_stage (dockerfile : rstr) (stage_results : gmap rstr StageResult)
    (stage : ParsedStage) (input_hash : InputHash) (parent_input : option InputHash)
  : M LayerMetadata :=
  stage_dir ← fresh_stage_dir stage;
  let rootfs_dir := join stage_dir (lit "rootfs") in
  let artifact_dir := join stage_dir (lit "artifacts") in
  _ ← fs_create_dir_all rootfs_dir;
  _ ← fs_create_dir_all artifact_dir;
  override ← parent_override stage_results stage_dir stage;
  _ ← solve_stage (solve_request dockerfile stage override rootfs_dir);
  artifacts ← pack rootfs_dir artifact_dir;
  deploy_size ← fs_len (la_deploy_artifact artifacts);
  uncompressed ← attempt (get_dir_size rootfs_dir);
  now ← total clock_secs;
  host ← hostname;
  let meta := {| ld_input_hash := input_hash; ld_output_hash := la_output_hash artifacts;
                 ld_parent_input_hash := parent_input;
                 ld_size_bytes := default 0%N (res_ok (uncompressed : result Failure N));
                 ld_size_compressed_bytes := deploy_size; ld_build_timestamp := as_u64 now;
                 ld_builder_version := CARGO_PKG_VERSION; ld_build_host := host |} in
  _ ← client_publish_layer artifacts meta;
  mret meta.

(** The parent's input hash, and the stage's (lines 60-68). *)
Definition parent_input_hash (stage_results : gmap rstr StageResult) (stage : ParsedStage)
  : option InputHash :=
  st_input_hash <$> (ps_parent_name stage ≫= λ name, stage_results !! name).
Definition stage_input_hash (stage_results : gmap rstr StageResult) (stage : ParsedStage) : InputHash :=
  compute_input_hash stage (parent_input_hash stage_results stage).

(** Both maps with the outcome of a stage. *)
Definition record (stage : ParsedStage) (res : StageResult) (meta : LayerMetadata) (acc : Results)
  : Results :=
  (<[ps_name stage := res]> (fst acc), <[ps_layer_name stage := meta]> (snd acc)).

(** One stage (lines 59-173). *)
Definition exec_stage (dockerfile : rstr) (stage : ParsedStage) (acc : Results) : M Results :=
  let input_hash := stage_input_hash (fst acc) stage in
  resolved ← client_resolve input_hash;
  match resolved with
  | Some content_hash =>
      meta ← client_pull content_hash BuildCache (lit "");
      mret (record stage {| st_input_hash := input_hash; st_output_hash := content_hash;
                            st_was_cache_hit := true |} meta acc)
  | None =>
      meta ← build_stage dockerfile (fst acc) stage input_hash (parent_input_hash (fst acc) stage);
      mret (record stage {| st_input_hash := input_hash; st_output_hash := ld_output_hash meta;
                            st_was_cache_hit := false |} meta acc)
  end.

(** The manifest's layers (lines 176-191). *)
Definition manifest_layer (i : nat) (name : rstr) (meta : LayerMetadata) : ManifestLayer :=
  {| mf_name := name; mf_order := (N.of_nat i mod 2 ^ 32)%N; mf_input_hash := ld_input_hash meta;
     mf_output_hash := ld_output_hash meta; mf_size_bytes := ld_size_bytes meta;
     mf_size_compressed_bytes := ld_size_compressed_bytes meta;
     mf_parent_input_hash := ld_parent_input_hash meta |}.

Fixpoint manifest_layers (i : nat) (names : list rstr) (layer_metas : gmap rstr LayerMetadata)
  : result Failure (list ManifestLayer) :=
  match names with
  | [] => mret []
  | name :: names =>
      meta ← ok_or (layer_metas !! name) (Error (lit "Missing metadata for layer " ++ name));
      rest ← manifest_layers (S i) names layer_metas;
      mret (manifest_layer i name meta :: rest)
  end.

Definition build (dockerfile : rstr) : M ReleaseManifest :=
  graph ← parse dockerfile;
  dockerfile_content ← fs_read dockerfile;
  let dockerfile_hash := hex_encode (arr_bytes (sha256_digest dockerfile_content)) in
  results ← for_each (bg_stages graph) ((∅, ∅) : Results) (exec_stage dockerfile);
  layers ← lift (manifest_layers 0 (rs_layer_order (bg_release_meta graph)) (snd results));
  manifest_id ← total uuid_v4;
  now ← total clock_secs;
  host ← hostname;
  let manifest := {| rl_schema_version := lit "1.0"; rl_manifest_id := manifest_id;
                     rl_build_metadata :=
                       {| bd_dockerfile_hash := dockerfile_hash; bd_build_timestamp := as_u64 now;
                          bd_builder_version := CARGO_PKG_VERSION; bd_build_host := host |};
                     rl_layers := layers;
                     rl_workload_metadata := rs_workload_meta (bg_release_meta graph) |} in
  _ ← client_publish_manifest manifest;
  mret manifest.
End Build.
