(* ===== verification/BuildMocks.v ===== *)
(** * build-system: the mocks and the orchestrator's tests
      (src/build-system/src/mocks.rs, src/build-system/src/lib.rs; the test of parser.rs)

    The interfaces of the build loop implemented as the tests do it: an engine
    that counts its runs, a layer format that creates empty artifacts, a store
    of two maps, a fixed graph and a hash of the layer's name.  The operating
    system stays a parameter.  Over these mocks a second build of the same
    graph runs the engine for no stage, whatever the graph. *)

From S2P Require Import Prelude RustStd AsyncIo StoreTypes Instances BuildTypes BuildHasher BuildParser BuildOrchestrator.

(** What the mocks share, next to the state of the host. *)
Record Mocks (W : Type) := mk_mocks {
  mk_os : W;
  solve_count : nat;
  input_to_output : gmap InputHash OutputHash;
  layers : gmap OutputHash LayerMetadata;
}.
Arguments mk_mocks {W}.
Arguments mk_os {W}.
Arguments solve_count {W}.
Arguments input_to_output {W}.
Arguments layers {W}.

Section Mocks.
Context {W : Type} `{BuildOs W}.
Local Abbreviation M := (SM (Mocks W) Failure).

(** A call to the host. *)
Definition mocks_with_os (os : W) (m : Mocks W) : Mocks W :=
  mk_mocks os (solve_count m) (input_to_output m) (layers m).
Definition on_os {A} (f : W → A * W) (m : Mocks W) : A * Mocks W :=
  let '(a, os) := f (mk_os m) in (a, mocks_with_os os m).

#[export] Instance mocks_os : BuildOs (Mocks W) := {|
  fs_read p := on_os (fs_read p); fs_len p := on_os (fs_len p);
  fs_create_dir_all p := on_os (fs_create_dir_all p); fs_remove_dir_all p := on_os (fs_remove_dir_all p);
  fs_remove_file p := on_os (fs_remove_file p); walkdir p := on_os (walkdir p);
  file_reads p n := on_os (file_reads p n); file_create p := on_os (file_create p);
  file_write_all p bs := on_os (file_write_all p bs); file_flush p := on_os (file_flush p);
  cmd_status prog args := on_os (cmd_status prog args); clock_secs := on_os clock_secs;
  clock_millis := on_os clock_millis; hostname := on_os hostname; uuid_v4 := on_os uuid_v4 |}.

#[export] Instance MockBuildEngine : BuildEngine (Mocks W) := λ req m,
  (Ok (sr_export_dir req), mk_mocks (mk_os m) (S (solve_count m)) (input_to_output m) (layers m)).

Definition MockLayerFormat_pack (source_dir output_dir : rstr) : M LayerArtifacts :=
  let deploy := join output_dir (lit "layer.ext4.zst") in
  let cache := join output_dir (lit "layer.oci.tar.zst") in
  _ ← fs_create_dir_all output_dir;
  _ ← file_create deploy;
  _ ← file_create cache;
  mret {| la_deploy_artifact := deploy; la_build_cache_artifact := cache;
          la_output_hash := mk_OutputHash (lit "mock_output_hash") |}.

#[export] Instance MockLayerFormat : LayerFormat (Mocks W) := {|
  pack := MockLayerFormat_pack; unpack_for_build _ _ := mret tt |}.

Definition mock_resolve (hash : InputHash) : M (option OutputHash) := λ m, (Ok (input_to_output m !! hash), m).
Definition mock_pull (content_hash : OutputHash) (format : ArtifactFormat) (target : rstr) : M LayerMetadata := λ m,
  (ok_or (layers m !! content_hash) (Error (lit "Layer not found")), m).
Definition mock_publish_layer (artifacts : LayerArtifacts) (meta : LayerMetadata) : M unit := λ m,
  (Ok tt, mk_mocks (mk_os m) (solve_count m) (<[ld_input_hash meta := ld_output_hash meta]> (input_to_output m))
            (<[ld_output_hash meta := meta]> (layers m))).
Definition mock_publish_manifest (manifest : ReleaseManifest) : M rstr := mret (lit "mock_manifest_id").

#[export] Instance MockStoreClient : StoreClient (Mocks W) := {|
  client_resolve := mock_resolve; client_pull := mock_pull;
  client_publish_layer := mock_publish_layer; client_publish_manifest := mock_publish_manifest |}.

Definition MockParser (graph : BuildGraph) : DockerfileParser (Mocks W) := λ _, mret graph.
End Mocks.

Definition MockHasher : Hasher := λ stage _, mk_InputHash (lit "mock_input_hash_" ++ ps_layer_name stage).

(** ** Building twice *)

Section Rebuild.
Context {W : Type} `{BuildOs W, Hex, Sha256} (graph : BuildGraph) (scratch_dir dockerfile : rstr).
Local Abbreviation M := (SM (Mocks W) Failure).
Local Existing Instance MockHasher.
#[local] Instance mock_parser : DockerfileParser (Mocks W) := MockParser graph.

Definition mock_hash (stage : ParsedStage) : InputHash := mk_InputHash (lit "mock_input_hash_" ++ ps_layer_name stage).

(** The store has the layer of this hash. *)
Definition cached (m : Mocks W) (h : InputHash) : Prop :=
  ∃ out, input_to_output m !! h = Some out ∧ is_Some (layers m !! out).

(** [f] leaves the store alone; it does not run the engine either. *)
Definition same_store (m m' : Mocks W) : Prop := input_to_output m' = input_to_output m ∧ layers m' = layers m.
Definition idle {A} (f : Mocks W → A * Mocks W) : Prop :=
  ∀ m, same_store m (snd (f m)) ∧ solve_count (snd (f m)) = solve_count m.

Lemma idle_on_os {A} (f : W → A * W) : idle (on_os f).
Proof. intros m. unfold on_os. by destruct (f (mk_os m)). Qed.
Lemma idle_ret {A} (a : A) : idle (mret a : M A).
Proof. done. Qed.
Lemma idle_lift {A} (r : result Failure A) : idle (lift r : M A).
Proof. done. Qed.
Lemma idle_total {A} (f : Mocks W → A * Mocks W) : idle f → idle (total f).
Proof. intros Hf m. specialize (Hf m). unfold total. by destruct (f m). Qed.
Lemma idle_attempt {A} (f : M A) : idle f → idle (attempt f : M (result Failure A)).
Proof. intros Hf m. specialize (Hf m). unfold attempt. by destruct (f m). Qed.
Lemma idle_bind {A B} (f : M A) (g : A → M B) : idle f → (∀ a, idle (g a)) → idle (f ≫= g).
Proof.
  intros Hf Hg m. specialize (Hf m). unfold mbind, SM_bind. destruct (f m) as [[a|e] m1]; [|done].
  destruct Hf as [[Hi Hl] Hc], (Hg a m1) as [[Hi2 Hl2] Hc2]. cbn in *. split; [split|]; congruence.
Qed.
Lemma idle_resolve h : idle (client_resolve (W := Mocks W) h).
Proof. done. Qed.
Lemma idle_pull h f t : idle (client_pull (W := Mocks W) h f t).
Proof. done. Qed.
Lemma idle_manifest m : idle (client_publish_manifest (W := Mocks W) m).
Proof. done. Qed.

Ltac idle_tac := repeat first
  [ apply idle_ret | apply idle_lift | apply idle_resolve | apply idle_pull | apply idle_manifest | apply idle_on_os
  | apply idle_total | apply idle_attempt | (apply idle_bind; [|intros ?]) | case_match ].

Lemma idle_pack s o : idle (pack (W := Mocks W) s o).
Proof. cbn [pack MockLayerFormat]. unfold MockLayerFormat_pack. idle_tac. Qed.
Lemma idle_fresh stage : idle (fresh_stage_dir scratch_dir stage).
Proof. unfold fresh_stage_dir, path_present. idle_tac. Qed.
Lemma idle_override results dir stage : idle (parent_override results dir stage).
Proof. unfold parent_override. idle_tac. Qed.
Lemma idle_dir_size p : idle (get_dir_size p).
Proof. unfold get_dir_size. idle_tac. Qed.

(** The store only gains layers. *)
Lemma cached_same m m' h : same_store m m' → cached m h → cached m' h.
Proof. intros [Hi Hl] (out & Ho & Hm). exists out. by rewrite Hi, Hl. Qed.

Lemma cached_published m a meta h :
  cached m h ∨ h = ld_input_hash meta → cached (snd (mock_publish_layer a meta m)) h.
Proof.
  intros Hh. unfold cached. cbn. destruct (decide (h = ld_input_hash meta)) as [->|Hne].
  - exists (ld_output_hash meta). rewrite !lookup_insert_eq. eauto.
  - destruct Hh as [(out & Ho & Hm)|]; [|done]. exists out. rewrite lookup_insert_ne by done. split; [done|].
    destruct (decide (out = ld_output_hash meta)) as [->|]; [by rewrite lookup_insert_eq|by rewrite lookup_insert_ne].
Qed.

Definition gains {A} (f : M A) : Prop := ∀ m r m' h, f m = (r, m') → cached m h → cached m' h.

Lemma gains_idle {A} (f : M A) : idle f → gains f.
Proof. intros Hf m r m' h Hrun. destruct (Hf m) as [Hs _]. rewrite Hrun in Hs. by apply cached_same. Qed.
Lemma gains_bind {A B} (f : M A) (g : A → M B) : gains f → (∀ a, gains (g a)) → gains (f ≫= g).
Proof.
  intros Hf Hg m r m' h Hrun Hc. unfold mbind, SM_bind in Hrun. destruct (f m) as [[a|e] m1] eqn:Hf1.
  - eapply Hg; [exact Hrun|]. by eapply Hf.
  - injection Hrun as _ <-. by eapply Hf.
Qed.
Lemma gains_solve req : gains (solve_stage req).
Proof. by intros m r m' h [= _ <-]. Qed.
Lemma gains_publish a meta : gains (client_publish_layer a meta).
Proof. intros m r m' h [= _ <-] Hc. apply (cached_published m a meta h). by left. Qed.

Lemma gains_build_stage results stage ih parent : gains (build_stage scratch_dir dockerfile results stage ih parent).
Proof.
  unfold build_stage. repeat first
    [ apply gains_solve | apply gains_publish
    | apply gains_idle; first [apply idle_fresh|apply idle_override|apply idle_pack|apply idle_attempt, idle_dir_size|solve [idle_tac]]
    | apply gains_bind; [|intros ?] ].
Qed.

(** A stage that was built is in the store. *)
Lemma build_stage_caches results stage ih parent m meta m' :
  build_stage scratch_dir dockerfile results stage ih parent m = (Ok meta, m') → cached m' ih.
Proof.
  intros Hrun. unfold build_stage in Hrun. do 10 apply bind_ok in Hrun as (? & ? & _ & Hrun).
  apply bind_ok in Hrun as (? & ? & [= _ <-] & [= <- <-]).
  eexists. cbn. rewrite !lookup_insert_eq. eauto.
Qed.

Lemma exec_stage_caches stage acc m acc' m' :
  exec_stage scratch_dir dockerfile stage acc m = (Ok acc', m') →
  cached m' (mock_hash stage) ∧ ∀ h, cached m h → cached m' h.
Proof.
  intros Hrun. unfold exec_stage in Hrun. apply bind_ok in Hrun as (resolved & m1 & [= Hres <-] & Hrun).
  destruct resolved as [out|].
  - apply bind_ok in Hrun as (meta & m2 & [= Hpull <-] & [= _ <-]). split; [|done]. exists out. split; [done|].
    destruct (layers m !! out); [by eexists|done].
  - apply bind_ok in Hrun as (meta & m2 & Hb & [= _ <-]). split; [by eapply build_stage_caches|].
    intros h. by eapply gains_build_stage.
Qed.

(** A stage in the store is not built. *)
Lemma exec_stage_hit stage acc m :
  cached m (mock_hash stage) → ∃ acc', exec_stage scratch_dir dockerfile stage acc m = (Ok acc', m).
Proof.
  intros (out & Ho & [meta Hm]). unfold exec_stage, mbind, SM_bind. cbn [client_resolve MockStoreClient].
  unfold mock_resolve. change (stage_input_hash (fst acc) stage) with (mock_hash stage). rewrite Ho.
  cbn [client_pull MockStoreClient]. unfold mock_pull. rewrite Hm. eauto.
Qed.

Lemma stages_hit stages acc m :
  (∀ stage, stage ∈ stages → cached m (mock_hash stage)) →
  ∃ acc', for_each stages acc (exec_stage scratch_dir dockerfile) m = (Ok acc', m).
Proof.
  revert acc. induction stages as [|stage stages IH]; intros acc Hc; cbn [for_each]; [by eexists|].
  destruct (exec_stage_hit stage acc m (Hc stage (list_elem_of_here _ _))) as [acc1 ->].
  apply IH. intros st Hst. apply Hc. by right.
Qed.

(** Building again runs the engine for no stage.  After a successful build,
    a second build of the same graph finds every stage in the store: it makes
    no engine run and publishes no layer, whatever its result. *)
Theorem mock_rebuild_is_cached m manifest m1 r m2 :
  build scratch_dir dockerfile m = (Ok manifest, m1) → build scratch_dir dockerfile m1 = (r, m2) →
  solve_count m2 = solve_count m1 ∧ same_store m1 m2.
Proof.
  intros Hrun1 Hrun2.
  assert (∀ stage, stage ∈ bg_stages graph → cached m1 (mock_hash stage)) as Hall.
  { unfold build in Hrun1. apply bind_ok in Hrun1 as (g & ma & [= <- <-] & Hrun1).
    apply bind_ok in Hrun1 as (content & mb & _ & Hrun1).
    apply bind_ok in Hrun1 as (results & mc & Hloop & Hrun1).
    assert (∀ stage, stage ∈ bg_stages graph → cached mc (mock_hash stage)) as Hc.
    { revert Hloop. apply (for_each_inv (λ done _ m, ∀ stage, stage ∈ done → cached m (mock_hash stage))).
      - intros done stage acc s acc1 s1 HI _ Hex stage'.
        destruct (exec_stage_caches _ _ _ _ _ Hex) as [Hnew Hold].
        intros [Hin| ->%list_elem_of_singleton]%elem_of_app; auto.
      - by intros ? ?%not_elem_of_nil. }
    intros stage Hst. match type of Hrun1 with ?f mc = _ => assert (idle f) as Hidle by idle_tac end.
    exact (gains_idle _ Hidle _ _ _ _ Hrun1 (Hc stage Hst)). }
  unfold build in Hrun2. rewrite (bind_run _ _ m1 (Ok graph) m1) in Hrun2 by done.
  destruct (fs_read dockerfile m1) as [[content|e] mb] eqn:Hread; rewrite (bind_run _ _ _ _ _ Hread) in Hrun2;
    pose proof (idle_on_os (fs_read dockerfile) m1) as [Hsame Hcount];
    change (on_os (fs_read dockerfile) m1) with (fs_read dockerfile m1) in Hsame, Hcount;
    rewrite Hread in Hsame, Hcount; [|by injection Hrun2 as _ <-].
  destruct (stages_hit (bg_stages graph) (∅, ∅) mb) as [results Hloop].
  { intros stage Hst. by eapply cached_same, Hall. }
  rewrite (bind_run _ _ _ _ _ Hloop) in Hrun2.
  match type of Hrun2 with ?f mb = _ => assert (idle f) as Hidle by idle_tac end.
  destruct (Hidle mb) as [[Hi Hl] Hc]. rewrite Hrun2 in Hi, Hl, Hc. destruct Hsame as [Hi0 Hl0]. cbn in *.
  split; [congruence|]. split; congruence.
Qed.
End Rebuild.

(** ** The tests of lib.rs *)

Module MockTests.
#[local] Existing Instances ref_hex MockHasher.
#[local] Instance mock_sha : Sha256 := ref_sha256.
(** A host with the Dockerfile and a scratch directory. *)
#[local] Instance test_os : BuildOs unit := {|
  fs_read p := λ w, (Ok (as_bytes (lit "FROM debian AS base")), w); fs_len p := λ w, (Ok 0%N, w);
  fs_create_dir_all p := λ w, (Ok tt, w); fs_remove_dir_all p := λ w, (Ok tt, w);
  fs_remove_file p := λ w, (Ok tt, w); walkdir p := λ w, ([], w); file_reads p n := λ w, (Ok ([], Ok tt), w);
  file_create p := λ w, (Ok tt, w); file_write_all p bs := λ w, (Ok tt, w); file_flush p := λ w, (Ok tt, w);
  cmd_status prog args := λ w, (Ok true, w); clock_secs := λ w, (1%Z, w); clock_millis := λ w, (1000%N, w);
  hostname := λ w, (Ok (lit "builder"), w); uuid_v4 := λ w, (lit "uuid", w) |}.

Definition base_stage : ParsedStage :=
  {| ps_name := lit "base"; ps_parent_name := None; ps_layer_name := lit "base-os"; ps_order := 0;
     ps_instructions := [lit "FROM debian"] |}%N.
Definition app_stage : ParsedStage :=
  {| ps_name := lit "app"; ps_parent_name := Some (lit "base"); ps_layer_name := lit "app-code"; ps_order := 1;
     ps_instructions := [lit "COPY . ."] |}%N.

Definition build_flow_graph : BuildGraph :=
  {| bg_stages := [base_stage; app_stage];
     bg_release_meta := {| rs_layer_order := [lit "base-os"; lit "app-code"]; rs_workload_meta := ∅ |} |}.
Definition cache_hit_graph : BuildGraph :=
  {| bg_stages := [base_stage]; bg_release_meta := {| rs_layer_order := [lit "base-os"]; rs_workload_meta := ∅ |} |}.

(** The layers of the manifest, name and output hash, and the engine runs. *)
Definition outcome (r : result Failure ReleaseManifest * Mocks unit) : option (list (rstr * OutputHash)) * nat :=
  ((λ m, (λ l, (mf_name l, mf_output_hash l)) <$> rl_layers m) <$> res_ok (fst r), solve_count (snd r)).

Definition build_with (graph : BuildGraph) (m : Mocks unit) : result Failure ReleaseManifest * Mocks unit :=
  build (H0 := MockParser graph) (lit "/tmp/scratch") (lit "/tmp/alloy") m.

Definition test_orchestrator_build_flow : result Failure ReleaseManifest * Mocks unit :=
  build_with build_flow_graph (mk_mocks tt 0 ∅ ∅).
Example build_flow_passes :
  outcome test_orchestrator_build_flow =
  (Some [(lit "base-os", mk_OutputHash (lit "mock_output_hash"));
         (lit "app-code", mk_OutputHash (lit "mock_output_hash"))], 2).
Proof. vm_compute. reflexivity. Qed.

Definition pre_built : OutputHash := mk_OutputHash (lit "pre-built-output").
Definition base_os_hash : InputHash := mk_InputHash (lit "mock_input_hash_base-os").
Definition pre_built_meta : LayerMetadata :=
  {| ld_input_hash := base_os_hash; ld_output_hash := pre_built; ld_parent_input_hash := None;
     ld_size_bytes := 100; ld_size_compressed_bytes := 50; ld_build_timestamp := 12345;
     ld_builder_version := lit "0.1.0"; ld_build_host := lit "remote-builder" |}%N.
Definition test_orchestrator_cache_hit : result Failure ReleaseManifest * Mocks unit :=
  build_with cache_hit_graph (mk_mocks tt 0 {[ base_os_hash := pre_built ]} {[ pre_built := pre_built_meta ]}).
Example cache_hit_passes :
  outcome test_orchestrator_cache_hit = (Some [(lit "base-os", pre_built)], 0).
Proof. vm_compute. reflexivity. Qed.

Lemma mock_rebuild_is_cached_witness :
  solve_count (snd (build_with build_flow_graph (snd test_orchestrator_build_flow))) = 2.
Proof.
  assert (∃ manifest, test_orchestrator_build_flow = (Ok manifest, snd test_orchestrator_build_flow)) as [manifest Hrun].
  { eexists. apply run_eq. vm_compute. reflexivity. }
  rewrite (proj1 (mock_rebuild_is_cached build_flow_graph (lit "/tmp/scratch") (lit "/tmp/alloy") _ _ _ _ _ Hrun
    (surjective_pairing (build_with build_flow_graph (snd test_orchestrator_build_flow))))).
  vm_compute. reflexivity.
Defined.
End MockTests.

(** ** The test of parser.rs *)

Definition quoted (s : rstr) : rstr := [34%N] ++ s ++ [34%N].
Definition test_dockerfile : rstr := join_with [10%N]
  [[]; lit "FROM debian:bookworm-slim AS base_os"; lit "LABEL steel.layer=" ++ quoted (lit "base-os");
   lit "LABEL steel.layer.order=" ++ quoted (lit "0"); lit "RUN apt-get update"; [];
   lit "FROM base_os AS platform"; lit "LABEL steel.layer=" ++ quoted (lit "platform");
   lit "LABEL steel.layer.order=" ++ quoted (lit "1"); lit "COPY steel-init /usr/local/bin/"; [];
   lit "FROM scratch AS release"; lit "LABEL steel.release=" ++ quoted (lit "true");
   lit "LABEL steel.release.layers=" ++ quoted (lit "base-os,platform");
   lit "LABEL steel.meta.vcpus=" ++ quoted (lit "4"); lit "        "; []].
Definition test_parse_valid_dockerfile : option (nat * list rstr * option rstr) :=
  (λ g, (length (bg_stages g), rs_layer_order (bg_release_meta g),
         rs_workload_meta (bg_release_meta g) !! lit "vcpus")) <$> res_ok (parse_content test_dockerfile).
Example parse_valid_dockerfile_passes :
  test_parse_valid_dockerfile = Some (3, [lit "base-os"; lit "platform"], Some (lit "4")).
Proof. vm_compute. reflexivity. Qed.
