(* ===== verification/BuildTrace.v ===== *)
(** * build-system: the environment of a build

    The interfaces of the build loop instantiated by an environment that
    answers every call, given all calls before it with their answers
    ([BuildEnv]): what holds for every [BuildEnv] holds for every parser,
    engine, layer format, store and host.  The state is the log of the calls.
    [stages_run] is the loop as a relation on the calls that matter: cache
    look-ups and pulls, engine runs and publications. *)

From S2P Require Import Prelude RustStd AsyncIo StoreTypes BuildTypes BuildHasher BuildParser BuildOrchestrator.

Inductive Call :=
| CRead (p : rstr) | CLen (p : rstr) | CMkdir (p : rstr) | CRmdir (p : rstr) | CRemove (p : rstr)
| CWalk (p : rstr) | CReads (p : rstr) (n : N) | CCreate (p : rstr) | CWrite (p : rstr) (bs : bytes)
| CFlush (p : rstr) | CStatus (prog : rstr) (args : list rstr) | CSecs | CMillis | CHostname | CUuid
| CParse (p : rstr) | CSolve (req : SolveRequest) | CPack (src out : rstr) | CUnpack (a t : rstr)
| CResolve (h : InputHash) | CPull (h : OutputHash) (f : ArtifactFormat) (t : rstr)
| CPublish (a : LayerArtifacts) (m : LayerMetadata) | CManifest (m : ReleaseManifest).

(** What a call answers; the ones that cannot fail answer a plain value. *)
Definition answer (c : Call) : Type :=
  match c with
  | CRead _ => result Failure bytes
  | CLen _ => result Failure N
  | CWalk _ => list (result Failure WalkEntry)
  | CReads _ _ => result Failure (list bytes * result Failure unit)
  | CStatus _ _ => result Failure bool
  | CSecs => Z
  | CMillis => N
  | CHostname => result Failure rstr
  | CUuid => rstr
  | CParse _ => result Failure BuildGraph
  | CSolve _ => result Failure rstr
  | CPack _ _ => result Failure LayerArtifacts
  | CResolve _ => result Failure (option OutputHash)
  | CPull _ _ _ => result Failure LayerMetadata
  | CManifest _ => result Failure rstr
  | _ => result Failure unit
  end.

Definition Step : Type := {c : Call & answer c}.
Definition step (c : Call) (a : answer c) : Step := existT c a.

Class BuildEnv := build_answer : list Step → ∀ c : Call, answer c.

Section Env.
Context `{BuildEnv}.

Definition ask (c : Call) : list Step → answer c * list Step := λ log,
  let a := build_answer log c in (a, log ++ [step c a]).

#[export] Instance env_os : BuildOs (list Step) := {|
  fs_read p := ask (CRead p); fs_len p := ask (CLen p); fs_create_dir_all p := ask (CMkdir p);
  fs_remove_dir_all p := ask (CRmdir p); fs_remove_file p := ask (CRemove p);
  walkdir p := ask (CWalk p); file_reads p n := ask (CReads p n); file_create p := ask (CCreate p);
  file_write_all p bs := ask (CWrite p bs); file_flush p := ask (CFlush p);
  cmd_status prog args := ask (CStatus prog args); clock_secs := ask CSecs; clock_millis := ask CMillis;
  hostname := ask CHostname; uuid_v4 := ask CUuid |}.
#[export] Instance env_parser : DockerfileParser (list Step) := λ p, ask (CParse p).
#[export] Instance env_engine : BuildEngine (list Step) := λ req, ask (CSolve req).
#[export] Instance env_format : LayerFormat (list Step) := {|
  pack s o := ask (CPack s o); unpack_for_build a t := ask (CUnpack a t) |}.
#[export] Instance env_store : StoreClient (list Step) := {|
  client_resolve h := ask (CResolve h); client_pull h f t := ask (CPull h f t);
  client_publish_layer a m := ask (CPublish a m); client_publish_manifest m := ask (CManifest m) |}.
End Env.

(** ** The calls that matter *)

Definition observed (s : Step) : bool :=
  match projT1 s with
  | CParse _ | CResolve _ | CPull _ _ _ | CSolve _ | CPublish _ _ | CManifest _ => true
  | _ => false
  end.
Definition observe : list Step → list Step := filter (λ s, observed s = true).

Lemma observe_app l1 l2 : observe (l1 ++ l2) = observe l1 ++ observe l2.
Proof. apply filter_app. Qed.

Section Trace.
Context `{BuildEnv, Hasher, Hex, Sha256}.
Local Abbreviation M := (SM (list Step) Failure).

(** What a successful run of [m] adds, as far as it is observed. *)
Definition shows {A} (m : M A) (Q : A → list Step → Prop) : Prop :=
  traces m (λ r new, ∀ a, r = Ok a → Q a (observe new)).

Lemma shows_run {A} (m : M A) Q log a log' :
  shows m Q → m log = (Ok a, log') → ∃ new, log' = log ++ new ∧ Q a (observe new).
Proof. intros Hm Hrun. destruct (Hm _ _ _ Hrun) as (new & ? & ?). eauto. Qed.

Lemma shows_ret {A} (a : A) (Q : A → list Step → Prop) : Q a [] → shows (mret a) Q.
Proof. intros HQ. apply traces_ret. by intros a' [= <-]. Qed.

Lemma shows_lift {A} (r : result Failure A) (Q : A → list Step → Prop) :
  (∀ a, r = Ok a → Q a []) → shows (lift r) Q.
Proof. intros HQ. apply traces_lift. exact HQ. Qed.

Lemma shows_bind {A B} (m : M A) (f : A → M B) (Q : B → list Step → Prop) :
  shows m (λ a l, shows (f a) (λ b l', Q b (l ++ l'))) → shows (m ≫= f) Q.
Proof.
  intros Hm. apply traces_bind. eapply traces_mono; [|exact Hm]. intros [a|e] new Hnew; [|done].
  eapply traces_mono; [|exact (Hnew a eq_refl)]. intros r new' Hr b Hb.
  rewrite observe_app. by apply Hr.
Qed.

Lemma shows_mono {A} (m : M A) (Q Q' : A → list Step → Prop) :
  (∀ a l, Q a l → Q' a l) → shows m Q → shows m Q'.
Proof. intros HQ. apply traces_mono. eauto. Qed.

(** A silent computation adds nothing that is observed. *)
Definition silent {A} (m : M A) : Prop := shows m (λ _ l, l = []).

Lemma silent_bind {A B} (m : M A) (f : A → M B) : silent m → (∀ a, silent (f a)) → silent (m ≫= f).
Proof.
  intros Hm Hf. apply shows_bind. eapply shows_mono; [|exact Hm]. intros a l ->. apply Hf.
Qed.

Lemma silent_then {A B} (m : M A) (f : A → M B) (Q : B → list Step → Prop) :
  silent m → (∀ a, shows (f a) Q) → shows (m ≫= f) Q.
Proof.
  intros Hm Hf. apply shows_bind. eapply shows_mono; [|exact Hm]. intros a l ->. apply Hf.
Qed.

(** A failure caught is silent when the call is. *)
Lemma silent_attempt {A} (m : M A) :
  traces m (λ _ new, observe new = []) → silent (attempt (F := Failure) m).
Proof.
  intros Hm log r log' Hrun. unfold attempt in Hrun. destruct (m log) as [r1 log1] eqn:Hm1.
  destruct (Hm _ _ _ Hm1) as (new & -> & Hn). simplify_eq. exists new. split; [done|]. by intros a [= <-].
Qed.

(** ** The loop as a relation *)

(** The pull of the parent's cache: made when the parent was a hit, and what
    the engine is then told. *)
Definition parent_pull (results : gmap rstr StageResult) (stage : ParsedStage)
    (override : option (rstr * rstr)) (pulls : list Step) : Prop :=
  match ps_parent_name stage with
  | None => override = None ∧ pulls = []
  | Some name => ∃ res, results !! name = Some res ∧
      if st_was_cache_hit res
      then ∃ dir meta, override = Some (name, dir) ∧
             pulls = [step (CPull (st_output_hash res) BuildCache dir) (Ok meta)]
      else override = None ∧ pulls = []
  end.

Inductive stages_run : list ParsedStage → Results → list Step → Results → Prop :=
| run_nil acc : stages_run [] acc [] acc
| run_hit stage rest acc input h meta evs acc' :
    input = stage_input_hash (fst acc) stage →
    stages_run rest (record stage {| st_input_hash := input; st_output_hash := h;
                                     st_was_cache_hit := true |} meta acc) evs acc' →
    stages_run (stage :: rest) acc
      (step (CResolve input) (Ok (Some h)) :: step (CPull h BuildCache (lit "")) (Ok meta) :: evs) acc'
| run_miss stage rest acc input pulls req dir artifacts meta evs acc' :
    input = stage_input_hash (fst acc) stage →
    parent_pull (fst acc) stage (sr_parent_cache_override req) pulls →
    sr_stage_name req = ps_name stage →
    ld_input_hash meta = input → ld_output_hash meta = la_output_hash artifacts →
    ld_parent_input_hash meta = parent_input_hash (fst acc) stage →
    stages_run rest (record stage {| st_input_hash := input; st_output_hash := ld_output_hash meta;
                                     st_was_cache_hit := false |} meta acc) evs acc' →
    stages_run (stage :: rest) acc
      (step (CResolve input) (Ok None) :: pulls ++ step (CSolve req) (Ok dir)
       :: step (CPublish artifacts meta) (Ok tt) :: evs) acc'.
End Trace.

(** Close a goal about one call. *)
Ltac ask_tac :=
  intros ? ? ? [= <- <-]; eexists; split; [reflexivity|];
  let Heq := fresh in first [intros ? Heq; try (rewrite Heq); eauto | reflexivity].

Section Loop.
Context `{BuildEnv, Hasher, Hex, Sha256} (scratch_dir : rstr).
Local Abbreviation M := (SM (list Step) Failure).

Lemma silent_fresh_dir stage : silent (fresh_stage_dir scratch_dir stage).
Proof.
  unfold fresh_stage_dir, path_present. apply silent_bind.
  - apply silent_bind; [apply silent_attempt; ask_tac|intros; by apply shows_ret].
  - intros []; [|by apply shows_ret]. apply silent_bind; [apply silent_attempt; ask_tac|].
    intros []; [by apply shows_ret|]. apply silent_bind; [ask_tac|]. intros. by apply shows_ret.
Qed.

Lemma shows_override results dir stage :
  shows (parent_override results dir stage) (λ o l, parent_pull results stage o l).
Proof.
  unfold parent_override, parent_pull. destruct (ps_parent_name stage) as [name|]; [|by apply shows_ret].
  apply shows_bind, shows_lift. intros res Hres. destruct (results !! name) as [res'|]; [|done].
  injection Hres as ->. destruct (st_was_cache_hit res) eqn:Hhit.
  2: { apply shows_ret. exists res. by rewrite Hhit. }
  apply silent_then; [ask_tac|]. intros _. apply shows_bind.
  intros log r log' [= <- <-]. eexists. split; [reflexivity|]. intros meta ->.
  apply silent_then; [ask_tac|]. intros _. apply shows_ret. exists res. rewrite Hhit. eauto 6.
Qed.

Lemma traces_dir_size path : traces (get_dir_size path : M N) (λ _ new, observe new = []).
Proof.
  unfold get_dir_size. apply traces_bind. intros log r log' [= <- <-]. eexists. split; [reflexivity|].
  by apply traces_lift.
Qed.

(** What a miss shows after the look-up. *)
Definition built (results : gmap rstr StageResult) (stage : ParsedStage) (input : InputHash)
    (parent : option InputHash) (meta : LayerMetadata) (l : list Step) : Prop :=
  ∃ pulls req dir artifacts,
    parent_pull results stage (sr_parent_cache_override req) pulls ∧
    sr_stage_name req = ps_name stage ∧ ld_input_hash meta = input ∧
    ld_output_hash meta = la_output_hash artifacts ∧ ld_parent_input_hash meta = parent ∧
    l = pulls ++ [step (CSolve req) (Ok dir); step (CPublish artifacts meta) (Ok tt)].

Lemma shows_build_stage dockerfile results stage input parent :
  shows (build_stage scratch_dir dockerfile results stage input parent)
    (built results stage input parent).
Proof.
  unfold build_stage. apply silent_then; [apply silent_fresh_dir|]. intros stage_dir.
  apply silent_then; [ask_tac|]. intros _. apply silent_then; [ask_tac|]. intros _.
  apply shows_bind. eapply shows_mono; [|apply shows_override]. intros override pulls Hpulls.
  apply shows_bind. intros log r log' [= <- <-]. eexists. split; [reflexivity|]. intros dir ->.
  apply silent_then; [ask_tac|]. intros artifacts. apply silent_then; [ask_tac|]. intros deploy_size.
  apply silent_then; [apply silent_attempt, traces_dir_size|]. intros uncompressed. apply silent_then; [ask_tac|]. intros now.
  apply silent_then; [ask_tac|]. intros host. apply shows_bind.
  intros log1 r1 log1' [= <- <-]. eexists. split; [reflexivity|]. intros [] ->.
  apply shows_ret. exists pulls, (solve_request dockerfile stage override (join stage_dir (lit "rootfs"))), dir, artifacts.
  by split_and!.
Qed.

Lemma shows_exec dockerfile stage acc :
  shows (exec_stage scratch_dir dockerfile stage acc)
    (λ acc1 l, ∀ rest evs acc', stages_run rest acc1 evs acc' → stages_run (stage :: rest) acc (l ++ evs) acc').
Proof.
  unfold exec_stage. apply shows_bind. intros log r log' [= <- <-]. eexists. split; [reflexivity|].
  intros [h|] Hr; rewrite Hr; apply shows_bind.
  - intros log1 r1 log1' [= <- <-]. eexists. split; [reflexivity|]. intros meta ->.
    apply shows_ret. intros rest evs acc' Hrest. by eapply run_hit.
  - eapply shows_mono; [|apply shows_build_stage].
    intros meta l (pulls & req & dir & artifacts & Hp & Hn & Hi & Ho & Hpar & ->).
    apply shows_ret. intros rest evs acc' Hrest. rewrite app_nil_r.
    change (observe [step (CResolve (stage_input_hash (fst acc) stage)) (Ok None)])
      with [step (CResolve (stage_input_hash (fst acc) stage)) (Ok None)].
    cbn [app]. rewrite <- app_assoc. by eapply run_miss.
Qed.

Lemma shows_loop dockerfile stages acc :
  shows (for_each stages acc (exec_stage scratch_dir dockerfile)) (λ acc' l, stages_run stages acc l acc').
Proof.
  revert acc. induction stages as [|stage stages IH]; intros acc; [by apply shows_ret; constructor|].
  change (for_each (stage :: stages) acc (exec_stage scratch_dir dockerfile))
    with (exec_stage scratch_dir dockerfile stage acc ≫= λ acc1,
            for_each stages acc1 (exec_stage scratch_dir dockerfile)).
  apply shows_bind. eapply shows_mono; [|apply shows_exec]. intros acc1 l Hl.
  eapply shows_mono; [|apply IH]. intros acc' l' Hrest. by apply Hl.
Qed.

(** A successful build: the parser answered a graph, the stages ran, the
    manifest lists the layers, and publishing it was the last call. *)
Lemma shows_build dockerfile :
  shows (build scratch_dir dockerfile) (λ manifest l, ∃ graph results evs id,
    stages_run (bg_stages graph) (∅, ∅) evs results ∧
    manifest_layers 0 (rs_layer_order (bg_release_meta graph)) (snd results) = Ok (rl_layers manifest) ∧
    rl_workload_metadata manifest = rs_workload_meta (bg_release_meta graph) ∧
    l = step (CParse dockerfile) (Ok graph) :: evs ++ [step (CManifest manifest) (Ok id)]).
Proof.
  unfold build. apply shows_bind. intros log0 r0 log0' [= <- <-]. eexists. split; [reflexivity|].
  intros graph Hgraph. rewrite Hgraph. apply silent_then; [ask_tac|]. intros content. apply shows_bind. eapply shows_mono; [|apply shows_loop]. intros results evs Hrun.
  apply shows_bind, shows_lift. intros layers Hlayers.
  apply silent_then; [ask_tac|]. intros id. apply silent_then; [ask_tac|]. intros now.
  apply silent_then; [ask_tac|]. intros host. apply shows_bind.
  intros log r log' [= <- <-]. eexists. split; [reflexivity|]. intros mid ->.
  apply shows_ret. exists graph, results, evs, mid. cbn [app]. rewrite app_nil_r. auto.
Qed.
End Loop.
