(* ===== verification/BuildTheorems.v ===== *)
(** * build-system: the theorems

    What the input hash identifies, what the parser guarantees of a graph, and
    what a build does to the store and the engine, for every environment. *)

From S2P Require Import Prelude RustStd AsyncIo StoreTypes Instances BuildTypes BuildHasher BuildParser BuildOrchestrator BuildTrace.

(** ** Input hashes *)

Section HashTheorems.
Context `{HexOk, Sha256}.

(** The input hash of a chain of stages, the top one first. *)
Fixpoint chain_hash (chain : list ParsedStage) : option InputHash :=
  match chain with
  | [] => None
  | stage :: parents => Some (compute_input_hash stage (chain_hash parents))
  end.

(** What a chain feeds to SHA-256. *)
Fixpoint chain_preimages (chain : list ParsedStage) : list bytes :=
  match chain with
  | [] => []
  | stage :: parents => input_preimage stage (chain_hash parents) :: chain_preimages parents
  end.

Definition collision_free (l : list bytes) : Prop :=
  ∀ x y, x ∈ l → y ∈ l → sha256_digest x = sha256_digest y → x = y.

Lemma collision_free_Forall l :
  Forall (λ x, Forall (λ y, sha256_digest x = sha256_digest y → x = y) l) l → collision_free l.
Proof.
  intros Hl x y Hx Hy. eapply (proj1 (Forall_forall _ _)) in Hl; [|exact Hx].
  by eapply (proj1 (Forall_forall _ _)) in Hl; [exact Hl|].
Qed.

Lemma chain_hash_hex chain : hex_parent (chain_hash chain).
Proof.
  destruct chain as [|s ss]; [done|]. cbn. split; [|apply hex_encode_digits].
  intros Hnil%(f_equal length). rewrite hex_encode_length, arr_len in Hnil. done.
Qed.

Lemma compute_input_hash_inj s t p q :
  compute_input_hash s p = compute_input_hash t q →
  sha256_digest (input_preimage s p) = sha256_digest (input_preimage t q).
Proof.
  intros [= Heq]. apply arr32_eq. apply (f_equal hex_decode) in Heq.
  rewrite !hex_decode_encode in Heq. by injection Heq.
Qed.

(** [C11] The cache key identifies the build.  If two chains of stages have
    the same input hash and SHA-256 has no collision among the byte strings
    the two computations digest, then the chains have the same length and, stage by
    stage, the same canonical instructions. *)
Theorem input_hash_identifies c1 c2 :
  Forall scalar_stage c1 → Forall scalar_stage c2 →
  collision_free (chain_preimages c1 ++ chain_preimages c2) →
  chain_hash c1 = chain_hash c2 → map canonical c1 = map canonical c2.
Proof.
  intros Hs1. revert c2. induction Hs1 as [|s1 c1 Hs Hs1 IH]; intros c2 Hs2 Hcf Heq;
    destruct Hs2 as [|s2 c2 Ht Hs2]; [done..|].
  assert (compute_input_hash s1 (chain_hash c1) = compute_input_hash s2 (chain_hash c2)) as Hc
    by (apply (inj Some); exact Heq).
  apply compute_input_hash_inj, Hcf, input_preimage_inj in Hc as [Hp Hcan];
    auto using chain_hash_hex; [|cbn; set_solver..].
  cbn [map]. f_equal; [done|]. apply IH; [done| |done]. intros x y Hx Hy. apply Hcf; cbn; set_solver.
Qed.
End HashTheorems.

(** Only the canonical instructions count: stages that differ in white
    space, blank instructions or text after a hash sign share their hash under
    any parent. *)
Theorem input_hash_canonical `{Hex, Sha256} s t parent :
  canonical s = canonical t → compute_input_hash s parent = compute_input_hash t parent.
Proof.
  intros Heq. unfold compute_input_hash, RealHasher. by rewrite !input_preimage_text, Heq.
Qed.

(** ** Graphs *)

Lemma parse_content_inv content graph :
  parse_content content = Ok graph →
  parents_first (bg_stages graph) ∧ validate_graph (bg_stages graph) (bg_release_meta graph) = Ok tt.
Proof.
  unfold parse_content. destruct (parse_lines _ _) as [st|] eqn:Hst; [|done]. cbn.
  destruct (pa_release st) as [meta|]; [|done]. cbn.
  destruct (validate_graph _ _) as [[]|] eqn:Hv; [|done]. intros [= <-]. split; [|exact Hv].
  eapply parse_lines_parents; [|exact Hst]. intros [] ? ? ? ?; discriminate.
Qed.

Lemma parse_content_graph content graph :
  parse_content content = Ok graph →
  parents_first (bg_stages graph) ∧
  ∀ name, name ∈ rs_layer_order (bg_release_meta graph) →
    ∃ stage, stage ∈ bg_stages graph ∧ ps_layer_name stage = name.
Proof.
  intros [Hp [Hl _]%validate_graph_ok]%parse_content_inv. split; [done|]. intros name Hn.
  eapply (proj1 (Forall_forall _ _)) in Hl as [s Hs]; [|exact Hn].
  apply layer_stages_elem in Hs as (? & ? & _). eauto.
Qed.

(** [C22] A graph the parser accepts can be built in order: every parent is an
    earlier stage, every layer of the release is the layer of a stage, and the
    orders of the defined layers are exactly 0, 1, ..., one layer each. *)
Theorem parse_graph_ok content graph :
  parse_content content = Ok graph →
  parents_first (bg_stages graph) ∧
  (∀ name, name ∈ rs_layer_order (bg_release_meta graph) →
     ∃ stage, stage ∈ bg_stages graph ∧ ps_layer_name stage = name) ∧
  ((N.of_nat (size (layer_stages (bg_stages graph))) ≤ 2 ^ 32)%N →
     layer_orders (bg_stages graph) ≡ₚ map N.of_nat (seq 0 (size (layer_stages (bg_stages graph))))).
Proof.
  intros Hc. destruct (parse_content_graph _ _ Hc) as [Hp Hl]. split; [done|]. split; [done|].
  apply parse_content_inv in Hc as [_ [_ Ho]%validate_graph_ok].
  intros Hsmall. rewrite <- small_orders, <- Ho by done. symmetry. apply sort_by_perm.
Qed.

(** The parser panics only on a [FROM] line without an image: a text all
    of whose [FROM] lines have an operand is parsed or rejected with an error. *)
Theorem parse_no_panic content :
  Forall from_operand (lines content) → ¬ panics (parse_content content).
Proof.
  intros Hf [m Hm]. unfold parse_content in Hm.
  pose proof (parse_lines_no_panic (lines content)
    {| pa_stages := []; pa_current := None; pa_release := None |} Hf) as Hp.
  destruct (parse_lines _ _) as [st|e]; cbn in Hm; [|by apply Hp; exists m; simplify_eq].
  destruct (pa_release st) as [meta|]; [|done]. cbn in Hm.
  pose proof (validate_no_panic (closed st) meta) as Hv.
  destruct (validate_graph _ _) as [[]|e]; [done|]. apply Hv. exists m. by injection Hm as ->.
Qed.

(** ** Builds *)

Section BuildTheorems.
Context `{BuildEnv, Hasher, Hex, Sha256} (scratch_dir : rstr).

(** The layer entry carries this metadata. *)
Definition carries (l : ManifestLayer) (meta : LayerMetadata) : Prop :=
  mf_input_hash l = ld_input_hash meta ∧ mf_output_hash l = ld_output_hash meta ∧
  mf_size_bytes l = ld_size_bytes meta ∧ mf_size_compressed_bytes l = ld_size_compressed_bytes meta ∧
  mf_parent_input_hash l = ld_parent_input_hash meta.

(** The store confirmed the metadata in this run: it answered it for a hash it
    had resolved, or accepted it with the artifacts it describes. *)
Definition confirmed (evs : list Step) (meta : LayerMetadata) : Prop :=
  (∃ input h, step (CResolve input) (Ok (Some h)) ∈ evs ∧
     step (CPull h BuildCache (lit "")) (Ok meta) ∈ evs) ∨
  (∃ artifacts, step (CPublish artifacts meta) (Ok tt) ∈ evs ∧
     ld_output_hash meta = la_output_hash artifacts).

Lemma confirmed_app l evs meta : confirmed evs meta → confirmed (l ++ evs) meta.
Proof. unfold confirmed. setoid_rewrite elem_of_app. naive_solver. Qed.

Lemma stages_run_metas stages acc evs acc' :
  stages_run stages acc evs acc' → ∀ name meta, snd acc' !! name = Some meta →
  snd acc !! name = Some meta ∨
  (∃ stage, stage ∈ stages ∧ ps_layer_name stage = name) ∧ confirmed evs meta.
Proof.
  induction 1 as [acc|stage rest acc input h meta evs acc' _ _ IH
    |stage rest acc input pulls req dir artifacts meta evs acc' _ _ _ _ Ho _ _ IH]; intros name m Hm.
  - by left.
  - destruct (IH name m Hm) as [Hin|[(s & Hs & Hn) Hc]].
    + cbn [record snd] in Hin. apply lookup_insert_Some in Hin as [[<- <-]|[_ Hin]]; [|by left]. right.
      split; [exists stage; split; [left|done]|]. left. exists input, h. split; [left|right; left].
    + right. split; [exists s; split; [by right|done]|].
      by apply (confirmed_app [step (CResolve input) (Ok (Some h)); step (CPull h BuildCache (lit "")) (Ok meta)]).
  - destruct (IH name m Hm) as [Hin|[(s & Hs & Hn) Hc]].
    + cbn [record snd] in Hin. apply lookup_insert_Some in Hin as [[<- <-]|[_ Hin]]; [|by left]. right.
      split; [exists stage; split; [left|done]|]. right. exists artifacts. split; [|done].
      rewrite elem_of_cons, elem_of_app, !elem_of_cons. auto.
    + right. split; [exists s; split; [by right|done]|].
      rewrite app_comm_cons.
      apply confirmed_app. by apply (confirmed_app [step (CSolve req) (Ok dir); step (CPublish artifacts meta) (Ok tt)]).
Qed.

Lemma manifest_layers_ok i names metas layers :
  manifest_layers i names metas = Ok layers →
  map mf_name layers = names ∧
  map mf_order layers = map (λ j, N.of_nat j mod 2 ^ 32)%N (seq i (length names)) ∧
  ∀ l, l ∈ layers → ∃ meta, metas !! mf_name l = Some meta ∧ carries l meta.
Proof.
  revert i layers. induction names as [|name names IH]; intros i layers; cbn [manifest_layers].
  - intros [= <-]. split_and!; [done..|]. by intros l ?%not_elem_of_nil.
  - destruct (metas !! name) as [meta|] eqn:Hm; [|done]. cbn.
    destruct (manifest_layers (S i) names metas) as [rest|] eqn:Hr; [|done]. intros [= <-].
    destruct (IH _ _ Hr) as (Hn & Ho & Hl). cbn [map length seq]. rewrite Hn, Ho.
    split_and!; [done..|]. intros l [->|Hin]%elem_of_cons; [|by apply Hl]. by exists meta.
Qed.

(** [C10] A release is published last and lists only layers the store has
    confirmed.  When a build succeeds, the parser answered a graph, publishing
    the returned manifest is the last call, its layers are those of the
    release in order, numbered from 0, each is the layer of some stage, and each
    carries metadata which the store, earlier in the same build, either
    answered for a hash it resolved or accepted with its artifacts. *)
Theorem build_publishes_confirmed dockerfile log manifest log' :
  build scratch_dir dockerfile log = (Ok manifest, log') →
  ∃ new graph evs id, log' = log ++ new ∧
    observe new = step (CParse dockerfile) (Ok graph) :: evs ++ [step (CManifest manifest) (Ok id)] ∧
    map mf_name (rl_layers manifest) = rs_layer_order (bg_release_meta graph) ∧
    map mf_order (rl_layers manifest) =
      map (λ j, N.of_nat j mod 2 ^ 32)%N (seq 0 (length (rl_layers manifest))) ∧
    ∀ l, l ∈ rl_layers manifest → ∃ meta, carries l meta ∧ confirmed evs meta ∧
      ∃ stage, stage ∈ bg_stages graph ∧ ps_layer_name stage = mf_name l.
Proof.
  intros Hrun. destruct (shows_run _ _ _ _ _ (shows_build scratch_dir dockerfile) Hrun)
    as (new & -> & graph & results & evs & id & Hst & Hl & _ & Hobs).
  apply manifest_layers_ok in Hl as (Hn & Ho & Hl).
  exists new, graph, evs, id. split_and!; [done..| |].
  - rewrite Ho. rewrite <- Hn. by rewrite length_map.
  - intros l Hin. destruct (Hl l Hin) as (meta & Hm & Hc). exists meta. split; [done|].
    destruct (stages_run_metas _ _ _ _ Hst _ _ Hm) as [Hbad|[Hs Hconf]]; [|done].
    cbn [snd] in Hbad. by rewrite lookup_empty in Hbad.
Qed.

(** ** Incremental builds *)

(** The input hashes of the stages, from the graph alone. *)
Fixpoint plan (stages : list ParsedStage) (hashes : gmap rstr InputHash) : list InputHash :=
  match stages with
  | [] => []
  | stage :: rest =>
      let input := compute_input_hash stage (ps_parent_name stage ≫= λ name, hashes !! name) in
      input :: plan rest (<[ps_name stage := input]> hashes)
  end.

(** The cache look-ups of a run with their answers, and the stages the engine
    was asked to build. *)
Definition lookup_of (s : Step) : option (InputHash * option OutputHash) :=
  match projT1 s as c return answer c → option (InputHash * option OutputHash) with
  | CResolve h => λ r : result Failure (option OutputHash), pair h <$> res_ok r
  | _ => λ _, None
  end (projT2 s).
Definition lookups : list Step → list (InputHash * option OutputHash) := omap lookup_of.
Definition solved : list Step → list rstr :=
  omap (λ s, match projT1 s with CSolve req => Some (sr_stage_name req) | _ => None end).

(** The stages whose look-up was a miss. *)
Definition missed (stages : list ParsedStage) (found : list (InputHash * option OutputHash)) : list rstr :=
  omap (λ '(stage, (_, o)), match o with None => Some (ps_name stage) | Some _ => None end) (zip stages found).

Lemma parent_pull_silent results stage override pulls :
  parent_pull results stage override pulls → lookups pulls = [] ∧ solved pulls = [].
Proof.
  unfold parent_pull. destruct (ps_parent_name stage); [|by intros [_ ->]].
  intros (res & _ & Hp). destruct (st_was_cache_hit res); [|by destruct Hp as [_ ->]].
  by destruct Hp as (dir & meta & _ & ->).
Qed.

Lemma parent_input_hash_plan results stage :
  parent_input_hash results stage =
  (ps_parent_name stage ≫= λ name, (st_input_hash <$> results) !! name).
Proof. unfold parent_input_hash. destruct (ps_parent_name stage); [|done]. cbn. by rewrite lookup_fmap. Qed.

Lemma stages_run_plan stages acc evs acc' :
  stages_run stages acc evs acc' →
  map fst (lookups evs) = plan stages (st_input_hash <$> fst acc) ∧
  solved evs = missed stages (lookups evs).
Proof.
  induction 1 as [acc|stage rest acc input h meta evs acc' Hi _ [IH1 IH2]
    |stage rest acc input pulls req dir artifacts meta evs acc' Hi Hp Hn _ _ _ _ [IH1 IH2]]; [done|..].
  - change (lookups (step (CResolve input) (Ok (Some h)) :: step (CPull h BuildCache (lit "")) (Ok meta)
      :: evs)) with ((input, Some h) :: lookups evs).
    cbn [map fst plan]. split; [|exact IH2].
    subst input. unfold stage_input_hash in *. rewrite parent_input_hash_plan in *.
    cbn [record fst] in IH1. rewrite fmap_insert in IH1. cbn [st_input_hash] in IH1. by rewrite IH1.
  - destruct (parent_pull_silent _ _ _ _ Hp) as [Hl Hs].
    assert (lookups (step (CResolve input) (Ok None) :: pulls ++ step (CSolve req) (Ok dir)
      :: step (CPublish artifacts meta) (Ok tt) :: evs) = (input, None) :: lookups evs) as ->.
    { unfold lookups in *. cbn. by rewrite omap_app, Hl. }
    cbn [map fst plan]. split.
    + subst input. unfold stage_input_hash in *. rewrite parent_input_hash_plan in *.
      cbn [record fst] in IH1. rewrite fmap_insert in IH1. cbn [st_input_hash] in IH1. by rewrite IH1.
    + unfold solved, missed in *. cbn. rewrite omap_app, Hs. cbn. by rewrite Hn, IH2.
Qed.

(** [C16] Builds are incremental.  A successful build looks up every stage once,
    in order, under an input hash that depends on the graph alone (the stage's
    definition and its parent's input hash), and runs the engine on exactly the
    stages the store did not have, once each and in order. *)
Theorem build_incremental dockerfile log manifest log' :
  build scratch_dir dockerfile log = (Ok manifest, log') →
  ∃ new graph, log' = log ++ new ∧
    step (CParse dockerfile) (Ok graph) ∈ new ∧
    map fst (lookups (observe new)) = plan (bg_stages graph) ∅ ∧
    solved (observe new) = missed (bg_stages graph) (lookups (observe new)).
Proof.
  intros Hrun. destruct (shows_run _ _ _ _ _ (shows_build scratch_dir dockerfile) Hrun)
    as (new & -> & graph & results & evs & id & Hst & _ & _ & Hobs).
  destruct (stages_run_plan _ _ _ _ Hst) as [Hp Hs]. cbn [fst] in Hp. rewrite fmap_empty in Hp.
  exists new, graph. split; [done|]. split.
  { assert (step (CParse dockerfile) (Ok graph) ∈ observe new) as Hin by (rewrite Hobs; left).
    by apply list_elem_of_filter in Hin as [_ Hin]. }
  assert (lookups (observe new) = lookups evs ∧ solved (observe new) = solved evs) as [-> ->]; [|done].
  rewrite Hobs. unfold lookups, solved. cbn. by rewrite !omap_app, !app_nil_r.
Qed.
End BuildTheorems.

(** ** Completion *)

(** The call was answered without a failure. *)
Definition answered (c : Call) : answer c → Prop :=
  match c with
  | CWalk _ | CSecs | CMillis | CUuid => λ _, True
  | CRead _ => λ r : result Failure bytes, is_Some (res_ok r)
  | CLen _ => λ r : result Failure N, is_Some (res_ok r)
  | CReads _ _ => λ r : result Failure (list bytes * result Failure unit), is_Some (res_ok r)
  | CStatus _ _ => λ r : result Failure bool, is_Some (res_ok r)
  | CHostname => λ r : result Failure rstr, is_Some (res_ok r)
  | CParse _ => λ r : result Failure BuildGraph, is_Some (res_ok r)
  | CSolve _ => λ r : result Failure rstr, is_Some (res_ok r)
  | CPack _ _ => λ r : result Failure LayerArtifacts, is_Some (res_ok r)
  | CResolve _ => λ r : result Failure (option OutputHash), is_Some (res_ok r)
  | CPull _ _ _ => λ r : result Failure LayerMetadata, is_Some (res_ok r)
  | CManifest _ => λ r : result Failure rstr, is_Some (res_ok r)
  | CMkdir _ | CRmdir _ | CRemove _ | CCreate _ | CWrite _ _ | CFlush _ | CUnpack _ _ | CPublish _ _ =>
      λ r : result Failure unit, is_Some (res_ok r)
  end.

Section Completion.
Context `{BuildEnv, Hasher, Hex, Sha256} (scratch_dir dockerfile : rstr).
Local Abbreviation M := (SM (list Step) Failure).
Hypothesis Henv : ∀ log c, answered c (build_answer log c).

Definition succeeds {A} (m : M A) (P : A → Prop) : Prop :=
  ∀ log, ∃ a log', m log = (Ok a, log') ∧ P a.

Lemma succeeds_ret {A} (a : A) (P : A → Prop) : P a → succeeds (mret a) P.
Proof. intros Ha log. by exists a, log. Qed.

Lemma succeeds_bind {A B} (m : M A) (f : A → M B) P Q :
  succeeds m P → (∀ a, P a → succeeds (f a) Q) → succeeds (m ≫= f) Q.
Proof.
  intros Hm Hf log. destruct (Hm log) as (a & log1 & Hrun & Ha).
  destruct (Hf a Ha log1) as (b & log2 & Hrun2 & Hb). exists b, log2. split; [|done].
  unfold mbind, SM_bind. by rewrite Hrun.
Qed.

Lemma succeeds_any {A B} (m : M A) (f : A → M B) Q :
  succeeds m (λ _, True) → (∀ a, succeeds (f a) Q) → succeeds (m ≫= f) Q.
Proof. intros Hm Hf. eapply succeeds_bind; [exact Hm|]. auto. Qed.

Lemma succeeds_attempt {A} (m : M A) : succeeds (attempt (F := Failure) m) (λ _, True).
Proof. intros log. unfold attempt. destruct (m log) as [r log']. eauto. Qed.

Lemma succeeds_total {A} (f : list Step → A * list Step) : succeeds (total f) (λ _, True).
Proof. intros log. unfold total. destruct (f log) as [a log']. eauto. Qed.

Lemma res_ok_Some {E A} (r : result E A) : is_Some (res_ok r) → ∃ a, r = Ok a.
Proof. destruct r; [eauto|]. by intros [? ?]. Qed.

(** One fallible call. *)
Ltac ask_ok c :=
  let log := fresh "log" in
  let a := fresh "a" in
  let Ha := fresh "Ha" in
  intros log; destruct (res_ok_Some _ (Henv log c)) as [a Ha];
  exists a, (log ++ [step c (build_answer log c)]); split; [|exact I];
  change (build_answer log c = Ok a) in Ha; rewrite <- Ha; reflexivity.

Lemma succeeds_fresh_dir stage : succeeds (fresh_stage_dir scratch_dir stage) (λ _, True).
Proof.
  unfold fresh_stage_dir, path_present. eapply succeeds_any.
  { eapply succeeds_any; [apply succeeds_attempt|]. intros. by apply succeeds_ret. }
  intros []; [|by apply succeeds_ret]. eapply succeeds_any; [apply succeeds_attempt|].
  intros []; [by apply succeeds_ret|]. eapply succeeds_any; [apply succeeds_total|].
  intros. by apply succeeds_ret.
Qed.

Lemma succeeds_override results dir stage :
  (∀ p, ps_parent_name stage = Some p → is_Some (results !! p)) →
  succeeds (parent_override results dir stage) (λ _, True).
Proof.
  intros Hp. unfold parent_override. destruct (ps_parent_name stage) as [name|]; [|by apply succeeds_ret].
  destruct (Hp name eq_refl) as [res ->].
  eapply (succeeds_bind _ _ (λ r, r = res)); [intros log; by exists res, log|]. intros ? ->.
  destruct (st_was_cache_hit res); [|by apply succeeds_ret].
  eapply succeeds_any; [ask_ok (CMkdir (join dir (lit "parent_oci")))|]. intros _.
  eapply succeeds_any; [ask_ok (CPull (st_output_hash res) BuildCache (join dir (lit "parent_oci")))|]. intros _.
  eapply succeeds_any; [|intros; by apply succeeds_ret].
  ask_ok (CUnpack (join (join dir (lit "parent_oci")) (lit "layer.oci.tar.zst")) (join dir (lit "parent_oci"))).
Qed.

Lemma succeeds_build_stage results stage input parent :
  (∀ p, ps_parent_name stage = Some p → is_Some (results !! p)) →
  succeeds (build_stage scratch_dir dockerfile results stage input parent) (λ _, True).
Proof.
  intros Hp. unfold build_stage. eapply succeeds_any; [apply succeeds_fresh_dir|]. intros dir.
  eapply succeeds_any; [ask_ok (CMkdir (join dir (lit "rootfs")))|]. intros _.
  eapply succeeds_any; [ask_ok (CMkdir (join dir (lit "artifacts")))|]. intros _.
  eapply succeeds_any; [by apply succeeds_override|]. intros override.
  eapply succeeds_any; [ask_ok (CSolve (solve_request dockerfile stage override (join dir (lit "rootfs"))))|].
  intros _. eapply succeeds_any; [ask_ok (CPack (join dir (lit "rootfs")) (join dir (lit "artifacts")))|].
  intros artifacts. eapply succeeds_any; [ask_ok (CLen (la_deploy_artifact artifacts))|]. intros size.
  eapply succeeds_any; [apply succeeds_attempt|]. intros uncompressed.
  eapply succeeds_any; [apply succeeds_total|]. intros now.
  eapply succeeds_any; [ask_ok CHostname|]. intros host.
  eapply succeeds_any; [|intros; by apply succeeds_ret].
  match goal with |- succeeds (client_publish_layer ?a ?m) _ => ask_ok (CPublish a m) end.
Qed.

(** The maps know these stages. *)
Definition knows (acc : Results) (s : ParsedStage) : Prop :=
  is_Some (fst acc !! ps_name s) ∧ is_Some (snd acc !! ps_layer_name s).

Lemma knows_record stage res meta acc s :
  s = stage ∨ knows acc s → knows (record stage res meta acc) s.
Proof.
  unfold knows. cbn [record fst snd]. rewrite !lookup_insert_is_Some'. intros [->|[]]; auto.
Qed.

Lemma succeeds_exec stage acc :
  (∀ p, ps_parent_name stage = Some p → is_Some (fst acc !! p)) →
  succeeds (exec_stage scratch_dir dockerfile stage acc)
    (λ acc', ∀ s, s = stage ∨ knows acc s → knows acc' s).
Proof.
  intros Hp. unfold exec_stage.
  eapply succeeds_any; [ask_ok (CResolve (stage_input_hash (fst acc) stage))|]. intros [h|].
  - eapply succeeds_any; [ask_ok (CPull h BuildCache (lit ""))|]. intros meta.
    apply succeeds_ret. intros s. apply knows_record.
  - eapply succeeds_any; [by apply succeeds_build_stage|]. intros meta.
    apply succeeds_ret. intros s. apply knows_record.
Qed.

Lemma succeeds_loop before stages acc :
  parents_first (before ++ stages) → Forall (knows acc) before →
  succeeds (for_each stages acc (exec_stage scratch_dir dockerfile))
    (λ acc', Forall (knows acc') (before ++ stages)).
Proof.
  revert before acc. induction stages as [|stage stages IH]; intros before acc Hf Hk.
  { apply succeeds_ret. by rewrite app_nil_r. }
  change (for_each (stage :: stages) acc (exec_stage scratch_dir dockerfile))
    with (exec_stage scratch_dir dockerfile stage acc ≫= λ acc1,
            for_each stages acc1 (exec_stage scratch_dir dockerfile)).
  eapply succeeds_bind.
  - apply succeeds_exec. intros p Hp. specialize (Hf before stage stages p eq_refl Hp).
    apply list_elem_of_fmap in Hf as (s & -> & Hs). by eapply (proj1 (Forall_forall _ _)) in Hk as [? _].
  - intros acc1 Hacc1. rewrite cons_middle, app_assoc in *. apply IH; [done|].
    apply Forall_app. split; [|constructor; [auto|done]]. eapply Forall_impl; [exact Hk|]. auto.
Qed.

Lemma manifest_layers_total i names metas :
  (∀ n, n ∈ names → is_Some (metas !! n)) → ∃ layers, manifest_layers i names metas = Ok layers.
Proof.
  revert i. induction names as [|n names IH]; intros i Hn; cbn [manifest_layers]; [by eexists|].
  destruct (Hn n) as [meta ->]; [left|]. destruct (IH (S i)) as [rest Hr]; [intros; apply Hn; by right|].
  cbn. rewrite Hr. by eexists.
Qed.

Lemma build_succeeds graph :
  parents_first (bg_stages graph) →
  (∀ n, n ∈ rs_layer_order (bg_release_meta graph) → ∃ s, s ∈ bg_stages graph ∧ ps_layer_name s = n) →
  (∀ log, build_answer log (CParse dockerfile) = Ok graph) →
  succeeds (build scratch_dir dockerfile) (λ _, True).
Proof.
  intros Hpar Hlay Hparse. unfold build.
  eapply (succeeds_bind _ _ (λ g, g = graph)).
  { intros log. eexists _, _. split; [|reflexivity]. unfold parse, env_parser, ask. by rewrite Hparse. }
  intros ? ->. eapply succeeds_any; [ask_ok (CRead dockerfile)|]. intros content.
  eapply succeeds_bind; [by apply (succeeds_loop [])|]. intros results Hk. cbn [app] in Hk.
  destruct (manifest_layers_total 0 (rs_layer_order (bg_release_meta graph)) (snd results)) as [layers Hl].
  { intros n (s & Hs & <-)%Hlay. by eapply (proj1 (Forall_forall _ _)) in Hk as [_ ?]. }
  eapply (succeeds_any (lift _)); [intros log; rewrite Hl; by exists layers, log|]. intros layers'.
  eapply succeeds_any; [apply succeeds_total|]. intros id.
  eapply succeeds_any; [apply succeeds_total|]. intros now.
  eapply succeeds_any; [ask_ok CHostname|]. intros host.
  eapply succeeds_any; [|intros; by apply succeeds_ret].
  match goal with |- succeeds (client_publish_manifest ?m) _ => ask_ok (CManifest m) end.
Qed.

(** [C17] A Dockerfile the parser accepts builds, unless the outside fails: when
    no file operation, engine run, conversion or store call fails, the build
    of an accepted graph returns a manifest.  No internal error (a missing
    parent result, missing metadata of a layer) can stop it. *)
Theorem build_completes content graph log :
  parse_content content = Ok graph →
  (∀ log, build_answer log (CParse dockerfile) = Ok graph) →
  ∃ manifest log', build scratch_dir dockerfile log = (Ok manifest, log').
Proof.
  intros Hc Hparse.
  assert (parents_first (bg_stages graph) ∧
    ∀ n, n ∈ rs_layer_order (bg_release_meta graph) → ∃ s, s ∈ bg_stages graph ∧ ps_layer_name s = n)
    as [Hpar Hlay] by by eapply parse_content_graph.
  destruct (build_succeeds graph Hpar Hlay Hparse log) as (m & log' & Hrun & _). eauto.
Qed.
End Completion.

(** ** A concrete build *)

Section Demo.
Local Existing Instances ref_hex ref_hex_ok.
Local Instance demo_sha : Sha256 := ref_sha256.

Definition demo_dockerfile : rstr := join_with [newline]
  [lit "# base image"; lit "FROM debian:12 AS base"; lit "LABEL steel.layer=base";
   lit "LABEL steel.layer.order=0"; lit "RUN  apt-get   update"; [];
   lit "FROM base AS app"; lit "LABEL steel.layer=app"; lit "LABEL steel.layer.order=1";
   lit "COPY . /app"; lit "LABEL steel.release.layers=base, app"; lit "LABEL steel.meta.team=infra"].

Definition demo_base : ParsedStage :=
  {| ps_name := lit "base"; ps_parent_name := None; ps_layer_name := lit "base"; ps_order := 0;
     ps_instructions := [lit "FROM debian:12 AS base"; lit "LABEL steel.layer=base";
                         lit "LABEL steel.layer.order=0"; lit "RUN  apt-get   update"] |}.
Definition demo_app : ParsedStage :=
  {| ps_name := lit "app"; ps_parent_name := Some (lit "base"); ps_layer_name := lit "app"; ps_order := 1;
     ps_instructions := [lit "FROM base AS app"; lit "LABEL steel.layer=app";
                         lit "LABEL steel.layer.order=1"; lit "COPY . /app";
                         lit "LABEL steel.release.layers=base, app"; lit "LABEL steel.meta.team=infra"] |}.
Definition demo_graph : BuildGraph :=
  {| bg_stages := [demo_base; demo_app];
     bg_release_meta := {| rs_layer_order := [lit "base"; lit "app"];
                           rs_workload_meta := {[lit "team" := lit "infra"]} |} |}.

Definition demo_meta : LayerMetadata :=
  {| ld_input_hash := mk_InputHash (lit "i"); ld_output_hash := mk_OutputHash (lit "o");
     ld_parent_input_hash := None; ld_size_bytes := 10; ld_size_compressed_bytes := 5;
     ld_build_timestamp := 1; ld_builder_version := CARGO_PKG_VERSION; ld_build_host := lit "host" |}.

(** An environment without failures; its store has the layer of stage [base]
    and no other. *)
Local Instance demo_env : BuildEnv := λ _ c,
  match c as c return answer c with
  | CWalk _ => []
  | CSecs => 1700000000%Z
  | CMillis => 5%N
  | CUuid => lit "id"
  | CRead _ => Ok []
  | CLen _ => Ok 3%N
  | CReads _ _ => Ok ([], Ok tt)
  | CStatus _ _ => Ok true
  | CHostname => Ok (lit "host")
  | CParse _ => Ok demo_graph
  | CSolve req => Ok (sr_export_dir req)
  | CPack _ _ => Ok {| la_deploy_artifact := lit "d"; la_build_cache_artifact := lit "c";
                       la_output_hash := mk_OutputHash (lit "new") |}
  | CResolve h => Ok (if bool_decide (h = compute_input_hash demo_base None)
                      then Some (mk_OutputHash (lit "o")) else None)
  | CPull _ _ _ => Ok demo_meta
  | CManifest _ => Ok (lit "m")
  | _ => Ok tt
  end.

Lemma demo_answered log c : answered c (build_answer log c).
Proof. destruct c; (exact I || by eexists). Qed.

Lemma demo_parse : parse_content demo_dockerfile = Ok demo_graph.
Proof. vm_compute. reflexivity. Qed.

(** [demo_base] written with other white space and comments. *)
Definition demo_base' : ParsedStage :=
  {| ps_name := lit "other"; ps_parent_name := None; ps_layer_name := []; ps_order := 7;
     ps_instructions := [lit "FROM debian:12  AS base # tag"; lit "LABEL steel.layer=base"; lit "# note";
                         lit "LABEL steel.layer.order=0"; lit "RUN apt-get update"] |}.

Lemma input_hash_identifies_witness :
  chain_hash [demo_app; demo_base] = chain_hash [demo_app; demo_base'] ∧
  map canonical [demo_app; demo_base] = map canonical [demo_app; demo_base'].
Proof.
  split; [vm_compute; reflexivity|].
  apply input_hash_identifies; [by repeat constructor..| |vm_compute; reflexivity].
  apply collision_free_Forall, (bool_decide_unpack (Forall _ _)). vm_compute. exact I.
Defined.

Lemma input_hash_canonical_witness :
  compute_input_hash demo_base (Some (mk_InputHash (lit "ab"))) =
  compute_input_hash demo_base' (Some (mk_InputHash (lit "ab"))).
Proof. apply input_hash_canonical. vm_compute. reflexivity. Defined.

Lemma parse_graph_ok_witness :
  parse_content demo_dockerfile = Ok demo_graph ∧ parents_first (bg_stages demo_graph) ∧
  layer_orders (bg_stages demo_graph) ≡ₚ [0%N; 1%N].
Proof.
  destruct (parse_graph_ok demo_dockerfile demo_graph) as (Hp & _ & Ho);
    [vm_compute; reflexivity|].
  split_and!; [vm_compute; reflexivity|exact Hp|]. apply Ho. vm_compute. discriminate.
Defined.

Lemma parse_no_panic_witness : ¬ panics (parse_content demo_dockerfile).
Proof.
  apply parse_no_panic. apply (bool_decide_unpack (Forall _ _)). vm_compute. exact I.
Defined.

(** The run: the layer of [base] is pulled, [app] is built. *)
Definition demo_build : result Failure ReleaseManifest * list Step := build (lit "/s") (lit "Dockerfile") [].

Lemma build_publishes_confirmed_witness :
  ∃ manifest log', demo_build = (Ok manifest, log') ∧ length (rl_layers manifest) = 2 ∧
    ∀ l, l ∈ rl_layers manifest → ∃ meta, carries l meta.
Proof.
  eexists _, _. split; [vm_compute; reflexivity|]. split; [reflexivity|].
  edestruct (build_publishes_confirmed (lit "/s") (lit "Dockerfile") []) as (? & ? & ? & ? & ? & ? & ? & ? & Hl);
    [vm_compute; reflexivity|].
  intros l Hin. destruct (Hl l Hin) as (meta & Hc & _). exists meta. exact Hc.
Defined.

Lemma build_incremental_witness :
  ∃ manifest log', demo_build = (Ok manifest, log') ∧ solved (observe log') = [lit "app"] ∧
    ∃ new graph, log' = [] ++ new ∧ step (CParse (lit "Dockerfile")) (Ok graph) ∈ new ∧
      map fst (lookups (observe new)) = plan (bg_stages graph) ∅ ∧
      solved (observe new) = missed (bg_stages graph) (lookups (observe new)).
Proof.
  eexists _, _. split; [vm_compute; reflexivity|]. split; [vm_compute; reflexivity|].
  eapply (build_incremental (lit "/s") (lit "Dockerfile")). vm_compute. reflexivity.
Defined.

Lemma build_completes_witness :
  ∃ manifest log', build (lit "/s") (lit "Dockerfile") [] = (Ok manifest, log').
Proof.
  apply (build_completes (lit "/s") (lit "Dockerfile") demo_answered demo_dockerfile demo_graph);
    [vm_compute; reflexivity|done].
Defined.

(** A second [FROM] without an image panics. *)
Example bare_from_panics : panics (parse_content (join_with [newline] [lit "FROM a"; lit "FROM"])).
Proof. by eexists. Qed.

(** A shell comment sign inside quotes hides the rest of an instruction from
    the hash. *)
Example hash_sign_hides :
  normalize_instruction (lit "RUN curl https://host/#v1") = normalize_instruction (lit "RUN curl https://host/#v2").
Proof. reflexivity. Qed.

(** No stage needs a layer, and the last one need not be the release. *)
Example unlabelled_accepted :
  ∃ graph, parse_content (join_with [newline] [lit "FROM a AS x"; lit "LABEL steel.release=true"; lit "FROM x AS y"])
    = Ok graph ∧ map ps_layer_name (bg_stages graph) = [[]; []].
Proof. eexists. split; [vm_compute; reflexivity|reflexivity]. Qed.
End Demo.
