(* ===== verification/BuildImpl.v ===== *)
(** * build-system: the implementations behind the interfaces
      (src/build-system/src/converter.rs, buildkit.rs, store.rs)

    Layer packing through [mke2fs], [tar] and [zstd], the [buildctl] engine
    and the gRPC store client, over the operating system ([BuildOs]) and the
    generated client stub ([LayerStoreRpc]). *)

From Stdlib Require Import Floats.SpecFloat.
From S2P Require Import Prelude RustStd AsyncIo StoreTypes BuildTypes BuildHasher BuildOrchestrator Proto.

(** ** converter.rs *)

(** [f64]: IEEE 754 binary64, rounding to nearest even. *)
Definition f64_of_u64 (n : N) : spec_float := binary_normalize 53 1024 (Z.of_N n) 0 false.
Definition f64_mul : spec_float → spec_float → spec_float := SFmul 53 1024.
Definition f64_div : spec_float → spec_float → spec_float := SFdiv 53 1024.
(** The literals [1.1] and [1024.0 * 1024.0]. *)
Definition f64_1_1 : spec_float := S754_finite false 4953959590107546 (-52).
Definition f64_1048576 : spec_float := f64_of_u64 1048576.

(** [f64::ceil] followed by [as u64], which saturates. *)
Definition f64_ceil_u64 (f : spec_float) : N :=
  match f with
  | S754_finite false m e =>
      let z := if (0 <=? e)%Z then (Z.pos m * 2 ^ e)%Z else (- ((- Z.pos m) / 2 ^ (- e)))%Z in
      N.min (Z.to_N z) (2 ^ 64 - 1)
  | S754_infinity false => (2 ^ 64 - 1)%N
  | _ => 0%N
  end.

(** Size of the image in MiB (lines 16-19). *)
Definition headroom_mb (size_bytes : N) : N :=
  f64_ceil_u64 (f64_div (f64_mul (f64_of_u64 size_bytes) f64_1_1) f64_1048576).
Definition round_up_mb (mb : N) : N := N.max (((mb + 3) mod 2 ^ 64 / 4 * 4) mod 2 ^ 64) 64.
Definition ext4_size_mb (size_bytes : N) : N := round_up_mb (headroom_mb size_bytes).

Section Implementations.
Context {W : Type} `{BuildOs W, Hex, Sha256}.
Local Abbreviation M := (SM W Failure).

(** A command whose failure is an error with this message. *)
Definition run_command (prog : rstr) (args : list rstr) (failure : rstr) : M unit :=
  ok ← cmd_status prog args;
  if negb ok then throw (Error failure) else mret tt.

Definition ZstdExt4OciFormat_pack (source_dir output_dir : rstr) : M LayerArtifacts :=
  let ext4_path := join output_dir (lit "layer.ext4") in
  let ext4_zst_path := join output_dir (lit "layer.ext4.zst") in
  size_bytes ← get_dir_size source_dir;
  _ ← run_command (lit "mke2fs")
        [lit "-t"; lit "ext4"; lit "-d"; source_dir; ext4_path; dec (ext4_size_mb size_bytes) ++ lit "M"]
        (lit "mke2fs failed");
  output_hash ← compute_output_hash ext4_path;
  _ ← run_command (lit "zstd") [lit "-19"; ext4_path; lit "-o"; ext4_zst_path] (lit "zstd failed for ext4");
  let oci_tar_path := join output_dir (lit "layer.oci.tar") in
  let oci_tar_zst_path := join output_dir (lit "layer.oci.tar.zst") in
  _ ← run_command (lit "tar") [lit "-cf"; oci_tar_path; lit "-C"; source_dir; lit "."] (lit "tar failed");
  _ ← run_command (lit "zstd") [lit "-19"; oci_tar_path; lit "-o"; oci_tar_zst_path] (lit "zstd failed for OCI");
  r1 ← attempt (fs_remove_file ext4_path);
  r2 ← attempt (fs_remove_file oci_tar_path);
  mret {| la_deploy_artifact := ext4_zst_path; la_build_cache_artifact := oci_tar_zst_path;
          la_output_hash := output_hash |}.

Definition ZstdExt4OciFormat_unpack (artifact target : rstr) : M unit :=
  let tmp_tar := join target (lit "tmp.tar") in
  _ ← run_command (lit "zstd") [lit "-d"; artifact; lit "-o"; tmp_tar] (lit "zstd decompress failed");
  _ ← run_command (lit "tar") [lit "-xf"; tmp_tar; lit "-C"; target] (lit "tar unpack failed");
  r ← attempt (fs_remove_file tmp_tar);
  mret tt.

#[export] Instance ZstdExt4OciFormat : LayerFormat W := {|
  pack := ZstdExt4OciFormat_pack; unpack_for_build := ZstdExt4OciFormat_unpack |}.

(** ** buildkit.rs *)

Definition buildctl_args (req : SolveRequest) : list rstr :=
  [lit "build"; lit "--frontend"; lit "dockerfile.v0";
   lit "--local"; lit "context=" ++ sr_context_path req;
   lit "--local"; lit "dockerfile=" ++ default (lit ".") (path_parent (sr_dockerfile_path req));
   lit "--opt"; lit "filename=" ++ default [] (file_name (sr_dockerfile_path req));
   lit "--opt"; lit "target=" ++ sr_stage_name req;
   lit "--output"; lit "type=local,dest=" ++ sr_export_dir req] ++
  match sr_parent_cache_override req with
  | Some (parent_stage, oci_dir) =>
      [lit "--opt"; lit "context:" ++ parent_stage ++ lit "=oci-layout://" ++ oci_dir]
  | None => []
  end.

#[export] Instance BuildctlEngine : BuildEngine W := λ req,
  _ ← run_command (lit "buildctl") (buildctl_args req) (lit "buildctl failed");
  mret (sr_export_dir req).
End Implementations.

(** ** store.rs *)

(** The generated client: one call per RPC, an error is the status text. *)
Class LayerStoreRpc (W : Type) := {
  rpc_resolve_input_hash : rstr → SM W Failure (option rstr);
  (** the responses of the stream, an error ends it *)
  rpc_pull_layer : rstr → N → SM W Failure (list (result Failure bytes));
  rpc_publish_layer : list Payload → SM W Failure rstr;
  rpc_publish_manifest : option PReleaseManifest → SM W Failure rstr;
}.

Section Client.
Context {W : Type} `{BuildOs W, LayerStoreRpc W}.
Local Abbreviation M := (SM W Failure).

Definition grpc_resolve (hash : InputHash) : M (option OutputHash) :=
  content_hash ← rpc_resolve_input_hash (input_text hash);
  mret (mk_OutputHash <$> content_hash).

Definition grpc_pull (content_hash : OutputHash) (format : ArtifactFormat) (target : rstr)
  : M LayerMetadata :=
  let proto_format := match format with Deploy => FORMAT_DEPLOY | BuildCache => FORMAT_BUILD_CACHE end in
  stream ← rpc_pull_layer (output_text content_hash) proto_format;
  _ ← file_create target;
  _ ← for_each stream tt (λ resp _,
        chunk ← lift resp;
        file_write_all target chunk);
  _ ← file_flush target;
  mret {| ld_input_hash := mk_InputHash []; ld_output_hash := content_hash;
          ld_parent_input_hash := None; ld_size_bytes := 0; ld_size_compressed_bytes := 0;
          ld_build_timestamp := 0; ld_builder_version := []; ld_build_host := [] |}.

Definition layer_meta_message (meta : LayerMetadata) : PLayerMeta :=
  let placeholder_hash := output_text (ld_output_hash meta) in
  {| pl_input_hash := input_text (ld_input_hash meta);
     pl_content_hash := output_text (ld_output_hash meta);
     pl_parent_input_hash := input_text <$> ld_parent_input_hash meta;
     pl_uncompressed_size := ld_size_bytes meta;
     pl_compressed_size_deploy := ld_size_compressed_bytes meta; pl_compressed_size_cache := 0;
     pl_builder_version := ld_builder_version meta; pl_build_timestamp := ld_build_timestamp meta;
     pl_build_host := ld_build_host meta;
     pl_stage_definition_hash := placeholder_hash; pl_dockerfile_hash := placeholder_hash |}.

(** What the spawned task reads of one file (lines 117-133, 136-152): a file
    that cannot be opened sends nothing, a failed read ends the loop. *)
Definition file_chunks (path : rstr) : M (list bytes) :=
  r ← attempt (file_reads path 65536);
  mret (match (r : result Failure (list bytes * result Failure unit)) with
        | Ok (chunks, _) => chunks
        | Err _ => []
        end).

(** The messages of the upload, in the order they are sent. *)
Definition upload (artifacts : LayerArtifacts) (meta : LayerMetadata) : M (list Payload) :=
  deploy ← file_chunks (la_deploy_artifact artifacts);
  cache ← file_chunks (la_build_cache_artifact artifacts);
  mret (PMeta (layer_meta_message meta) :: map PDeployChunk deploy ++ map PCacheChunk cache).

Definition grpc_publish_layer (artifacts : LayerArtifacts) (meta : LayerMetadata) : M unit :=
  stream ← upload artifacts meta;
  _ ← rpc_publish_layer stream;
  mret tt.

Definition manifest_message (manifest : ReleaseManifest) : PReleaseManifest :=
  {| prm_schema_version := rl_schema_version manifest; prm_manifest_id := rl_manifest_id manifest;
     prm_build_metadata := Some
       {| pbm_dockerfile_hash := bd_dockerfile_hash (rl_build_metadata manifest);
          pbm_build_timestamp := bd_build_timestamp (rl_build_metadata manifest);
          pbm_builder_version := bd_builder_version (rl_build_metadata manifest);
          pbm_build_host := bd_build_host (rl_build_metadata manifest) |};
     prm_layers := map (λ l,
       {| pml_name := mf_name l; pml_order := mf_order l; pml_input_hash := input_text (mf_input_hash l);
          pml_content_hash := output_text (mf_output_hash l); pml_size_bytes := mf_size_bytes l;
          pml_size_compressed_bytes := mf_size_compressed_bytes l;
          pml_parent_input_hash := input_text <$> mf_parent_input_hash l |}) (rl_layers manifest);
     prm_workload_metadata := rl_workload_metadata manifest |}.

Definition grpc_publish_manifest (manifest : ReleaseManifest) : M rstr :=
  rpc_publish_manifest (Some (manifest_message manifest)).

#[export] Instance GrpcStoreClient : StoreClient W := {|
  client_resolve := grpc_resolve; client_pull := grpc_pull;
  client_publish_layer := grpc_publish_layer; client_publish_manifest := grpc_publish_manifest |}.
End Client.

(** ** What goes wrong on a hit *)

Section Hits.
Context {W : Type} `{BuildOs W, LayerStoreRpc W, Hasher, BuildEngine W, LayerFormat W, DockerfileParser W}.
Context `{Hex, Sha256} (scratch_dir dockerfile : rstr).

(** No file can be created under the empty path. *)
Hypothesis create_empty : ∀ w, ∃ e w', file_create (lit "") w = (Err e, w').

Lemma grpc_pull_empty h f w : ∃ e w', grpc_pull h f (lit "") w = (Err e, w').
Proof.
  unfold grpc_pull, mbind, SM_bind. destruct (rpc_pull_layer _ _ w) as [[stream|e] w1]; [|eauto].
  destruct (create_empty w1) as (e & w2 & ->). eauto.
Qed.

Lemma exec_hit_fails stage acc w h w1 :
  client_resolve (stage_input_hash (fst acc) stage) w = (Ok (Some h), w1) →
  ∃ e w', exec_stage scratch_dir dockerfile stage acc w = (Err e, w').
Proof.
  intros Hr. unfold exec_stage, mbind, SM_bind. rewrite Hr.
  destruct (grpc_pull_empty h BuildCache w1) as (e & w2 & Hp). cbn [client_pull GrpcStoreClient].
  rewrite Hp. eauto.
Qed.
End Hits.
