(* ===== verification/Ext4Size.v ===== *)
(** * build-system: the size of the ext4 image (src/build-system/src/converter.rs, 16-19)

    [pack] computes the size of an image in binary64 arithmetic: the bytes of
    the directory times 1.1, divided by 2^20, rounded up.  Each operation is
    bounded by its rounding error: a rounded product or quotient loses less
    than two parts in 2^52, so the image has room for every directory a [u64]
    can measure.

    Numbers are compared as integers scaled by 2^2000: [V m e] is m * 2^e. *)

From Stdlib Require Import Floats.SpecFloat.
From S2P Require Import Prelude RustStd AsyncIo StoreTypes BuildTypes BuildHasher BuildOrchestrator BuildImpl.
Local Open Scope Z_scope.

Definition V (m e : Z) : Z := m * 2 ^ (e + 2000).

Lemma V_up m e n : 0 ≤ n → -2000 ≤ e → V m (e + n) = V (m * 2 ^ n) e.
Proof.
  intros Hn He. unfold V. replace (e + n + 2000) with (n + (e + 2000)) by lia.
  rewrite Z.pow_add_r by lia. ring.
Qed.

Lemma V_mono m m' e : m ≤ m' → V m e ≤ V m' e.
Proof. intros Hm. unfold V. apply Z.mul_le_mono_nonneg_r; [|done]. apply Z.pow_nonneg. lia. Qed.

Lemma V_scale k m e : V (k * m) e = k * V m e.
Proof. unfold V. ring. Qed.

(** ** Digits *)

Lemma digits_bounds p : 2 ^ (Z.pos (digits2_pos p) - 1) ≤ Z.pos p < 2 ^ Z.pos (digits2_pos p).
Proof.
  induction p as [p IH|p IH|]; cbn [digits2_pos]; [| |done].
  all: rewrite Pos2Z.inj_succ; unfold Z.succ; replace (Z.pos (digits2_pos p) + 1 - 1) with (Z.pos (digits2_pos p)) by lia.
  all: replace (2 ^ Z.pos (digits2_pos p)) with (2 * 2 ^ (Z.pos (digits2_pos p) - 1)) in *
    by (rewrite <- Z.pow_succ_r by lia; f_equal; lia).
  all: rewrite Z.pow_add_r by lia; change (2 ^ 1) with 2.
  all: replace (2 ^ Z.pos (digits2_pos p)) with (2 * 2 ^ (Z.pos (digits2_pos p) - 1)) in *
    by (rewrite <- Z.pow_succ_r by lia; f_equal; lia).
  all: lia.
Qed.

Lemma Zdigits_bounds m : 0 < m → 1 ≤ Zdigits2 m ∧ 2 ^ (Zdigits2 m - 1) ≤ m < 2 ^ Zdigits2 m.
Proof. destruct m as [|p|p]; [lia| |lia]. intros _. split; [cbn; lia|apply digits_bounds]. Qed.

Lemma Zdigits_le m m' : 0 < m ≤ m' → Zdigits2 m ≤ Zdigits2 m'.
Proof.
  intros Hm. destruct (Zdigits_bounds m) as [H1 H2]; [lia|]. destruct (Zdigits_bounds m') as [H3 H4]; [lia|].
  destruct (Z.le_gt_cases (Zdigits2 m) (Zdigits2 m')); [done|]. exfalso.
  pose proof (Z.pow_le_mono_r 2 (Zdigits2 m') (Zdigits2 m - 1) ltac:(lia) ltac:(lia)). lia.
Qed.

Lemma Zdigits_lt m k : 0 < m → 0 ≤ k → m < 2 ^ k → Zdigits2 m ≤ k.
Proof.
  intros Hm Hk Hlt. destruct (Zdigits_bounds m Hm) as [H1 H2].
  destruct (Z.le_gt_cases (Zdigits2 m) k); [done|]. exfalso.
  pose proof (Z.pow_le_mono_r 2 k (Zdigits2 m - 1) ltac:(lia) ltac:(lia)). lia.
Qed.

Lemma Zdigits_ge m k : 0 < m → 0 ≤ k → 2 ^ k ≤ m → k + 1 ≤ Zdigits2 m.
Proof.
  intros Hm Hk Hle. destruct (Zdigits_bounds m Hm) as [H1 H2].
  destruct (Z.le_gt_cases (k + 1) (Zdigits2 m)); [done|]. exfalso.
  pose proof (Z.pow_le_mono_r 2 (Zdigits2 m) k ltac:(lia) ltac:(lia)). lia.
Qed.

(** ** Shifting out digits *)

Lemma shr_1_div mrs : 0 ≤ shr_m mrs → shr_m (shr_1 mrs) = shr_m mrs / 2.
Proof.
  destruct mrs as [m r s]. cbn [shr_m]. intros Hm. destruct m as [|[p|p|]|p]; cbn; try done; lia.
Qed.

Lemma shr_pos_div p mrs : 0 ≤ shr_m mrs → shr_m (SpecFloat.iter_pos shr_1 p mrs) = shr_m mrs / 2 ^ Z.pos p.
Proof.
  assert (∀ m k, 0 ≤ m → 0 ≤ k → 0 ≤ m / 2 ^ k) as Hpos
    by (intros m k Hm Hk; apply Z.div_pos; [done|by apply Z.pow_pos_nonneg]).
  revert mrs. induction p as [p IH|p IH|]; intros mrs Hm; cbn [SpecFloat.iter_pos].
  - assert (0 ≤ shr_m (shr_1 mrs)) as H1 by (rewrite shr_1_div by done; apply (Hpos _ 1); lia).
    rewrite IH, IH, shr_1_div by (rewrite ?IH; auto with lia).
    rewrite !Z.div_div by (try apply Z.pow_nonzero; try apply Z.mul_pos_pos; try apply Z.pow_pos_nonneg; lia).
    f_equal. rewrite (Pos2Z.inj_xI p), Z.pow_add_r, Z.pow_mul_r by lia.
    change (2 ^ 1) with 2. rewrite <- Z.pow_mul_r by lia. replace (2 * Z.pos p) with (Z.pos p + Z.pos p) by lia.
    rewrite Z.pow_add_r by lia. ring.
  - rewrite IH, IH by (rewrite ?IH; auto with lia).
    rewrite Z.div_div by (try apply Z.pow_nonzero; try apply Z.pow_pos_nonneg; lia).
    f_equal. rewrite (Pos2Z.inj_xO p). replace (2 * Z.pos p) with (Z.pos p + Z.pos p) by lia.
    by rewrite Z.pow_add_r by lia.
  - by rewrite shr_1_div.
Qed.

Lemma shr_record_m m l : shr_m (shr_record_of_loc m l) = m.
Proof. by destruct l as [|[]]. Qed.

(** Normalising to 53 digits: what is shifted out is less than one part in
    2^52 of what is kept, and nothing when the number already fits. *)
Lemma shr_fexp_spec m e l :
  0 < m → -1000 ≤ e →
  ∃ mrs e', shr_fexp 53 1024 m e l = (mrs, e') ∧ e ≤ e' ∧ 0 < shr_m mrs < 2 ^ 53 ∧
    V (shr_m mrs) e' ≤ V m e ∧ 2 ^ 52 * V m e ≤ (2 ^ 52 + 1) * V (shr_m mrs) e' ∧
    (mrs = shr_record_of_loc m l ∧ e' = e ∨ 2 ^ 52 ≤ shr_m mrs).
Proof.
  intros Hm He. destruct (Zdigits_bounds m Hm) as [Hd1 Hd].
  unfold shr_fexp, SpecFloat.fexp, emin. set (d := Zdigits2 m) in *.
  rewrite Z.max_l by lia. unfold shr. destruct (d + e - 53 - e) as [|p|p] eqn:Hk.
  1,3: exists (shr_record_of_loc m l), e; rewrite shr_record_m.
  1,2: assert (2 ^ d ≤ 2 ^ 53) by (apply Z.pow_le_mono_r; lia).
  1,2: assert (0 ≤ V m e) by (apply (V_mono 0); lia).
  1,2: split_and!; try done; try lia; by left.
  eexists _, _. split; [done|]. rewrite shr_pos_div, shr_record_m by (rewrite shr_record_m; lia).
  replace (Z.pos p) with (d - 53) by lia.
  assert (0 < 2 ^ (d - 53)) by (apply Z.pow_pos_nonneg; lia).
  assert (2 ^ d = 2 ^ (d - 53) * 2 ^ 53) by (rewrite <- Z.pow_add_r by lia; f_equal; lia).
  assert (2 ^ (d - 1) = 2 ^ (d - 53) * 2 ^ 52) by (rewrite <- Z.pow_add_r by lia; f_equal; lia).
  pose proof (Z.div_mod m (2 ^ (d - 53)) ltac:(lia)) as Hdm.
  pose proof (Z.mod_pos_bound m (2 ^ (d - 53)) ltac:(lia)) as Hmod.
  set (q := m / 2 ^ (d - 53)) in *. set (r := m mod 2 ^ (d - 53)) in *.
  assert (2 ^ 52 ≤ q < 2 ^ 53) as Hq by nia.
  rewrite V_up by lia. rewrite <- !V_scale. split_and!; try lia; [apply V_mono; lia|apply V_mono; nia].
Qed.

(** Rounding an exact value of moderate size: the result is finite, has at
    most 53 digits and is within two parts in 2^52 of the value, on both
    sides. *)
Lemma round_exact m e :
  0 < m → -1000 ≤ e → V m e < 2 ^ 2900 →
  ∃ m' e', binary_round_aux 53 1024 false m e loc_Exact = S754_finite false m' e' ∧
    Z.pos m' < 2 ^ 53 ∧ e ≤ e' ∧
    2 ^ 104 * V m e ≤ (2 ^ 52 + 1) ^ 2 * V (Z.pos m') e' ∧
    2 ^ 52 * V (Z.pos m') e' ≤ (2 ^ 52 + 1) * V m e.
Proof.
  intros Hm He Hbig. unfold binary_round_aux.
  destruct (shr_fexp_spec m e loc_Exact Hm He) as (mrs & e1 & -> & He1 & Hm1 & Hle1 & Hge1 & Hcase).
  set (m1 := round_nearest_even (shr_m mrs) (loc_of_shr_record mrs)).
  assert (shr_m mrs ≤ m1 ≤ shr_m mrs + 1) as Hm1'
    by (unfold m1, round_nearest_even; destruct (loc_of_shr_record mrs) as [|[]], (Z.even (shr_m mrs)); lia).
  assert (2 ^ 52 * V m1 e1 ≤ (2 ^ 52 + 1) * V m e) as Hup.
  { destruct Hcase as [[-> ->]|Hbig1].
    - assert (m1 = m) as -> by done. assert (0 ≤ V m e) by (apply (V_mono 0); lia). lia.
    - trans ((2 ^ 52 + 1) * V (shr_m mrs) e1); [|lia]. rewrite <- !V_scale. apply V_mono. lia. }
  pose proof (V_mono _ _ e1 (proj1 Hm1')) as Hlow.
  destruct (shr_fexp_spec m1 e1 loc_Exact ltac:(lia) ltac:(lia)) as (mrs2 & e2 & -> & He2 & Hm2 & Hle2 & Hge2 & _).
  destruct (shr_m mrs2) as [|m2|m2] eqn:Em2; [lia| |lia].
  assert (e2 ≤ 1024 - 53) as He2'.
  { destruct (Z.le_gt_cases e2 (1024 - 53)) as [|Hgt]; [done|]. exfalso.
    assert (2 ^ 2972 ≤ V (Z.pos m2) e2); [|lia].
    trans (V 1 e2); [unfold V; rewrite Z.mul_1_l; apply Z.pow_le_mono_r; lia|apply V_mono; lia]. }
  rewrite (proj2 (Z.leb_le _ _) He2'). exists m2, e2. split_and!; [done|lia..].
Qed.

(** ** The three operations *)

Lemma iter_xO m k : Z.pos (Pos.iter xO m k) = Z.pos m * 2 ^ Z.pos k.
Proof.
  induction k as [|k IH] using Pos.peano_ind; [cbn; lia|].
  rewrite Pos.iter_succ, Pos2Z.inj_xO, IH, Pos2Z.inj_succ, Z.pow_succ_r by lia. ring.
Qed.

Lemma f64_of_u64_bounds n :
  (0 < n < 2 ^ 64)%N →
  ∃ m e, f64_of_u64 n = S754_finite false m e ∧ Z.pos m < 2 ^ 53 ∧ -100 ≤ e ∧
    2 ^ 104 * V (Z.of_N n) 0 ≤ (2 ^ 52 + 1) ^ 2 * V (Z.pos m) e ∧
    2 ^ 52 * V (Z.pos m) e ≤ (2 ^ 52 + 1) * V (Z.of_N n) 0.
Proof.
  intros Hn. assert (V (Z.of_N n) 0 < 2 ^ 2100) as Hlt.
  { apply Z.le_lt_trans with (V (2 ^ 64) 0); [apply V_mono; lia|done]. }
  destruct n as [|p]; [lia|]. unfold f64_of_u64, binary_normalize, binary_round, shl_align.
  cbn [Z.of_N] in *. destruct (Zdigits_bounds (Z.pos p)) as [Hd _]; [lia|]. cbn [Zdigits2] in Hd.
  unfold SpecFloat.fexp, emin. rewrite Z.max_l by lia.
  assert (∀ m e, 0 < Z.pos m → -100 ≤ e → V (Z.pos m) e = V (Z.pos p) 0 →
    ∃ m' e', binary_round_aux 53 1024 false (Z.pos m) e loc_Exact = S754_finite false m' e' ∧
      Z.pos m' < 2 ^ 53 ∧ -100 ≤ e' ∧
      2 ^ 104 * V (Z.pos p) 0 ≤ (2 ^ 52 + 1) ^ 2 * V (Z.pos m') e' ∧
      2 ^ 52 * V (Z.pos m') e' ≤ (2 ^ 52 + 1) * V (Z.pos p) 0) as Hround.
  { intros m e Hm He HV. destruct (round_exact (Z.pos m) e) as (m' & e' & Hr); [done|lia|lia|].
    exists m', e'. rewrite HV in Hr. split_and!; try apply Hr. lia. }
  destruct (Z.pos (digits2_pos p) + 0 - 53 - 0) as [|k|k] eqn:Hk; [by apply Hround..|].
  apply Hround; [lia|lia|]. rewrite iter_xO, <- V_up by lia. f_equal. lia.
Qed.

Lemma f64_mul_bounds m e :
  Z.pos m < 2 ^ 53 → -100 ≤ e → V (Z.pos m) e < 2 ^ 2200 →
  ∃ m' e', f64_mul (S754_finite false m e) f64_1_1 = S754_finite false m' e' ∧ Z.pos m' < 2 ^ 53 ∧ -152 ≤ e' ∧
    2 ^ 104 * (4953959590107546 * V (Z.pos m) e) ≤ (2 ^ 52 + 1) ^ 2 * (2 ^ 52 * V (Z.pos m') e') ∧
    2 ^ 52 * (2 ^ 52 * V (Z.pos m') e') ≤ (2 ^ 52 + 1) * (4953959590107546 * V (Z.pos m) e).
Proof.
  intros Hm He Hlt. assert (4953959590107546 * V (Z.pos m) e = 2 ^ 52 * V (Z.pos (m * 4953959590107546)) (e + -52)) as HV.
  { rewrite <- !V_scale. replace e with (e + -52 + 52) at 1 by lia. rewrite V_up by lia. f_equal. lia. }
  unfold f64_mul, SFmul, f64_1_1. cbn [xorb].
  destruct (round_exact (Z.pos (m * 4953959590107546)) (e + -52)) as (m' & e' & -> & ? & ? & ? & ?); [done|lia|lia|].
  rewrite HV. exists m', e'. split_and!; [done|lia..].
Qed.

(** The divisor is a power of two: the division is exact before rounding. *)
Lemma f64_div_bounds m e :
  Z.pos m < 2 ^ 53 → -152 ≤ e → V (Z.pos m) e < 2 ^ 2300 →
  ∃ m' e', f64_div (S754_finite false m e) f64_1048576 = S754_finite false m' e' ∧ -300 ≤ e' ∧
    2 ^ 104 * V (Z.pos m) e ≤ (2 ^ 52 + 1) ^ 2 * (2 ^ 20 * V (Z.pos m') e') ∧
    2 ^ 52 * (2 ^ 20 * V (Z.pos m') e') ≤ (2 ^ 52 + 1) * V (Z.pos m) e.
Proof.
  intros Hm He Hlt. replace f64_1048576 with (S754_finite false 4503599627370496 (-32)) by by vm_compute.
  unfold f64_div, SFdiv, SFdiv_core_binary. cbn [xorb].
  destruct (Zdigits_bounds (Z.pos m)) as [Hd1 Hd]; [lia|].
  pose proof (Zdigits_lt (Z.pos m) 53 ltac:(lia) ltac:(lia) Hm) as Hd53. set (d := Zdigits2 (Z.pos m)) in *.
  change (Zdigits2 4503599627370496) with 53. unfold SpecFloat.fexp, emin.
  rewrite (Z.max_l (d + e - (53 + -32) - 53)) by lia. rewrite Z.min_l by lia.
  replace (e - -32 - (d + e - (53 + -32) - 53)) with (106 - d) by lia.
  destruct (106 - d) as [|s|s] eqn:Hs; [lia| |lia].
  rewrite <- Hs, Z.shiftl_mul_pow2 by lia.
  replace (2 ^ (106 - d)) with (2 ^ (54 - d) * 4503599627370496)
    by (change 4503599627370496 with (2 ^ 52); rewrite <- Z.pow_add_r by lia; f_equal; lia).
  pose proof (Z.pow_pos_nonneg 2 (54 - d) ltac:(lia) ltac:(lia)) as Hp.
  rewrite Z.mul_assoc. set (q := Z.pos m * 2 ^ (54 - d)).
  destruct (Z.div_eucl (q * 4503599627370496) 4503599627370496) as [q' r] eqn:Hdiv.
  assert (q' = q ∧ r = 0) as [-> ->].
  { pose proof (Z.div_mul q 4503599627370496 ltac:(lia)) as H1. pose proof (Z.mod_mul q 4503599627370496 ltac:(lia)) as H2.
    unfold Z.div in H1. unfold Z.modulo in H2. by rewrite Hdiv in H1, H2. }
  change (new_location 4503599627370496 0) with loc_Exact.
  assert (V (Z.pos m) e = 2 ^ 20 * V q (d + e - (53 + -32) - 53)) as HV.
  { rewrite <- V_scale. replace e with (d + e - (53 + -32) - 53 + (74 - d)) at 1 by lia. rewrite V_up by lia.
    f_equal. unfold q. replace (2 ^ (74 - d)) with (2 ^ (54 - d) * 2 ^ 20) by (rewrite <- Z.pow_add_r by lia; f_equal; lia).
    ring. }
  destruct (round_exact q (d + e - (53 + -32) - 53)) as (m' & e' & -> & ? & ? & ? & ?); [lia|lia|lia|].
  exists m', e'. split_and!; [done|lia..].
Qed.

Lemma f64_ceil_bounds m e :
  -300 ≤ e → V (Z.pos m) e < 2 ^ 2063 →
  V (Z.pos m) e ≤ Z.of_N (f64_ceil_u64 (S754_finite false m e)) * 2 ^ 2000 < V (Z.pos m) e + 2 ^ 2000.
Proof.
  intros He Hlt. cbn [f64_ceil_u64].
  set (z := if 0 <=? e then Z.pos m * 2 ^ e else - (- Z.pos m / 2 ^ (- e))).
  assert (0 ≤ z ∧ V (Z.pos m) e ≤ z * 2 ^ 2000 < V (Z.pos m) e + 2 ^ 2000) as [Hz Hb].
  { unfold z, V in *. destruct (Z.leb_spec 0 e).
    - rewrite Z.pow_add_r in * by lia. pose proof (Z.pow_pos_nonneg 2 e ltac:(lia) ltac:(lia)). lia.
    - set (c := 2 ^ (- e)). assert (0 < c) by (apply Z.pow_pos_nonneg; lia).
      pose proof (Z.pow_pos_nonneg 2 (e + 2000) ltac:(lia) ltac:(lia)) as Hp.
      assert (2 ^ 2000 = c * 2 ^ (e + 2000)) as -> by (unfold c; rewrite <- Z.pow_add_r by lia; f_equal; lia).
      pose proof (Z.div_mod (- Z.pos m) c ltac:(lia)). pose proof (Z.mod_pos_bound (- Z.pos m) c ltac:(lia)).
      set (q := - Z.pos m / c) in *. clearbody q c. split; [nia|]. set (t := 2 ^ (e + 2000)) in *. clearbody t.
      split; nia. }
  rewrite N2Z.inj_min, Z2N.id by done. change (Z.of_N (2 ^ 64 - 1)) with (2 ^ 64 - 1).
  rewrite Z.min_l by lia. done.
Qed.

(** The size in MiB of the directory with its headroom: between 1.09 and 1.11
    times the bytes, plus at most one MiB. *)
Lemma headroom_mb_bounds n :
  (n < 2 ^ 64)%N →
  (109 * n ≤ 100 * 2 ^ 20 * headroom_mb n ∧ 100 * 2 ^ 20 * headroom_mb n ≤ 111 * n + 100 * 2 ^ 20)%N.
Proof.
  intros Hn. destruct (decide (n = 0%N)) as [->|Hz]; [by split; vm_compute|].
  destruct (f64_of_u64_bounds n) as (m1 & e1 & H1 & Hm1 & He1 & Hl1 & Hu1); [lia|].
  assert (V (Z.of_N n) 0 = Z.of_N n * 2 ^ 2000) as HV by done.
  destruct (f64_mul_bounds m1 e1) as (m2 & e2 & H2 & Hm2 & He2 & Hl2 & Hu2); [done|done|lia|].
  destruct (f64_div_bounds m2 e2) as (m3 & e3 & H3 & He3 & Hl3 & Hu3); [done|done|lia|].
  pose proof (f64_ceil_bounds m3 e3 He3 ltac:(lia)) as Hc.
  unfold headroom_mb. rewrite H1, H2, H3. set (z := f64_ceil_u64 _) in *. lia.
Qed.

(** [C38] The image [pack] asks [mke2fs] for, for any number of bytes a [u64]
    holds: whole blocks of 4 MiB, at least 64 MiB, at least 9% more than the
    bytes; and, above the minimum, no more than 11% and 4 MiB over them. *)
Theorem ext4_size_mb_bounds n :
  (n < 2 ^ 64)%N →
  (ext4_size_mb n `mod` 4 = 0 ∧ 64 ≤ ext4_size_mb n ∧ 109 * n ≤ 100 * 2 ^ 20 * ext4_size_mb n ∧
   (ext4_size_mb n = 64 ∨ 100 * 2 ^ 20 * ext4_size_mb n ≤ 111 * n + 400 * 2 ^ 20))%N.
Proof.
  intros Hn. destruct (headroom_mb_bounds n Hn) as [Hl Hu]. unfold ext4_size_mb, round_up_mb.
  set (mb := headroom_mb n) in *. clearbody mb.
  pose proof (N.div_mod (mb + 3) 4 ltac:(lia)). pose proof (N.mod_lt (mb + 3) 4 ltac:(lia)).
  rewrite (N.mod_small (mb + 3)) by lia. set (q := ((mb + 3) / 4)%N) in *.
  rewrite (N.mod_small (q * 4)) by lia.
  destruct (N.max_spec (q * 4) 64) as [[? ->]|[? ->]].
  - split_and!; [done|lia|lia|by left].
  - split_and!; [by apply N.Div0.mod_mul|lia|lia|right; lia].
Qed.

Lemma ext4_size_mb_bounds_witness :
  ext4_size_mb (2 ^ 30) = 1128%N ∧ (109 * 2 ^ 30 ≤ 100 * 2 ^ 20 * ext4_size_mb (2 ^ 30))%N.
Proof.
  split; [by vm_compute|]. by apply ext4_size_mb_bounds; vm_compute.
Defined.
