(* ===== verification/BuildGrpc.v ===== *)
(** * build-system: the build loop over its real parts

    Theorems on the orchestrator with the gRPC store client, and on the layer
    format. *)

From S2P Require Import Prelude RustStd AsyncIo StoreTypes Instances BuildTypes BuildHasher BuildOrchestrator Proto BuildImpl.

(** ** The gRPC client *)

Section Grpc.
Context {W : Type} `{BuildOs W, LayerStoreRpc W, Hasher, BuildEngine W, LayerFormat W, DockerfileParser W}.
Context `{Hex, Sha256} (scratch_dir dockerfile : rstr).

(** [C34] With the gRPC client no build can use a cached layer: when the store
    answers a hit for the input hash of a stage, and the stages before it were
    executed, the build fails, whatever the server, engine and format do.  On a
    hit the metadata is pulled to the empty path, which cannot be created. *)
Theorem grpc_hit_fails_build w graph w0 content w1 pre stage post acc u h u1 :
  (∀ w, ∃ e w', file_create (lit "") w = (Err e, w')) →
  parse dockerfile w = (Ok graph, w0) →
  fs_read dockerfile w0 = (Ok content, w1) →
  bg_stages graph = pre ++ stage :: post →
  for_each pre ((∅, ∅) : Results) (exec_stage scratch_dir dockerfile) w1 = (Ok acc, u) →
  grpc_resolve (stage_input_hash (fst acc) stage) u = (Ok (Some h), u1) →
  ∃ e w', build scratch_dir dockerfile w = (Err e, w').
Proof.
  intros Hempty Hparse Hread Hstages Hpre Hhit.
  destruct (exec_hit_fails scratch_dir dockerfile Hempty stage acc u h u1 Hhit) as (e & w' & Hfail).
  exists e, w'. unfold build, mbind, SM_bind. rewrite Hparse, Hread, Hstages, for_each_app, Hpre.
  cbn [for_each]. by rewrite Hfail.
Qed.
End Grpc.

(** ** A build with a hit *)

Section Demo.
Local Existing Instance ref_hex.
Local Instance grpc_sha : Sha256 := ref_sha256.

(** A host without failures, where a file needs a name. *)
Local Instance demo_os : BuildOs unit := {|
  fs_read _ := mret []; fs_len _ := mret 3%N; fs_create_dir_all _ := mret tt;
  fs_remove_dir_all _ := mret tt; fs_remove_file _ := mret tt; walkdir _ w := ([], w);
  file_reads _ _ := mret ([[x61]; [x62]], Ok tt);
  file_create p := if bool_decide (p = []) then throw (Error (lit "No such file or directory")) else mret tt;
  file_write_all _ _ := mret tt; file_flush _ := mret tt; cmd_status _ _ := mret true;
  clock_secs w := (1%Z, w); clock_millis w := (1%N, w); hostname := mret (lit "host");
  uuid_v4 w := (lit "id", w) |}.

(** A store that holds every layer and accepts every upload. *)
Local Instance demo_rpc : LayerStoreRpc unit := {|
  rpc_resolve_input_hash _ := mret (Some (lit "00")); rpc_pull_layer _ _ := mret [];
  rpc_publish_layer _ := mret (lit "h"); rpc_publish_manifest _ := mret (lit "m") |}.

Definition hit_stage : ParsedStage :=
  {| ps_name := lit "base"; ps_parent_name := None; ps_layer_name := lit "base";
     ps_order := 0; ps_instructions := [lit "FROM debian:12 AS base"] |}.
Definition hit_graph : BuildGraph :=
  {| bg_stages := [hit_stage];
     bg_release_meta := {| rs_layer_order := [lit "base"]; rs_workload_meta := ∅ |} |}.
Local Instance demo_parser : DockerfileParser unit := λ _, mret hit_graph.

Lemma grpc_hit_fails_build_witness :
  ∃ e, build (W := unit) (lit "/s") (lit "Dockerfile") tt = (Err e, tt).
Proof.
  destruct (grpc_hit_fails_build (W := unit) (lit "/s") (lit "Dockerfile") tt hit_graph tt [] tt
    [] hit_stage [] (∅, ∅) tt (mk_OutputHash (lit "00")) tt) as (e & [] & Hrun).
  - intros []. do 2 eexists. reflexivity.
  - reflexivity.
  - reflexivity.
  - reflexivity.
  - reflexivity.
  - vm_compute. reflexivity.
  - by exists e.
Defined.
End Demo.
