(* ===== verification/WireTheorems.v ===== *)
(** * build-system and fs-storage together

    The client of the build system talking to the server of the layer store:
    what a build publishes is what the store resolves and serves. *)

From S2P Require Import Prelude RustStd AsyncIo StoreTypes Crates Backend MemoryBackend LayerStore StoreLogic StoreBlobs StoreMeta StoreGc Instances StoreTheorems Proto Server ServerTheorems BuildTypes BuildHasher BuildOrchestrator BuildImpl.

#[local] Existing Instance loop_copy.
#[local] Existing Instance loop_copy_ok.

(** The connection between a build host [W] and a server over the backend [B]:
    each call runs the handler on the server's store, with an answer or a
    failure of the call; what is read of files does not touch the store.  This
    is a transport that loses, repeats and reorders nothing; one that breaks is
    the subject of [broken_upload_published]. *)
Class Connected (W B : Type) `{BuildOs W, LayerStoreRpc W, Crates, IoText, StorageBackend B} := {
  store_of : W → B;
  rpc_failure : RpcError → Failure;
  files_apart : ∀ path n w r w', file_reads path n w = (r, w') → store_of w' = store_of w;
  served_resolve : ∀ h w r b', serve_resolve_input_hash h (store_of w) = (r, b') →
    ∃ w', rpc_resolve_input_hash h w = (map_err rpc_failure r, w') ∧ store_of w' = b';
  served_pull : ∀ h f w r b', serve_pull_layer h f (store_of w) = (r, b') →
    ∃ w', rpc_pull_layer h f w = (map_err rpc_failure (chunks ← r; mret (map Ok chunks)), w') ∧ store_of w' = b';
  served_publish_layer : ∀ msgs w r b', serve_publish_layer (map (Ok ∘ Some) msgs) (store_of w) = (r, b') →
    ∃ w', rpc_publish_layer msgs w = (map_err rpc_failure r, w') ∧ store_of w' = b';
  served_publish_manifest : ∀ m w, ∃ now uuid r b',
    serve_publish_manifest now uuid m (store_of w) = (r, b') ∧
    ∃ w', rpc_publish_manifest m w = (map_err rpc_failure r, w') ∧ store_of w' = b';
}.

Lemma demux_upload deploy cache :
  demux (map (Ok ∘ Some) (map PDeployChunk deploy ++ map PCacheChunk cache)) = (deploy, cache).
Proof.
  induction deploy as [|c deploy IH]; cbn; [|by rewrite IH].
  induction cache as [|c cache IH]; cbn; [done|by rewrite IH].
Qed.

Section Wire.
Context {W B : Type} `{Connected W B, !CratesOk, !BackendOk B, !StoreKeys B}.

(** The metadata of a layer as the build writes it: hashes in hexadecimal. *)
Definition encoded (meta : LayerMetadata) (ih : StoreTypes.InputHash) (ch : ContentHash)
    (parent : option StoreTypes.InputHash) : Prop :=
  ld_input_hash meta = mk_InputHash (InputHash_to_string ih) ∧
  ld_output_hash meta = mk_OutputHash (ContentHash_to_string ch) ∧
  ld_parent_input_hash meta = mk_InputHash ∘ InputHash_to_string <$> parent.

Lemma zero_hash_ok : ∃ z, ContentHash_from_str ZERO_HASH = Ok z.
Proof.
  unfold ContentHash_from_str. change ZERO_HASH with (repeat 48%N (2 * 32)).
  rewrite hex_decode_zeros. by eexists.
Qed.

Lemma parent_accepted (parent : option StoreTypes.InputHash) :
  argument (transpose (InputHash_from_str <$> (InputHash_to_string <$> parent))) = Ok parent.
Proof. destruct parent as [p|]; [|done]. cbn. by rewrite InputHash_from_to_string. Qed.

Lemma encoded_accepted meta ih ch parent :
  encoded meta ih ch parent →
  ∃ m, layer_meta_of (layer_meta_message meta) = Ok m ∧ lm_input_hash m = ih ∧ lm_content_hash m = ch.
Proof.
  destruct meta as [i o p s c t v h]. intros (Hi & Ho & Hp). cbn in Hi, Ho, Hp. subst.
  destruct zero_hash_ok as [z Hz]. unfold layer_meta_of, layer_meta_message.
  cbn [pl_input_hash pl_content_hash pl_parent_input_hash pl_stage_definition_hash pl_dockerfile_hash
       ld_input_hash ld_output_hash ld_parent_input_hash input_text output_text].
  rewrite InputHash_from_to_string, !ContentHash_from_to_string, Hz.
  replace (input_text <$> (mk_InputHash ∘ InputHash_to_string <$> parent))
    with (InputHash_to_string <$> parent) by by destruct parent.
  cbn [argument map_err mbind result_bind]. rewrite parent_accepted. by eexists.
Qed.

(** One file as the client reads it, whatever the last read returned. *)
Lemma file_chunks_read path w chunks ending w' :
  file_reads path 65536 w = (Ok (chunks, ending), w') →
  file_chunks path w = (Ok chunks, w') ∧ store_of w' = store_of w.
Proof.
  intros Hr. split; [|by eapply files_apart]. unfold file_chunks, mbind, SM_bind, attempt. by rewrite Hr.
Qed.

(** [C18] What a build publishes is what the store serves, over a transport that
    delivers and on a backend whose calls do not fail.  When the client
    publishes the artifacts of a layer that is not in the store, with the
    hashes the build computes, the call succeeds; resolving the input hash then
    gives the output hash, and each artifact is served as the bytes the client
    read of its file. *)
Theorem wire_layer_roundtrip w v artifacts meta ih ch parent w1 w2 deploy cache e1 e2 :
  rep (store_of w) v → calm (store_of w) → encoded meta ih ch parent →
  (∀ f, sv_blobs v !! (ch, f) = None) →
  file_reads (la_deploy_artifact artifacts) 65536 w = (Ok (deploy, e1), w1) →
  file_reads (la_build_cache_artifact artifacts) 65536 w1 = (Ok (cache, e2), w2) →
  ∃ w3, grpc_publish_layer artifacts meta w = (Ok tt, w3) ∧
    (∃ w4, grpc_resolve (ld_input_hash meta) w3 = (Ok (Some (ld_output_hash meta)), w4)) ∧
    (∃ chunks w4, rpc_pull_layer (output_text (ld_output_hash meta)) FORMAT_DEPLOY w3
       = (Ok (map Ok chunks), w4) ∧ mjoin chunks = mjoin deploy) ∧
    (∃ chunks w4, rpc_pull_layer (output_text (ld_output_hash meta)) FORMAT_BUILD_CACHE w3
       = (Ok (map Ok chunks), w4) ∧ mjoin chunks = mjoin cache).
Proof.
  intros Hr Hc Henc Habs Hd Hk. destruct (encoded_accepted _ _ _ _ Henc) as (m & Hm & <- & <-).
  destruct Henc as (Hi & Ho & _).
  apply file_chunks_read in Hd as [Hd Hs1]. apply file_chunks_read in Hk as [Hk Hs2].
  set (rest := map (Ok ∘ Some) (map PDeployChunk deploy ++ map PCacheChunk cache) : list Msg).
  destruct (serve_upload (store_of w) v (layer_meta_message meta) m rest Hr Hc Hm Habs)
    as (b1 & Hrun & (b2 & Hres) & (dl & b3 & Hpd & Hdl) & (cl & b4 & Hpc & Hcl)).
  unfold rest in Hdl, Hcl. rewrite demux_upload in Hdl, Hcl. cbn [fst snd] in Hdl, Hcl.
  rewrite <- Hs1, <- Hs2 in Hrun.
  destruct (served_publish_layer (PMeta (layer_meta_message meta) :: map PDeployChunk deploy ++ map PCacheChunk cache)
    w2 _ _ Hrun) as (w3 & Hp & <-).
  exists w3. rewrite Hi, Ho. cbn [output_text]. split_and!.
  - unfold grpc_publish_layer, upload, mbind, SM_bind. rewrite Hd, Hk. cbn [mret SM_ret]. by rewrite Hp.
  - destruct (served_resolve _ _ _ _ Hres) as (w4 & Hq & _). exists w4.
    unfold grpc_resolve, mbind, SM_bind. cbn [input_text]. by rewrite Hq.
  - destruct (served_pull _ _ _ _ _ Hpd) as (w4 & Hq & _). by exists dl, w4.
  - destruct (served_pull _ _ _ _ _ Hpc) as (w4 & Hq & _). by exists cl, w4.
Qed.

Lemma empty_hash_rejected : ∃ e, InputHash_from_str (lit "") = Err e.
Proof.
  pose proof (hex_decode_encode []) as Hd. pose proof (hex_encode_length []) as Hl.
  destruct (hex_encode []) as [|c s] eqn:He; [|done]. unfold InputHash_from_str.
  change (lit "") with ([] : rstr). rewrite Hd. by eexists.
Qed.

(** The metadata a pull returns has no hashes, and no server accepts a
    manifest made of it: when a layer entry carries an empty input hash, the
    handler panics and stores nothing. *)
Theorem placeholder_manifest_panics (b : B) manifest l now uuid dh :
  l ∈ rl_layers manifest → mf_input_hash l = mk_InputHash [] →
  bd_dockerfile_hash (rl_build_metadata manifest) = ContentHash_to_string dh →
  ∃ msg, serve_publish_manifest now uuid (Some (manifest_message manifest)) b
         = (Err (RPanic msg), b).
Proof.
  intros Hl Hi Hd.
  assert (is_panic (mapM manifest_layer_of (prm_layers (manifest_message manifest)))) as [msg Hp].
  { apply layers_panic, Exists_exists. cbn [manifest_message prm_layers]. eexists.
    split; [by apply (list_elem_of_fmap_2 _ _ _ Hl)|]. left. cbn. rewrite Hi. apply empty_hash_rejected. }
  exists msg. unfold serve_publish_manifest, mbind, SM_bind, lift. cbn [ok_or].
  unfold manifest_of_message. cbn [manifest_message prm_build_metadata ok_or].
  cbn [mbind result_bind pbm_dockerfile_hash]. rewrite Hd, ContentHash_from_to_string.
  cbn [argument map_err mbind result_bind]. change (prm_layers _) with (prm_layers (manifest_message manifest)).
  by rewrite Hp.
Qed.
End Wire.

(** ** A host and a server over the in-memory backend *)

Section Demo.
Import StoreTheorems.Demo.
Local Existing Instances ref_crates ref_crates_ok.
Local Instance wire_io : IoText := λ _, lit "io".

Definition panic_status (e : RpcError) : Failure :=
  match e with RStatus s => Error (sta_message s) | RPanic _ => Error (lit "transport error") end.

Local Instance wire_os : BuildOs InMemoryBackend := {|
  fs_read _ := mret []; fs_len _ := mret 3%N; fs_create_dir_all _ := mret tt;
  fs_remove_dir_all _ := mret tt; fs_remove_file _ := mret tt; walkdir _ w := ([], w);
  file_reads p _ := mret ([p ≫= λ c, [byte_of_N c]; [x62]], Ok tt);
  file_create _ := mret tt; file_write_all _ _ := mret tt; file_flush _ := mret tt;
  cmd_status _ _ := mret true; clock_secs w := (1%Z, w); clock_millis w := (1%N, w);
  hostname := mret (lit "host"); uuid_v4 w := (lit "id", w) |}.

Local Instance wire_rpc : LayerStoreRpc InMemoryBackend := {|
  rpc_resolve_input_hash h := SM_map_err panic_status (serve_resolve_input_hash h);
  rpc_pull_layer h f := SM_map_err panic_status (chunks ← serve_pull_layer h f; mret (map Ok chunks));
  rpc_publish_layer msgs := SM_map_err panic_status (serve_publish_layer (map (Ok ∘ Some) msgs));
  rpc_publish_manifest m := SM_map_err panic_status (serve_publish_manifest 1000 (lit "u-1") m) |}.

Local Instance wire_connected : Connected InMemoryBackend InMemoryBackend.
Proof.
  refine {| store_of w := w; rpc_failure := panic_status |}.
  - by intros path n w r w' [= <- <-].
  - intros h w r b' Hr. exists b'. cbn. unfold SM_map_err. by rewrite Hr.
  - intros h f w r b' Hr. exists b'. cbn. unfold SM_map_err, mbind, SM_bind. rewrite Hr. by destruct r.
  - intros msgs w r b' Hr. exists b'. cbn. unfold SM_map_err. by rewrite Hr.
  - intros m w. destruct (serve_publish_manifest 1000 (lit "u-1") m w) as [r b'] eqn:Hr.
    exists 1000%N, (lit "u-1"), r, b'. split; [done|]. exists b'. cbn. unfold SM_map_err. by rewrite Hr.
Defined.

Definition wire_meta : LayerMetadata :=
  {| ld_input_hash := mk_InputHash (InputHash_to_string ih1);
     ld_output_hash := mk_OutputHash (ContentHash_to_string ch1);
     ld_parent_input_hash := None; ld_size_bytes := 10; ld_size_compressed_bytes := 5;
     ld_build_timestamp := 1; ld_builder_version := CARGO_PKG_VERSION; ld_build_host := lit "host" |}.
Definition wire_artifacts : LayerArtifacts :=
  {| la_deploy_artifact := lit "d"; la_build_cache_artifact := lit "c"; la_output_hash := ld_output_hash wire_meta |}.

Lemma wire_layer_roundtrip_witness :
  ∃ w3 : InMemoryBackend, grpc_publish_layer wire_artifacts wire_meta InMemoryBackend_new = (Ok tt, w3) ∧
    ∃ w4, grpc_resolve (ld_input_hash wire_meta) w3 = (Ok (Some (ld_output_hash wire_meta)), w4).
Proof.
  destruct (wire_layer_roundtrip (B := InMemoryBackend) InMemoryBackend_new (mk_view ∅ ∅) wire_artifacts wire_meta ih1 ch1 None
    InMemoryBackend_new InMemoryBackend_new [[x64]; [x62]] [[x63]; [x62]] (Ok tt) (Ok tt))
    as (w3 & Hp & Hres & _); try (done || exact I).
  exists w3. split; [exact Hp|exact Hres].
Defined.

Definition wire_manifest : ReleaseManifest :=
  {| rl_schema_version := lit "1.0"; rl_manifest_id := lit "id";
     rl_build_metadata := {| bd_dockerfile_hash := ContentHash_to_string ch1; bd_build_timestamp := 1;
                             bd_builder_version := CARGO_PKG_VERSION; bd_build_host := lit "host" |};
     rl_layers := [manifest_layer 0 (lit "base")
       {| ld_input_hash := mk_InputHash []; ld_output_hash := ld_output_hash wire_meta;
          ld_parent_input_hash := None; ld_size_bytes := 0; ld_size_compressed_bytes := 0;
          ld_build_timestamp := 0; ld_builder_version := []; ld_build_host := [] |}];
     rl_workload_metadata := ∅ |}.

Lemma placeholder_manifest_panics_witness :
  ∃ msg, serve_publish_manifest 1000 (lit "u-1") (Some (manifest_message wire_manifest)) InMemoryBackend_new
         = (Err (RPanic msg), InMemoryBackend_new).
Proof.
  eapply (placeholder_manifest_panics InMemoryBackend_new wire_manifest);
    [left|reflexivity|reflexivity].
Defined.
End Demo.
