(* ===== verification/BuildCli.v ===== *)
(** * build-system: the command line (src/build-system/src/main.rs)

    [steel-build] connects to the store, puts the system together from the
    real parser, hasher, engine, format and client, and runs one command.
    Argument parsing is clap's; the state is the outside world and the lines
    printed. *)

From S2P Require Import Prelude RustStd AsyncIo StoreTypes Instances BuildTypes BuildHasher BuildParser BuildOrchestrator Proto BuildImpl BuildGrpc.

Inductive Commands :=
| Build (file : rstr)
| Tag (manifest_hash tag_name : rstr)
| ListTags
| Diff (a b : rstr)
| Gc.

Record Cli := { cli_command : Commands; cli_store_url : rstr }.
Definition default_store_url : rstr := lit "http://[::1]:50051".

(** [BuildOrchestrator::new]: the scratch directory of this process. *)
Definition scratch_dir_of (temp_dir : rstr) (pid : N) : rstr :=
  join temp_dir (lit "microvisor-build-" ++ dec pid).

Section Cli.
Context {W : Type} `{BuildOs W, LayerStoreRpc W, Hex, Sha256}.
(** [std::env::temp_dir()] and [std::process::id()]; [LayerStoreServiceClient::connect]. *)
Context (temp_dir : rstr) (pid : N) (connect : rstr → SM W Failure unit).
Local Abbreviation M := (SM (W * list rstr) Failure).

Definition outside {A} (m : SM W Failure A) : M A := λ '(w, out), let '(r, w') := m w in (r, (w', out)).
Definition println (line : rstr) : M unit := λ '(w, out), (Ok tt, (w, out ++ [line])).

(** [BuildSystem::build]. *)
Definition BuildSystem_build (dockerfile : rstr) : SM W Failure ReleaseManifest :=
  build (scratch_dir_of temp_dir pid) dockerfile.

Definition main (cli : Cli) : M unit :=
  _ ← outside (connect (cli_store_url cli));
  match cli_command cli with
  | Build file =>
      manifest ← outside (BuildSystem_build file);
      _ ← println (lit "Build successful!");
      _ ← println (lit "Manifest ID: " ++ rl_manifest_id manifest);
      println (lit "Layers: " ++ dec (N.of_nat (length (rl_layers manifest))))
  | Tag manifest_hash tag_name =>
      println (lit "Tagging " ++ manifest_hash ++ lit " as " ++ tag_name ++ lit " (not fully implemented in CLI)")
  | ListTags => println (lit "Listing tags (not fully implemented in CLI)")
  | Diff a b => println (lit "Diffing " ++ a ++ lit " and " ++ b ++ lit " (not fully implemented in CLI)")
  | Gc => println (lit "Running GC (not fully implemented in CLI)")
  end.

(** Success is reported for a build that succeeded, with what it published. *)
Theorem cli_build_reports file url w out w' out' :
  main {| cli_command := Build file; cli_store_url := url |} (w, out) = (Ok tt, (w', out')) →
  ∃ w1 manifest, connect url w = (Ok tt, w1) ∧
    build (scratch_dir_of temp_dir pid) file w1 = (Ok manifest, w') ∧
    out' = out ++ [lit "Build successful!"; lit "Manifest ID: " ++ rl_manifest_id manifest;
                   lit "Layers: " ++ dec (N.of_nat (length (rl_layers manifest)))].
Proof.
  intros Hrun. unfold main in Hrun. apply bind_ok in Hrun as ([] & [w1 o1] & Hc & Hrun). cbn in Hc, Hrun.
  destruct (connect url w) as [r0 w0]. injection Hc as -> -> <-.
  apply bind_ok in Hrun as (manifest & [w2 o2] & Hb & Hrun). cbn in Hb.
  unfold BuildSystem_build in Hb. destruct (build _ file w1) as [r3 w3] eqn:Hbuild. injection Hb as -> -> <-.
  do 2 (apply bind_ok in Hrun as (? & [? ?] & [= _ <- <-] & Hrun)). injection Hrun as <- <-.
  exists w1, manifest. split; [done|]. split; [done|]. by rewrite <- !app_assoc.
Qed.

(** The other commands do not do what they are for: whatever the store
    holds, [tag], [list-tags], [diff] and [gc] make no call beyond connecting,
    print one line and succeed. *)
Theorem cli_stubs_do_nothing command url w w1 out :
  (∀ file, command ≠ Build file) → connect url w = (Ok tt, w1) →
  ∃ line, main {| cli_command := command; cli_store_url := url |} (w, out) = (Ok tt, (w1, out ++ [line])).
Proof.
  intros Hcmd Hc. unfold main. rewrite (bind_run _ _ _ (Ok tt) (w1, out)) by (cbn; by rewrite Hc).
  destruct command; [by destruct (Hcmd file)|..]; by eexists.
Qed.
End Cli.

(** ** Runs *)

Module CliDemo.
#[local] Existing Instances ref_hex grpc_sha demo_rpc.
(** A host with a Dockerfile, and a store that accepts connections. *)
Definition dockerfile_text : rstr :=
  lit "FROM debian:12 AS base" ++ [10%N] ++ lit "LABEL steel.layer=base" ++ [10%N] ++
  lit "LABEL steel.release=true" ++ [10%N] ++ lit "LABEL steel.release.layers=base".
#[local] Instance cli_os : BuildOs unit := {|
  fs_read _ := mret (as_bytes dockerfile_text); fs_len _ := mret 3%N; fs_create_dir_all _ := mret tt;
  fs_remove_dir_all _ := mret tt; fs_remove_file _ := mret tt; walkdir _ w := ([], w);
  file_reads _ _ := mret ([[x61]; [x62]], Ok tt); file_create _ := mret tt;
  file_write_all _ _ := mret tt; file_flush _ := mret tt; cmd_status _ _ := mret true;
  clock_secs w := (1%Z, w); clock_millis w := (1%N, w); hostname := mret (lit "host"); uuid_v4 w := (lit "id", w) |}.
Definition connected : rstr → SM unit Failure unit := λ _, mret tt.
Definition steel_build (command : Commands) : result Failure unit * (unit * list rstr) :=
  main (lit "/tmp") 42 connected {| cli_command := command; cli_store_url := default_store_url |} (tt, []).

Lemma cli_build_reports_witness :
  ∃ manifest, snd (snd (steel_build (Build (lit "Dockerfile")))) =
    [lit "Build successful!"; lit "Manifest ID: " ++ rl_manifest_id manifest;
     lit "Layers: " ++ dec (N.of_nat (length (rl_layers manifest)))].
Proof.
  destruct (cli_build_reports (lit "/tmp") 42 connected (lit "Dockerfile") default_store_url tt [] tt
    (snd (snd (steel_build (Build (lit "Dockerfile")))))) as (w1 & manifest & _ & _ & Hout).
  - vm_compute. reflexivity.
  - exists manifest. exact Hout.
Defined.

Lemma cli_stubs_do_nothing_witness : ∃ line, steel_build Gc = (Ok tt, (tt, [line])).
Proof.
  exact (cli_stubs_do_nothing (lit "/tmp") 42 connected Gc default_store_url tt tt [] ltac:(discriminate) eq_refl).
Defined.
End CliDemo.
